(* ===== verification/_CoqProject ===== *)
-Q . S2P
Prelude.v
JsNum.v
Doubles.v
Json.v
Text.v
View.v
Ui.v
Shortcuts.v
Rng.v
Orbit.v
Types.v
Seed.v
Store.v
Stream.v
Watchfloor.v
Session.v
Chrome.v
Shell.v
Response.v
Timeline.v
Widgets.v
WatchfloorView.v
Merkle.v
Graph.v
Layout.v
Quadtree.v
Canvas.v
Pointing.v
Webgl.v
Kernel.v
Policy.v
Ledger.v
Wire.v
Bridge.v
Verify.v
LedgerView.v
Drift.v
DriftView.v
Pages.v
TriageGate.v
Frames.v
Gates.v
TriageLegs.v
CanvasGate.v
LedgerGate.v
Sweep.v
Cbor.v
Vault.v
Epoch.v
Manifest.v
KernelTools.v
