(* ===== verification/Prelude.v ===== *)
(** * ATTESTA operator console: a verification development

    ATTESTA is a security-operations console whose verdicts can be recomputed by
    the person who reads them.  The program of this development is the console,
    web/src: a Next.js application with an in-memory server (lib/data, app/api),
    a browser half that checks what the server sealed (lib/kernel and the
    verdict-ledger components), and the operator's surfaces (components).  The
    scoring kernel the console loads as a WASM module is written in Rust
    (kernel/src, kernel/wasm_bridge) and is modelled with it, and so are the
    evidence ledger (ledger, in Go, with the verifier in Rust beside it) and the
    programs that check the console (eval/ui) and the kernel.  Paths in this
    development are relative to web/src unless they start with another directory
    of the repository.

    ** The parts and where they are

    Foundations, which model the language and its platform:
    - Prelude: outcomes ([Ok], [Throw]) and the state/error monad [M], the lemmas
      on lists, sorting and sums the other files share;
    - JsNum, Doubles: 32-bit operators, binary64 rounding [fl] on rationals and
      the facts that make computations with it provable;
    - Json, Text: [JSON.stringify]/[JSON.parse], base64url, UTF-8, [trim], [split];
    - View: the forest of elements a component renders ([view]), and what "the
      view shows" means ([look], [grid_ok]);
    - Ui (components/ui): the wrappers around third-party primitives, each with its
      part, slot name, own attributes and children.

    The server's data:
    - Rng (lib/data/rng.ts), Types (types.ts), Seed (seed.ts): the generator and
      the corpus drawn from it, draw by draw, in the source's order; Orbit: the states
      of the generator that lead to its top word, by linearity and injectivity;
    - Store (store.ts and the routes over it): cases, response actions, and the
      live tick; [tick] and the decision routes are computations over the record
      [Store];
    - Graph (graph.ts, api/graph): evidence graphs with their Merkle trees, in a
      cache that is an explicit [gmap];
    - Policy (policy.ts), Ledger (ledger.ts, api/ledger): the policy bundle, the
      claims, and the sealed, hash-chained manifests;
    - Drift (drift.ts): the sweep that re-adjudicates them under a repriced policy.

    The verifier:
    - Merkle (lib/kernel/merkle.ts, beside ledger/merkle.go);
    - Kernel (kernel/src/{canon,claim,tactic,policy,verdict,lib}.rs, the bridge,
      and lib/kernel/kernel-wasm{,-server}.ts): canonical encoding, claim ids,
      scoring with saturating 64-bit arithmetic, verdict and verdict hash;
    - Wire, Bridge (the same two loaders and wasm_bridge/src/lib.rs): the request and
      the response as JSON text, and the call through linear memory with its
      allocations, the result buffer and the cached instance; what Kernel's
      [verifyClaimSet] abstracts from;
    - Verify (verification-panel.tsx): the run behind the two buttons, over a
      network [Net] that may answer anything.

    The surfaces:
    - Session (lib/auth, middleware.ts, login, the console layout): the signed
      cookie, and what each request is answered;
    - Shortcuts, Chrome: the surfaces, the palette, the key handler with chords;
    - Shell (app/layout.tsx, app/(console)/layout.tsx, the providers): the document
      around a surface, down to the elements of Ui, and what a closed dialog leaves;
    - Stream (use-case-stream.ts, api/cases/stream), Watchfloor, WatchfloorView:
      the live feed, the queue with its filters, overrides and keys, the table;
    - Layout, Quadtree, Canvas (investigation-canvas): the picture of a graph,
      hit-testing, the viewport, selection and replay; Pointing: from a node to its
      pixel and back; Webgl: the effect that draws, its shaders and its buffers;
    - LedgerView, DriftView, Response, Timeline, Widgets, Pages: the remaining
      screens and the parts they are made of.

    The gates of eval/ui, as far as they compute and judge, run on the models of the
    surfaces: Sweep (gate.mjs); TriageGate, Gates and TriageLegs (triage-flow.mjs, from
    the keyboard leg to the exit code); Pointing, Gates and CanvasGate
    (investigation-canvas-flow.mjs); Frames (the frame rates of both canvas and
    queue); LedgerGate (verdict-ledger-flow.mjs).

    The evidence ledger and the kernel's tools:
    - Cbor (ledger/{cbor,hash,errors}.go and ledger/verify/src/{cbor,hash}.rs): the
      canonical encoding and the identifiers, in both languages;
    - Vault (ledger/store.go): the append-only store with redaction, any interleaving
      of whose callers is a list of calls;
    - Epoch (ledger/{merkle,epoch}.go, ledger/verify/src/merkle.rs): trees and proofs
      over raw identifiers, sealed batches, signed and chained epochs;
    - Manifest (ledger/manifest.go): sealed investigation manifests;
    - KernelTools (kernel/src/{blast_radius,fixtures}.rs, kernel/src/bin,
      kernel/wasm_cross_check.mjs): risk tiers, the command line, and the comparison
      of the native kernel with its WASM build.

    They interact by calls, by shared state and by messages.  The routes of Store
    emit the events that Stream folds into the browser's copy of the cases, which
    Watchfloor filters; Ledger calls Merkle and Kernel to seal, and Verify calls
    the same two on what the network returned; LedgerView keys a panel of Verify by
    the selected manifest; Canvas draws what Graph serves through Layout and
    Quadtree; Chrome's and Watchfloor's key handlers both listen to the window.

    ** How state and operations are modelled

    The server's singletons (the store, the graph cache, the generator's 32-bit
    word) are explicit states of [M]: an operation is a function from the state
    and [Date.now()] to the new state and an outcome.  React state is a record per
    component and each event handler a function on it; where order matters (the
    verdict-ledger page, navigation through the middleware, the chrome) there is a
    step relation with reachability, and invariants by rule induction.  A
    component's rendering is a function to [view]; class names, inline style,
    icons and animation are left out, and everything a user or assistive
    technology can act on or read (text, roles, states, test ids, disabled
    buttons) is kept.

    A TypeScript [Map] or object used as one is a [gmap] (insertion order, where
    the program iterates, is kept in a list beside it); an array is a list, and an
    out-of-range read is [Undefined] or [None] as the program goes on.  Integers
    are [Z] with the wrap-around or saturation of their operators; fractional
    numbers are rationals rounded by [fl].  A string is a [string]; in Merkle, Kernel, Wire, Bridge and
    Watchfloor its characters are code units below 256, in Json, Text and Session
    they are the bytes of its UTF-8.  On ASCII, which is all the program's own
    data, the two agree.

    Code outside the repository is a parameter: BLAKE3 ([blake3], with the law
    that results have 32 bytes, and, in the theorems that need it, the absence of
    the particular collisions a statement names), HMAC-SHA256 ([hmac]), [Math.pow]
    and [Math.hypot], whose last digits the language leaves open, locale-dependent
    texts, the network, what the table library shows ([Table] with the laws
    [TableLaws] its documentation states), the portal of the dialog library
    ([PortalLaws]), Rust's allocator ([Host], [HostLaws]) and
    Ed25519 ([Sign], [Verify] and the public half of a key).  Each theorem with such a parameter has
    a witness at a concrete instance.

    ** What the theorems show

    - Evidence: a proof that verifies is for an id in the tree, as long as no two
      of the messages hashed on the way collide (Merkle); every id of a tree has a proof that verifies, and the
      proofs the graph and ledger routes serve do; the console's root is the Go
      ledger's exactly when the tree is full.
    - Verdicts: the calls through memory and JSON compute the kernel, touch only
      memory they own and leave nothing behind (Bridge); the canonical encoding identifies a claim, a verdict does not
      depend on the order of the claims, and its score is the stated sum (Kernel);
      the chain of manifests links by hash except where it is broken on purpose
      (Ledger).
    - Verification: an honest manifest is sealed, a tampered claim is detected, a
      seal means that the recomputation agreed, and in every reachable state of the
      page the banner is about the selected manifest (Verify, LedgerView); what it
      does not mean is stated too ([fabricated_evidence_verifies]).  Page, server and
      kernel together pass the ledger gate (LedgerGate).
    - Drift: a row is exactly a manifest whose verdict changes, and the sweep ends
      with all of them, latest first (Drift).
    - Data: generators stay in their ranges and produce well-formed cases, graphs
      and ledgers (Rng, Seed, Graph); the store's invariant holds in every reachable
      state and each live tick returns and refines its specification, whatever is
      drawn, because the states that would draw the top word where it matters are
      known and begin another kind of tick (Orbit, Store); the decision endpoint on
      every branch (Store).
    - The feed: one consumer's copy is the store's, and a second consumer's is not
      (Stream).
    - The operator: the queue's keys and dismissals, its filter counts, its
      accessible grid (Watchfloor, WatchfloorView); what a click on the canvas
      selects, since the quadtree answers as a scan does but for the far edges of a query, that the pixel a node is
      drawn at selects it (Pointing), that what the GPU draws is centred there to a 64th
      of a pixel, nodes above the lines and the selected one above all, with no
      buffer used after it is destroyed and none left behind (Webgl), a layout without overlaps, a viewport that
      stays in its limits, a replay that plays to its end (Canvas, Quadtree, Layout); a decision only on a blast radius that was shown
      (Response); times and pixels in their bands, and when the track does not reach its last marker (Timeline); surfaces and roles
      the same wherever they are listed (Chrome), in a document whose skip link has
      its target (Shell).
    - The gates: what the keyboard leg, the blast-radius log, the frame rates and the
      surface sweep conclude of the console, when a leg fails without a fault of the
      console, how often the approval leg can pass on one server, and which check
      cannot fail (TriageGate, Gates, Frames, TriageLegs, CanvasGate, Sweep).
    - The ledger: an identifier stands for the content of an event, whatever order a
      Go map is walked in, and the Rust encoder agrees with the Go one on every value
      (Cbor); the store answers as its history says, and a redaction is for ever
      (Vault); an epoch holds its batches' evidence and nothing else, the last chain
      hash commits the whole chain, and the console verifies none of the ledger's
      proofs, because it hashes the text of an identifier (Epoch); a seal binds every
      field of a manifest (Manifest).
    - The kernel's tools: the cross check passes exactly when the two builds agree on
      every scenario, the command line is the bridge with an exit code, and a wider
      action never has a lower risk tier (KernelTools).
    - Access: a token round trips, a signed token cannot be edited, where each
      navigation ends (with a cookie that does not verify, nowhere), where a
      sign-in lands, and who reaches which page (Session).

    ** Bounds and fuel

    Recursion that is not structural takes fuel that is proved enough, never
    assumed: [Quadtree.insert] takes [MAX_DEPTH + 1], since a node at [MAX_DEPTH]
    does not split; the JSON parser takes the length of the text, and
    [parse_stringify] shows that it reads back every printed value; a Merkle tree
    halves its level at each step, so that the number of leaves is enough levels;
    an integer has at most [log2 + 1] digits; a navigation ([follow]) takes the
    number of requests that [navigation_settles] states, or is shown to end after
    no number of them.  Where a theorem bounds a size (2^20 nodes on the canvas,
    2^39 for the corners of a quadtree, 2^53 draws, 2^32 bytes of a canonical
    text) the bound is what keeps a double exact or a length prefix unambiguous,
    and the program's own data is far below it.  The pixel round trip of Pointing
    takes zooms from 1/64 to the program's limit of 8, pixel ratios from 1/8 to 8,
    pages of 16384 pixels and a middle within 2^38: there the rounding of its ten
    operations adds up to less than 1/256 of a world unit.

    ** Not modelled, and why

    - WebGL itself, below graph-canvas.tsx's shaders: the GPU's own arithmetic is
      taken as exact and which pixels a line covers is a parameter (Webgl).
    - The third-party primitives under components/ui, fonts, class names, and what
      the theme and query providers do with the settings they are given.
    - React's scheduler, the query library's retries, the DOM: events arrive one at
      a time, and updates apply in the order they were queued.
    - WebAssembly itself: memory has no end in the model, addresses are not signed,
      and running out of memory is not an outcome.  serde's error texts are a
      parameter, and a text of code points above 255 has no bytes.
    - Promises that never settle and timers that are cancelled by the browser.
    - Of eval/ui: launching a browser, the waits themselves, writing pictures, the
      download of the ledger gate.
    - The evidence ledger's command lines (ledger/cmd), which wrap the modelled
      functions in Go's own JSON; the other Go and Python services (detect, ingest,
      agent, services): other programs, which the console does not call in this
      repository. *)

From stdpp Require Export base option list sorting strings gmap.
From Stdlib Require Export ZArith Lia.

(** ** Outcomes and the state/error monad *)

Declare Scope js_scope.
Delimit Scope js_scope with js.

(** What a call can end with: a value, or a thrown error.  [Undefined] marks a
    run that reads past the end of an array and would go on with the value
    [undefined]; the model stops there instead of following it. *)
Inductive js_error :=
| TypeError
| RangeError
| Undefined
| JsError (msg : string).

Inductive outcome (A : Type) :=
| Ok (a : A)
| Throw (e : js_error).
Arguments Ok {A} a.
Arguments Throw {A} e.

#[export] Instance js_error_eq_dec : EqDecision js_error.
Proof. solve_decision. Defined.

#[export] Instance outcome_eq_dec {A} `{EqDecision A} : EqDecision (outcome A).
Proof. solve_decision. Defined.

#[export] Instance outcome_ret : MRet outcome := fun A a => Ok a.
#[export] Instance outcome_bind : MBind outcome :=
  fun A B k m => match m with Ok a => k a | Throw e => Throw e end.
#[export] Instance outcome_fmap : FMap outcome :=
  fun A B f m => match m with Ok a => Ok (f a) | Throw e => Throw e end.

(** A computation over a state [S] that may throw; the state is the one at the
    moment of the throw. *)
Definition M (S A : Type) : Type := S → S * outcome A.

#[export] Instance M_ret {S} : MRet (M S) := fun A a s => (s, Ok a).
#[export] Instance M_bind {S} : MBind (M S) :=
  fun A B k m s => match m s with
                   | (s', Ok a) => k a s'
                   | (s', Throw e) => (s', Throw e)
                   end.
#[export] Instance M_fmap {S} : FMap (M S) :=
  fun A B f m s => match m s with
                   | (s', Ok a) => (s', Ok (f a))
                   | (s', Throw e) => (s', Throw e)
                   end.

Definition throw {S A} (e : js_error) : M S A := fun s => (s, Throw e).

(** [xs[i]] where the source goes on to use the element. *)
Definition or_throw {A} (e : js_error) (o : option A) : outcome A :=
  match o with Some a => Ok a | None => Throw e end.

Definition lift {S A} (o : outcome A) : M S A := fun s => (s, o).

(** Run a computation on a component of a larger state. *)
Definition zoom {S T A} (get : T → S) (put : S → T → T) (m : M S A) : M T A :=
  fun t => let '(s, r) := m (get t) in (put s t, r).

(** [Array.from({ length: n }, () => m)]. *)
Fixpoint repeatM {S A} (n : nat) (m : M S A) : M S (list A) :=
  match n with
  | O => mret []
  | S n' => x ← m; xs ← repeatM n' m; mret (x :: xs)
  end.

(** A [for] loop over a list, threading an accumulator. *)
Fixpoint foldM {S A B} (f : B → A → M S B) (b : B) (l : list A) : M S B :=
  match l with
  | [] => mret b
  | a :: l' => b' ← f b a; foldM f b' l'
  end.

Fixpoint mapM_out {A B} (f : A → outcome B) (l : list A) : outcome (list B) :=
  match l with
  | [] => Ok []
  | a :: l' => b ← f a; bs ← mapM_out f l'; Ok (b :: bs)
  end.

(** ** Arrays *)

(** [Array.prototype.indexOf] with [-1] as [None]. *)
Fixpoint index_of {A} `{EqDecision A} (x : A) (l : list A) : option nat :=
  match l with
  | [] => None
  | y :: l' => if decide (y = x) then Some O else S <$> index_of x l'
  end.

(** [l[i]]: [None] is [undefined]; a negative index is never an element. *)
Definition at_index {A} (l : list A) (i : Z) : option A :=
  if (i <? 0)%Z then None else l !! Z.to_nat i.

(** [Array.from(new Set(xs))]: first occurrences, in order. *)
Fixpoint uniq_from {A} `{EqDecision A} (seen : list A) (l : list A) : list A :=
  match l with
  | [] => []
  | x :: l' => if decide (x ∈ seen) then uniq_from seen l' else x :: uniq_from (x :: seen) l'
  end.
Definition uniq {A} `{EqDecision A} (l : list A) : list A := uniq_from [] l.

(** [Array.prototype.sort], which is stable: [leb x y] is [cmp(x, y) <= 0]. *)
Fixpoint insert_by {A} (leb : A → A → bool) (x : A) (l : list A) : list A :=
  match l with
  | [] => [x]
  | y :: l' => if leb x y then x :: l else y :: insert_by leb x l'
  end.
Definition sort_by {A} (leb : A → A → bool) (l : list A) : list A :=
  foldr (insert_by leb) [] l.

(** ** Insertion-ordered maps: the JS [Map] where its iteration order shows *)

Section omap.
Context {V : Type}.

Fixpoint omap_get (k : string) (m : list (string * V)) : option V :=
  match m with
  | [] => None
  | (k', v) :: m' => if decide (k' = k) then Some v else omap_get k m'
  end.

Fixpoint omap_set (k : string) (v : V) (m : list (string * V)) : list (string * V) :=
  match m with
  | [] => [(k, v)]
  | (k', v') :: m' => if decide (k' = k) then (k', v) :: m' else (k', v') :: omap_set k v m'
  end.

Definition omap_values (m : list (string * V)) : list V := m.*2.

Lemma omap_get_set_eq k v m : omap_get k (omap_set k v m) = Some v.
Proof.
  induction m as [|[k' v'] m IH]; simpl; [by rewrite decide_True|].
  destruct (decide (k' = k)) as [->|]; simpl; [by rewrite decide_True|by rewrite decide_False].
Qed.

Lemma omap_get_set_ne k k' v m : k ≠ k' → omap_get k' (omap_set k v m) = omap_get k' m.
Proof.
  intros Hne. induction m as [|[k0 v0] m IH]; simpl; [by rewrite decide_False|].
  destruct (decide (k0 = k)) as [->|]; simpl.
  - by rewrite !decide_False.
  - destruct (decide (k0 = k')); [done|apply IH].
Qed.

Lemma omap_set_keys k v m : is_Some (omap_get k m) → (omap_set k v m).*1 = m.*1.
Proof.
  induction m as [|[k' v'] m IH]; simpl; [by intros []|].
  case_decide; intros Hs; csimpl; [done|]. f_equal. by apply IH.
Qed.

End omap.

(** ** Shared tactics *)

Create HintDb attesta.
Create Rewrite HintDb js.
#[export] Hint Rewrite @length_fmap @length_app @length_cons @length_rev @length_take : js.

(** Case analysis on the first [match] or [if] of the goal or a hypothesis. *)
Ltac dmatch :=
  match goal with
  | |- context [match ?x with _ => _ end] => let E := fresh "E" in destruct x eqn:E
  end.
Ltac dmatch_in H :=
  match type of H with
  | context [match ?x with _ => _ end] => let E := fresh "E" in destruct x eqn:E
  end.

(** Invert one step of a monadic run that is known to end in [Ok]. *)
Ltac run_inv H :=
  repeat first
    [ progress simplify_eq/=
    | match type of H with
      | context [mbind _ _ _] => unfold mbind, M_bind in H
      | context [mret _ _] => unfold mret, M_ret in H
      end
    | dmatch_in H ].

(** Arithmetic with quotients and remainders. *)
Ltac dlia := Z.div_mod_to_equations; lia.
Ltac dnia := Z.div_mod_to_equations; nia.

(** ** Generic lemmas *)

Lemma append_empty_r (s : string) : s +:+ EmptyString = s.
Proof. induction s as [|c s IH]; [done|]. change (String c (s +:+ EmptyString) = String c s). by rewrite IH. Qed.

Lemma filter_fmap {A B} (f : A → B) (P : B → Prop) `{∀ x, Decision (P x)} (l : list A) :
  filter P (f <$> l) = f <$> filter (fun x => P (f x)) l.
Proof.
  induction l as [|x l IH]; [done|]. rewrite fmap_cons, !filter_cons, IH. by case_decide.
Qed.

(** One step of a run whose first part is known. *)
Lemma bind_Ok {S A B} (m : M S A) (k : A → M S B) s s' a :
  m s = (s', Ok a) → (m ≫= k) s = k a s'.
Proof. intros H. unfold mbind, M_bind. by rewrite H. Qed.

Lemma bind_Throw {S A B} (m : M S A) (k : A → M S B) s s' e :
  m s = (s', Throw e) → (m ≫= k) s = (s', Throw e).
Proof. intros H. unfold mbind, M_bind. by rewrite H. Qed.

(** A run of a sequence, taken apart. *)
Lemma bind_inv {S A B} (m : M S A) (k : A → M S B) s r :
  (m ≫= k) s = r →
  (∃ s' a, m s = (s', Ok a) ∧ k a s' = r) ∨ (∃ s' e, m s = (s', Throw e) ∧ r = (s', Throw e)).
Proof. unfold mbind, M_bind. destruct (m s) as [s' [a|e]] eqn:E; eauto 10. Qed.

(** Take the next step of a run that returned: its value [x], by [E]. *)
Ltac take_step H x E :=
  let st := fresh "st" in let x0 := fresh "a" in let H0 := fresh "Hs" in let E0 := fresh "He" in
  apply bind_inv in H as [(st & x0 & E0 & H0)|(? & ? & _ & [=])];
  rename x0 into x; rename E0 into E; rename H0 into H.

Lemma lift_inv {S A} (o : outcome A) (s s' : S) r : lift o s = (s', r) → s' = s ∧ o = r.
Proof. unfold lift. intros Heq. by injection Heq. Qed.

(** An invariant of a [foldM] that returns, on the elements it has gone through. *)
Lemma foldM_prefix {S A B} (f : B → A → M S B) (P : list A → B → Prop) l seen b s s' b' :
  P seen b →
  (∀ seen' a rest b s s' b', seen ++ l = seen' ++ a :: rest → P seen' b →
     f b a s = (s', Ok b') → P (seen' ++ [a]) b') →
  foldM f b l s = (s', Ok b') → P (seen ++ l) b'.
Proof.
  revert seen b s. induction l as [|a l IH]; intros seen b s Hb Hstep Heq.
  { cbn in Heq. injection Heq as <- <-. by rewrite app_nil_r. }
  cbn [foldM] in Heq. apply bind_inv in Heq as [(s1 & b1 & Hf & Hrest)|(s1 & e & _ & [=])].
  replace (seen ++ a :: l) with ((seen ++ [a]) ++ l) in Hstep |- * by (by rewrite <- app_assoc).
  apply (IH (seen ++ [a]) b1 s1); [|done|exact Hrest].
  apply (Hstep seen a l b s s1 b1); [by rewrite <- app_assoc|done|done].
Qed.

Lemma foldM_inv {S A B} (f : B → A → M S B) (P : B → Prop) l b s s' b' :
  P b → (∀ a b s s' b', a ∈ l → P b → f b a s = (s', Ok b') → P b') →
  foldM f b l s = (s', Ok b') → P b'.
Proof.
  intros Hb Hstep. apply (foldM_prefix f (fun _ => P) l [] b s s' b' Hb).
  intros seen a rest c t t' c' Heq. apply Hstep. rewrite <- (app_nil_l l), Heq. set_solver.
Qed.

Lemma or_throw_Ok {A} e (o : option A) a : or_throw e o = Ok a → o = Some a.
Proof. destruct o; simpl; [|done]. by intros [= ->]. Qed.

Lemma index_of_Some {A} `{EqDecision A} (x : A) l i :
  index_of x l = Some i → l !! i = Some x.
Proof.
  revert i; induction l as [|y l IH]; intros i; simpl; [done|].
  case_decide; intros; simplify_eq/=; [done|].
  destruct (index_of x l) eqn:E; simplify_eq/=. by apply IH.
Qed.

Lemma index_of_elem {A} `{EqDecision A} (x : A) l :
  x ∈ l → is_Some (index_of x l).
Proof.
  induction l as [|y l IH]; simpl; intros Hin; [by apply not_elem_of_nil in Hin|].
  case_decide; [eauto|]. apply elem_of_cons in Hin as [->|Hin]; [done|].
  destruct (IH Hin) as [i ->]. eauto.
Qed.

Lemma at_index_Some {A} (l : list A) i :
  (0 <= i < Z.of_nat (length l))%Z → ∃ x, at_index l i = Some x ∧ x ∈ l.
Proof.
  intros Hi. unfold at_index. rewrite (proj2 (Z.ltb_ge i 0)) by lia.
  destruct (lookup_lt_is_Some_2 l (Z.to_nat i)) as [x Hx]; [lia|].
  exists x. split; [done|]. by eapply list_elem_of_lookup_2.
Qed.

Lemma at_index_elem {A} (l : list A) i x : at_index l i = Some x → x ∈ l.
Proof.
  unfold at_index. destruct (i <? 0)%Z; [done|]. apply list_elem_of_lookup_2.
Qed.

Lemma index_of_None {A} `{EqDecision A} (x : A) l :
  index_of x l = None ↔ x ∉ l.
Proof.
  split.
  - intros H Hin. apply index_of_elem in Hin as [? ?]. congruence.
  - intros Hin. destruct (index_of x l) eqn:E; [|done].
    apply index_of_Some in E. exfalso. apply Hin. by eapply list_elem_of_lookup_2.
Qed.

Lemma elem_of_uniq_from {A} `{EqDecision A} (x : A) seen l :
  x ∈ uniq_from seen l ↔ x ∈ l ∧ x ∉ seen.
Proof.
  revert seen; induction l as [|y l IH]; intros seen; simpl.
  { set_solver. }
  case_decide; rewrite ?elem_of_cons, IH, ?elem_of_cons; [naive_solver|].
  destruct (decide (x = y)) as [->|]; naive_solver.
Qed.

Lemma elem_of_uniq {A} `{EqDecision A} (x : A) l : x ∈ uniq l ↔ x ∈ l.
Proof. unfold uniq. rewrite elem_of_uniq_from. set_solver. Qed.

Lemma NoDup_uniq_from {A} `{EqDecision A} seen (l : list A) : NoDup (uniq_from seen l).
Proof.
  revert seen; induction l as [|y l IH]; intros seen; simpl; [constructor|].
  case_decide; [apply IH|]. constructor; [|apply IH].
  rewrite elem_of_uniq_from. set_solver.
Qed.

Lemma NoDup_uniq {A} `{EqDecision A} (l : list A) : NoDup (uniq l).
Proof. apply NoDup_uniq_from. Qed.

Lemma insert_by_perm {A} (leb : A → A → bool) x l : insert_by leb x l ≡ₚ x :: l.
Proof.
  induction l as [|y l IH]; simpl; [done|].
  destruct (leb x y); [done|]. rewrite IH. apply Permutation_swap.
Qed.

Lemma sort_by_perm {A} (leb : A → A → bool) l : sort_by leb l ≡ₚ l.
Proof.
  induction l as [|x l IH]; simpl; [done|].
  rewrite insert_by_perm. by constructor.
Qed.

Lemma elem_of_sort_by {A} (leb : A → A → bool) x l : x ∈ sort_by leb l ↔ x ∈ l.
Proof. by rewrite sort_by_perm. Qed.

Lemma length_sort_by {A} (leb : A → A → bool) l : length (sort_by leb l) = length l.
Proof. by rewrite sort_by_perm. Qed.

Section sorted.
Context {A : Type} (leb : A → A → bool).
Context (leb_total : ∀ x y, leb x y = true ∨ leb y x = true).
Context (leb_trans : ∀ x y z, leb x y = true → leb y z = true → leb x z = true).

Lemma insert_by_sorted x l :
  Sorted (fun a b => leb a b = true) l → Sorted (fun a b => leb a b = true) (insert_by leb x l).
Proof using leb_total.
  induction 1 as [|y l Hs IH Hhd]; simpl; [repeat constructor|].
  destruct (leb x y) eqn:E; [by repeat constructor|].
  constructor; [done|].
  destruct l as [|z l]; simpl; [|destruct (leb x z)]; constructor.
  1, 2: destruct (leb_total x y); congruence.
  by inversion Hhd.
Qed.

Lemma sort_by_sorted l : Sorted (fun a b => leb a b = true) (sort_by leb l).
Proof using leb_total. induction l; simpl; [constructor|by apply insert_by_sorted]. Qed.

Lemma sort_by_strongly_sorted l : StronglySorted (fun a b => leb a b = true) (sort_by leb l).
Proof using leb_total leb_trans.
  apply Sorted_StronglySorted; [|apply sort_by_sorted].
  intros x y z; apply leb_trans.
Qed.

End sorted.

Lemma StronglySorted_take {A} (R : relation A) n (l : list A) : StronglySorted R l → StronglySorted R (take n l).
Proof. intros Hs. revert n. induction Hs as [|x l Hs IH Hx]; intros [|n]; simpl; constructor; [apply IH|by apply Forall_take]. Qed.

Lemma StronglySorted_weaken {A} (R S : relation A) (l : list A) :
  (∀ x y, R x y → S x y) → StronglySorted R l → StronglySorted S l.
Proof.
  intros HRS. induction 1 as [|x l Hl IH Hx]; constructor; [done|].
  eapply Forall_impl; [exact Hx|]. intros y. apply HRS.
Qed.

Lemma StronglySorted_perm_eq {A} (R : relation A) (l k : list A) :
  (∀ x y, x ∈ l → y ∈ l → R x y → R y x → x = y) →
  StronglySorted R l → StronglySorted R k → l ≡ₚ k → l = k.
Proof.
  revert k; induction l as [|x l IH]; intros k Hanti Hl Hk Hp.
  { by apply Permutation_nil_l in Hp. }
  destruct k as [|y k]; [by apply Permutation_nil_r in Hp|].
  apply StronglySorted_inv in Hl as [Hl Hxl]. apply StronglySorted_inv in Hk as [Hk Hyk].
  rewrite Forall_forall in Hxl, Hyk.
  assert (x = y) as ->.
  { assert (y ∈ x :: l) as Hy by (rewrite Hp; set_solver).
    assert (x ∈ y :: k) as Hx by (rewrite <- Hp; set_solver).
    apply elem_of_cons in Hy as [?|Hy]; [done|].
    apply elem_of_cons in Hx as [?|Hx]; [done|].
    apply Hanti; set_solver. }
  f_equal. apply IH; try done.
  - intros a b ? ?; apply Hanti; set_solver.
  - by apply Permutation_cons_inv in Hp.
Qed.

(** Sorting the same elements in another order gives the same list, when the
    comparison separates distinct elements. *)
Lemma sort_by_perm_eq {A} (leb : A → A → bool) (l k : list A) :
  (∀ x y, leb x y = true ∨ leb y x = true) →
  (∀ x y z, leb x y = true → leb y z = true → leb x z = true) →
  (∀ x y, x ∈ l → y ∈ l → leb x y = true → leb y x = true → x = y) →
  l ≡ₚ k → sort_by leb l = sort_by leb k.
Proof.
  intros Htot Htr Hanti Hp.
  apply (StronglySorted_perm_eq (fun a b => leb a b = true)).
  - intros x y Hx%elem_of_sort_by Hy%elem_of_sort_by. by apply Hanti.
  - by apply sort_by_strongly_sorted.
  - by apply sort_by_strongly_sorted.
  - by rewrite !sort_by_perm.
Qed.

Lemma mapM_out_Ok {A B} (f : A → outcome B) l k :
  mapM_out f l = Ok k ↔ Forall2 (fun a b => f a = Ok b) l k.
Proof.
  revert k; induction l as [|a l IH]; intros k; simpl.
  { split; [intros; simplify_eq; constructor|by inversion 1]. }
  unfold mbind, outcome_bind. split.
  - destruct (f a) eqn:E; [|done]. destruct (mapM_out f l) eqn:E'; [|done].
    intros; simplify_eq. constructor; [done|]. by apply IH.
  - inversion 1 as [|? b ? k' Hf Hk]; subst. rewrite Hf.
    apply IH in Hk. by rewrite Hk.
Qed.

(** ** Finite sums *)

Section zsum.
Local Open Scope Z_scope.

Definition zsum {A} (f : A → Z) (l : list A) : Z := foldr (fun x acc => f x + acc) 0 l.

Lemma zsum_cons {A} (f : A → Z) x l : zsum f (x :: l) = f x + zsum f l.
Proof. done. Qed.

Lemma zsum_app {A} (f : A → Z) l k : zsum f (l ++ k) = zsum f l + zsum f k.
Proof. induction l as [|x l IH]; [done|]. simpl. rewrite IH. lia. Qed.

Lemma zsum_perm {A} (f : A → Z) l k : l ≡ₚ k → zsum f l = zsum f k.
Proof. induction 1; simpl in *; lia. Qed.

Lemma zsum_ext {A} (f g : A → Z) l : (∀ x, x ∈ l → f x = g x) → zsum f l = zsum g l.
Proof.
  induction l as [|x l IH]; intros Hfg; [done|]. simpl. rewrite (Hfg x), IH; [done| |by left].
  intros y Hy. apply Hfg. by right.
Qed.

Lemma zsum_zero {A} (l : list A) : zsum (fun _ => 0) l = 0.
Proof. induction l; simpl; lia. Qed.

Lemma zsum_plus {A} (f g : A → Z) l : zsum (fun x => f x + g x) l = zsum f l + zsum g l.
Proof. induction l; simpl; lia. Qed.

Lemma zsum_swap {A B} (f : A → B → Z) l k :
  zsum (fun x => zsum (f x) k) l = zsum (fun y => zsum (fun x => f x y) l) k.
Proof.
  induction l as [|x l IH]; simpl; [by rewrite zsum_zero|]. by rewrite IH, <- zsum_plus.
Qed.

Lemma zsum_abs {A} (f : A → Z) l : Z.abs (zsum f l) <= zsum (fun x => Z.abs (f x)) l.
Proof. induction l; simpl; lia. Qed.

Lemma zsum_bound {A} (f : A → Z) B l :
  (∀ x, x ∈ l → f x <= B) → zsum f l <= Z.of_nat (length l) * B.
Proof.
  induction l as [|x l IH]; intros Hf; [simpl; lia|]. cbn [zsum foldr length].
  pose proof (Hf x ltac:(by left)).
  pose proof (IH (fun y Hy => Hf y (list_elem_of_further _ _ _ Hy))). unfold zsum in *. lia.
Qed.

Lemma zsum_nonneg {A} (f : A → Z) l : (∀ x, x ∈ l → 0 <= f x) → 0 <= zsum f l.
Proof.
  induction l as [|x l IH]; intros Hf; [done|]. cbn [zsum foldr].
  pose proof (Hf x ltac:(by left)).
  pose proof (IH (fun y Hy => Hf y (list_elem_of_further _ _ _ Hy))). unfold zsum in *. lia.
Qed.

(** One distinguished element. *)
Lemma zsum_single {A} `{EqDecision A} (u : A) w l :
  NoDup l → zsum (fun t => if decide (u = t) then w else 0) l = if decide (u ∈ l) then w else 0.
Proof.
  induction 1 as [|x l Hx Hnd IH]; [done|]. rewrite zsum_cons, IH.
  destruct (decide (u = x)) as [->|Hne].
  - rewrite decide_False by done. rewrite decide_True by (by left). lia.
  - destruct (decide (u ∈ l)) as [Hu|Hu].
    + rewrite decide_True by (by right). lia.
    + rewrite decide_False; [lia|]. rewrite elem_of_cons. naive_solver.
Qed.

Lemma zsum_filter_zero {A} (P : A → Prop) `{∀ x, Decision (P x)} (f : A → Z) l :
  (∀ x, ¬ P x → f x = 0) → zsum f (filter P l) = zsum f l.
Proof.
  intros Hf. induction l as [|x l IH]; [done|]. rewrite filter_cons.
  case_decide as Hp; rewrite ?zsum_cons, IH; [done|]. rewrite Hf by done. done.
Qed.

End zsum.

(** ** Lists of keys *)

Lemma NoDup_fmap_on {A B} (f : A → B) (l : list A) :
  (∀ x y, x ∈ l → y ∈ l → f x = f y → x = y) → NoDup l → NoDup (f <$> l).
Proof.
  intros Hf. induction 1 as [|x l Hx Hl IH]; [constructor|]. rewrite fmap_cons. constructor.
  - intros (y & Heq & Hy)%list_elem_of_fmap. apply Hx.
    rewrite (Hf x y); [done|by left|by right|done].
  - apply IH. intros a b Ha Hb. apply Hf; by right.
Qed.

Lemma NoDup_fmap_eq {A B} (f : A → B) (l : list A) x y :
  NoDup (f <$> l) → x ∈ l → y ∈ l → f x = f y → x = y.
Proof.
  intros Hnd (i & Hi)%list_elem_of_lookup (j & Hj)%list_elem_of_lookup Heq.
  assert (i = j) as ->; [|congruence].
  apply (NoDup_lookup (f <$> l) i j (f x)); rewrite ?list_lookup_fmap, ?Hi, ?Hj; simpl; congruence.
Qed.

Lemma mjoin_cons {A} (x : list A) l : mjoin (x :: l) = x ++ mjoin l.
Proof. done. Qed.

(** Lists that cannot meet, laid end to end. *)
Lemma NoDup_mjoin_map {A B} (f : A → list B) (tag : B → A) (ts : list A) :
  NoDup ts → (∀ t, NoDup (f t)) → (∀ t x, x ∈ f t → tag x = t) → NoDup (mjoin (f <$> ts)).
Proof.
  intros Hts Hf Htag. induction Hts as [|t ts Ht Hts IH]; [constructor|].
  rewrite fmap_cons. cbn [mjoin list_join]. apply NoDup_app. split; [done|]. split; [|done].
  intros x Hx Hin. apply list_elem_of_join in Hin as (l & Hx' & (u & -> & Hu)%list_elem_of_fmap).
  apply Ht. by rewrite <- (Htag t x Hx), (Htag u x Hx').
Qed.

Lemma mjoin_map_nil {A B} (f : A → list B) l : (∀ x, x ∈ l → f x = []) → mjoin (map f l) = [].
Proof. intros H. induction l as [|x l IH]; [done|]. cbn [map]. rewrite mjoin_cons, H by left. apply IH. intros y Hy. apply H. by right. Qed.

(** Of a list with distinct keys, the one element with a given key. *)
Lemma filter_key {A K} `{EqDecision K} (key : A → K) (l : list A) x :
  NoDup (key <$> l) → x ∈ l → filter (fun y => key y = key x) l = [x].
Proof.
  induction l as [|y l IH]; intros Hnd Hx; [by apply not_elem_of_nil in Hx|].
  rewrite fmap_cons, NoDup_cons in Hnd. destruct Hnd as [Hy Hnd]. rewrite filter_cons.
  apply elem_of_cons in Hx as [->|Hx].
  - rewrite decide_True by done. f_equal. apply elem_of_nil_inv. intros z [Hz Hin]%list_elem_of_filter.
    apply Hy. rewrite <- Hz. by apply (list_elem_of_fmap_2 key).
  - rewrite decide_False, IH; [done..|]. intros E. apply Hy. rewrite E. by apply (list_elem_of_fmap_2 key).
Qed.

(** A map filled from a list of pairs with distinct keys. *)
Lemma foldl_insert_lookup {A V} (key : A → string) (val : A → V) (l : list A) (m : gmap string V) x :
  NoDup (key <$> l) → x ∈ l →
  foldl (fun m x => <[key x := val x]> m) m l !! key x = Some (val x).
Proof.
  revert m. induction l as [|y l IH]; intros m Hnd Hx; [by apply not_elem_of_nil in Hx|].
  rewrite fmap_cons in Hnd. apply NoDup_cons in Hnd as [Hy Hnd]. cbn [foldl].
  apply elem_of_cons in Hx as [->|Hx]; [|by apply IH].
  assert (∀ m : gmap string V, m !! key y = Some (val y) →
    foldl (fun m x => <[key x := val x]> m) m l !! key y = Some (val y)) as H.
  { clear IH Hnd m. induction l as [|z l IHl]; intros m Hm; [done|]. cbn [foldl].
    rewrite fmap_cons, not_elem_of_cons in Hy. destruct Hy as [Hyz Hy].
    apply IHl; [done|]. by rewrite lookup_insert_ne. }
  apply H, lookup_insert_eq.
Qed.

(** ** Order on strings *)

(** The order [sort] gives strings: by code unit, which for bytes of UTF-8 is the order of the code points. *)
Definition string_leb (s t : string) : bool := String.leb s t.

Lemma string_leb_total s t : string_leb s t = true ∨ string_leb t s = true.
Proof. apply String.leb_total. Qed.

Lemma string_leb_antisym s t : string_leb s t = true → string_leb t s = true → s = t.
Proof. apply String.leb_antisym. Qed.

Lemma string_leb_cons c s d t :
  string_leb (String c s) (String d t) =
    if (Ascii.N_of_ascii c <? Ascii.N_of_ascii d)%N then true
    else if (Ascii.N_of_ascii d <? Ascii.N_of_ascii c)%N then false else string_leb s t.
Proof.
  unfold string_leb, String.leb. simpl. unfold Ascii.compare.
  destruct (N.compare_spec (Ascii.N_of_ascii c) (Ascii.N_of_ascii d)) as [E|E|E].
  - rewrite E, N.ltb_irrefl. done.
  - by rewrite (proj2 (N.ltb_lt _ _) E).
  - rewrite (proj2 (N.ltb_ge _ _)) by lia. by rewrite (proj2 (N.ltb_lt _ _) E).
Qed.

Lemma string_leb_trans s t u : string_leb s t = true → string_leb t u = true → string_leb s u = true.
Proof.
  revert t u; induction s as [|c s IH]; intros [|d t] [|e u]; try done.
  rewrite !string_leb_cons.
  destruct (N.ltb_spec (Ascii.N_of_ascii c) (Ascii.N_of_ascii d)), (N.ltb_spec (Ascii.N_of_ascii d) (Ascii.N_of_ascii c)),
    (N.ltb_spec (Ascii.N_of_ascii d) (Ascii.N_of_ascii e)), (N.ltb_spec (Ascii.N_of_ascii e) (Ascii.N_of_ascii d)),
    (N.ltb_spec (Ascii.N_of_ascii c) (Ascii.N_of_ascii e)), (N.ltb_spec (Ascii.N_of_ascii e) (Ascii.N_of_ascii c));
    try done; try lia. apply IH.
Qed.

Lemma sort_strings_perm l k : l ≡ₚ k → sort_by string_leb l = sort_by string_leb k.
Proof.
  intros Hp. apply sort_by_perm_eq; [apply string_leb_total|apply string_leb_trans| |done].
  intros x y _ _. apply string_leb_antisym.
Qed.
