(* ===== verification/JsNum.v ===== *)
(** * JS numbers

    The numbers of the console: 32-bit integer operators with their wrap-around,
    binary64 rounding on rationals, rounding functions, and the conversion of
    integers to text.  An integer value of the program is a [Z]; a fractional
    one is a [Q] that is the result of [fl], rounding to 53 significant bits
    with ties to even.  Magnitudes in this program stay far from the limits of
    the binary64 exponent, which [fl] leaves unbounded. *)

From S2P Require Import Prelude.
From Stdlib Require Import Ascii.
From Stdlib Require Import QArith Qround Qabs Lqa.
Open Scope Z_scope.

(** ** 32-bit operators (ECMAScript ToInt32 and ToUint32) *)

Definition uint32 (z : Z) : Z := z mod 2 ^ 32.
Definition int32 (z : Z) : Z :=
  let m := z mod 2 ^ 32 in if m <? 2 ^ 31 then m else m - 2 ^ 32.

Definition js_shl (a k : Z) : Z := int32 (Z.shiftl (int32 a) (k mod 32)).
Definition js_ushr (a k : Z) : Z := Z.shiftr (uint32 a) (k mod 32).
Definition js_xor (a b : Z) : Z := int32 (Z.lxor (int32 a) (int32 b)).
Definition js_and (a b : Z) : Z := int32 (Z.land (int32 a) (int32 b)).
Definition js_imul (a b : Z) : Z := int32 (a * b).

(** ** Doubles *)

(** The quotient of [n] by [d > 0], rounded to the nearest integer, ties to even. *)
Definition rdiv_even (n d : Z) : Z :=
  let q := n / d in
  let r := n mod d in
  if 2 * r <? d then q
  else if d <? 2 * r then q + 1
  else if Z.even q then q else q + 1.

(** The exponent [k] with [2 ^ k <= n / d < 2 ^ (k + 1)]. *)
Definition exponent_of (n d : Z) : Z :=
  let k := Z.log2 n - Z.log2 d in
  if (if 0 <=? k then d * 2 ^ k <=? n else d <=? n * 2 ^ (- k)) then k else k - 1.

Definition scale (m e : Z) : Q :=
  if 0 <=? e then inject_Z (m * 2 ^ e) else Qred (m # Z.to_pos (2 ^ (- e))).

Definition fl_pos (n d : Z) : Q :=
  let e := exponent_of n d - 52 in
  if 0 <=? e then scale (rdiv_even n (d * 2 ^ e)) e
  else scale (rdiv_even (n * 2 ^ (- e)) d) e.

(** The double nearest to a rational. *)
Definition fl (q : Q) : Q :=
  match Qnum q with
  | Z0 => 0%Q
  | Zpos n => fl_pos (Zpos n) (Zpos (Qden q))
  | Zneg n => Qopp (fl_pos (Zpos n) (Zpos (Qden q)))
  end.

Definition dadd (a b : Q) : Q := fl (a + b).
Definition dsub (a b : Q) : Q := fl (a - b).
Definition dmul (a b : Q) : Q := fl (a * b).
Definition ddiv (a b : Q) : Q := fl (a / b).

Definition Qltb (a b : Q) : bool := negb (Qle_bool b a).

(** [Math.floor], [Math.round] (halves go up), [Math.min] and [Math.max]. *)
Definition js_floor (q : Q) : Z := Qfloor q.
Definition js_round (q : Q) : Z := Qfloor (q + (1 # 2)).
Definition qmin (a b : Q) : Q := if Qle_bool a b then a else b.
Definition qmax (a b : Q) : Q := if Qle_bool a b then b else a.

(** ** Numbers as text *)

(** [Number.prototype.toString(radix)] on the digits [0-9a-z]. *)
Definition digit_char (d : Z) : Ascii.ascii :=
  Ascii.ascii_of_N (Z.to_N (if d <? 10 then 48 + d else 87 + d)).

Fixpoint radix_digits (fuel : nat) (b n : Z) (acc : string) : string :=
  match fuel with
  | O => acc
  | S f => let acc' := String (digit_char (n mod b)) acc in
           if n <? b then acc' else radix_digits f b (n / b) acc'
  end.

Definition radix_fuel (n : Z) : nat := S (Z.to_nat (Z.log2 n)).

Definition to_radix (b n : Z) : string :=
  if n <? 0 then String "-"%char (radix_digits (radix_fuel (- n)) b (- n) EmptyString)
  else radix_digits (radix_fuel n) b n EmptyString.

Definition to_dec (n : Z) : string := to_radix 10 n.

(** [s.padStart(n, c)]. *)
Definition pad_start (n : nat) (c : Ascii.ascii) (s : string) : string :=
  Nat.iter (n - String.length s) (String c) s.

(** ** 32-bit facts *)

Lemma uint32_range z : 0 <= uint32 z < 2 ^ 32.
Proof. apply Z.mod_pos_bound. lia. Qed.

Lemma int32_range z : - 2 ^ 31 <= int32 z < 2 ^ 31.
Proof.
  unfold int32. pose proof (Z.mod_pos_bound z (2 ^ 32) ltac:(lia)).
  destruct (Z.ltb_spec (z mod 2 ^ 32) (2 ^ 31)); lia.
Qed.

Lemma int32_cong z : (int32 z) mod 2 ^ 32 = z mod 2 ^ 32.
Proof.
  unfold int32. destruct (Z.ltb_spec (z mod 2 ^ 32) (2 ^ 31)).
  - by rewrite Z.mod_mod.
  - replace (z mod 2 ^ 32 - 2 ^ 32) with (z mod 2 ^ 32 + (-1) * 2 ^ 32) by lia.
    by rewrite Z.mod_add, Z.mod_mod.
Qed.

Lemma int32_mod_eq a b : a mod 2 ^ 32 = b mod 2 ^ 32 → int32 a = int32 b.
Proof. unfold int32. by intros ->. Qed.

Lemma int32_idem z : int32 (int32 z) = int32 z.
Proof. apply int32_mod_eq, int32_cong. Qed.

Lemma int32_small z : - 2 ^ 31 <= z < 2 ^ 31 → int32 z = z.
Proof. intros H. unfold int32. case (Z.ltb_spec (z mod 2 ^ 32) (2 ^ 31)); dlia. Qed.

Lemma uint32_int32 z : uint32 (int32 z) = uint32 z.
Proof. apply int32_cong. Qed.

Lemma int32_eq_0 z : int32 z = 0 ↔ uint32 z = 0.
Proof.
  unfold int32, uint32. pose proof (Z.mod_pos_bound z (2 ^ 32) ltac:(lia)).
  destruct (Z.ltb_spec (z mod 2 ^ 32) (2 ^ 31)); lia.
Qed.

(** Bitwise operators commute with reduction modulo [2 ^ 32]. *)
Lemma lxor_mod_pow2 a b : (Z.lxor a b) mod 2 ^ 32 = Z.lxor (a mod 2 ^ 32) (b mod 2 ^ 32).
Proof.
  rewrite <- !Z.land_ones by lia. apply Z.bits_inj'. intros i Hi.
  rewrite ?Z.land_spec, ?Z.lxor_spec, ?Z.land_spec.
  destruct (Z.testbit a i), (Z.testbit b i), (Z.testbit (Z.ones 32) i); done.
Qed.

Lemma uint32_xor a b : uint32 (js_xor a b) = Z.lxor (uint32 a) (uint32 b).
Proof.
  unfold js_xor. rewrite uint32_int32. unfold uint32.
  rewrite lxor_mod_pow2, !int32_cong. done.
Qed.

Lemma uint32_shl a k : 0 <= k < 32 → uint32 (js_shl a k) = (uint32 a * 2 ^ k) mod 2 ^ 32.
Proof.
  intros Hk. unfold js_shl. rewrite uint32_int32, (Z.mod_small k) by lia.
  unfold uint32. rewrite Z.shiftl_mul_pow2 by lia.
  rewrite Z.mul_mod, int32_cong, <- Z.mul_mod by lia.
  symmetry. by rewrite Z.mul_mod, Z.mod_mod, <- Z.mul_mod by lia.
Qed.

Lemma uint32_ushr a k : 0 <= k < 32 → uint32 (js_ushr a k) = uint32 a / 2 ^ k.
Proof.
  intros Hk. unfold js_ushr. rewrite (Z.mod_small k), Z.shiftr_div_pow2 by lia.
  unfold uint32. apply Z.mod_small. pose proof (Z.mod_pos_bound a (2 ^ 32) ltac:(lia)).
  assert (0 < 2 ^ k) by (apply Z.pow_pos_nonneg; lia).
  split; [apply Z.div_pos; lia|]. apply Z.le_lt_trans with (a mod 2 ^ 32); [|lia].
  apply Z.div_le_upper_bound; [lia|]. nia.
Qed.

Lemma lxor_eq_0 a b : Z.lxor a b = 0 ↔ a = b.
Proof. split; [apply Z.lxor_eq|intros ->; apply Z.lxor_nilpotent]. Qed.

(** ** Rounding error of [fl] *)

Lemma rdiv_even_error n d : 0 < d → 2 * Z.abs (rdiv_even n d * d - n) <= d.
Proof.
  intros Hd. unfold rdiv_even.
  pose proof (Z.div_mod n d ltac:(lia)). pose proof (Z.mod_pos_bound n d ltac:(lia)).
  destruct (Z.ltb_spec (2 * (n mod d)) d); [nia|].
  destruct (Z.ltb_spec d (2 * (n mod d))); [nia|].
  destruct (Z.even _); nia.
Qed.

Lemma exponent_of_lower n d k :
  0 < n → 0 < d → k = exponent_of n d →
  (0 <= k → d * 2 ^ k <= n) ∧ (k < 0 → d <= n * 2 ^ (- k)).
Proof.
  intros Hn Hd ->. unfold exponent_of.
  pose proof (Z.log2_spec n Hn) as [Hn1 _]. pose proof (Z.log2_spec d Hd) as [_ Hd2].
  pose proof (Z.log2_nonneg n). pose proof (Z.log2_nonneg d).
  set (a := Z.log2 n) in *. set (b := Z.log2 d) in *.
  destruct (Z.leb_spec 0 (a - b)) as [Hk|Hk].
  - destruct (Z.leb_spec (d * 2 ^ (a - b)) n) as [Ht|Ht]; [split; [done|lia]|].
    destruct (Z.eq_dec a b) as [->|].
    + rewrite Z.sub_diag in *. change (2 ^ 0) with 1 in Ht. split; [lia|intros _].
      change (2 ^ (- (0 - 1))) with 2. rewrite Z.pow_succ_r in Hd2 by lia. lia.
    + split; [intros _|lia].
      assert (d * 2 ^ (a - b - 1) <= 2 ^ Z.succ b * 2 ^ (a - b - 1)) by nia.
      rewrite <- Z.pow_add_r in H1 by lia.
      replace (Z.succ b + (a - b - 1)) with a in H1 by lia. lia.
  - destruct (Z.leb_spec d (n * 2 ^ (- (a - b)))) as [Ht|Ht]; [split; [lia|done]|].
    split; [lia|intros _].
    replace (- (a - b - 1)) with (b - a + 1) by lia.
    assert (2 ^ a * 2 ^ (b - a + 1) <= n * 2 ^ (b - a + 1)) by nia.
    rewrite <- Z.pow_add_r in H1 by lia.
    replace (a + (b - a + 1)) with (Z.succ b) in H1 by lia. lia.
Qed.

(** The rounded quotient as an integer [m] over a power of two. *)
Lemma fl_pos_spec n d :
  0 < n → 0 < d →
  ∃ m p s, 0 < p ∧ 0 < s ∧ (fl_pos n d == inject_Z (m * p) / inject_Z s)%Q ∧
    2 ^ 53 * Z.abs (m * p * d - n * s) <= n * s.
Proof.
  intros Hn Hd. unfold fl_pos.
  destruct (exponent_of_lower n d _ Hn Hd eq_refl) as [Hlo Hhi].
  set (k := exponent_of n d) in *.
  destruct (Z.leb_spec 0 (k - 52)) as [He|He].
  - pose proof (Z.pow_pos_nonneg 2 (k - 52) ltac:(lia) ltac:(lia)) as Hp.
    pose proof (rdiv_even_error n (d * 2 ^ (k - 52)) ltac:(nia)) as Herr.
    set (m := rdiv_even _ _) in *.
    exists m, (2 ^ (k - 52)), 1. repeat split; try lia.
    + unfold scale. rewrite (proj2 (Z.leb_le _ _)) by lia. field.
    + specialize (Hlo ltac:(lia)).
      replace k with ((k - 52) + 52) in Hlo by lia. rewrite Z.pow_add_r in Hlo by lia.
      change (2 ^ 53) with (2 * 2 ^ 52). nia.
  - pose proof (Z.pow_pos_nonneg 2 (- (k - 52)) ltac:(lia) ltac:(lia)) as Hp.
    pose proof (rdiv_even_error (n * 2 ^ (- (k - 52))) d Hd) as Herr.
    set (m := rdiv_even _ _) in *.
    exists m, 1, (2 ^ (- (k - 52))). repeat split; try lia.
    + unfold scale. rewrite (proj2 (Z.leb_gt _ _)) by lia. rewrite Qred_correct.
      rewrite (Qmake_Qdiv m), Z2Pos.id by lia. by rewrite Z.mul_1_r.
    + assert (d * 2 ^ 52 <= n * 2 ^ (- (k - 52))).
      { replace (- (k - 52)) with (52 - k) by lia.
        destruct (Z.leb_spec 0 k).
        - specialize (Hlo ltac:(lia)). replace 52 with (k + (52 - k)) at 1 by lia.
          rewrite Z.pow_add_r by lia.
          pose proof (Z.pow_pos_nonneg 2 (52 - k) ltac:(lia) ltac:(lia)). nia.
        - specialize (Hhi ltac:(lia)). replace (52 - k) with (- k + 52) by lia.
          rewrite Z.pow_add_r by lia. nia. }
      rewrite Z.mul_1_r. change (2 ^ 53) with (2 * 2 ^ 52). nia.
Qed.

(** [fl] is within one part in [2 ^ 53] of its argument. *)
Lemma fl_rel q :
  (0 <= q → q * (1 - (1 # 9007199254740992)) <= fl q <= q * (1 + (1 # 9007199254740992)))%Q.
Proof.
  intros Hq. unfold fl. destruct q as [[|n|n] d]; simpl Qnum; simpl Qden.
  - assert (0 # d == 0)%Q as -> by reflexivity. lra.
  - destruct (fl_pos_spec (Z.pos n) (Z.pos d)) as (m & p & s & Hp & Hs & Heq & Herr); [lia..|].
    rewrite Heq, (Qmake_Qdiv (Z.pos n)).
    change 9007199254740992%positive with (Z.to_pos (2 ^ 53)).
    assert (∀ a b c e : Z, 0 < b → 0 < e →
              (inject_Z a / inject_Z b <= inject_Z c / inject_Z e)%Q ↔ a * e <= c * b) as Hdiv.
    { intros a b c e Hb He. rewrite <- (Z2Pos.id b), <- (Z2Pos.id e) by done.
      rewrite <- !Qmake_Qdiv. unfold Qle. simpl. rewrite !Z2Pos.id by done. done. }
    assert ((inject_Z (Z.pos n) / inject_Z (Z.pos d)) * (1 - (1 # Z.to_pos (2 ^ 53)))
            == inject_Z (Z.pos n * (2 ^ 53 - 1)) / inject_Z (Z.pos d * 2 ^ 53))%Q as ->.
    { unfold Qeq, Qmult, Qdiv, Qminus, Qplus, Qopp, Qinv, inject_Z. simpl. lia. }
    assert ((inject_Z (Z.pos n) / inject_Z (Z.pos d)) * (1 + (1 # Z.to_pos (2 ^ 53)))
            == inject_Z (Z.pos n * (2 ^ 53 + 1)) / inject_Z (Z.pos d * 2 ^ 53))%Q as ->.
    { unfold Qeq, Qmult, Qdiv, Qminus, Qplus, Qopp, Qinv, inject_Z. simpl. lia. }
    rewrite !Hdiv by lia. split; nia.
  - exfalso. unfold Qle in Hq. simpl in Hq. lia.
Qed.

Lemma fl_nonneg q : (0 <= q → 0 <= fl q)%Q.
Proof. intros Hq. pose proof (fl_rel q Hq). lra. Qed.

(** Integers below [2 ^ 53] are doubles. *)
Lemma fl_integer z : 0 <= z < 2 ^ 53 → (fl (inject_Z z) == inject_Z z)%Q.
Proof.
  intros Hz. unfold fl, inject_Z. destruct z as [|n|n]; simpl Qnum; [reflexivity| |lia].
  simpl Qden. unfold fl_pos.
  assert (exponent_of (Z.pos n) 1 = Z.log2 (Z.pos n)) as ->.
  { unfold exponent_of. change (Z.log2 1) with 0. rewrite Z.sub_0_r.
    pose proof (Z.log2_nonneg (Z.pos n)). rewrite (proj2 (Z.leb_le 0 _)) by lia.
    pose proof (Z.log2_spec (Z.pos n) ltac:(lia)) as [? _].
    by rewrite (proj2 (Z.leb_le _ _)) by lia. }
  assert (Z.log2 (Z.pos n) < 53) by (apply Z.log2_lt_pow2; lia).
  set (k := Z.log2 (Z.pos n)) in *.
  assert (∀ a, rdiv_even a 1 = a) as Hr.
  { intros a. unfold rdiv_even. rewrite Z.div_1_r, Z.mod_1_r. done. }
  destruct (Z.leb_spec 0 (k - 52)).
  - assert (k - 52 = 0) as -> by lia. change (1 * 2 ^ 0) with 1. rewrite Hr.
    unfold scale. simpl. rewrite Z.mul_1_r. reflexivity.
  - rewrite Hr. unfold scale. rewrite (proj2 (Z.leb_gt _ _)) by lia. rewrite Qred_correct.
    pose proof (Z.pow_pos_nonneg 2 (- (k - 52)) ltac:(lia) ltac:(lia)).
    unfold Qeq. cbn [Qnum Qden]. rewrite Z2Pos.id by lia. lia.
Qed.

(** ** Floor of a bounded rational *)

Lemma js_floor_bounds q (a b : Z) :
  (inject_Z a <= q)%Q → (q < inject_Z (b + 1))%Q → a <= js_floor q <= b.
Proof.
  intros Ha Hb. unfold js_floor. split.
  - rewrite <- (Qfloor_Z a). by apply Qfloor_resp_le.
  - pose proof (Qfloor_le q) as Hf.
    assert (inject_Z (Qfloor q) < inject_Z (b + 1))%Q as Hlt by lra.
    rewrite <- Zlt_Qlt in Hlt. lia.
Qed.

Lemma Qltb_lt a b : Qltb a b = true ↔ (a < b)%Q.
Proof.
  unfold Qltb. rewrite negb_true_iff. split.
  - intros H. apply Qnot_le_lt. intros Hle%Qle_bool_iff. congruence.
  - intros H. apply not_true_is_false. intros Hle%Qle_bool_iff. lra.
Qed.

(** ** Round trip of radix text *)

Definition digit_val (c : ascii) : Z :=
  let n := Z.of_N (N_of_ascii c) in if n <? 58 then n - 48 else n - 87.

Fixpoint of_radix_from (b acc : Z) (s : string) : Z :=
  match s with
  | EmptyString => acc
  | String c s' => of_radix_from b (acc * b + digit_val c) s'
  end.

(** [parseInt(s, radix)] on text made of digits, with an optional sign. *)
Definition of_radix (b : Z) (s : string) : Z :=
  match s with
  | String "-" s' => - of_radix_from b 0 s'
  | _ => of_radix_from b 0 s
  end.

Lemma digit_char_code d :
  0 <= d < 36 → Z.of_N (N_of_ascii (digit_char d)) = if d <? 10 then 48 + d else 87 + d.
Proof.
  intros Hd. unfold digit_char. rewrite N_ascii_embedding.
  - rewrite Z2N.id; [done|]. destruct (d <? 10); lia.
  - destruct (Z.ltb_spec d 10); lia.
Qed.

Lemma digit_val_char d : 0 <= d < 36 → digit_val (digit_char d) = d.
Proof.
  intros Hd. unfold digit_val. rewrite digit_char_code by done.
  destruct (Z.ltb_spec d 10); case Z.ltb_spec; lia.
Qed.

Lemma digit_char_not_dash d : 0 <= d < 36 → digit_char d ≠ "-"%char.
Proof.
  intros Hd Heq. pose proof (digit_char_code d Hd) as Hc. rewrite Heq in Hc.
  simpl in Hc. destruct (Z.ltb_spec d 10); lia.
Qed.

Lemma of_radix_digits fuel b n acc :
  2 <= b <= 36 → 0 <= n < 2 ^ Z.of_nat fuel →
  of_radix_from b 0 (radix_digits fuel b n acc) = of_radix_from b n acc.
Proof.
  intros Hb. revert n acc; induction fuel as [|f IH]; intros n acc Hn.
  { simpl in *. replace n with 0 by lia. done. }
  rewrite Nat2Z.inj_succ, Z.pow_succ_r in Hn by lia. simpl.
  pose proof (Z.mod_pos_bound n b ltac:(lia)).
  destruct (Z.ltb_spec n b).
  - simpl. rewrite digit_val_char by lia. f_equal. apply Z.mod_small. lia.
  - rewrite IH.
    + simpl. rewrite digit_val_char by lia. f_equal. dlia.
    + split; [apply Z.div_pos; lia|]. apply Z.div_lt_upper_bound; nia.
Qed.

Lemma radix_fuel_enough n : 0 <= n → n < 2 ^ Z.of_nat (radix_fuel n).
Proof.
  intros Hn. unfold radix_fuel. rewrite Nat2Z.inj_succ, Z2Nat.id by apply Z.log2_nonneg.
  destruct (Z.eq_dec n 0) as [->|]; [simpl; lia|].
  apply Z.log2_spec. lia.
Qed.

Lemma radix_digits_head fuel b n acc :
  2 <= b <= 36 → ∃ d s, 0 <= d < 36 ∧ radix_digits (S fuel) b n acc = String (digit_char d) s.
Proof.
  intros Hb. revert n acc; induction fuel as [|f IH]; intros n acc.
  - exists (n mod b), acc. pose proof (Z.mod_pos_bound n b ltac:(lia)).
    split; [lia|]. simpl. by destruct (n <? b).
  - pose proof (Z.mod_pos_bound n b ltac:(lia)).
    remember (S f) as g. simpl. destruct (n <? b); [|apply IH].
    eexists _, _. split; [|done]. lia.
Qed.

Lemma of_radix_nondash b s d :
  0 <= d < 36 → of_radix b (String (digit_char d) s) = of_radix_from b 0 (String (digit_char d) s).
Proof.
  intros Hd. pose proof (digit_char_not_dash d Hd) as Hc. unfold of_radix.
  destruct (digit_char d) as [[] [] [] [] [] [] [] []]; done.
Qed.

Lemma of_to_radix b n : 2 <= b <= 36 → of_radix b (to_radix b n) = n.
Proof.
  intros Hb. unfold to_radix. destruct (Z.ltb_spec n 0).
  - change (- of_radix_from b 0 (radix_digits (radix_fuel (- n)) b (- n) EmptyString) = n).
    rewrite of_radix_digits; [simpl; lia|done|].
    split; [lia|]. apply radix_fuel_enough. lia.
  - destruct (radix_digits_head (Z.to_nat (Z.log2 n)) b n EmptyString Hb) as (d & s & Hd & Heq).
    fold (radix_fuel n) in Heq. rewrite Heq, of_radix_nondash, <- Heq by done.
    rewrite of_radix_digits; [done..|]. split; [lia|]. apply radix_fuel_enough. lia.
Qed.

Lemma to_radix_inj b n m : 2 <= b <= 36 → to_radix b n = to_radix b m → n = m.
Proof. intros Hb Heq. rewrite <- (of_to_radix b n), <- (of_to_radix b m), Heq; done. Qed.

(** A character that is no digit does not occur in the text of a natural number. *)
Fixpoint string_has (c : ascii) (s : string) : bool :=
  match s with
  | EmptyString => false
  | String c' s' => if decide (c' = c) then true else string_has c s'
  end.

Lemma string_has_app c s t : string_has c (s +:+ t) = string_has c s || string_has c t.
Proof. induction s as [|a s IH]; simpl; [done|]. by case_decide. Qed.

Lemma to_radix_no_dash b n : 2 <= b <= 36 → 0 <= n → string_has "-" (to_radix b n) = false.
Proof.
  intros Hb Hn. unfold to_radix. rewrite (proj2 (Z.ltb_ge n 0)) by done.
  assert (∀ fuel m acc, string_has "-" (radix_digits fuel b m acc) = string_has "-" acc) as Hg.
  { induction fuel as [|f IH]; intros m acc; simpl; [done|].
    pose proof (Z.mod_pos_bound m b ltac:(lia)).
    assert (string_has "-" (String (digit_char (m mod b)) acc) = string_has "-" acc) as Hs.
    { simpl. rewrite decide_False; [done|]. apply digit_char_not_dash. lia. }
    destruct (m <? b); [done|]. by rewrite IH. }
  by rewrite Hg.
Qed.
