(* ===== verification/Doubles.v ===== *)
(** * Doubles: rounding is monotone, and exact on short significands

    [JsNum.fl] rounds a rational to the nearest double (53 significant bits, ties
    to even, no exponent limits).  It preserves order ([fl_mono]), so that a
    computation that is monotone in exact arithmetic stays so; it does not change
    a number with at most 53 significant bits ([fl_exact]), so that sums, halves
    and products of small integers are what they are in exact arithmetic. *)

From S2P Require Import Prelude JsNum.
From Stdlib Require Import QArith Qround Lqa Qpower.
Open Scope Z_scope.

(** ** Rounding an integer quotient *)

Lemma rdiv_even_mono n1 d1 n2 d2 :
  0 < d1 → 0 < d2 → n1 * d2 <= n2 * d1 → rdiv_even n1 d1 <= rdiv_even n2 d2.
Proof.
  intros H1 H2 Hle. unfold rdiv_even.
  pose proof (Z.div_mod n1 d1 ltac:(lia)) as E1. pose proof (Z.mod_pos_bound n1 d1 H1) as B1.
  pose proof (Z.div_mod n2 d2 ltac:(lia)) as E2. pose proof (Z.mod_pos_bound n2 d2 H2) as B2.
  generalize dependent (n1 / d1). generalize dependent (n2 / d2).
  generalize dependent (n1 mod d1). generalize dependent (n2 mod d2).
  intros r2 B2 r1 B1 q2 E2 q1 E1. subst n1 n2.
  assert (q1 <= q2).
  { apply Z.le_ngt. intros Hlt.
    assert (d1 * d2 * (q2 + 1) <= d1 * d2 * q1) by (apply Z.mul_le_mono_nonneg_l; nia).
    assert (r2 * d1 < d2 * d1) by nia. assert (0 <= r1 * d2) by nia. lia. }
  destruct (Z.eq_dec q1 q2) as [->|Hne].
  - assert (r1 * d2 <= r2 * d1) by lia.
    destruct (Z.ltb_spec (2 * r1) d1), (Z.ltb_spec d1 (2 * r1)), (Z.ltb_spec (2 * r2) d2), (Z.ltb_spec d2 (2 * r2));
      destruct (Z.even q2); try lia; exfalso; nia.
  - destruct (2 * r1 <? d1), (d1 <? 2 * r1), (2 * r2 <? d2), (d2 <? 2 * r2), (Z.even q1), (Z.even q2); lia.
Qed.

(** ** Rounding is monotone *)

Definition pow2 (e : Z) : Q := ((2 # 1) ^ e)%Q.

Lemma pow2_pos e : (0 < pow2 e)%Q.
Proof. by apply Qpower_0_lt. Qed.
Lemma pow2_add a b : (pow2 (a + b) == pow2 a * pow2 b)%Q.
Proof. by apply Qpower_plus. Qed.
Lemma pow2_Z e : 0 <= e → (inject_Z (2 ^ e) == pow2 e)%Q.
Proof. intros He. unfold pow2. by rewrite Zpower_Qpower. Qed.
Lemma pow2_le a b : a <= b → (pow2 a <= pow2 b)%Q.
Proof.
  intros H. replace b with (a + (b - a)) by lia. rewrite pow2_add, <- (pow2_Z (b - a)) by lia.
  pose proof (pow2_pos a). assert (1 <= inject_Z (2 ^ (b - a)))%Q as H1.
  { change 1%Q with (inject_Z 1). rewrite <- Zle_Qle. pose proof (Z.pow_pos_nonneg 2 (b - a)). lia. }
  nra.
Qed.

Lemma scale_val m e : (scale m e == inject_Z m * pow2 e)%Q.
Proof.
  unfold scale. destruct (Z.leb_spec 0 e) as [He|He].
  - by rewrite inject_Z_mult, pow2_Z.
  - rewrite Qred_correct, (Qmake_Qdiv m), Z2Pos.id by (apply Z.pow_pos_nonneg; lia).
    rewrite pow2_Z by lia. unfold pow2. rewrite Qpower_opp. unfold Qdiv. by rewrite Qinv_involutive.
Qed.

Lemma exponent_of_spec n d : 0 < n → 0 < d →
  let k := exponent_of n d in
  (pow2 k * inject_Z d <= inject_Z n)%Q ∧ (inject_Z n < pow2 (k + 1) * inject_Z d)%Q.
Proof.
  intros Hn Hd k. unfold k, exponent_of.
  pose proof (Z.log2_spec n Hn) as [Hn1 Hn2]. pose proof (Z.log2_spec d Hd) as [Hd1 Hd2].
  pose proof (Z.log2_nonneg n). pose proof (Z.log2_nonneg d).
  set (a := Z.log2 n) in *. set (b := Z.log2 d) in *. clearbody a b.
  rewrite Zle_Qle, pow2_Z in Hn1, Hd1 by lia. rewrite Zlt_Qlt, pow2_Z in Hn2, Hd2 by lia.
  assert (pow2 (Z.succ a) == 2 * pow2 a)%Q as Ea by (unfold Z.succ; rewrite pow2_add; unfold pow2 at 2; simpl; ring).
  assert (pow2 (Z.succ b) == 2 * pow2 b)%Q as Eb by (unfold Z.succ; rewrite pow2_add; unfold pow2 at 2; simpl; ring).
  assert (pow2 a == pow2 (a - b) * pow2 b)%Q as Eab by (rewrite <- pow2_add; by replace (a - b + b) with a by lia).
  assert (pow2 (a - b) == 2 * pow2 (a - b - 1))%Q as E1.
  { replace (a - b) with (1 + (a - b - 1)) at 1 by lia. rewrite pow2_add. unfold pow2 at 1. simpl. ring. }
  assert (pow2 (a - b + 1) == 2 * pow2 (a - b))%Q as E2 by (rewrite pow2_add; unfold pow2 at 2; simpl; ring).
  pose proof (pow2_pos b). pose proof (pow2_pos (a - b)). pose proof (pow2_pos (a - b - 1)).
  assert (if (if 0 <=? a - b then d * 2 ^ (a - b) <=? n else d <=? n * 2 ^ (- (a - b)))
          then (pow2 (a - b) * inject_Z d <= inject_Z n)%Q else (inject_Z n < pow2 (a - b) * inject_Z d)%Q) as Ht.
  { destruct (Z.leb_spec 0 (a - b)) as [Hk|Hk].
    - destruct (Z.leb_spec (d * 2 ^ (a - b)) n) as [Ht|Ht].
      + rewrite Zle_Qle, inject_Z_mult, pow2_Z in Ht by lia. lra.
      + rewrite Zlt_Qlt, inject_Z_mult, pow2_Z in Ht by lia. lra.
    - assert (pow2 (a - b) * pow2 (- (a - b)) == 1)%Q as Ei
        by (rewrite <- pow2_add; by replace (a - b + - (a - b)) with 0 by lia).
      pose proof (pow2_pos (- (a - b))).
      destruct (Z.leb_spec d (n * 2 ^ (- (a - b)))) as [Ht|Ht].
      + rewrite Zle_Qle, inject_Z_mult, pow2_Z in Ht by lia. nra.
      + rewrite Zlt_Qlt, inject_Z_mult, pow2_Z in Ht by lia. nra. }
  destruct (if 0 <=? a - b then _ else _).
  - split; [done|]. rewrite E2. nra.
  - replace (a - b - 1 + 1) with (a - b) by lia. split; [|done]. nra.
Qed.

(** The significand and the exponent of a rounded quotient. *)
Lemma fl_pos_val n d : 0 < n → 0 < d →
  let e := exponent_of n d - 52 in
  ∃ N D, 0 < D ∧ (fl_pos n d == inject_Z (rdiv_even N D) * pow2 e)%Q ∧
    (inject_Z N * pow2 e * inject_Z d == inject_Z n * inject_Z D)%Q ∧ 2 ^ 52 <= rdiv_even N D <= 2 ^ 53.
Proof.
  intros Hn Hd e.
  assert (∃ N D, 0 < D ∧ (fl_pos n d == inject_Z (rdiv_even N D) * pow2 e)%Q ∧
    (inject_Z N * pow2 e * inject_Z d == inject_Z n * inject_Z D)%Q) as (N & D & HD & Hv & Hq).
  { unfold fl_pos. fold e. destruct (Z.leb_spec 0 e) as [He|He].
    - pose proof (Z.pow_pos_nonneg 2 e ltac:(lia) He). exists n, (d * 2 ^ e).
      split; [nia|]. split; [apply scale_val|]. rewrite inject_Z_mult, pow2_Z by done. ring.
    - exists (n * 2 ^ (- e)), d. split; [done|]. split; [apply scale_val|].
      rewrite inject_Z_mult, pow2_Z by lia.
      assert (pow2 (- e) * pow2 e == 1)%Q as Ei by (rewrite <- pow2_add; by replace (- e + e) with 0 by lia).
      transitivity (inject_Z n * (pow2 (- e) * pow2 e) * inject_Z d)%Q; [ring|]. rewrite Ei. ring. }
  exists N, D. split; [done|]. split; [done|]. split; [done|].
  destruct (exponent_of_spec n d Hn Hd) as [Hlo Hhi].
  assert (pow2 (exponent_of n d) == inject_Z (2 ^ 52) * pow2 e)%Q as E1
    by (rewrite pow2_Z, <- pow2_add by lia; unfold e; by replace (52 + (exponent_of n d - 52)) with (exponent_of n d) by lia).
  assert (pow2 (exponent_of n d + 1) == inject_Z (2 ^ 53) * pow2 e)%Q as E2
    by (rewrite pow2_Z, <- pow2_add by lia; unfold e; by replace (53 + (exponent_of n d - 52)) with (exponent_of n d + 1) by lia).
  rewrite E1 in Hlo. rewrite E2 in Hhi. pose proof (pow2_pos e) as Hp.
  assert (∀ a, rdiv_even a 1 = a) as Hr by (intros a; unfold rdiv_even; by rewrite Z.div_1_r, Z.mod_1_r).
  assert (0 < inject_Z d)%Q by (change 0%Q with (inject_Z 0); by rewrite <- Zlt_Qlt).
  assert (0 < inject_Z D)%Q by (change 0%Q with (inject_Z 0); by rewrite <- Zlt_Qlt).
  assert (∀ a b : Q, (a * (pow2 e * inject_Z d) <= b * (pow2 e * inject_Z d))%Q → (a <= b)%Q) as Hc.
  { intros a b. apply Qmult_le_r. nra. }
  split.
  - rewrite <- (Hr (2 ^ 52)) at 1. apply rdiv_even_mono; [lia|done|].
    rewrite Zle_Qle, !inject_Z_mult. change (inject_Z 1) with 1%Q. apply Hc. nra.
  - rewrite <- (Hr (2 ^ 53)). apply rdiv_even_mono; [done|lia|].
    rewrite Zle_Qle, !inject_Z_mult. change (inject_Z 1) with 1%Q. apply Hc. nra.
Qed.

Lemma fl_pos_mono n1 d1 n2 d2 :
  0 < n1 → 0 < d1 → 0 < n2 → 0 < d2 → n1 * d2 <= n2 * d1 → (fl_pos n1 d1 <= fl_pos n2 d2)%Q.
Proof.
  intros Hn1 Hd1 Hn2 Hd2 Hle.
  destruct (fl_pos_val n1 d1 Hn1 Hd1) as (N1 & D1 & HD1 & V1 & Q1 & B1).
  destruct (fl_pos_val n2 d2 Hn2 Hd2) as (N2 & D2 & HD2 & V2 & Q2 & B2).
  destruct (exponent_of_spec n1 d1 Hn1 Hd1) as [L1 U1]. destruct (exponent_of_spec n2 d2 Hn2 Hd2) as [L2 U2].
  set (k1 := exponent_of n1 d1) in *. set (k2 := exponent_of n2 d2) in *. clearbody k1 k2.
  assert (∀ z, 0 < z → (0 < inject_Z z)%Q) as Hpos by (intros z Hz; change 0%Q with (inject_Z 0); by rewrite <- Zlt_Qlt).
  pose proof (Hpos _ Hd1). pose proof (Hpos _ Hd2). pose proof (Hpos _ HD1). pose proof (Hpos _ HD2).
  assert (inject_Z n1 * inject_Z d2 <= inject_Z n2 * inject_Z d1)%Q as HleQ
    by (rewrite <- !inject_Z_mult; by rewrite <- Zle_Qle).
  rewrite V1, V2. destruct (Z.lt_trichotomy k1 k2) as [Hk|[Hk|Hk]].
  - assert (inject_Z (rdiv_even N1 D1) <= inject_Z (2 ^ 53))%Q by (rewrite <- Zle_Qle; lia).
    assert (inject_Z (2 ^ 52) <= inject_Z (rdiv_even N2 D2))%Q by (rewrite <- Zle_Qle; lia).
    pose proof (pow2_pos (k1 - 52)). pose proof (pow2_pos (k2 - 52)).
    pose proof (pow2_le (k1 + 1 - 52) (k2 - 52) ltac:(lia)) as Hp.
    replace (k1 + 1 - 52) with (1 + (k1 - 52)) in Hp by lia. rewrite pow2_add in Hp.
    assert (pow2 1 == 2)%Q as E1 by reflexivity. rewrite E1 in Hp.
    change (inject_Z (2 ^ 53)) with (2 * inject_Z (2 ^ 52))%Q in *.
    assert (0 < inject_Z (2 ^ 52))%Q by (by apply Hpos). nra.
  - subst k2. assert (rdiv_even N1 D1 <= rdiv_even N2 D2) as Hm.
    { apply rdiv_even_mono; [done..|]. rewrite Zle_Qle, !inject_Z_mult. pose proof (pow2_pos (k1 - 52)) as Hp.
      apply (Qmult_le_r _ _ (pow2 (k1 - 52) * inject_Z d1 * inject_Z d2)).
      { apply Qmult_lt_0_compat; [by apply Qmult_lt_0_compat|done]. }
      assert (inject_Z N1 * inject_Z D2 * (pow2 (k1 - 52) * inject_Z d1 * inject_Z d2) ==
              inject_Z n1 * inject_Z d2 * (inject_Z D1 * inject_Z D2))%Q as ->.
      { transitivity (inject_Z N1 * pow2 (k1 - 52) * inject_Z d1 * (inject_Z D2 * inject_Z d2))%Q; [ring|].
        rewrite Q1. ring. }
      assert (inject_Z N2 * inject_Z D1 * (pow2 (k1 - 52) * inject_Z d1 * inject_Z d2) ==
              inject_Z n2 * inject_Z d1 * (inject_Z D1 * inject_Z D2))%Q as ->.
      { transitivity (inject_Z N2 * pow2 (k1 - 52) * inject_Z d2 * (inject_Z D1 * inject_Z d1))%Q; [ring|].
        rewrite Q2. ring. }
      apply Qmult_le_compat_r; [done|]. apply Qlt_le_weak. by apply Qmult_lt_0_compat. }
    rewrite Zle_Qle in Hm. pose proof (pow2_pos (k1 - 52)). nra.
  - exfalso. pose proof (pow2_le (k2 + 1) k1 ltac:(lia)). pose proof (pow2_pos k1). pose proof (pow2_pos (k2 + 1)).
    assert (inject_Z n2 < pow2 k1 * inject_Z d2)%Q as Hn2'.
    { eapply Qlt_le_trans; [exact U2|]. apply Qmult_le_compat_r; [done|]. by apply Qlt_le_weak. }
    apply (Qmult_lt_r _ _ (inject_Z d1)) in Hn2'; [|done].
    apply (Qmult_le_compat_r _ _ (inject_Z d2)) in L1; [|by apply Qlt_le_weak]. lra.
Qed.

Lemma fl_opp q : (fl (- q) == - fl q)%Q.
Proof. destruct q as [[|n|n] d]; unfold fl; simpl; [reflexivity|reflexivity|by rewrite Qopp_involutive]. Qed.

Lemma fl_mono_pos a b : (0 < a → a <= b → fl a <= fl b)%Q.
Proof.
  intros Ha Hab. destruct a as [[|n1|n1] d1]; [done| |done].
  destruct b as [[|n2|n2] d2]; unfold Qle in Hab; simpl in Hab; try lia.
  apply (fl_pos_mono (Z.pos n1) (Z.pos d1) (Z.pos n2) (Z.pos d2)); lia.
Qed.

Lemma fl_mono a b : (a <= b → fl a <= fl b)%Q.
Proof.
  intros Hab. destruct (Qlt_le_dec 0 a) as [Ha|Ha]; [by apply fl_mono_pos|].
  assert (fl a <= 0)%Q by (pose proof (fl_opp a); pose proof (fl_nonneg (- a)); lra).
  destruct (Qlt_le_dec b 0) as [Hb|Hb]; [|pose proof (fl_nonneg b Hb); lra].
  pose proof (fl_opp a). pose proof (fl_opp b). pose proof (fl_mono_pos (- b) (- a)). lra.
Qed.

#[export] Instance fl_proper : Proper (Qeq ==> Qeq) fl.
Proof. intros a b E. apply Qle_antisym; apply fl_mono; rewrite E; apply Qle_refl. Qed.

(** A number with at most 53 significant bits is a double. *)
Lemma fl_exact m e : Z.abs m < 2 ^ 53 → (fl (inject_Z m * pow2 e) == inject_Z m * pow2 e)%Q.
Proof.
  assert (∀ m, 0 <= m < 2 ^ 53 → (fl (inject_Z m * pow2 e) == inject_Z m * pow2 e)%Q) as Hpos.
  { clear m. intros m Hm. destruct (Z.eq_dec m 0) as [->|Hne].
    { assert (inject_Z 0 * pow2 e == 0)%Q as -> by ring. reflexivity. }
    destruct (inject_Z m * pow2 e)%Q as [n d] eqn:E.
    assert (n # d == inject_Z m * pow2 e)%Q as Eq by (rewrite E; reflexivity). clear E.
    pose proof (pow2_pos e) as Hp.
    assert (0 < inject_Z m)%Q as Hmq by (change 0%Q with (inject_Z 0); rewrite <- Zlt_Qlt; lia).
    assert (0 < n) as Hn.
    { assert (0 < n # d)%Q as Hl by (rewrite Eq; by apply Qmult_lt_0_compat). unfold Qlt in Hl. simpl in Hl. lia. }
    destruct n as [|n|n]; try lia. change (fl (Z.pos n # d)) with (fl_pos (Z.pos n) (Z.pos d)).
    destruct (fl_pos_val (Z.pos n) (Z.pos d)) as (N & D & HD & Hv & HQ & Hb); [lia..|].
    destruct (exponent_of_spec (Z.pos n) (Z.pos d)) as [Hlo Hhi]; [lia..|].
    set (k := exponent_of _ _) in *. clearbody k.
    assert (inject_Z (Z.pos n) == inject_Z m * pow2 e * inject_Z (Z.pos d))%Q as En.
    { rewrite <- Eq, (Qmake_Qdiv (Z.pos n)). field. done. }
    assert (0 < inject_Z (Z.pos d))%Q as Hd by done.
    rewrite En in Hlo. apply Qmult_le_r in Hlo; [|done].
    assert (k - 52 <= e) as Hk.
    { apply Z.le_ngt. intros Hlt.
      assert (inject_Z m < inject_Z (2 ^ 53))%Q as Hm53 by (rewrite <- Zlt_Qlt; lia).
      pose proof (pow2_le (53 + e) k ltac:(lia)) as Hp2. rewrite pow2_add, <- (pow2_Z 53) in Hp2 by lia.
      apply (Qmult_lt_r _ _ (pow2 e)) in Hm53; [|done]. lra. }
    rewrite Eq, Hv. pose proof (pow2_pos (k - 52)) as Hp52.
    assert (pow2 e == inject_Z (2 ^ (e - (k - 52))) * pow2 (k - 52))%Q as Ee.
    { rewrite pow2_Z, <- pow2_add by lia. by replace (e - (k - 52) + (k - 52)) with e by lia. }
    assert (N = m * 2 ^ (e - (k - 52)) * D) as ->.
    { apply inject_Z_injective. rewrite En in HQ. rewrite !inject_Z_mult.
      apply (Qmult_inj_r _ _ (pow2 (k - 52) * inject_Z (Z.pos d))).
      - intros H0. assert (0 < pow2 (k - 52) * inject_Z (Z.pos d))%Q by (by apply Qmult_lt_0_compat). lra.
      - transitivity (inject_Z N * pow2 (k - 52) * inject_Z (Z.pos d))%Q; [ring|]. rewrite HQ, Ee. ring. }
    assert (rdiv_even (m * 2 ^ (e - (k - 52)) * D) D = m * 2 ^ (e - (k - 52))) as ->.
    { unfold rdiv_even. rewrite Z.mod_mul, Z.div_mul by lia. by rewrite (proj2 (Z.ltb_lt _ _)) by lia. }
    rewrite Ee, inject_Z_mult. ring. }
  intros Hm. destruct (Z.le_gt_cases 0 m); [apply Hpos; lia|].
  assert (inject_Z m * pow2 e == - (inject_Z (- m) * pow2 e))%Q as -> by (rewrite inject_Z_opp; ring).
  rewrite fl_opp, Hpos by lia. reflexivity.
Qed.

Lemma fl_form q : ∃ m e, Z.abs m < 2 ^ 53 ∧ (fl q == inject_Z m * pow2 e)%Q.
Proof.
  assert (∀ n d, 0 < n → 0 < d → ∃ m e, Z.abs m < 2 ^ 53 ∧ (fl_pos n d == inject_Z m * pow2 e)%Q) as Hpos.
  { intros n d Hn Hd. destruct (fl_pos_val n d Hn Hd) as (N & D & _ & Hv & _ & Hb).
    set (e := exponent_of n d - 52) in *. destruct (Z.eq_dec (rdiv_even N D) (2 ^ 53)) as [E|Hne].
    - exists 1, (53 + e). split; [lia|]. rewrite Hv, E, pow2_add, pow2_Z by lia. ring.
    - exists (rdiv_even N D), e. split; [lia|done]. }
  destruct q as [[|n|n] d]; unfold fl; simpl.
  - exists 0, 0. split; [lia|reflexivity].
  - apply Hpos; lia.
  - destruct (Hpos (Z.pos n) (Z.pos d)) as (m & e & Hm & E); [lia..|].
    exists (- m), e. split; [lia|]. rewrite E, inject_Z_opp. ring.
Qed.

(** What rounding leaves alone. *)
Definition is_double (q : Q) : Prop := (fl q == q)%Q.

(** Rounding a number of size at most [B] moves it by at most [B / 2 ^ 53]. *)
Lemma fl_err B q : (- B <= q <= B)%Q → ∃ e, (fl q == q + e)%Q ∧ (- (B * (1 # 9007199254740992)) <= e <= B * (1 # 9007199254740992))%Q.
Proof.
  intros Hq. exists (fl q - q)%Q. split; [ring|]. destruct (Qlt_le_dec q 0) as [Hneg|Hpos].
  - pose proof (fl_rel (- q)%Q ltac:(lra)) as H. rewrite fl_opp in H. lra.
  - pose proof (fl_rel q Hpos). lra.
Qed.

Lemma fl_is_double q : is_double (fl q).
Proof. destruct (fl_form q) as (m & e & Hm & E). unfold is_double. rewrite E. by apply fl_exact. Qed.

#[export] Instance is_double_proper : Proper (Qeq ==> iff) is_double.
Proof. intros a b E. unfold is_double. by rewrite E. Qed.

Lemma inject_is_double z : Z.abs z < 2 ^ 53 → is_double (inject_Z z).
Proof.
  intros Hz. unfold is_double. pose proof (fl_exact z 0 Hz) as H.
  assert (inject_Z z * pow2 0 == inject_Z z)%Q as E by (unfold pow2; simpl; ring). by rewrite E in H.
Qed.

(** ** Operations *)

(** Rounding stays within integer bounds. *)
Lemma fl_le_Z q z : Z.abs z < 2 ^ 53 → (q <= inject_Z z → fl q <= inject_Z z)%Q.
Proof. intros Hz Hq. pose proof (inject_is_double z Hz) as E. pose proof (fl_mono _ _ Hq). unfold is_double in E. lra. Qed.
Lemma fl_ge_Z q z : Z.abs z < 2 ^ 53 → (inject_Z z <= q → inject_Z z <= fl q)%Q.
Proof. intros Hz Hq. pose proof (inject_is_double z Hz) as E. pose proof (fl_mono _ _ Hq). unfold is_double in E. lra. Qed.

Lemma dadd_mono a b c d : (a <= b → c <= d → dadd a c <= dadd b d)%Q.
Proof. intros. apply fl_mono. lra. Qed.
Lemma dsub_mono_l a b c : (a <= b → dsub a c <= dsub b c)%Q.
Proof. intros. apply fl_mono. lra. Qed.
Lemma dmul_mono_l a b c : (a <= b → 0 <= c → dmul a c <= dmul b c)%Q.
Proof. intros. apply fl_mono. by apply Qmult_le_compat_r. Qed.
Lemma ddiv_mono_l a b c : (a <= b → 0 < c → ddiv a c <= ddiv b c)%Q.
Proof. intros. apply fl_mono. apply Qmult_le_compat_r; [done|]. apply Qlt_le_weak. by apply Qinv_lt_0_compat. Qed.

Lemma fl_gt_0 q : (0 < q → 0 < fl q)%Q.
Proof. intros Hq. destruct (fl_rel q) as [H _]; [lra|]. eapply Qlt_le_trans; [|exact H]. nra. Qed.
Lemma dmul_pos a b : (0 < a → 0 < b → 0 < dmul a b)%Q.
Proof. intros. apply fl_gt_0. nra. Qed.
Lemma ddiv_pos a b : (0 < a → 0 < b → 0 < ddiv a b)%Q.
Proof. intros. apply fl_gt_0. unfold Qdiv. apply (Qmult_lt_compat_r 0); [by apply Qinv_lt_0_compat|done] || (rewrite <- (Qmult_0_l (/ b)); apply Qmult_lt_compat_r; [by apply Qinv_lt_0_compat|done]). Qed.

Lemma dmul_nonneg a b : (0 <= a → 0 <= b → 0 <= dmul a b)%Q.
Proof. intros. apply fl_nonneg. by apply Qmult_le_0_compat. Qed.
Lemma dadd_nonneg a b : (0 <= a → 0 <= b → 0 <= dadd a b)%Q.
Proof. intros. apply fl_nonneg. lra. Qed.

Lemma dadd_is_double a b : is_double (dadd a b).
Proof. apply fl_is_double. Qed.

(** Adding something to a double does not go below it. *)
Lemma dadd_grow a b : (is_double a → 0 <= b → a <= dadd a b)%Q.
Proof. intros Ha Hb. unfold is_double in Ha. rewrite <- Ha at 1. apply fl_mono. lra. Qed.

Lemma qmax_l a b : (a <= qmax a b)%Q.
Proof. unfold qmax. destruct (Qle_bool a b) eqn:E; [by apply Qle_bool_iff|lra]. Qed.
Lemma qmax_r a b : (b <= qmax a b)%Q.
Proof.
  unfold qmax. destruct (Qle_bool a b) eqn:E; [lra|]. apply Qlt_le_weak, Qnot_le_lt.
  intros H. apply Qle_bool_iff in H. congruence.
Qed.
Lemma qmin_l a b : (qmin a b <= a)%Q.
Proof.
  unfold qmin. destruct (Qle_bool a b) eqn:E; [lra|]. apply Qlt_le_weak, Qnot_le_lt.
  intros H. apply Qle_bool_iff in H. congruence.
Qed.
Lemma qmin_r a b : (qmin a b <= b)%Q.
Proof. unfold qmin. destruct (Qle_bool a b) eqn:E; [by apply Qle_bool_iff|lra]. Qed.
