(* ===== verification/Json.v ===== *)
(** * JSON text: [JSON.stringify] and [JSON.parse]

    The two functions of the language on the values the console sends through
    them.  A text is a sequence of bytes in UTF-8 (for ASCII text these are its
    code units); a number is kept as its lexeme, since the program prints
    integers and never computes with a number it has parsed here.  [parse_json]
    reads back what [stringify] prints ([parse_stringify]). *)

From S2P Require Import Prelude JsNum.
From Stdlib Require Import Ascii.
Open Scope Z_scope.

Inductive json :=
| JNull
| JBool (b : bool)
| JNum (lexeme : string)
| JStr (s : string)
| JArr (items : list json)
| JObj (fields : list (string * json)).

Definition code (c : ascii) : Z := Z.of_N (N_of_ascii c).
Definition char_of (n : Z) : ascii := ascii_of_N (Z.to_N n).

(** ** [JSON.stringify] *)

Definition dquote : ascii := "034"%char.
Definition quote_text : string := String dquote EmptyString.

Definition escape (c : ascii) : string :=
  let n := code c in
  if n =? 34 then String "\" quote_text
  else if n =? 92 then "\\"
  else if n =? 8 then "\b"
  else if n =? 9 then "\t"
  else if n =? 10 then "\n"
  else if n =? 12 then "\f"
  else if n =? 13 then "\r"
  else if n <? 32 then
    "\u00" +:+ String (digit_char (n / 16)) (String (digit_char (n mod 16)) EmptyString)
  else String c EmptyString.

Fixpoint escape_all (s : string) : string :=
  match s with
  | EmptyString => EmptyString
  | String c s' => escape c +:+ escape_all s'
  end.

Definition quoted (s : string) : string := String dquote (escape_all s +:+ quote_text).

Fixpoint commas (l : list string) : string :=
  match l with
  | [] => EmptyString
  | [x] => x
  | x :: l' => x +:+ String "," (commas l')
  end.

Fixpoint stringify (v : json) : string :=
  match v with
  | JNull => "null"
  | JBool b => if b then "true" else "false"
  | JNum n => n
  | JStr s => quoted s
  | JArr l => String "[" (commas (map stringify l) +:+ "]")
  | JObj fs => String "{" (commas (map (fun f => quoted f.1 +:+ String ":" (stringify f.2)) fs) +:+ "}")
  end.

(** An integer value, as [JSON.stringify] prints it. *)
Definition json_int (z : Z) : json := JNum (to_dec z).

(** ** [JSON.parse] *)

Definition is_ws (c : ascii) : bool := existsb (Z.eqb (code c)) [32; 9; 10; 13].
Definition is_digit (c : ascii) : bool := (48 <=? code c) && (code c <=? 57).

Fixpoint skip_ws (s : string) : string :=
  match s with
  | String c s' => if is_ws c then skip_ws s' else s
  | EmptyString => EmptyString
  end.

Definition hex_of (c : ascii) : option Z :=
  let n := code c in
  if is_digit c then Some (n - 48)
  else if (65 <=? n) && (n <=? 70) then Some (n - 55)
  else if (97 <=? n) && (n <=? 102) then Some (n - 87)
  else None.

Definition hex4 (a b c d : ascii) : option Z :=
  a ← hex_of a; b ← hex_of b; c ← hex_of c; d ← hex_of d;
  Some (((a * 16 + b) * 16 + c) * 16 + d).

(** A code point in UTF-8; a surrogate on its own takes three bytes. *)
Definition code_point (n : Z) : string :=
  if n <? 128 then String (char_of n) EmptyString
  else if n <? 2048 then String (char_of (192 + n / 64)) (String (char_of (128 + n mod 64)) EmptyString)
  else if n <? 65536 then
    String (char_of (224 + n / 4096)) (String (char_of (128 + (n / 64) mod 64))
      (String (char_of (128 + n mod 64)) EmptyString))
  else
    String (char_of (240 + n / 262144)) (String (char_of (128 + (n / 4096) mod 64))
      (String (char_of (128 + (n / 64) mod 64)) (String (char_of (128 + n mod 64)) EmptyString))).

Definition simple_escape (c : ascii) : option ascii :=
  let n := code c in
  if (n =? 34) || (n =? 92) || (n =? 47) then Some c
  else if n =? 98 then Some (char_of 8)
  else if n =? 116 then Some (char_of 9)
  else if n =? 110 then Some (char_of 10)
  else if n =? 102 then Some (char_of 12)
  else if n =? 114 then Some (char_of 13)
  else None.

(** The text of a string up to its closing quote, and what follows it.  [hi] is
    a high surrogate just read, which a low one completes. *)
Fixpoint parse_chars (hi : option Z) (s : string) : option (string * string) :=
  let flush := match hi with Some h => code_point h | None => EmptyString end in
  match s with
  | EmptyString => None
  | String c s' =>
      if code c =? 34 then Some (flush, s')
      else if code c =? 92 then
        match s' with
        | String "u" (String a (String b (String d (String e rest)))) =>
            n ← hex4 a b d e;
            match hi with
            | Some h =>
                if (56320 <=? n) && (n <? 57344) then
                  r ← parse_chars None rest;
                  Some (code_point (65536 + (h - 55296) * 1024 + (n - 56320)) +:+ r.1, r.2)
                else if (55296 <=? n) && (n <? 56320) then
                  r ← parse_chars (Some n) rest; Some (flush +:+ r.1, r.2)
                else r ← parse_chars None rest; Some (flush +:+ code_point n +:+ r.1, r.2)
            | None =>
                if (55296 <=? n) && (n <? 56320) then parse_chars (Some n) rest
                else r ← parse_chars None rest; Some (code_point n +:+ r.1, r.2)
            end
        | String e rest =>
            x ← simple_escape e; r ← parse_chars None rest; Some (flush +:+ String x r.1, r.2)
        | EmptyString => None
        end
      else if code c <? 32 then None
      else r ← parse_chars None s'; Some (flush +:+ String c r.1, r.2)
  end.

Definition parse_str (s : string) : option (string * string) :=
  match s with
  | String c s' => if code c =? 34 then parse_chars None s' else None
  | EmptyString => None
  end.

Fixpoint take_digits (s : string) : string * string :=
  match s with
  | String c s' => if is_digit c then let '(d, r) := take_digits s' in (String c d, r) else (EmptyString, s)
  | EmptyString => (EmptyString, EmptyString)
  end.

(** [-? (0 | [1-9] digits) (. digits)? ([eE] [+-]? digits)?]: the lexeme and the rest. *)
Definition parse_num (s : string) : option (string * string) :=
  let '(sign, s) := match s with String "-" s' => ("-", s') | _ => (EmptyString, s) end in
  whole ← (match s with
           | String "0" s' => Some ("0", s')
           | _ => let '(d, r) := take_digits s in
                  if decide (d = EmptyString) then None else Some (d, r)
           end);
  let '(w, s) := whole in
  frac ← (match s with
          | String "." s' => let '(d, r) := take_digits s' in
                             if decide (d = EmptyString) then None else Some (String "." d, r)
          | _ => Some (EmptyString, s)
          end);
  let '(f, s) := frac in
  exp ← (match s with
         | String c s' =>
             if (code c =? 101) || (code c =? 69) then
               let '(sg, s'') := match s' with
                                 | String "+" t => ("+", t)
                                 | String "-" t => ("-", t)
                                 | _ => (EmptyString, s')
                                 end in
               let '(d, r) := take_digits s'' in
               if decide (d = EmptyString) then None else Some (String c (sg +:+ d), r)
             else Some (EmptyString, s)
         | EmptyString => Some (EmptyString, s)
         end);
  let '(e, s) := exp in
  Some (sign +:+ w +:+ f +:+ e, s).

Fixpoint strip (pre s : string) : option string :=
  match pre, s with
  | EmptyString, _ => Some s
  | String a p, String b s' => if decide (a = b) then strip p s' else None
  | _, EmptyString => None
  end.

Definition parse_word (w : string) (v : json) (s : string) : option (json * string) :=
  r ← strip w s; Some (v, r).

(** A value, the items of an array after [\[] or [,], the members of an object. *)
Fixpoint parse_value (fuel : nat) (s : string) : option (json * string) :=
  match fuel with
  | O => None
  | S f =>
      match skip_ws s with
      | EmptyString => None
      | String c s' =>
          let n := code c in
          if n =? 34 then r ← parse_chars None s'; Some (JStr r.1, r.2)
          else if n =? 91 then
            match skip_ws s' with
            | String "]" rest => Some (JArr [], rest)
            | _ => r ← parse_items f s'; Some (JArr r.1, r.2)
            end
          else if n =? 123 then
            match skip_ws s' with
            | String "}" rest => Some (JObj [], rest)
            | _ => r ← parse_members f s'; Some (JObj r.1, r.2)
            end
          else if n =? 110 then parse_word "null" JNull (String c s')
          else if n =? 116 then parse_word "true" (JBool true) (String c s')
          else if n =? 102 then parse_word "false" (JBool false) (String c s')
          else r ← parse_num (String c s'); Some (JNum r.1, r.2)
      end
  end
with parse_items (fuel : nat) (s : string) : option (list json * string) :=
  match fuel with
  | O => None
  | S f =>
      v ← parse_value f s;
      match skip_ws v.2 with
      | String "," rest => r ← parse_items f rest; Some (v.1 :: r.1, r.2)
      | String "]" rest => Some ([v.1], rest)
      | _ => None
      end
  end
with parse_members (fuel : nat) (s : string) : option (list (string * json) * string) :=
  match fuel with
  | O => None
  | S f =>
      k ← parse_str (skip_ws s);
      match skip_ws k.2 with
      | String ":" rest =>
          v ← parse_value f rest;
          match skip_ws v.2 with
          | String "," rest' => r ← parse_members f rest'; Some ((k.1, v.1) :: r.1, r.2)
          | String "}" rest' => Some ([(k.1, v.1)], rest')
          | _ => None
          end
      | _ => None
      end
  end.

(** [JSON.parse]: [None] is the [SyntaxError]. *)
Definition parse_json (s : string) : option json :=
  r ← parse_value (2 * String.length s + 1) s;
  match skip_ws r.2 with EmptyString => Some r.1 | _ => None end.

(** [value?.key]: the last member of that name; [None] is [undefined]. *)
Definition json_field (key : string) (v : json) : option json :=
  match v with
  | JObj fs => foldl (fun acc f => if decide (f.1 = key) then Some f.2 else acc) None fs
  | _ => None
  end.

(** ** Reading back what is printed *)

Section json_ind.
Context (P : json → Prop).
Context (P_null : P JNull) (P_bool : ∀ b, P (JBool b)) (P_num : ∀ n, P (JNum n)) (P_str : ∀ s, P (JStr s)).
Context (P_arr : ∀ l, Forall P l → P (JArr l)).
Context (P_obj : ∀ fs, Forall (fun f => P f.2) fs → P (JObj fs)).

Fixpoint json_ind' (v : json) : P v :=
  match v with
  | JNull => P_null
  | JBool b => P_bool b
  | JNum n => P_num n
  | JStr s => P_str s
  | JArr l => P_arr l ((fix go l : Forall P l := match l with
                                    | [] => @List.Forall_nil _ _
                                    | v :: l' => @List.Forall_cons _ P v l' (json_ind' v) (go l')
                                    end) l)
  | JObj fs => P_obj fs ((fix go fs : Forall (fun f => P f.2) fs := match fs with
                                       | [] => @List.Forall_nil _ _
                                       | f :: fs' => @List.Forall_cons _ (fun f => P f.2) f fs' (json_ind' f.2) (go fs')
                                       end) fs)
  end.

End json_ind.

Lemma append_assoc (s t u : string) : (s +:+ t) +:+ u = s +:+ (t +:+ u).
Proof. induction s as [|c s IH]; [done|]. change (String c ((s +:+ t) +:+ u) = String c (s +:+ (t +:+ u))). by rewrite IH. Qed.

Lemma length_append s t : String.length (s +:+ t) = (String.length s + String.length t)%nat.
Proof. induction s as [|c s IH]; [done|]. change (S (String.length (s +:+ t)) = S (String.length s + String.length t)). by rewrite IH. Qed.

Lemma parse_escape c t :
  parse_chars None (escape c +:+ t) = (r ← parse_chars None t; Some (String c r.1, r.2)).
Proof.
  destruct c as [[] [] [] [] [] [] [] []]; simpl; change (EmptyString +:+ t) with t;
    destruct (parse_chars None t) as [[s k]|]; reflexivity.
Qed.

Lemma parse_escape_all s k : parse_chars None (escape_all s +:+ String dquote k) = Some (s, k).
Proof.
  induction s as [|c s IH]; [done|]. cbn [escape_all].
  by rewrite append_assoc, parse_escape, IH.
Qed.

Lemma quoted_app s k : quoted s +:+ k = String dquote (escape_all s +:+ String dquote k).
Proof.
  change (quoted s +:+ k) with (String dquote ((escape_all s +:+ quote_text) +:+ k)).
  by rewrite append_assoc.
Qed.

Lemma parse_quoted s k : parse_str (quoted s +:+ k) = Some (s, k).
Proof. rewrite quoted_app. apply parse_escape_all. Qed.

(** A lexeme that the number parser takes whole, whatever follows a value. *)
Definition ends_value (k : string) : Prop :=
  match k with
  | EmptyString => True
  | String c _ => c = ","%char ∨ c = "]"%char ∨ c = "}"%char
  end.

Definition num_head (n : string) : bool :=
  match n with String c _ => is_digit c || (code c =? 45) | EmptyString => false end.

Definition lexeme_ok (n : string) : Prop :=
  num_head n = true ∧ ∀ k, ends_value k → parse_num (n +:+ k) = Some (n, k).

Fixpoint json_ok (v : json) : Prop :=
  match v with
  | JNum n => lexeme_ok n
  | JArr l => foldr and True (map json_ok l)
  | JObj fs => foldr and True (map (fun f => json_ok f.2) fs)
  | _ => True
  end.

Lemma all_Forall {A} (P : A → Prop) l : foldr and True (map P l) ↔ Forall P l.
Proof.
  induction l as [|x l IH]; simpl; [by split; [constructor|]|]. by rewrite Forall_cons, IH.
Qed.

(** The fuel a value takes. *)
Fixpoint need (v : json) : nat :=
  match v with
  | JArr l => 2 + list_sum (map (fun v => S (need v)) l)
  | JObj fs => 2 + list_sum (map (fun f => S (need f.2)) fs)
  | _ => 1
  end.

Lemma num_head_code n k : num_head n = true → ∃ c s, n +:+ k = String c s ∧ (48 <= code c <= 57 ∨ code c = 45).
Proof.
  destruct n as [|c n]; [done|]. intros H. exists c, (n +:+ k). split; [done|].
  unfold num_head, is_digit in H. rewrite orb_true_iff, andb_true_iff, !Z.leb_le, Z.eqb_eq in H. lia.
Qed.

Lemma skip_ws_solid c s : is_ws c = false → skip_ws (String c s) = String c s.
Proof. intros H. simpl. by rewrite H. Qed.

Lemma is_ws_false c : 32 < code c → is_ws c = false.
Proof. intros H. unfold is_ws. simpl. repeat (case Z.eqb_spec; [lia|intros _]). done. Qed.

Definition parses (v : json) : Prop :=
  json_ok v → ∀ fuel k, (need v <= fuel)%nat → ends_value k →
  parse_value fuel (stringify v +:+ k) = Some (v, k).

(** What the printed value starts with is no white space and no closing bracket. *)
Lemma stringify_head v k : json_ok v → ∃ c s, stringify v +:+ k = String c s ∧ 32 < code c ∧ code c ≠ 93.
Proof.
  destruct v as [|[]|n|s|l|fs]; intros Hok.
  5: { exists dquote, (escape_all s +:+ String dquote k). split; [apply quoted_app|]. by vm_compute. }
  4: { destruct Hok as [Hn _]. change (stringify (JNum n)) with n. destruct (num_head_code n k Hn) as (c & t & -> & Hc).
       exists c, t. split; [done|lia]. }
  all: eexists _, _; (split; [reflexivity|by vm_compute]).
Qed.

Lemma parse_items_printed l fuel k :
  Forall parses l → Forall json_ok l → l ≠ [] →
  (list_sum (map (fun v => S (need v)) l) <= fuel)%nat →
  parse_items fuel (commas (map stringify l) +:+ String "]" k) = Some (l, k).
Proof.
  intros Hp. revert fuel k. induction Hp as [|v l Hv Hl IH]; intros fuel k Hok Hne Hf; [done|].
  apply Forall_cons in Hok as [Hv' Hl']. cbn [map list_sum fold_right] in Hf.
  change (fold_right Nat.add 0%nat) with list_sum in Hf. destruct fuel as [|f]; [lia|].
  cbn [parse_items]. destruct l as [|w l].
  - cbn [map commas]. rewrite Hv; [done..|simpl in Hf; lia|by right; left].
  - assert (commas (map stringify (v :: w :: l)) = stringify v +:+ String "," (commas (map stringify (w :: l))))
      as -> by done.
    rewrite append_assoc. change (String "," (commas (map stringify (w :: l))) +:+ String "]" k)
      with (String "," (commas (map stringify (w :: l)) +:+ String "]" k)).
    rewrite Hv; [|done|lia|by left]. cbn [mbind option_bind fst snd].
    rewrite skip_ws_solid by done. by rewrite IH by (done || lia).
Qed.

Definition member_text (f : string * json) : string := quoted f.1 +:+ String ":" (stringify f.2).

Lemma parse_members_printed fs fuel k :
  Forall (fun f => parses f.2) fs → Forall (fun f => json_ok f.2) fs → fs ≠ [] →
  (list_sum (map (fun f => S (need f.2)) fs) <= fuel)%nat →
  parse_members fuel (commas (map member_text fs) +:+ String "}" k) = Some (fs, k).
Proof.
  intros Hp. revert fuel k. induction Hp as [|[key v] fs Hv Hl IH]; intros fuel k Hok Hne Hf; [done|].
  apply Forall_cons in Hok as [Hv' Hl']. cbn [map list_sum fold_right snd] in Hf. cbn [snd] in Hv, Hv'.
  change (fold_right Nat.add 0%nat) with list_sum in Hf. destruct fuel as [|f]; [lia|].
  assert (∀ t, parse_str (skip_ws (member_text (key, v) +:+ t)) =
    Some (key, String ":" (stringify v +:+ t))) as Hkey.
  { intros t. unfold member_text. cbn [fst snd]. rewrite append_assoc, quoted_app, skip_ws_solid by done.
    apply parse_escape_all. }
  cbn [parse_members]. destruct fs as [|w fs].
  - cbn [map commas]. rewrite Hkey. cbn [mbind option_bind fst snd]. rewrite skip_ws_solid by done.
    rewrite Hv; [done..|simpl in Hf; lia|by right; right].
  - assert (commas (map member_text ((key, v) :: w :: fs)) =
      member_text (key, v) +:+ String "," (commas (map member_text (w :: fs)))) as -> by done.
    rewrite append_assoc. change (String "," (commas (map member_text (w :: fs))) +:+ String "}" k)
      with (String "," (commas (map member_text (w :: fs)) +:+ String "}" k)).
    rewrite Hkey. cbn [mbind option_bind fst snd]. rewrite skip_ws_solid by done.
    rewrite Hv; [|done|lia|by left]. cbn [mbind option_bind fst snd].
    rewrite skip_ws_solid by done. by rewrite IH by (done || lia).
Qed.

Lemma parse_value_printed v : parses v.
Proof.
  induction v as [|[]|n|s|l IH|fs IH] using json_ind'; intros Hok fuel k Hf Hk;
    (destruct fuel as [|f]; [simpl in Hf; lia|]).
  1-3: done.
  - destruct Hok as [Hn Hp]. change (stringify (JNum n)) with n.
    destruct (num_head_code n k Hn) as (c & t & E & Hc). specialize (Hp k Hk). rewrite E in Hp |- *.
    cbn [parse_value]. rewrite skip_ws_solid by (apply is_ws_false; lia).
    repeat (case Z.eqb_spec; [lia|intros _]). by rewrite Hp.
  - cbn [stringify parse_value]. rewrite quoted_app, skip_ws_solid by done. by rewrite parse_escape_all.
  - cbn [stringify parse_value need] in *. apply all_Forall in Hok.
    change (String "[" (commas (map stringify l) +:+ "]") +:+ k)
      with (String "[" ((commas (map stringify l) +:+ "]") +:+ k)).
    rewrite append_assoc. change ("]" +:+ k) with (String "]" k). rewrite skip_ws_solid by done.
    cbn [code]. destruct l as [|v l]; [done|].
    apply parse_items_printed with (fuel := f) (k := k) in IH; [|done..|lia].
    assert (∃ c s, commas (map stringify (v :: l)) +:+ String "]" k = String c s ∧ 32 < code c ∧ code c ≠ 93)
      as (c & t & E & Hc & Hc').
    { destruct (stringify_head v (match l with [] => String "]" k
        | w :: l' => String "," (commas (map stringify l) +:+ String "]" k) end) (Forall_inv Hok))
        as (c & t & E & Hc).
      exists c, t. split; [|done]. destruct l; [exact E|]. cbn [map commas]. rewrite append_assoc. exact E. }
    rewrite E in IH |- *. rewrite IH. change (code "[") with 91. simpl.
    rewrite (is_ws_false c Hc).
    destruct c as [[] [] [] [] [] [] [] []]; done.
  - cbn [stringify parse_value need] in *. apply all_Forall in Hok.
    change (map (fun f => quoted f.1 +:+ String ":" (stringify f.2)) fs) with (map member_text fs).
    change (String "{" (commas (map member_text fs) +:+ "}") +:+ k)
      with (String "{" ((commas (map member_text fs) +:+ "}") +:+ k)).
    rewrite append_assoc. change ("}" +:+ k) with (String "}" k). rewrite skip_ws_solid by done.
    destruct fs as [|[key v] fs]; [done|].
    apply parse_members_printed with (fuel := f) (k := k) in IH; [|done..|lia].
    assert (∃ s, commas (map member_text ((key, v) :: fs)) +:+ String "}" k = String dquote s) as (t & E).
    { cbn [map commas]. destruct (map member_text fs); rewrite ?append_assoc; unfold member_text; cbn [fst];
        rewrite append_assoc, quoted_app; by eexists. }
    rewrite E in IH |- *. by rewrite IH.
Qed.

(** The fuel of [parse_json] is enough for a printed value. *)
Lemma length_commas l : (list_sum (map String.length l) + length l <= String.length (commas l) + 1)%nat.
Proof.
  induction l as [|x l IH]; [simpl; lia|]. destruct l as [|y l]; [simpl; lia|].
  assert (commas (x :: y :: l) = x +:+ String "," (commas (y :: l))) as -> by done.
  cbn [map list_sum fold_right length] in *. change (fold_right Nat.add 0%nat) with list_sum in *.
  rewrite length_append. cbn [String.length]. lia.
Qed.

Lemma sum_needs {A} (f g : A → nat) l :
  Forall (fun x => f x <= 2 * g x)%nat l →
  (list_sum (map (fun x => S (f x)) l) <= 2 * list_sum (map g l) + length l)%nat.
Proof. induction 1; simpl in *; lia. Qed.

Lemma need_length v : json_ok v → (need v <= 2 * String.length (stringify v))%nat.
Proof.
  induction v as [|[]|n|s|l IH|fs IH] using json_ind'; intros Hok; cbn [need stringify]; try (simpl; lia).
  - destruct Hok as [Hn _]. destruct n; [done|simpl; lia].
  - apply all_Forall in Hok. cbn [String.length]. rewrite length_append.
    assert (Forall (fun v => need v <= 2 * String.length (stringify v))%nat l) as Hl.
    { rewrite Forall_forall in IH, Hok |- *. intros x Hx. apply IH; [done|by apply Hok]. }
    apply (sum_needs need (fun v => String.length (stringify v))) in Hl.
    pose proof (length_commas (map stringify l)) as Hc. rewrite map_map, length_map in Hc. simpl String.length. lia.
  - apply all_Forall in Hok. change (map (fun f => quoted f.1 +:+ String ":" (stringify f.2)) fs) with (map member_text fs).
    cbn [String.length]. rewrite length_append.
    assert (Forall (fun f => need f.2 <= 2 * String.length (stringify f.2))%nat fs) as Hl.
    { rewrite Forall_forall in IH, Hok |- *. intros x Hx. apply IH; [done|by apply Hok]. }
    apply (sum_needs (fun f => need f.2) (fun f => String.length (stringify f.2))) in Hl.
    pose proof (length_commas (map member_text fs)) as Hc. rewrite map_map, length_map in Hc.
    assert (list_sum (map (fun f => String.length (stringify f.2)) fs) <=
      list_sum (map (fun f => String.length (member_text f)) fs))%nat.
    { clear. assert (∀ f, String.length (stringify f.2) <= String.length (member_text f))%nat as H.
      { intros f. unfold member_text. rewrite length_append. cbn [String.length]. lia. }
      induction fs as [|f fs IH]; [done|]. cbn [map list_sum fold_right].
      change (fold_right Nat.add 0%nat) with list_sum. specialize (H f). lia. }
    simpl String.length. lia.
Qed.

(** [JSON.parse(JSON.stringify(v))] is [v]. *)
Lemma parse_stringify v : json_ok v → parse_json (stringify v) = Some v.
Proof.
  intros Hok. unfold parse_json. rewrite <- (append_empty_r (stringify v)) at 2.
  rewrite parse_value_printed; [done..| |done]. pose proof (need_length v Hok). lia.
Qed.

Lemma stringify_inj v w : json_ok v → json_ok w → stringify v = stringify w → v = w.
Proof. intros Hv Hw Heq. apply parse_stringify in Hv, Hw. rewrite Heq in Hv. congruence. Qed.

(** ** Integers are lexemes *)

Fixpoint all_digits (s : string) : bool :=
  match s with EmptyString => true | String c s' => is_digit c && all_digits s' end.

Lemma digit_is_digit d : 0 <= d < 10 → is_digit (digit_char d) = true.
Proof.
  intros Hd. unfold is_digit, code. rewrite digit_char_code by lia.
  rewrite (proj2 (Z.ltb_lt d 10)) by lia. apply andb_true_iff. rewrite !Z.leb_le. lia.
Qed.

Lemma radix_all_digits fuel n acc : all_digits acc = true → all_digits (radix_digits fuel 10 n acc) = true.
Proof.
  revert n acc. induction fuel as [|f IH]; intros n acc Hacc; [done|]. cbn [radix_digits].
  assert (all_digits (String (digit_char (n mod 10)) acc) = true) as H.
  { cbn [all_digits]. rewrite digit_is_digit, Hacc by dlia. done. }
  destruct (n <? 10); [done|by apply IH].
Qed.

Lemma radix_first fuel n acc :
  0 < n < 2 ^ Z.of_nat fuel → ∃ c s, radix_digits fuel 10 n acc = String c s ∧ code c ≠ 48.
Proof.
  revert n acc. induction fuel as [|f IH]; intros n acc Hn; [simpl in Hn; lia|].
  rewrite Nat2Z.inj_succ, Z.pow_succ_r in Hn by lia. cbn [radix_digits].
  destruct (Z.ltb_spec n 10) as [Hlt|Hge].
  - eexists _, _. split; [done|]. unfold code. rewrite Z.mod_small, digit_char_code by lia.
    rewrite (proj2 (Z.ltb_lt n 10)) by lia. lia.
  - apply IH. split; [dlia|]. apply Z.div_lt_upper_bound; nia.
Qed.

Lemma take_digits_all s k : all_digits s = true → ends_value k → take_digits (s +:+ k) = (s, k).
Proof.
  intros Hs Hk. induction s as [|c s IH].
  - change (EmptyString +:+ k) with k. destruct k as [|c k]; [done|].
    by destruct Hk as [->|[->| ->]].
  - cbn [all_digits] in Hs. apply andb_true_iff in Hs as [Hc Hs].
    change (String c s +:+ k) with (String c (s +:+ k)). cbn [take_digits]. by rewrite Hc, IH.
Qed.

Lemma parse_num_digits c s k :
  all_digits (String c s) = true → code c ≠ 48 → ends_value k →
  parse_num (String c s +:+ k) = Some (String c s, k) ∧
  parse_num (String "-" (String c s +:+ k)) = Some (String "-" (String c s), k).
Proof.
  intros Hd Hc Hk. pose proof (take_digits_all _ k Hd Hk) as Ht.
  assert (is_digit c = true) as Hdig by (cbn [all_digits] in Hd; apply andb_true_iff in Hd; tauto).
  change (String c s +:+ k) with (String c (s +:+ k)) in *.
  assert (code "," = 44 ∧ code "]" = 93 ∧ code "}" = 125) as (E1 & E2 & E3) by done.
  unfold parse_num.
  destruct c as [[] [] [] [] [] [] [] []]; try discriminate Hdig; try (by destruct Hc);
    rewrite Ht; cbn [mbind option_bind]; rewrite decide_False by done; cbn [mbind option_bind];
    (destruct k as [|c' k]; [|destruct Hk as [->|[->| ->]]]);
    cbn; rewrite ?E1, ?E2, ?E3;
    (split; cbn; rewrite ?append_empty_r; reflexivity).
Qed.

Lemma to_dec_lexeme z : lexeme_ok (to_dec z).
Proof.
  assert (∀ n, 0 < n → ∃ c s, radix_digits (radix_fuel n) 10 n EmptyString = String c s ∧
    all_digits (String c s) = true ∧ code c ≠ 48) as Hpos.
  { intros n Hn. destruct (radix_first (radix_fuel n) n EmptyString) as (c & s & E & Hc).
    { split; [done|]. apply radix_fuel_enough. lia. }
    exists c, s. split; [done|]. split; [|done]. rewrite <- E. by apply radix_all_digits. }
  unfold to_dec, to_radix. destruct (Z.ltb_spec z 0) as [Hz|Hz].
  - destruct (Hpos (- z) ltac:(lia)) as (c & s & -> & Hd & Hc). split; [done|].
    intros k Hk. by apply parse_num_digits.
  - destruct (Z.eq_dec z 0) as [->|Hne].
    { split; [done|]. intros [|c k] Hk; [done|]. by destruct Hk as [->|[->| ->]]. }
    destruct (Hpos z ltac:(lia)) as (c & s & -> & Hd & Hc).
    assert (is_digit c = true) as Hdig by (cbn [all_digits] in Hd; apply andb_true_iff in Hd; tauto).
    split; [unfold num_head; by rewrite Hdig|]. intros k Hk. by apply parse_num_digits.
Qed.

Lemma json_int_ok z : json_ok (json_int z).
Proof. apply to_dec_lexeme. Qed.

Lemma json_int_inj z w : json_int z = json_int w → z = w.
Proof. intros [= H]. by apply (to_radix_inj 10). Qed.

#[export] Hint Resolve json_int_ok : attesta.
