(* ===== verification/Text.v ===== *)
(** * Text of the platform: base64url, UTF-8 decoding, [trim], [split]

    What Node's [Buffer] and the language's string methods do, on the texts of
    [Json]: a string is the sequence of its UTF-8 bytes.  [b64url_decode_encode]
    and [scrub_escape_all] are the lemmas a token's round trip needs. *)

From S2P Require Import Prelude JsNum Json.
From Stdlib Require Import Ascii.
Open Scope Z_scope.

(** ** Bytes *)

Fixpoint bytes_of (s : string) : list Z :=
  match s with String c s' => code c :: bytes_of s' | EmptyString => [] end.
Fixpoint text_of (l : list Z) : string :=
  match l with b :: l' => String (char_of b) (text_of l') | [] => EmptyString end.

(** ** [Buffer.toString("base64url")] and [Buffer.from(_, "base64url")] *)

Definition b64_char (n : Z) : ascii :=
  if n <? 26 then char_of (65 + n)
  else if n <? 52 then char_of (71 + n)
  else if n <? 62 then char_of (n - 4)
  else if n =? 62 then "-"%char else "_"%char.

(** Both alphabets are read; any other character is skipped, [=] ends the text. *)
Definition b64_val (c : ascii) : option Z :=
  let n := code c in
  if (65 <=? n) && (n <=? 90) then Some (n - 65)
  else if (97 <=? n) && (n <=? 122) then Some (n - 71)
  else if (48 <=? n) && (n <=? 57) then Some (n + 4)
  else if (n =? 45) || (n =? 43) then Some 62
  else if (n =? 95) || (n =? 47) then Some 63
  else None.

Fixpoint b64url_encode (l : list Z) : string :=
  match l with
  | [] => EmptyString
  | [a] => String (b64_char (a / 4)) (String (b64_char (a mod 4 * 16)) EmptyString)
  | [a; b] =>
      String (b64_char (a / 4)) (String (b64_char (a mod 4 * 16 + b / 16))
        (String (b64_char (b mod 16 * 4)) EmptyString))
  | a :: b :: c :: l' =>
      String (b64_char (a / 4)) (String (b64_char (a mod 4 * 16 + b / 16))
        (String (b64_char (b mod 16 * 4 + c / 64)) (String (b64_char (c mod 64)) (b64url_encode l'))))
  end.

(** [bits] bits of value [acc] are waiting for a byte to be complete. *)
Fixpoint b64_from (acc bits : Z) (s : string) : list Z :=
  match s with
  | EmptyString => []
  | String c s' =>
      if code c =? 61 then [] else
      match b64_val c with
      | None => b64_from acc bits s'
      | Some v =>
          let acc' := acc * 64 + v in
          if bits <? 2 then b64_from acc' (bits + 6) s'
          else acc' / 2 ^ (bits - 2) :: b64_from (acc' mod 2 ^ (bits - 2)) (bits - 2) s'
      end
  end.
Definition b64url_decode (s : string) : list Z := b64_from 0 0 s.

(** ** [Buffer.toString("utf-8")]: an ill-formed part becomes U+FFFD *)

Definition replacement : string := text_of [239; 191; 189].

(** What is still to be read of a character: how many bytes, the range of the
    next one, and the bytes already read. *)
Record partial := mkPartial { pt_more : nat; pt_lo : Z; pt_hi : Z; pt_read : string }.

Definition utf8_start (c : ascii) : string + partial :=
  let n := code c in
  let s := String c EmptyString in
  if n <? 128 then inl s
  else if n <? 194 then inl replacement
  else if n <? 224 then inr (mkPartial 1 128 191 s)
  else if n =? 224 then inr (mkPartial 2 160 191 s)
  else if n =? 237 then inr (mkPartial 2 128 159 s)
  else if n <? 240 then inr (mkPartial 2 128 191 s)
  else if n =? 240 then inr (mkPartial 3 144 191 s)
  else if n <? 244 then inr (mkPartial 3 128 191 s)
  else if n =? 244 then inr (mkPartial 3 128 143 s)
  else inl replacement.

Definition utf8_byte (st : option partial) (c : ascii) : string * option partial :=
  let start pre :=
    match utf8_start c with inl out => (pre +:+ out, None) | inr p => (pre, Some p) end in
  match st with
  | None => start EmptyString
  | Some (mkPartial more lo hi read) =>
      if (lo <=? code c) && (code c <=? hi) then
        let read' := read +:+ String c EmptyString in
        match more with
        | S (S more') => (EmptyString, Some (mkPartial (S more') 128 191 read'))
        | _ => (read', None)
        end
      else start replacement
  end.

Fixpoint scrub (st : option partial) (s : string) : string :=
  match s with
  | EmptyString => match st with Some _ => replacement | None => EmptyString end
  | String c s' => (utf8_byte st c).1 +:+ scrub (utf8_byte st c).2 s'
  end.
Definition utf8_decode (l : list Z) : string := scrub None (text_of l).

(** A string of the language, seen through its bytes. *)
Definition well_formed (s : string) : Prop := scrub None s = s.

(** ** [trim] and [split(".")] *)

Definition spaces : list (list Z) :=
  [[9]; [10]; [11]; [12]; [13]; [32]; [194; 160]; [225; 154; 128]] ++
  ((fun k => [226; 128; 128 + Z.of_nat k]) <$> seq 0 11) ++
  [[226; 128; 168]; [226; 128; 169]; [226; 128; 175]; [226; 129; 159]; [227; 128; 128]; [239; 187; 191]].

Fixpoint first_space (candidates : list (list Z)) (s : string) : option nat :=
  match candidates with
  | [] => None
  | w :: ws =>
      if decide (take (length w) (bytes_of s) = w) then Some (length w) else first_space ws s
  end.

Fixpoint trim_start_from (fuel : nat) (s : string) : string :=
  match fuel with
  | O => s
  | S f =>
      match first_space spaces s with
      | Some n => trim_start_from f (String.substring n (String.length s - n) s)
      | None => s
      end
  end.
Definition trim_start (s : string) : string := trim_start_from (String.length s) s.

Fixpoint trim_end (s : string) : string :=
  match s with
  | EmptyString => EmptyString
  | String c s' => if decide (trim_start s = EmptyString) then EmptyString else String c (trim_end s')
  end.
Definition trim (s : string) : string := trim_end (trim_start s).

Definition lower_char (c : ascii) : ascii :=
  if (65 <=? code c) && (code c <=? 90) then char_of (code c + 32) else c.
(** [toLowerCase()] on ASCII text. *)
Fixpoint lower (s : string) : string :=
  match s with EmptyString => EmptyString | String c s' => String (lower_char c) (lower s') end.

(** [s.split(sep)] for a one-character separator; never empty. *)
Fixpoint split_on (sep : ascii) (s : string) : string * list string :=
  match s with
  | EmptyString => (EmptyString, [])
  | String c s' =>
      let r := split_on sep s' in
      if decide (c = sep) then (EmptyString, r.1 :: r.2) else (String c r.1, r.2)
  end.

Fixpoint starts_with (pre s : string) : bool :=
  match pre, s with
  | EmptyString, _ => true
  | String p pre', String c s' => Ascii.eqb p c && starts_with pre' s'
  | _, EmptyString => false
  end.

(** ** Round trips *)

Lemma str_cons c s t : String c s +:+ t = String c (s +:+ t).
Proof. reflexivity. Qed.
Lemma str_nil t : EmptyString +:+ t = t.
Proof. reflexivity. Qed.

(** Texts as nested [String] and [+:+] to the right. *)
Ltac str_norm := repeat first [rewrite append_assoc | rewrite str_cons | rewrite str_nil].

Lemma code_range c : 0 <= code c < 256.
Proof. unfold code. pose proof (N_ascii_bounded c). lia. Qed.

Lemma char_of_code c : char_of (code c) = c.
Proof. unfold char_of, code. rewrite N2Z.id. apply ascii_N_embedding. Qed.

Lemma code_char_of n : 0 <= n < 256 → code (char_of n) = n.
Proof. intros H. unfold char_of, code. rewrite N_ascii_embedding; lia. Qed.

Lemma text_of_bytes_of s : text_of (bytes_of s) = s.
Proof. induction s as [|c s IH]; [done|]. cbn. by rewrite char_of_code, IH. Qed.

Lemma bytes_of_range s : Forall (fun b => 0 <= b < 256) (bytes_of s).
Proof. induction s; constructor; [apply code_range|done]. Qed.

Lemma b64_char_spec n : 0 <= n < 64 → code (b64_char n) ≠ 61 ∧ code (b64_char n) ≠ 46 ∧ b64_val (b64_char n) = Some n.
Proof.
  intros H.
  assert (Forall (fun k => code (b64_char k) ≠ 61 ∧ code (b64_char k) ≠ 46 ∧ b64_val (b64_char k) = Some k)
            (Z.of_nat <$> seq 0 64)) as Hall by (apply (bool_decide_unpack _); by vm_compute).
  rewrite Forall_forall in Hall. apply Hall, list_elem_of_fmap. exists (Z.to_nat n).
  split; [lia|]. apply elem_of_seq. lia.
Qed.

Lemma b64_from_char acc bits n s :
  0 <= n < 64 →
  b64_from acc bits (String (b64_char n) s) =
  let acc' := acc * 64 + n in
  if bits <? 2 then b64_from acc' (bits + 6) s
  else acc' / 2 ^ (bits - 2) :: b64_from (acc' mod 2 ^ (bits - 2)) (bits - 2) s.
Proof.
  intros Hn. destruct (b64_char_spec n Hn) as (H1 & _ & H2). cbn [b64_from].
  rewrite (proj2 (Z.eqb_neq _ _)) by done. by rewrite H2.
Qed.

Ltac b64_step :=
  rewrite b64_from_char by dlia; cbv zeta;
  change (0 <? 2) with true; change (6 <? 2) with false; change (4 <? 2) with false; change (2 <? 2) with false;
  cbv iota; change (0 + 6) with 6; change (6 - 2) with 4; change (4 - 2) with 2; change (2 - 2) with 0;
  change (2 ^ 4) with 16; change (2 ^ 2) with 4; change (2 ^ 0) with 1.

Lemma b64_group a b c s :
  0 <= a < 256 → 0 <= b < 256 → 0 <= c < 256 →
  b64_from 0 0 (String (b64_char (a / 4)) (String (b64_char (a mod 4 * 16 + b / 16))
    (String (b64_char (b mod 16 * 4 + c / 64)) (String (b64_char (c mod 64)) s)))) =
  a :: b :: c :: b64_from 0 0 s.
Proof.
  intros Ha Hb Hc. do 4 b64_step. f_equal; [dlia|]. f_equal; [dlia|]. f_equal; [dlia|]. f_equal. dlia.
Qed.

Lemma b64url_decode_encode l : Forall (fun b => 0 <= b < 256) l → b64url_decode (b64url_encode l) = l.
Proof.
  unfold b64url_decode. intros Hl.
  induction l as [l IH] using (induction_ltof1 _ (@length Z)). unfold ltof in IH.
  destruct l as [|a [|b [|c l]]]; [done|..].
  - apply Forall_cons in Hl as [Ha _]. cbn [b64url_encode].
    do 2 b64_step. cbn [b64_from]. f_equal. dlia.
  - rewrite !Forall_cons in Hl. destruct Hl as (Ha & Hb & _). cbn [b64url_encode].
    do 3 b64_step. cbn [b64_from]. f_equal; [dlia|]. f_equal. dlia.
  - rewrite !Forall_cons in Hl. destruct Hl as (Ha & Hb & Hc & Hl). cbn [b64url_encode].
    rewrite b64_group by done. by rewrite IH by (done || simpl; lia).
Qed.

Lemma b64url_no_dot l : Forall (fun b => 0 <= b < 256) l → string_has "." (b64url_encode l) = false.
Proof.
  intros Hl. assert (∀ n s, 0 <= n < 64 → string_has "." (String (b64_char n) s) = string_has "." s) as Hc.
  { intros n s Hn. destruct (b64_char_spec n Hn) as (_ & H & _). simpl.
    rewrite decide_False; [done|]. intros E. by rewrite E in H. }
  induction l as [l IH] using (induction_ltof1 _ (@length Z)). unfold ltof in IH.
  destruct l as [|a [|b [|c l]]]; rewrite ?Forall_cons in Hl; cbn [b64url_encode]; [done|..].
  1-2: rewrite !Hc by dlia; done.
  destruct Hl as (Ha & Hb & Hc' & Hl). rewrite !Hc by dlia. apply IH; [simpl; lia|done].
Qed.

Lemma starts_with_app pre s : starts_with pre (pre +:+ s) = true.
Proof. induction pre as [|c pre IH]; [done|]. simpl. by rewrite Ascii.eqb_refl. Qed.

Lemma split_on_none sep s : string_has sep s = false → split_on sep s = (s, []).
Proof.
  induction s as [|c s IH]; [done|]. simpl. case_decide; [done|]. intros H'. by rewrite IH.
Qed.

Lemma split_on_app sep s t :
  string_has sep s = false → split_on sep (s +:+ String sep t) = (s, (split_on sep t).1 :: (split_on sep t).2).
Proof.
  induction s as [|c s IH]; intros H.
  - change (EmptyString +:+ String sep t) with (String sep t). simpl. by rewrite decide_True.
  - change (String c s +:+ String sep t) with (String c (s +:+ String sep t)). simpl in *.
    case_decide; [done|]. by rewrite IH.
Qed.

(** ** Well-formed texts stay well formed in JSON *)

Definition ascii_only (s : string) : Prop := Forall (fun b => b < 128) (bytes_of s).

Lemma scrub_ascii s t : ascii_only s → scrub None (s +:+ t) = s +:+ scrub None t.
Proof.
  unfold ascii_only. induction s as [|c s IH]; [done|]. cbn [bytes_of]. rewrite Forall_cons. intros [Hc Hs].
  change (String c s +:+ t) with (String c (s +:+ t)). cbn [scrub]. unfold utf8_byte, utf8_start.
  rewrite (proj2 (Z.ltb_lt _ _)) by done. cbn [fst snd]. by rewrite IH.
Qed.

Lemma escape_high c : 128 <= code c → escape c = String c EmptyString.
Proof.
  intros H. unfold escape. rewrite !(proj2 (Z.eqb_neq _ _)) by lia. by rewrite (proj2 (Z.ltb_ge _ _)) by lia.
Qed.

Lemma escape_low c : code c < 128 → ascii_only (escape c).
Proof.
  intros H. destruct c as [[] [] [] [] [] [] [] []]; try (by vm_compute in H);
    apply (bool_decide_unpack _); by vm_compute.
Qed.

(** Reading back, a character at a time, what [escape] leaves of a text. *)
Lemma escape_all_app s t : escape_all (s +:+ t) = escape_all s +:+ escape_all t.
Proof.
  induction s as [|c s IH]; [done|]. change (String c s +:+ t) with (String c (s +:+ t)).
  cbn [escape_all]. by rewrite IH, append_assoc.
Qed.

Definition high_bytes (s : string) : Prop := Forall (fun b => 128 <= b) (bytes_of s).
Definition high_partial (st : option partial) : Prop :=
  match st with Some p => high_bytes (pt_read p) ∧ 128 <= pt_lo p | None => True end.
Definition unfinished (st : option partial) : string :=
  match st with Some _ => replacement | None => EmptyString end.

Lemma bytes_of_app s t : bytes_of (s +:+ t) = bytes_of s ++ bytes_of t.
Proof.
  induction s as [|c s IH]; [done|]. change (String c s +:+ t) with (String c (s +:+ t)). cbn. by rewrite IH.
Qed.

Lemma escape_all_high s : high_bytes s → escape_all s = s.
Proof.
  unfold high_bytes. induction s as [|c s IH]; [done|]. cbn [bytes_of]. rewrite Forall_cons. intros [Hc Hs].
  cbn [escape_all]. by rewrite escape_high, IH.
Qed.

Lemma high_replacement : high_bytes replacement.
Proof. apply (bool_decide_unpack _). by vm_compute. Qed.

Lemma utf8_byte_low st c :
  high_partial st → code c < 128 → utf8_byte st c = (unfinished st +:+ String c EmptyString, None).
Proof.
  intros Hst Hc. unfold utf8_byte, utf8_start. rewrite (proj2 (Z.ltb_lt _ _)) by done.
  destruct st as [[more lo hi read]|]; [|done]. destruct Hst as [_ Hlo]. simpl in Hlo.
  by rewrite (proj2 (Z.leb_gt lo (code c))) by lia.
Qed.

Lemma high_app s t : high_bytes s → high_bytes t → high_bytes (s +:+ t).
Proof. unfold high_bytes. rewrite bytes_of_app. apply Forall_app_2. Qed.

Lemma high_char c : 128 <= code c → high_bytes (String c EmptyString).
Proof. intros. by constructor. Qed.

Lemma utf8_start_high c :
  128 <= code c → match utf8_start c with inl out => high_bytes out | inr p => high_partial (Some p) end.
Proof.
  intros Hc. pose proof high_replacement. pose proof (high_char c Hc). unfold utf8_start.
  rewrite (proj2 (Z.ltb_ge _ _)) by done.
  repeat match goal with |- context [if ?b then _ else _] => destruct b end;
    cbn; first [done | split; [done|lia]].
Qed.

Lemma utf8_byte_high st c :
  high_partial st → 128 <= code c → high_bytes (utf8_byte st c).1 ∧ high_partial (utf8_byte st c).2.
Proof.
  intros Hst Hc.
  assert (∀ pre, high_bytes pre →
    let r := match utf8_start c with inl out => (pre +:+ out, None) | inr p => (pre, Some p) end in
    high_bytes r.1 ∧ high_partial r.2) as Hstart.
  { intros pre Hpre. pose proof (utf8_start_high c Hc). destruct (utf8_start c); [|done].
    split; [by apply high_app|done]. }
  unfold utf8_byte. destruct st as [[more lo hi read]|]; [|apply Hstart; constructor].
  destruct ((lo <=? code c) && (code c <=? hi)); [|apply Hstart, high_replacement]. destruct Hst as [Hr _]. simpl in Hr.
  assert (high_bytes (read +:+ String c EmptyString)) by (by apply high_app, high_char).
  destruct more as [|[|more]]; cbn [fst snd].
  1-2: by split.
  split; [constructor|]. by split; [|simpl; lia].
Qed.

Lemma scrub_escape_all_from st s :
  high_partial st → scrub st (escape_all s) = escape_all (scrub st s).
Proof.
  revert st. induction s as [|c s IH]; intros st Hst.
  { destruct st as [p|]; [symmetry; apply escape_all_high, high_replacement|reflexivity]. }
  cbn [escape_all scrub]. destruct (Z.lt_ge_cases (code c) 128) as [Hc|Hc].
  - rewrite (utf8_byte_low st c Hst Hc). cbn [fst snd]. rewrite !append_assoc, !escape_all_app.
    rewrite (escape_all_high (unfinished st)) by (destruct st; [apply high_replacement|constructor]).
    change (String c EmptyString +:+ scrub None s) with (String c (scrub None s)). cbn [escape_all].
    rewrite <- IH by done. pose proof (escape_low c Hc) as He.
    assert (∃ d e, escape c = String d e) as (d & e & Ed).
    { unfold escape. repeat case_match; by do 2 eexists. }
    rewrite Ed in He |- *. unfold ascii_only in He. cbn [bytes_of] in He. apply Forall_cons in He as [Hd He].
    change (String d e +:+ escape_all s) with (String d (e +:+ escape_all s)). cbn [scrub].
    rewrite (utf8_byte_low st d Hst Hd). cbn [fst snd]. rewrite scrub_ascii by done. by rewrite !append_assoc.
  - destruct (utf8_byte_high st c Hst Hc) as [H1 H2].
    rewrite escape_high, escape_all_app, (escape_all_high (utf8_byte st c).1), <- IH by done. reflexivity.
Qed.

Lemma well_formed_escape_all s : well_formed s → well_formed (escape_all s).
Proof. unfold well_formed. intros H. rewrite scrub_escape_all_from by done. by rewrite H. Qed.

Lemma scrub_app_low st s c t :
  high_partial st → code c < 128 → scrub st (s +:+ String c t) = scrub st s +:+ String c (scrub None t).
Proof.
  intros Hst Hc. revert st Hst. induction s as [|d s IH]; intros st Hst.
  { change (EmptyString +:+ String c t) with (String c t). cbn [scrub]. rewrite (utf8_byte_low st c Hst Hc).
    cbn [fst snd]. by rewrite append_assoc; destruct st. }
  change (String d s +:+ String c t) with (String d (s +:+ String c t)). cbn [scrub].
  rewrite IH; [by rewrite append_assoc|]. destruct (Z.lt_ge_cases (code d) 128) as [Hd|Hd].
  - by rewrite (utf8_byte_low st d Hst Hd).
  - by apply utf8_byte_high.
Qed.

Lemma well_formed_ascii s : ascii_only s → well_formed s.
Proof. intros H. unfold well_formed. rewrite <- (append_empty_r s) at 1. by rewrite scrub_ascii, append_empty_r. Qed.

(** A well-formed text between two ASCII ones, the second not empty. *)
Lemma well_formed_between s m c t :
  ascii_only s → well_formed m → ascii_only (String c t) → well_formed (s +:+ (m +:+ String c t)).
Proof.
  intros Hs Hm Ht. unfold well_formed. rewrite scrub_ascii by done. unfold ascii_only in Ht. cbn [bytes_of] in Ht.
  apply Forall_cons in Ht as [Hc Ht]. rewrite scrub_app_low by done. rewrite Hm.
  by rewrite (well_formed_ascii t Ht).
Qed.

Lemma ascii_only_app s t : ascii_only s → ascii_only t → ascii_only (s +:+ t).
Proof. unfold ascii_only. rewrite bytes_of_app. apply Forall_app_2. Qed.
