(* ===== verification/View.v ===== *)
(** * What a component renders

    A component's result is a forest of elements: the tag (or the imported
    component's name), the attributes that carry meaning ([data-testid], [role],
    [aria-*], [href], [disabled], values and the like) and the children.  Class
    names, inline styles, icons and animation settings are left out, since they
    have no meaning beyond the look; [when] is [cond && <X/>], [None] attributes
    are [undefined] ones, which React does not print. *)

From S2P Require Import Prelude.
Open Scope Z_scope.

Inductive view :=
| Txt (s : string)
| El (tag : string) (attrs : list (string * option string)) (children : list view).

(** [{cond && v}] and [{cond ? v : null}] *)
Definition when (b : bool) (v : view) : list view := if b then [v] else [].
(** An attribute of a boolean: [aria-selected={b}]. *)
Definition bool_attr (b : bool) : option string := Some (if b then "true" else "false").
(** A boolean property of an element, [disabled={b}]. *)
Definition flag_attr (b : bool) : option string := if b then Some "" else None.

Definition attr (name : string) (v : view) : option string :=
  match v with
  | Txt _ => None
  | El _ attrs _ =>
      foldr (fun a acc => if decide (a.1 = name) then a.2 else acc) None attrs
  end.

(** Every element, the root and its descendants, in document order. *)
Fixpoint elements (v : view) : list view :=
  match v with
  | Txt _ => []
  | El _ _ children => v :: mjoin (map elements children)
  end.
Definition elements_of (vs : list view) : list view := mjoin (map elements vs).

(** The elements that satisfy a test, as [querySelectorAll] lists them. *)
Definition select (f : view → bool) (vs : list view) : list view := List.filter f (elements_of vs).
Definition by_attr (name value : string) : list view → list view :=
  select (fun v => bool_decide (attr name v = Some value)).
Definition by_role : string → list view → list view := by_attr "role".
Definition by_testid : string → list view → list view := by_attr "data-testid".
Definition tag_of (v : view) : option string := match v with El t _ _ => Some t | Txt _ => None end.
Definition by_tag (tag : string) : list view → list view := select (fun v => bool_decide (tag_of v = Some tag)).

(** [textContent] *)
Fixpoint text_content (v : view) : string :=
  match v with
  | Txt s => s
  | El _ _ children => foldr String.append EmptyString (map text_content children)
  end.
Definition text_contents (vs : list view) : string := foldr String.append EmptyString (map text_content vs).

(** ** The shared frames: page-header.tsx and empty-state.tsx *)

Definition PageHeader (title : string) (description : option string) : view :=
  El "div" []
   [El "div" []
     (El "h1" [] [Txt title] ::
      match description with
      | Some d => when (negb (bool_decide (d = ""))) (El "p" [] [Txt d])
      | None => []
      end)].

Definition EmptyState (title description phaseNote : string) : view :=
  El "div" []
   [El "div" [] [El "h2" [] [Txt title]; El "p" [] [Txt description]];
    El "span" [] [Txt phaseNote]].

Lemma elements_of_app vs ws : elements_of (vs ++ ws) = elements_of vs ++ elements_of ws.
Proof. unfold elements_of. by rewrite map_app, join_app. Qed.

Lemma select_app f vs ws : select f (vs ++ ws) = select f vs ++ select f ws.
Proof. unfold select. by rewrite elements_of_app, List.filter_app. Qed.

Lemma select_cons f v vs : select f (v :: vs) = select f [v] ++ select f vs.
Proof. apply (select_app f [v] vs). Qed.

Lemma select_cons2 f v w vs : select f (v :: w :: vs) = select f [v] ++ select f (w :: vs).
Proof. apply select_cons. Qed.

Lemma by_attr_cons name value v vs :
  by_attr name value (v :: vs) = by_attr name value [v] ++ by_attr name value vs.
Proof. apply select_cons. Qed.

(** Looking inside an element that does not satisfy the test itself. *)
Lemma select_inside f tag attrs children :
  f (El tag attrs children) = false → select f [El tag attrs children] = select f children.
Proof. intros H. unfold select, elements_of. cbn [map elements mjoin list_join]. rewrite app_nil_r. cbn [List.filter]. by rewrite H. Qed.

(** An element that satisfies it. *)
Lemma select_hit f tag attrs children :
  f (El tag attrs children) = true →
  select f [El tag attrs children] = El tag attrs children :: select f children.
Proof. intros H. unfold select, elements_of. cbn [map elements mjoin list_join]. rewrite app_nil_r. cbn [List.filter]. by rewrite H. Qed.

(** What is selected in each item of a list. *)
Lemma select_map {A} f (item : A → view) (g : A → list view) l :
  (∀ x, x ∈ l → select f [item x] = g x) → select f (map item l) = mjoin (map g l).
Proof.
  intros H. induction l as [|x l IH]; [done|]. cbn [map]. rewrite select_cons, H by left.
  rewrite IH; [done|]. intros y Hy. apply H. by right.
Qed.

(** A list whose items hold nothing that satisfies the test. *)
Lemma select_map_nil {A} f (item : A → view) l :
  (∀ x, x ∈ l → select f [item x] = []) → select f (map item l) = [].
Proof. intros H. rewrite (select_map f item (fun _ => [])) by done. by apply mjoin_map_nil. Qed.

(** ** Grids *)

(** What the grid role asks of a table of [n] columns: a header and cells for each
    column in every row, and at most one selected row. *)
Record grid_ok (n : nat) (v : view) : Prop := {
  go_role : attr "role" v = Some "grid";
  go_headers : length (by_role "columnheader" [v]) = n;
  go_rows : ∃ header rows, by_role "row" [v] = header :: rows ∧
    length (by_role "columnheader" [header]) = n ∧ Forall (fun r => length (by_role "gridcell" [r]) = n) rows;
  go_one : (length (by_attr "aria-selected" "true" [v]) <= 1)%nat;
}.

(** What a grid is read by. *)
Definition grid_marks : list (string * string) :=
  [("role", "row"); ("role", "gridcell"); ("role", "columnheader"); ("aria-selected", "true")].

Lemma mark_in m : bool_decide (m ∈ grid_marks) = true → m ∈ grid_marks.
Proof. apply bool_decide_eq_true. Qed.

(** Each mark in turn. *)
Ltac mark_cases Hm := unfold grid_marks in Hm; rewrite !elem_of_cons in Hm;
  destruct Hm as [->|[->|[->|[->|Hm]]]]; [..|by apply not_elem_of_nil in Hm]; unfold by_attr in *; cbn [fst snd] in *.
Ltac look := first [rewrite select_inside by done | rewrite select_hit by done].
