(* ===== verification/Ui.v ===== *)
(** * User interface primitives: web/src/components/ui

    The wrappers the surfaces are made of.  A wrapper is a function of the
    properties it consumes (an [option], whose default is the source's), of the
    properties it hands on and of its children; the elements of the component
    libraries under it are elements named as they are imported.  [{...props}]
    comes after the wrapper's own attributes, so that a caller's attribute wins
    ([spread]).  Class names and icons' sizes are left out. *)

From S2P Require Import Prelude JsNum View.
Open Scope Z_scope.

Definition props : Type := list (string * option string).

(** Attributes written before [{...props}]: a later one of the same name replaces
    an earlier one, and [attr] reads the first of a list. *)
Definition spread (tag : string) (own : props) (ps : props) (children : list view) : view := El tag (ps ++ own) children.

(** A wrapper that only adds its slot. *)
Definition slot (tag name : string) (ps : props) (children : list view) : view :=
  spread tag [("data-slot", Some name)] ps children.

(** [data-inset={inset}] of an optional flag. *)
Definition inset_attr (inset : option bool) : string * option string := ("data-inset", inset ≫= bool_attr).

(** ** button.tsx and badge.tsx *)

Definition comp (asChild : option bool) (tag : string) : string := if default false asChild then "Slot.Root" else tag.

Definition Button (variant size : option string) (asChild : option bool) : props → list view → view :=
  spread (comp asChild "button")
    [("data-slot", Some "button"); ("data-variant", Some (default "default" variant)); ("data-size", Some (default "default" size))].
Definition Badge (variant : option string) (asChild : option bool) : props → list view → view :=
  spread (comp asChild "span") [("data-slot", Some "badge"); ("data-variant", Some (default "default" variant))].

(** ** input.tsx, textarea.tsx, label.tsx, separator.tsx, scroll-area.tsx *)

Definition Input (type : option string) (ps : props) : view := spread "input" [("type", type); ("data-slot", Some "input")] ps [].
Definition Textarea : props → list view → view := slot "textarea" "textarea".
Definition Label : props → list view → view := slot "LabelPrimitive.Root" "label".
Definition Separator (orientation : option string) (decorative : option bool) (ps : props) : view :=
  spread "SeparatorPrimitive.Root"
    [("data-slot", Some "separator"); ("decorative", bool_attr (default true decorative));
     ("orientation", Some (default "horizontal" orientation))] ps [].

Definition ScrollBar (orientation : option string) (ps : props) : view :=
  let o := Some (default "vertical" orientation) in
  spread "ScrollAreaPrimitive.ScrollAreaScrollbar"
    [("data-slot", Some "scroll-area-scrollbar"); ("data-orientation", o); ("orientation", o)] ps
    [El "ScrollAreaPrimitive.ScrollAreaThumb" [("data-slot", Some "scroll-area-thumb")] []].
Definition ScrollArea (ps : props) (children : list view) : view :=
  slot "ScrollAreaPrimitive.Root" "scroll-area" ps
    [El "ScrollAreaPrimitive.Viewport" [("data-slot", Some "scroll-area-viewport")] children;
     ScrollBar None []; El "ScrollAreaPrimitive.Corner" [] []].

(** ** card.tsx and avatar.tsx *)

Definition Card (size : option string) : props → list view → view :=
  spread "div" [("data-slot", Some "card"); ("data-size", Some (default "default" size))].
Definition CardHeader : props → list view → view := slot "div" "card-header".
Definition CardTitle : props → list view → view := slot "div" "card-title".
Definition CardDescription : props → list view → view := slot "div" "card-description".
Definition CardAction : props → list view → view := slot "div" "card-action".
Definition CardContent : props → list view → view := slot "div" "card-content".
Definition CardFooter : props → list view → view := slot "div" "card-footer".

Definition Avatar (size : option string) : props → list view → view :=
  spread "AvatarPrimitive.Root" [("data-slot", Some "avatar"); ("data-size", Some (default "default" size))].
Definition AvatarImage : props → list view → view := slot "AvatarPrimitive.Image" "avatar-image".
Definition AvatarFallback : props → list view → view := slot "AvatarPrimitive.Fallback" "avatar-fallback".
Definition AvatarBadge : props → list view → view := slot "span" "avatar-badge".
Definition AvatarGroup : props → list view → view := slot "div" "avatar-group".
Definition AvatarGroupCount : props → list view → view := slot "div" "avatar-group-count".

(** ** tooltip.tsx *)

Definition TooltipProvider (delayDuration : option Z) : props → list view → view :=
  spread "TooltipPrimitive.Provider"
    [("data-slot", Some "tooltip-provider"); ("delayDuration", Some (to_dec (default 0 delayDuration)))].
Definition Tooltip : props → list view → view := slot "TooltipPrimitive.Root" "tooltip".
Definition TooltipTrigger : props → list view → view := slot "TooltipPrimitive.Trigger" "tooltip-trigger".
Definition TooltipContent (sideOffset : option Z) (ps : props) (children : list view) : view :=
  El "TooltipPrimitive.Portal" []
    [spread "TooltipPrimitive.Content"
       [("data-slot", Some "tooltip-content"); ("sideOffset", Some (to_dec (default 0 sideOffset)))] ps
       (children ++ [El "TooltipPrimitive.Arrow" [] []])].

(** ** dialog.tsx and sheet.tsx *)

(** The button of the corner. *)
Definition corner_close (primitive name : string) : view :=
  El primitive [("data-slot", Some name); ("asChild", bool_attr true)]
    [Button (Some "ghost") (Some "icon-sm") None [] [El "XIcon" [] []; El "span" [] [Txt "Close"]]].

Definition Dialog : props → list view → view := slot "DialogPrimitive.Root" "dialog".
Definition DialogTrigger : props → list view → view := slot "DialogPrimitive.Trigger" "dialog-trigger".
Definition DialogPortal : props → list view → view := slot "DialogPrimitive.Portal" "dialog-portal".
Definition DialogClose : props → list view → view := slot "DialogPrimitive.Close" "dialog-close".
Definition DialogOverlay : props → list view → view := slot "DialogPrimitive.Overlay" "dialog-overlay".
Definition DialogContent (showCloseButton : option bool) (ps : props) (children : list view) : view :=
  DialogPortal []
    [DialogOverlay [] [];
     slot "DialogPrimitive.Content" "dialog-content" ps
       (children ++ when (default true showCloseButton) (corner_close "DialogPrimitive.Close" "dialog-close"))].
Definition DialogHeader : props → list view → view := slot "div" "dialog-header".
Definition DialogFooter (showCloseButton : option bool) (ps : props) (children : list view) : view :=
  slot "div" "dialog-footer" ps
    (children ++ when (default false showCloseButton)
       (El "DialogPrimitive.Close" [("asChild", bool_attr true)] [Button (Some "outline") None None [] [Txt "Close"]])).
Definition DialogTitle : props → list view → view := slot "DialogPrimitive.Title" "dialog-title".
Definition DialogDescription : props → list view → view := slot "DialogPrimitive.Description" "dialog-description".

Definition Sheet : props → list view → view := slot "SheetPrimitive.Root" "sheet".
Definition SheetTrigger : props → list view → view := slot "SheetPrimitive.Trigger" "sheet-trigger".
Definition SheetClose : props → list view → view := slot "SheetPrimitive.Close" "sheet-close".
Definition SheetPortal : props → list view → view := slot "SheetPrimitive.Portal" "sheet-portal".
Definition SheetOverlay : props → list view → view := slot "SheetPrimitive.Overlay" "sheet-overlay".
Definition SheetContent (side : option string) (showCloseButton : option bool) (ps : props) (children : list view) : view :=
  SheetPortal []
    [SheetOverlay [] [];
     spread "SheetPrimitive.Content" [("data-slot", Some "sheet-content"); ("data-side", Some (default "right" side))] ps
       (children ++ when (default true showCloseButton) (corner_close "SheetPrimitive.Close" "sheet-close"))].
Definition SheetHeader : props → list view → view := slot "div" "sheet-header".
Definition SheetFooter : props → list view → view := slot "div" "sheet-footer".
Definition SheetTitle : props → list view → view := slot "SheetPrimitive.Title" "sheet-title".
Definition SheetDescription : props → list view → view := slot "SheetPrimitive.Description" "sheet-description".

(** ** dropdown-menu.tsx *)

Definition menu (part name : string) : props → list view → view := slot ("DropdownMenuPrimitive." +:+ part) ("dropdown-menu" +:+ name).
Definition DropdownMenu : props → list view → view := menu "Root" EmptyString.
Definition DropdownMenuPortal : props → list view → view := menu "Portal" "-portal".
Definition DropdownMenuTrigger : props → list view → view := menu "Trigger" "-trigger".
Definition DropdownMenuContent (align : option string) (sideOffset : option Z) (ps : props) (children : list view) : view :=
  El "DropdownMenuPrimitive.Portal" []
    [spread "DropdownMenuPrimitive.Content"
       [("data-slot", Some "dropdown-menu-content"); ("sideOffset", Some (to_dec (default 4 sideOffset)));
        ("align", Some (default "start" align))] ps children].
Definition DropdownMenuGroup : props → list view → view := menu "Group" "-group".
Definition DropdownMenuItem (inset : option bool) (variant : option string) : props → list view → view :=
  spread "DropdownMenuPrimitive.Item"
    [("data-slot", Some "dropdown-menu-item"); inset_attr inset; ("data-variant", Some (default "default" variant))].

(** The mark of a chosen item. *)
Definition menu_mark (name : string) : view :=
  El "span" [("data-slot", Some name)] [El "DropdownMenuPrimitive.ItemIndicator" [] [El "CheckIcon" [] []]].

Definition DropdownMenuCheckboxItem (checked : option string) (inset : option bool) (ps : props) (children : list view) : view :=
  spread "DropdownMenuPrimitive.CheckboxItem"
    [("data-slot", Some "dropdown-menu-checkbox-item"); inset_attr inset; ("checked", checked)] ps
    (menu_mark "dropdown-menu-checkbox-item-indicator" :: children).
Definition DropdownMenuRadioGroup : props → list view → view := menu "RadioGroup" "-radio-group".
Definition DropdownMenuRadioItem (inset : option bool) (ps : props) (children : list view) : view :=
  spread "DropdownMenuPrimitive.RadioItem" [("data-slot", Some "dropdown-menu-radio-item"); inset_attr inset] ps
    (menu_mark "dropdown-menu-radio-item-indicator" :: children).
Definition DropdownMenuLabel (inset : option bool) : props → list view → view :=
  spread "DropdownMenuPrimitive.Label" [("data-slot", Some "dropdown-menu-label"); inset_attr inset].
Definition DropdownMenuSeparator : props → list view → view := menu "Separator" "-separator".
Definition DropdownMenuShortcut : props → list view → view := slot "span" "dropdown-menu-shortcut".
Definition DropdownMenuSub : props → list view → view := menu "Sub" "-sub".
Definition DropdownMenuSubTrigger (inset : option bool) (ps : props) (children : list view) : view :=
  spread "DropdownMenuPrimitive.SubTrigger" [("data-slot", Some "dropdown-menu-sub-trigger"); inset_attr inset] ps
    (children ++ [El "ChevronRightIcon" [] []]).
Definition DropdownMenuSubContent : props → list view → view := menu "SubContent" "-sub-content".

(** ** select.tsx *)

Definition Select : props → list view → view := slot "SelectPrimitive.Root" "select".
Definition SelectGroup : props → list view → view := slot "SelectPrimitive.Group" "select-group".
Definition SelectValue : props → list view → view := slot "SelectPrimitive.Value" "select-value".
Definition SelectTrigger (size : option string) (ps : props) (children : list view) : view :=
  spread "SelectPrimitive.Trigger" [("data-slot", Some "select-trigger"); ("data-size", Some (default "default" size))] ps
    (children ++ [El "SelectPrimitive.Icon" [("asChild", bool_attr true)] [El "ChevronDownIcon" [] []]]).
Definition SelectScrollUpButton (ps : props) : view :=
  slot "SelectPrimitive.ScrollUpButton" "select-scroll-up-button" ps [El "ChevronUpIcon" [] []].
Definition SelectScrollDownButton (ps : props) : view :=
  slot "SelectPrimitive.ScrollDownButton" "select-scroll-down-button" ps [El "ChevronDownIcon" [] []].
Definition SelectContent (position align : option string) (ps : props) (children : list view) : view :=
  let position := default "item-aligned" position in
  El "SelectPrimitive.Portal" []
    [spread "SelectPrimitive.Content"
       [("data-slot", Some "select-content"); ("data-align-trigger", bool_attr (bool_decide (position = "item-aligned")));
        ("position", Some position); ("align", Some (default "center" align))] ps
       [SelectScrollUpButton [];
        El "SelectPrimitive.Viewport" [("data-position", Some position)] children;
        SelectScrollDownButton []]].
Definition SelectLabel : props → list view → view := slot "SelectPrimitive.Label" "select-label".
Definition SelectItem (ps : props) (children : list view) : view :=
  slot "SelectPrimitive.Item" "select-item" ps
    [El "span" [] [El "SelectPrimitive.ItemIndicator" [] [El "CheckIcon" [] []]];
     El "SelectPrimitive.ItemText" [] children].
Definition SelectSeparator : props → list view → view := slot "SelectPrimitive.Separator" "select-separator".

(** ** input-group.tsx *)

Definition InputGroup : props → list view → view := spread "div" [("data-slot", Some "input-group"); ("role", Some "group")].
Definition InputGroupAddon (align : option string) : props → list view → view :=
  spread "div" [("role", Some "group"); ("data-slot", Some "input-group-addon"); ("data-align", Some (default "inline-start" align))].

(** Its click handler: what gets the focus.  [inButton] is whether the target is in a
    button; [siblings] is what the parent holds. *)
Definition addon_click (inButton : bool) (siblings : list view) : option view :=
  if inButton then None else head (by_tag "input" siblings).

Definition InputGroupButton (type variant size : option string) (ps : props) (children : list view) : view :=
  Button (Some (default "ghost" variant)) None None
    (ps ++ [("type", Some (default "button" type)); ("data-size", Some (default "xs" size))]) children.
Definition InputGroupText : props → list view → view := spread "span" [].
Definition InputGroupInput (type : option string) (ps : props) : view :=
  Input type (ps ++ [("data-slot", Some "input-group-control")]).
Definition InputGroupTextarea (ps : props) : list view → view :=
  Textarea (ps ++ [("data-slot", Some "input-group-control")]).

(** ** command.tsx *)

Definition Command : props → list view → view := slot "CommandPrimitive" "command".
Definition CommandDialog (title description : option string) (showCloseButton : option bool) (ps : props) (children : list view) : view :=
  Dialog ps
    [DialogHeader []
       [DialogTitle [] [Txt (default "Command Palette" title)];
        DialogDescription [] [Txt (default "Search for a command to run..." description)]];
     DialogContent (Some (default false showCloseButton)) [] [Command [] children]].
Definition CommandInput (ps : props) : view :=
  El "div" [("data-slot", Some "command-input-wrapper")]
    [InputGroup []
       [slot "CommandPrimitive.Input" "command-input" ps [];
        InputGroupAddon None [] [El "SearchIcon" [] []]]].
Definition CommandList : props → list view → view := slot "CommandPrimitive.List" "command-list".
Definition CommandEmpty : props → list view → view := slot "CommandPrimitive.Empty" "command-empty".
Definition CommandGroup : props → list view → view := slot "CommandPrimitive.Group" "command-group".
Definition CommandSeparator : props → list view → view := slot "CommandPrimitive.Separator" "command-separator".
Definition CommandItem (ps : props) (children : list view) : view :=
  slot "CommandPrimitive.Item" "command-item" ps (children ++ [El "CheckIcon" [] []]).
Definition CommandShortcut : props → list view → view := slot "span" "command-shortcut".
