(* ===== verification/Shortcuts.v ===== *)
(** * Surfaces and shortcuts: web/src/lib/shortcuts.ts, and the roles of lib/auth/session.ts

    The console's surfaces, with the key of their [g] chord and the roles they
    are restricted to, and the shortcut lists of the help overlay. *)

From S2P Require Import Prelude.
Open Scope Z_scope.

Inductive Role := analyst | senior | engineer | admin | auditor.

#[export] Instance role_eq_dec : EqDecision Role.
Proof. solve_decision. Defined.

Definition ROLES : list Role := [analyst; senior; engineer; admin; auditor].

Definition role_name (r : Role) : string :=
  match r with
  | analyst => "analyst" | senior => "senior" | engineer => "engineer"
  | admin => "admin" | auditor => "auditor"
  end.

(** The icon is left out. *)
Record ConsoleSurface := mkConsoleSurface {
  su_href : string;
  su_label : string;
  su_chordKey : string;
  su_roles : option (list string);
}.

Definition SURFACES : list ConsoleSurface :=
  [mkConsoleSurface "/" "Watchfloor" "w" None;
   mkConsoleSurface "/investigation-canvas" "Investigation Canvas" "i" None;
   mkConsoleSurface "/timeline" "Timeline Reconstructor" "t" None;
   mkConsoleSurface "/verdict-ledger" "Verdict Ledger" "v" None;
   mkConsoleSurface "/drift-monitor" "Drift Monitor" "d" None;
   mkConsoleSurface "/response-console" "Response Console" "r" None;
   mkConsoleSurface "/coverage-map" "Coverage Map" "c" None;
   mkConsoleSurface "/detection-studio" "Detection Studio" "s" None;
   mkConsoleSurface "/tenant-admin" "Tenant Admin" "a" (Some ["admin"; "auditor"])].

(** [SURFACES.filter((s) => !s.roles || s.roles.includes(session.role))] *)
Definition surface_open (r : Role) (s : ConsoleSurface) : bool :=
  match su_roles s with None => true | Some roles => bool_decide (role_name r ∈ roles) end.
Definition reachableSurfaces (r : Role) : list ConsoleSurface := List.filter (surface_open r) SURFACES.

Record ShortcutEntry := mkShortcut { sc_keys : string; sc_description : string }.

Definition QUEUE_SHORTCUTS : list ShortcutEntry :=
  [mkShortcut "j" "Next case in the queue";
   mkShortcut "k" "Previous case in the queue";
   mkShortcut "e" "Escalate the selected case";
   mkShortcut "d" "Dismiss the selected case, with reason";
   mkShortcut "i" "Open the selected case's investigation"].

Definition GLOBAL_SHORTCUTS : list ShortcutEntry :=
  [mkShortcut "/" "Open the command palette";
   mkShortcut "⌘/Ctrl K" "Open the command palette";
   mkShortcut "?" "Show this shortcut reference";
   mkShortcut "g then a letter" "Jump to a surface (see below)";
   mkShortcut "Esc" "Close the open dialog or overlay"].

Definition surfaceChordShortcuts : list ShortcutEntry :=
  (fun s => mkShortcut ("g " +:+ su_chordKey s) (su_label s)) <$> SURFACES.

(** The chord keys name one surface each. *)
Lemma chord_keys_distinct : NoDup (su_chordKey <$> SURFACES).
Proof. apply (bool_decide_unpack _). by vm_compute. Qed.

Lemma hrefs_distinct : NoDup (su_href <$> SURFACES).
Proof. apply (bool_decide_unpack _). by vm_compute. Qed.
