(* ===== verification/Rng.v ===== *)
(** * The pseudo-random generator: web/src/lib/data/rng.ts

    The class [Xorshift32] as functions on its 32-bit state.  Drawing is a
    computation in the monad [M Z] of Prelude, whose state is the generator's
    private field [state]. *)

From S2P Require Import Prelude JsNum.
From Stdlib Require Import QArith Qround Lqa.
Open Scope Z_scope.

Module Xorshift32.

(** The constructor: [this.state = seed | 0 || 0xdeadbeef]. *)
Definition create (seed : Z) : Z := if int32 seed =? 0 then 3735928559 else int32 seed.

(** The three xor-shifts of [next], and the state they leave. *)
Definition advance (state : Z) : Z :=
  let x := js_xor state (js_shl state 13) in
  let x := js_xor x (js_ushr x 17) in
  let x := js_xor x (js_shl x 5) in
  int32 x.

(** [next()]: the new state as an unsigned word over [0xffffffff], a double. *)
Definition next : M Z Q := fun state =>
  let x := advance state in (x, Ok (ddiv (inject_Z (uint32 x)) (inject_Z 4294967295))).

(** [int(min, max)]. *)
Definition int (min max : Z) : M Z Z :=
  q ← next;
  mret (min + js_floor (dmul q (inject_Z (max - min + 1)))).

(** [items[this.int(0, items.length - 1)]]: [None] is [undefined]. *)
Definition pick_opt {T} (items : list T) : M Z (option T) :=
  i ← int 0 (Z.of_nat (length items) - 1);
  mret (if i <? 0 then None else items !! Z.to_nat i).

(** [pick], where the caller goes on to use the element. *)
Definition pick {T} (items : list T) : M Z T :=
  o ← pick_opt items;
  lift (or_throw Undefined o).

(** The loop of [pickN]: [pool.splice(idx, 1)] after each draw. *)
Fixpoint pickN_loop {T} (n : nat) (pool out : list T) : M Z (list T) :=
  match n, pool with
  | O, _ => mret out
  | _, [] => mret out
  | S n', _ =>
      idx ← int 0 (Z.of_nat (length pool) - 1);
      x ← lift (or_throw Undefined (if idx <? 0 then None else pool !! Z.to_nat idx));
      pickN_loop n' (delete (Z.to_nat idx) pool) (out ++ [x])
  end.

Definition pickN {T} (items : list T) (n : Z) : M Z (list T) :=
  pickN_loop (Z.to_nat n) items [].

(** [bool(pTrue)]: [pTrue] is a double. *)
Definition bool_ (pTrue : Q) : M Z bool := q ← next; mret (Qltb q (fl pTrue)).

(** The state whose word is [0xffffffff], on which [next] is exactly 1. *)
Definition top_word (state : Z) : bool := uint32 (advance state) =? 4294967295.

#[global] Arguments advance : simpl never.
#[global] Arguments top_word : simpl never.
#[global] Arguments create : simpl never.

(** ** The state is never zero *)

Lemma xor_shl_zero s k :
  0 < k < 32 → uint32 (js_xor s (js_shl s k)) = 0 → uint32 s = 0.
Proof.
  intros Hk. rewrite uint32_xor, uint32_shl, lxor_eq_0 by lia.
  pose proof (uint32_range s). set (u := uint32 s) in *. intros Heq.
  (* u = u * 2^k mod 2^32: iterating 32 times gives u * 2^(32 k) mod 2^32 = 0 *)
  assert (∀ n : nat, u = (u * (2 ^ k) ^ Z.of_nat n) mod 2 ^ 32) as Hn.
  { induction n as [|n IH]; [rewrite Z.pow_0_r, Z.mul_1_r; symmetry; apply Z.mod_small; lia|].
    rewrite Nat2Z.inj_succ, Z.pow_succ_r by lia.
    replace (u * (2 ^ k * (2 ^ k) ^ Z.of_nat n)) with (u * (2 ^ k) ^ Z.of_nat n * 2 ^ k) by ring.
    by rewrite Z.mul_mod, <- IH, <- Z.mul_mod_idemp_r, Z.mod_mod, Z.mul_mod_idemp_r by lia. }
  rewrite (Hn 32%nat). change (Z.of_nat 32) with 32. rewrite <- Z.pow_mul_r by lia.
  replace (k * 32) with ((k - 1) * 32 + 32) by lia. rewrite Z.pow_add_r by lia.
  rewrite Z.mul_assoc. by rewrite Z.mod_mul by lia.
Qed.

Lemma xor_ushr_zero s k :
  0 < k < 32 → uint32 (js_xor s (js_ushr s k)) = 0 → uint32 s = 0.
Proof.
  intros Hk. rewrite uint32_xor, uint32_ushr, lxor_eq_0 by lia.
  pose proof (uint32_range s). set (u := uint32 s) in *. intros Heq.
  assert (2 ^ 1 <= 2 ^ k) by (apply Z.pow_le_mono_r; lia).
  destruct (Z.eq_dec u 0) as [|Hne]; [done|].
  assert (u / 2 ^ k < u) by (apply Z.div_lt; lia). lia.
Qed.

Lemma advance_nonzero s : uint32 s ≠ 0 → uint32 (advance s) ≠ 0.
Proof.
  unfold advance. rewrite uint32_int32. intros Hs H.
  apply xor_shl_zero, xor_ushr_zero, xor_shl_zero in H; [done|lia..].
Qed.

Lemma create_nonzero seed : uint32 (create seed) ≠ 0.
Proof.
  unfold create. destruct (Z.eqb_spec (int32 seed) 0) as [|H]; [done|].
  rewrite uint32_int32. by rewrite <- int32_eq_0.
Qed.

Lemma iter_advance_nonzero n s : uint32 s ≠ 0 → uint32 (Nat.iter n advance s) ≠ 0.
Proof. intros Hs. induction n as [|n IH]; simpl; [done|by apply advance_nonzero]. Qed.

(** ** Draws *)

Lemma next_eq s :
  next s = (advance s, Ok (ddiv (inject_Z (uint32 (advance s))) (inject_Z 4294967295))).
Proof. done. Qed.

Lemma int_eq lo hi s :
  int lo hi s =
    (advance s,
     Ok (lo + js_floor (dmul (ddiv (inject_Z (uint32 (advance s))) (inject_Z 4294967295))
                             (inject_Z (hi - lo + 1))))).
Proof. done. Qed.

Lemma ratio_Q u : (inject_Z u / inject_Z 4294967295 == u # 4294967295)%Q.
Proof. unfold Qeq, Qdiv, Qmult, Qinv, inject_Z. simpl. lia. Qed.

(** No value of [next] below the top word exceeds this. *)
Definition unit_max : Q := (1 - (1 # 4294967295)) * (1 + (1 # 9007199254740992)).

Lemma unit_below u :
  0 <= u < 4294967295 → (0 <= ddiv (inject_Z u) (inject_Z 4294967295) <= unit_max)%Q.
Proof.
  intros Hu. unfold ddiv, unit_max.
  assert (0 <= u # 4294967295)%Q as Hq by (unfold Qle; simpl; lia).
  assert (0 <= inject_Z u / inject_Z 4294967295)%Q as Hq' by (rewrite ratio_Q; done).
  split; [by apply fl_nonneg|].
  destruct (fl_rel _ Hq') as [_ Hub].
  assert (inject_Z u / inject_Z 4294967295 <= 1 - (1 # 4294967295))%Q
    by (rewrite ratio_Q; unfold Qle; simpl; lia).
  nra.
Qed.

Lemma unit_top : ddiv (inject_Z 4294967295) (inject_Z 4294967295) = 1%Q.
Proof. vm_compute. reflexivity. Qed.

Lemma scaled_lt q (r : Z) :
  0 < r → (0 <= q <= unit_max)%Q → (0 <= dmul q (inject_Z r) < inject_Z r)%Q.
Proof.
  unfold unit_max. intros Hr [Hq0 Hq1]. unfold dmul.
  assert (1 <= inject_Z r)%Q as Hr' by (unfold Qle; simpl; lia).
  assert (0 <= q * inject_Z r)%Q as Hp by nra.
  split; [by apply fl_nonneg|].
  destruct (fl_rel _ Hp) as [_ Hub]. eapply Qle_lt_trans; [exact Hub|]. clear Hub.
  assert (q * inject_Z r <=
    (1 - (1 # 4294967295)) * (1 + (1 # 9007199254740992)) * inject_Z r)%Q by nra.
  assert ((1 - (1 # 4294967295)) * (1 + (1 # 9007199254740992)) * (1 + (1 # 9007199254740992))
            < 1)%Q as Hc by (vm_compute; reflexivity).
  nra.
Qed.

Lemma scaled_below q (r : Z) :
  0 < r → (0 <= q <= unit_max)%Q → 0 <= js_floor (dmul q (inject_Z r)) <= r - 1.
Proof.
  intros Hr Hq. destruct (scaled_lt q r Hr Hq) as [H0 H1].
  apply js_floor_bounds; [done|]. by replace (r - 1 + 1) with r by lia.
Qed.

Lemma scaled_round q (r : Z) :
  0 < r → (0 <= q <= unit_max)%Q → 0 <= js_round (dmul q (inject_Z r)) <= r.
Proof.
  intros Hr Hq. destruct (scaled_lt q r Hr Hq) as [H0 H1].
  apply js_floor_bounds; rewrite ?inject_Z_plus; change (inject_Z 0) with 0%Q;
    change (inject_Z 1) with 1%Q; lra.
Qed.

Lemma scaled_top (r : Z) : 0 < r < 2 ^ 53 → js_floor (dmul 1 (inject_Z r)) = r.
Proof.
  intros Hr. unfold dmul, Qmult, inject_Z. cbn [Qnum Qden].
  rewrite Z.mul_1_l. change (1 * 1)%positive with 1%positive. fold (inject_Z r).
  unfold js_floor. rewrite fl_integer by lia. apply Qfloor_Z.
Qed.

(** [int(lo, hi)] returns a value of [lo .. hi], except on the one state
    whose next word is [0xffffffff]: [next()] is then exactly 1 (the divisor is
    [0xffffffff], not [2 ** 32]) and [int] returns [hi + 1]. *)
Theorem int_range lo hi s :
  lo <= hi → hi - lo + 1 < 2 ^ 53 →
  ∃ v, int lo hi s = (advance s, Ok v) ∧
    if top_word s then v = hi + 1 else lo <= v <= hi.
Proof.
  intros Hle Hw. eexists. split; [apply int_eq|].
  unfold top_word. pose proof (uint32_range (advance s)).
  destruct (Z.eqb_spec (uint32 (advance s)) 4294967295) as [Heq|Hne].
  - rewrite Heq, unit_top, scaled_top; lia.
  - pose proof (scaled_below _ (hi - lo + 1) ltac:(lia) (unit_below (uint32 (advance s)) ltac:(lia))).
    lia.
Qed.

Lemma top_word_false s : top_word s = false → 0 <= uint32 (advance s) < 4294967295.
Proof.
  unfold top_word. rewrite Z.eqb_neq. pose proof (uint32_range (advance s)). lia.
Qed.

Lemma top_word_true s : top_word s = true → uint32 (advance s) = 4294967295.
Proof. unfold top_word. by rewrite Z.eqb_eq. Qed.

#[global] Opaque advance top_word create.

(** ** Reasoning about drawing computations

    [clean n s]: none of the next [n] words is the top word.  [draws n m P]: from
    every such state [m] draws at most [n] words, ends in [Ok] and its result
    satisfies [P]. *)

Fixpoint clean (n : nat) (s : Z) : bool :=
  match n with
  | O => true
  | S n' => negb (top_word s) && clean n' (advance s)
  end.

Definition draws {A} (n : nat) (m : M Z A) (P : A → Prop) : Prop :=
  ∀ s, clean n s = true → ∃ k a, (k <= n)%nat ∧ m s = (Nat.iter k advance s, Ok a) ∧ P a.

Lemma clean_le n k s : (k <= n)%nat → clean n s = true → clean k s = true.
Proof.
  revert k s; induction n as [|n IH]; intros [|k] s Hk; simpl; try done; [lia|].
  intros [H1 H2]%andb_true_iff. apply andb_true_iff. split; [done|]. apply (IH k); [lia|done].
Qed.

Lemma clean_iter n j k s :
  (j <= n)%nat → clean (n + k) s = true → clean k (Nat.iter j advance s) = true.
Proof.
  revert n s; induction j as [|j IH]; intros n s Hj Hc.
  { apply (clean_le (n + k)); [lia|done]. }
  rewrite Nat.iter_succ_r. destruct n as [|n]; [lia|].
  apply andb_true_iff in Hc as [_ Hc]. apply (IH n); [lia|done].
Qed.

Lemma draws_ret {A} (a : A) (P : A → Prop) : P a → draws 0 (mret a) P.
Proof. intros Ha s _. by exists O, a. Qed.

Lemma draws_bind {A B} n k (m : M Z A) (f : A → M Z B) (P : A → Prop) (Q : B → Prop) :
  draws n m P → (∀ a, P a → draws k (f a) Q) → draws (n + k) (m ≫= f) Q.
Proof.
  intros Hm Hf s Hc.
  destruct (Hm s) as (j & a & Hj & Heq & Ha); [by apply (clean_le (n + k)); [lia|]|].
  destruct (Hf a Ha (Nat.iter j advance s)) as (i & b & Hi & Heq' & Hb); [by apply (clean_iter n)|].
  exists (i + j)%nat, b. split; [lia|]. split; [|done].
  unfold mbind, M_bind. rewrite Heq, Heq'. by rewrite Nat.iter_add.
Qed.

Lemma draws_mono {A} n k (m : M Z A) (P Q : A → Prop) :
  draws n m P → (n <= k)%nat → (∀ a, P a → Q a) → draws k m Q.
Proof.
  intros Hm Hle HPQ s Hc. destruct (Hm s) as (j & a & Hj & Heq & Ha); [by apply (clean_le k)|].
  exists j, a. repeat split; [lia|done|by apply HPQ].
Qed.

Lemma draws_lift {A} (o : outcome A) a (P : A → Prop) : o = Ok a → P a → draws 0 (lift o) P.
Proof. intros -> Ha s _. by exists O, a. Qed.

Lemma draws_next : draws 1 next (fun q => (0 <= q <= unit_max)%Q).
Proof.
  intros s Hc. simpl in Hc. rewrite andb_true_r, negb_true_iff in Hc.
  exists 1%nat. eexists. split; [done|]. split; [apply next_eq|].
  apply (unit_below (uint32 (advance s)) (top_word_false _ Hc)).
Qed.

Lemma draws_int lo hi :
  lo <= hi → hi - lo + 1 < 2 ^ 53 → draws 1 (int lo hi) (fun v => lo <= v <= hi).
Proof.
  intros Hle Hw s Hc. simpl in Hc. rewrite andb_true_r, negb_true_iff in Hc.
  pose proof (scaled_below _ (hi - lo + 1) ltac:(lia) (unit_below _ (top_word_false _ Hc))).
  exists 1%nat. eexists. split; [done|]. split; [apply int_eq|]. cbn beta. lia.
Qed.

Lemma draws_bool p : draws 1 (bool_ p) (fun _ => True).
Proof.
  apply (draws_bind 1 0 next _ (fun q => 0 <= q <= unit_max)%Q); [apply draws_next|].
  intros q _. by apply draws_ret.
Qed.

Lemma draws_pick {T} (items : list T) :
  items ≠ [] → Z.of_nat (length items) < 2 ^ 53 → draws 1 (pick items) (fun x => x ∈ items).
Proof.
  intros Hne Hlen. assert (0 < length items)%nat by (destruct items; simpl; [done|lia]).
  unfold pick, pick_opt.
  apply (draws_bind 1 0 _ _ (fun o => ∃ x, o = Some x ∧ x ∈ items)).
  - apply (draws_bind 1 0 _ _ (fun i => 0 <= i <= Z.of_nat (length items) - 1));
      [apply draws_int; lia|].
    intros i Hi. apply draws_ret. rewrite (proj2 (Z.ltb_ge i 0)) by lia.
    destruct (lookup_lt_is_Some_2 items (Z.to_nat i)) as [x Hx]; [lia|].
    exists x. split; [done|]. by eapply list_elem_of_lookup_2.
  - intros o (x & -> & Hx). by apply (draws_lift _ x).
Qed.

Lemma draws_repeat {A} k n (m : M Z A) (P : A → Prop) :
  draws k m P → draws (n * k) (repeatM n m) (fun l => length l = n ∧ Forall P l).
Proof.
  intros Hm. induction n as [|n IH]; simpl; [by apply draws_ret|].
  apply (draws_bind k (n * k) _ _ P); [done|]. intros a Ha.
  apply (draws_mono (n * k + 0) (n * k) _ (fun l => length l = S n ∧ Forall P l)); [|lia|done].
  eapply draws_bind; [exact IH|]. intros l [Hl HP]. apply draws_ret. simpl. auto.
Qed.

Lemma draws_pickN_loop {T} n (pool out : list T) :
  NoDup (out ++ pool) → Z.of_nat (length pool) < 2 ^ 53 →
  draws n (pickN_loop n pool out) (fun l =>
    length l = (length out + n `min` length pool)%nat ∧ NoDup l ∧ l ⊆ out ++ pool).
Proof.
  revert pool out; induction n as [|n IH]; intros pool out Hnd Hlen.
  { apply draws_ret. rewrite Nat.min_0_l, Nat.add_0_r. split; [done|].
    apply NoDup_app in Hnd as (Ho & _). split; [done|]. set_solver. }
  destruct pool as [|x0 pool0] eqn:Epool.
  { apply (draws_mono 0 _ _ (fun l => l = out)); [by apply draws_ret|lia|].
    intros l ->. rewrite app_nil_r in *. simpl. rewrite Nat.add_0_r. done. }
  cbn [pickN_loop]. rewrite <- Epool in *.
  assert (0 < length pool)%nat by (subst pool; simpl; lia).
  apply (draws_bind 1 n _ _ (fun i => 0 <= i <= Z.of_nat (length pool) - 1));
    [apply draws_int; lia|].
  intros i Hi. rewrite (proj2 (Z.ltb_ge i 0)) by lia.
  destruct (lookup_lt_is_Some_2 pool (Z.to_nat i)) as [x Hx]; [lia|].
  apply (draws_bind 0 n _ _ (fun y => y = x)); [by apply (draws_lift _ x); [rewrite Hx|]|].
  intros y ->. pose proof (length_delete pool (Z.to_nat i) ltac:(eauto)) as Hld.
  assert (x :: delete (Z.to_nat i) pool ≡ₚ pool) as Hp by (symmetry; by apply delete_Permutation).
  refine (draws_mono n n _ _ _ (IH (delete (Z.to_nat i) pool) (out ++ [x]) _ _) _ _).
  - rewrite <- app_assoc. simpl. by rewrite Hp.
  - lia.
  - done.
  - intros l (Hl & Hnd' & Hsub). rewrite Hl, length_app, Hld. change (length [x]) with 1%nat.
    split; [lia|]. split; [done|]. intros z Hz%Hsub. rewrite <- Hp. set_solver.
Qed.

Lemma draws_pickN {T} (items : list T) n :
  NoDup items → Z.of_nat (length items) < 2 ^ 53 →
  draws (Z.to_nat n) (pickN items n) (fun l =>
    length l = (Z.to_nat n `min` length items)%nat ∧ NoDup l ∧ l ⊆ items).
Proof. intros. by apply (draws_pickN_loop (Z.to_nat n) items []). Qed.

(** Spending a budget of draws one operation at a time. *)
Lemma draws_step {A B} n N (m : M Z A) (f : A → M Z B) (P : A → Prop) (Q : B → Prop) :
  draws n m P → (n <= N)%nat → (∀ a, P a → draws (N - n) (f a) Q) → draws N (m ≫= f) Q.
Proof.
  intros Hm Hle Hf. replace N with (n + (N - n))%nat by lia. by apply (draws_bind _ _ _ _ P).
Qed.

Lemma draws_done {A} N (a : A) (P : A → Prop) : P a → draws N (mret a) P.
Proof. intros Ha. apply (draws_mono 0 N _ P); [by apply draws_ret|lia|done]. Qed.

Lemma draws_weaken {A} N (m : M Z A) (P Q : A → Prop) :
  draws N m P → (∀ a, P a → Q a) → draws N m Q.
Proof. intros Hm HPQ. by apply (draws_mono N N _ P). Qed.

(** Single draws on a state that is not the exceptional one, with the state
    they leave. *)
Lemma next_clean s :
  top_word s = false → ∃ q, next s = (advance s, Ok q) ∧ (0 <= q <= unit_max)%Q.
Proof.
  intros Ht. eexists. split; [apply next_eq|]. apply (unit_below _ (top_word_false _ Ht)).
Qed.

Lemma int_clean lo hi s :
  lo <= hi → hi - lo + 1 < 2 ^ 53 → top_word s = false →
  ∃ v, int lo hi s = (advance s, Ok v) ∧ lo <= v <= hi.
Proof.
  intros Hle Hw Ht. eexists. split; [apply int_eq|].
  pose proof (scaled_below _ (hi - lo + 1) ltac:(lia) (unit_below _ (top_word_false _ Ht))). lia.
Qed.

Lemma pick_clean {T} (items : list T) s :
  items ≠ [] → Z.of_nat (length items) < 2 ^ 53 → top_word s = false →
  ∃ x, pick items s = (advance s, Ok x) ∧ x ∈ items.
Proof.
  intros Hne Hlen Ht. assert (0 < length items)%nat by (destruct items; simpl; [done|lia]).
  destruct (int_clean 0 (Z.of_nat (length items) - 1) s) as (i & Hi & Hr); [lia..|done|].
  destruct (lookup_lt_is_Some_2 items (Z.to_nat i)) as [x Hx]; [lia|].
  exists x. split; [|by eapply list_elem_of_lookup_2].
  unfold pick, pick_opt. erewrite bind_Ok; [|erewrite bind_Ok by exact Hi; reflexivity].
  rewrite (proj2 (Z.ltb_ge i 0)), Hx by lia. done.
Qed.

Lemma clean_S n s : clean (S n) s = true → top_word s = false ∧ clean n (advance s) = true.
Proof. simpl. by rewrite andb_true_iff, negb_true_iff. Qed.

(** Computations that return from every state: they draw but pick nothing. *)
Definition total {A} (m : M Z A) (P : A → Prop) : Prop :=
  ∀ s, ∃ s' a, m s = (s', Ok a) ∧ P a.

Lemma total_ret {A} (a : A) (P : A → Prop) : P a → total (mret a) P.
Proof. intros Ha s. by exists s, a. Qed.

Lemma total_bind {A B} (m : M Z A) (f : A → M Z B) (P : A → Prop) (Q : B → Prop) :
  total m P → (∀ a, P a → total (f a) Q) → total (m ≫= f) Q.
Proof.
  intros Hm Hf s. destruct (Hm s) as (s1 & a & Heq & Ha).
  destruct (Hf a Ha s1) as (s2 & b & Heq' & Hb). exists s2, b.
  by rewrite (bind_Ok _ _ _ _ _ Heq).
Qed.

Lemma total_int lo hi : total (int lo hi) (fun _ => True).
Proof. intros s. eexists _, _. split; [apply int_eq|done]. Qed.

Lemma total_repeat {A} n (m : M Z A) (P : A → Prop) :
  total m P → total (repeatM n m) (fun l => length l = n ∧ Forall P l).
Proof.
  intros Hm. induction n as [|n IH]; simpl; [by apply total_ret|].
  eapply total_bind; [exact Hm|]. intros a Ha. eapply total_bind; [exact IH|].
  intros l [Hl HP]. apply total_ret. simpl. auto.
Qed.

(** What every run that returns satisfies, the exceptional state included. *)
Lemma int_Ok lo hi s s' v :
  lo <= hi → hi - lo + 1 < 2 ^ 53 → int lo hi s = (s', Ok v) → lo <= v <= hi + 1.
Proof.
  intros Hle Hw Heq. rewrite int_eq in Heq. injection Heq as _ <-.
  destruct (top_word s) eqn:Ht.
  - rewrite (top_word_true _ Ht), unit_top, scaled_top by lia. lia.
  - pose proof (scaled_below _ (hi - lo + 1) ltac:(lia) (unit_below _ (top_word_false _ Ht))). lia.
Qed.

Lemma pick_Ok {T} (items : list T) s s' x : pick items s = (s', Ok x) → x ∈ items.
Proof.
  unfold pick, pick_opt. intros Heq.
  apply bind_inv in Heq as [(s1 & o & Ho & Heq)|(s1 & e & _ & [=])].
  apply lift_inv in Heq as [-> Heq]. apply or_throw_Ok in Heq as ->.
  apply bind_inv in Ho as [(s2 & i & _ & Ho)|(s2 & e & _ & [=])].
  cbn in Ho. injection Ho as _ Ho. destruct (i <? 0); [done|].
  by eapply list_elem_of_lookup_2.
Qed.

Lemma pickN_loop_Ok {T} n (pool out : list T) s s' l :
  NoDup (out ++ pool) → pickN_loop n pool out s = (s', Ok l) →
  NoDup l ∧ l ⊆ out ++ pool ∧ length l = (length out + n `min` length pool)%nat.
Proof.
  revert pool out s. induction n as [|n IH]; intros pool out s Hnd Heq.
  { cbn in Heq. injection Heq as <- <-. apply NoDup_app in Hnd as (Ho & _).
    split; [done|]. split; [set_solver|simpl; lia]. }
  destruct pool as [|x0 pool0] eqn:Epool.
  { cbn in Heq. injection Heq as <- <-. rewrite app_nil_r in *. split; [done|]. split; [done|simpl; lia]. }
  cbn [pickN_loop] in Heq. rewrite <- Epool in *.
  apply bind_inv in Heq as [(s1 & i & _ & Heq)|(s1 & e & _ & [=])].
  apply bind_inv in Heq as [(s2 & x & Hx & Heq)|(s2 & e & _ & [=])].
  apply lift_inv in Hx as [_ Hx]. apply or_throw_Ok in Hx. destruct (i <? 0); [done|].
  assert (x :: delete (Z.to_nat i) pool ≡ₚ pool) as Hp by (symmetry; by apply delete_Permutation).
  apply IH in Heq as (Hnd' & Hsub & Hlen).
  - split; [done|]. split; [intros z Hz%Hsub; rewrite <- Hp; set_solver|].
    rewrite Hlen, length_app, (length_delete pool (Z.to_nat i)) by eauto. change (length [x]) with 1%nat.
    pose proof (lookup_lt_Some _ _ _ Hx). lia.
  - rewrite <- app_assoc. simpl. by rewrite Hp.
Qed.

Lemma pickN_Ok {T} (items : list T) n s s' l :
  NoDup items → pickN items n s = (s', Ok l) →
  NoDup l ∧ l ⊆ items ∧ length l = (Z.to_nat n `min` length items)%nat.
Proof. intros Hnd Heq. by apply (pickN_loop_Ok (Z.to_nat n) items [] s s'). Qed.

(** ** What the generator promises *)

(** The generator never reaches the absorbing state 0, from any seed and
    after any number of draws; this is what the [|| 0xdeadbeef] is for. *)
Theorem never_stuck seed n : uint32 (Nat.iter n advance (create seed)) ≠ 0.
Proof. apply iter_advance_nonzero, create_nonzero. Qed.

(** [int(0, 10000)], the risk score of a generated case, on the state of the
    top word: the result is above the documented bound of the score. *)
Definition top_state : Z := 1584200935.

Lemma int_range_witness :
  top_word top_state = true ∧
  ∃ v, int 0 10000 top_state = (advance top_state, Ok v) ∧
    if top_word top_state then v = 10000 + 1 else 0 <= v <= 10000.
Proof. split; [vm_compute; reflexivity|apply (int_range 0 10000); lia]. Defined.

(** [pick] on a non-empty array yields one of its elements, except on the
    state whose next word is the top one, where it yields [undefined]. *)
Theorem pick_spec {T} (items : list T) s :
  items ≠ [] → Z.of_nat (length items) < 2 ^ 53 →
  if top_word s then pick_opt items s = (advance s, Ok None)
  else ∃ x, pick_opt items s = (advance s, Ok (Some x)) ∧ x ∈ items.
Proof.
  intros Hne Hlen. assert (0 < length items)%nat by (destruct items; simpl; [done|lia]).
  destruct (top_word s) eqn:Ht.
  - unfold pick_opt, mbind, M_bind. rewrite int_eq, (top_word_true _ Ht), unit_top, scaled_top by lia.
    cbn [mret M_ret]. unfold mret, M_ret. rewrite (proj2 (Z.ltb_ge _ 0)) by lia.
    by rewrite lookup_ge_None_2 by lia.
  - destruct (draws_pick items Hne Hlen s) as (k & x & Hk & Heq & Hx); [by simpl; rewrite Ht|].
    exists x. split; [|done]. unfold pick, mbind, M_bind, lift in Heq.
    unfold pick_opt, mbind, M_bind in *. rewrite int_eq in *.
    unfold mret, M_ret in *. by destruct (if _ : bool then _ else _) as [y|]; simplify_eq/=.
Qed.

Lemma pick_spec_witness :
  top_word top_state = true ∧
  if top_word top_state then pick_opt ["a"; "b"] top_state = (advance top_state, Ok None)
  else ∃ x, pick_opt ["a"; "b"] top_state = (advance top_state, Ok (Some x)) ∧ x ∈ ["a"; "b"].
Proof.
  split; [vm_compute; reflexivity|].
  apply (pick_spec ["a"; "b"] top_state); [discriminate|simpl; lia].
Defined.

End Xorshift32.

(** One draw of a computation with a [draws] goal: the specification of the
    operation comes from the hint database, the budget is arithmetic. *)
Create HintDb draws.
#[export] Hint Resolve Xorshift32.draws_next Xorshift32.draws_bool : draws.
#[export] Hint Extern 1 (Xorshift32.draws _ (Xorshift32.int _ _) _) =>
  apply Xorshift32.draws_int; lia : draws.
#[export] Hint Extern 1 (Xorshift32.draws _ (Xorshift32.pick _) _) =>
  apply Xorshift32.draws_pick; [done|simpl; lia] : draws.
#[export] Hint Extern 2 (Xorshift32.draws _ (mret _) _) =>
  apply Xorshift32.draws_done : draws.

Ltac draw v Hv :=
  eapply Xorshift32.draws_step; [solve [eauto with draws]|lia|];
  intros v Hv; cbn [Nat.sub]; cbv beta in Hv.

Ltac draw_all :=
  repeat (let v := fresh "v" in let H := fresh "Hv" in draw v H).
