(* ===== verification/Orbit.v ===== *)
(** * The orbit of the generator: which draws of the program meet the top word

    [next] is exactly 1 on one word, 0xffffffff, and the draws made from it may
    leave their range.  The generator is linear over the bits of its state and
    injective, so that for any draw of the program the states that meet the word are
    known: here are the last ones before it, the seeds they exclude, and the proof
    that the corpus of the store never draws it. *)

From S2P Require Import Prelude JsNum Doubles Rng.
From Stdlib Require Import QArith Qround.
Open Scope Z_scope.
Import Xorshift32.

(** ** The step on unsigned words *)

Definition word_mask : Z := 4294967295.
Definition step (u : Z) : Z :=
  let x := Z.lxor u (Z.land (Z.shiftl u 13) word_mask) in
  let x := Z.lxor x (Z.shiftr x 17) in
  Z.lxor x (Z.land (Z.shiftl x 5) word_mask).

Lemma uint32_mask z : Z.land z word_mask = uint32 z.
Proof. change word_mask with (Z.ones 32). by rewrite Z.land_ones. Qed.

#[local] Transparent advance top_word create.
Lemma step_advance s : uint32 (advance s) = step (uint32 s).
Proof.
  unfold advance, step. rewrite uint32_int32. rewrite !uint32_mask, !Z.shiftl_mul_pow2, !Z.shiftr_div_pow2 by lia.
  do 3 rewrite ?uint32_xor, ?uint32_shl, ?uint32_ushr by lia. done.
Qed.
Lemma top_word_step s : top_word s = (step (uint32 s) =? word_mask).
Proof. unfold top_word. by rewrite step_advance. Qed.
#[local] Opaque advance top_word create.

Lemma land_lxor_distr a b m : Z.land (Z.lxor a b) m = Z.lxor (Z.land a m) (Z.land b m).
Proof.
  apply Z.bits_inj'. intros i Hi. rewrite !Z.land_spec, !Z.lxor_spec, !Z.land_spec.
  by destruct (Z.testbit a i), (Z.testbit b i), (Z.testbit m i).
Qed.
Lemma lxor_swap a b c d : Z.lxor (Z.lxor a b) (Z.lxor c d) = Z.lxor (Z.lxor a c) (Z.lxor b d).
Proof. rewrite !Z.lxor_assoc. f_equal. rewrite <- !Z.lxor_assoc. f_equal. apply Z.lxor_comm. Qed.

Lemma step_lxor a b : step (Z.lxor a b) = Z.lxor (step a) (step b).
Proof.
  unfold step. rewrite Z.shiftl_lxor, land_lxor_distr, (lxor_swap a b).
  set (a1 := Z.lxor a _). set (b1 := Z.lxor b _). rewrite Z.shiftr_lxor, (lxor_swap a1 b1).
  set (a2 := Z.lxor a1 _). set (b2 := Z.lxor b1 _). by rewrite Z.shiftl_lxor, land_lxor_distr, (lxor_swap a2 b2).
Qed.

Definition word (u : Z) : Prop := 0 <= u < 2 ^ 32.
Lemma uint32_word s : word (uint32 s).
Proof. apply uint32_range. Qed.
Lemma uint32_id u : word u → uint32 u = u.
Proof. apply Z.mod_small. Qed.
Lemma word_lxor a b : word a → word b → word (Z.lxor a b).
Proof.
  intros Ha Hb. rewrite <- (uint32_id a), <- (uint32_id b) by done. unfold uint32 at 1 2. rewrite <- lxor_mod_pow2. apply uint32_word.
Qed.
Lemma step_word u : word u → word (step u).
Proof. intros Hu. rewrite <- (uint32_id u Hu), <- step_advance. apply uint32_word. Qed.

Lemma step_inj u v : word u → word v → step u = step v → u = v.
Proof.
  intros Hu Hv E. apply Z.lxor_eq. apply (f_equal (Z.lxor (step v))) in E. rewrite Z.lxor_nilpotent, <- step_lxor in E.
  pose proof (word_lxor _ _ Hv Hu) as Hw. rewrite Z.lxor_comm. destruct (Z.eq_dec (Z.lxor v u) 0) as [|Hne]; [done|]. exfalso.
  rewrite <- (uint32_id _ Hw) in Hne. apply advance_nonzero in Hne. by rewrite step_advance, (uint32_id _ Hw) in Hne.
Qed.

(** ** Before the top word *)

(** The twenty words from which the top word is one, two, ... steps away. *)
Definition approach : list Z :=
  [1584200935; 3764646662; 153712863; 2449128450; 756259708;
   870024517; 3872711875; 3504749414; 3856315945; 2429319393;
   139723937; 3281967298; 276954929; 2968832500; 1559334924;
   3576695726; 770174586; 565861413; 4056891492; 830296398].

Lemma approach_head u : word u → step u = word_mask → Some u = approach !! 0%nat.
Proof. intros Hu E. cbn. f_equal. by apply step_inj. Qed.

Lemma approach_next i u v : word u → approach !! i = Some (step u) → approach !! S i = Some v → u = v.
Proof.
  intros Hu Hi Hv. assert (word v ∧ approach !! i = Some (step v)) as [Hw E].
  { assert (Forall (fun p => word p.2 ∧ step p.2 = p.1) (zip approach (drop 1 approach))) as Hf
      by (repeat (constructor; [split; [split; by vm_compute|by vm_compute]|]); constructor).
    rewrite Forall_lookup in Hf. destruct (Hf i (step u, v)) as [H1 H2]; [|cbn in *; split; [exact H1|by rewrite H2]].
    apply lookup_zip_with_Some. exists (step u), v. split; [done|]. split; [done|]. by rewrite lookup_drop. }
  apply step_inj; [done..|]. congruence.
Qed.

(** A state that is not clean is one of them. *)
Lemma unclean_approach n s : (n <= 20)%nat → clean n s = false → ∃ i, (i < n)%nat ∧ approach !! i = Some (uint32 s).
Proof.
  revert s. induction n as [|n IH]; intros s Hn; [done|]. cbn [clean]. rewrite andb_false_iff, negb_false_iff, top_word_step.
  intros [E|E].
  - exists 0%nat. split; [lia|]. symmetry. apply approach_head; [apply uint32_word|by apply Z.eqb_eq].
  - destruct (IH (advance s) ltac:(lia) E) as (i & Hi & Ha). rewrite step_advance in Ha.
    destruct (lookup_lt_is_Some_2 approach (S i)) as [v Hv]; [cbn; lia|].
    exists (S i). split; [lia|]. rewrite (approach_next i (uint32 s) v (uint32_word s) Ha Hv). done.
Qed.

(** Where the [k]-th next word is the top one. *)
Lemma top_after k s : (k < 20)%nat → top_word (Nat.iter k advance s) = true → approach !! k = Some (uint32 s).
Proof.
  revert s. induction k as [|k IH]; intros s Hk.
  - cbn [Nat.iter]. rewrite top_word_step. intros E. symmetry. apply approach_head; [apply uint32_word|by apply Z.eqb_eq].
  - rewrite Nat.iter_succ_r. intros E. apply IH in E; [|lia]. rewrite step_advance in E.
    destruct (lookup_lt_is_Some_2 approach (S k)) as [v Hv]; [cbn; lia|]. by rewrite (approach_next k (uint32 s) v (uint32_word s) E Hv).
Qed.

(** ** Draws from a known word *)

Definition ratio (w : Z) : Q := ddiv (inject_Z w) (inject_Z word_mask).

Lemma next_ratio s : next s = (advance s, Ok (ratio (step (uint32 s)))).
Proof. by rewrite next_eq, step_advance. Qed.

Lemma ratio_unit w : word w → (0 <= ratio w <= 1)%Q.
Proof.
  intros [Hlo Hhi]. unfold ratio, ddiv. split.
  - apply fl_nonneg. apply Qle_shift_div_l; [by vm_compute|]. rewrite Qmult_0_l. change 0%Q with (inject_Z 0). by rewrite <- Zle_Qle.
  - apply (Qle_trans _ (fl 1)); [|by vm_compute]. apply fl_mono. apply Qle_shift_div_r; [by vm_compute|]. rewrite Qmult_1_l, <- Zle_Qle.
    unfold word_mask. lia.
Qed.

(** The seed that a word makes of [int(1, 2 ** 31 - 1)]. *)
Definition seed_of (w : Z) : Z := 1 + js_floor (dmul (ratio w) (inject_Z 2147483647)).

Lemma int_seed s : int 1 (2 ^ 31 - 1) s = (advance s, Ok (seed_of (step (uint32 s)))).
Proof. by rewrite int_eq, step_advance. Qed.

Lemma seed_of_mono v w : v <= w → seed_of v <= seed_of w.
Proof.
  intros H. unfold seed_of, ratio, dmul, ddiv. apply Z.add_le_mono_l. apply Qfloor_resp_le, fl_mono.
  apply Qmult_le_compat_r; [|by vm_compute]. apply fl_mono. apply Qmult_le_compat_r; [|by vm_compute]. by rewrite <- Zle_Qle.
Qed.

(** Each seed from which a case would draw the top word, the first of the two
    neighbouring words that make it, and the states three draws before the two. *)
Definition excluded_seeds : list (Z * Z * Z * Z) :=
  [(1584200935, 3168401869, 3426511909, 3447748911);
   (153712863, 307425725, 2375343707, 2351483729);
   (756259708, 1512519415, 741860286, 2955286077);
   (870024517, 1740049033, 3725187417, 3753233491);
   (139723937, 279447873, 2200709513, 2190490755);
   (276954929, 553909857, 3218907735, 3194009437);
   (1559334924, 3118669847, 1176593898, 3660615785);
   (770174586, 1540349171, 3948627834, 2441317879);
   (565861413, 1131722825, 2643736122, 2619876144);
   (830296398, 1660592795, 2517926879, 3972811090)].

(** A tick that starts in [u] spawns a case only when its first draw is small. *)
Definition spawns (u : Z) : bool := Qltb (ratio (step u)) (fl (6 # 100)).

Definition excluded (r : Z * Z * Z * Z) : bool :=
  let '(k, w, a, b) := r in
  (seed_of (w - 1) <? k) && (k <? seed_of (w + 2)) && (step (step (step a)) =? w) && (step (step (step b)) =? w + 1) &&
  (0 <=? a) && (a <? 2 ^ 32) && (0 <=? b) && (b <? 2 ^ 32) && negb (spawns a) && negb (spawns b).

Lemma excluded_all : forallb excluded excluded_seeds = true.
Proof. by vm_compute. Qed.

Lemma excluded_seeds_complete i k : approach !! i = Some k → k <= 2 ^ 31 → k ∈ (fun r => r.1.1.1) <$> excluded_seeds.
Proof.
  intros Hi%list_elem_of_lookup_2 Hk.
  assert (forallb (fun k => negb (k <=? 2 ^ 31) || existsb (fun r => r.1.1.1 =? k) excluded_seeds) approach = true) as Hf by by vm_compute.
  rewrite forallb_forall in Hf. apply list_elem_of_In in Hi. apply Hf in Hi.
  rewrite (proj2 (Z.leb_le _ _) Hk) in Hi. cbn [negb orb] in Hi. apply existsb_exists in Hi as (r & Hr & E).
  apply list_elem_of_fmap. exists r. split; [lia|by apply list_elem_of_In].
Qed.

#[local] Transparent create.
Lemma create_seed k : 1 <= k <= 2 ^ 31 → uint32 (create k) = k.
Proof.
  intros Hk. assert (uint32 k = k) as E by (apply uint32_id; unfold word; lia).
  unfold create. destruct (Z.eqb_spec (int32 k) 0) as [H0|]; [apply int32_eq_0 in H0; lia|]. by rewrite uint32_int32.
Qed.
#[local] Opaque create.

(** A tick that spawns a case seeds it with a number from which none of its draws
    is the top word. *)
Lemma spawned_clean s : spawns (uint32 s) = true → clean 20 (create (seed_of (step (uint32 (advance (advance s)))))) = true.
Proof.
  intros Hs. rewrite !step_advance. set (u := uint32 s) in *. set (w := step (step (step u))).
  assert (word u ∧ word w) as [Hu Hw] by (split; [apply uint32_word|repeat apply step_word; apply uint32_word]).
  destruct (clean 20 _) eqn:E; [done|]. exfalso. apply unclean_approach in E as (i & _ & Hi); [|lia].
  assert (1 <= seed_of w <= 2 ^ 31) as Hr.
  { split; [change 1 with (seed_of 0)|change (2 ^ 31) with (seed_of word_mask)]; apply seed_of_mono; unfold word, word_mask in *; lia. }
  rewrite create_seed in Hi by done. apply excluded_seeds_complete in Hi; [|lia]. apply list_elem_of_fmap in Hi as ([[[k w0] a] b] & Ek & Hin).
  pose proof excluded_all as Hall. rewrite forallb_forall in Hall. apply list_elem_of_In in Hin. apply Hall in Hin. cbn [fst] in Ek.
  unfold excluded in Hin. rewrite !andb_true_iff, !negb_true_iff in Hin. destruct Hin as (((((((((H1 & H2) & H3) & H4) & H5) & H6) & H7) & H8) & H9) & H10).
  assert (w0 <= w) as Hlo by (destruct (Z.le_gt_cases w0 w); [done|pose proof (seed_of_mono w (w0 - 1) ltac:(lia)); lia]).
  assert (w <= w0 + 1) as Hhi by (destruct (Z.le_gt_cases w (w0 + 1)); [done|pose proof (seed_of_mono (w0 + 2) w ltac:(lia)); lia]).
  assert (∀ c, word c → step (step (step c)) = w → spawns c = false → False) as Hno.
  { intros c Hc E3 Hsp. apply step_inj in E3; [|repeat apply step_word; done..]. apply step_inj in E3; [|repeat apply step_word; done..].
    apply step_inj in E3; [|done..]. subst c. congruence. }
  assert (w = w0 ∨ w = w0 + 1) as [Ew|Ew] by lia; rewrite Ew in Hno.
  - apply (Hno a); [unfold word; lia|lia|done].
  - apply (Hno b); [unfold word; lia|lia|done].
Qed.

(** ** A long run without the top word

    Twenty draws for each of ten thousand cases are too many to make one by one:
    the run is cut into blocks of [stride] draws, and linearity jumps from the start
    of each block to the next one; a block meets the top word only when it starts in
    one of the [stride] words before it. *)

Definition stride : nat := 450.

(** The value of a linear function from its values on the powers of two. *)
Fixpoint jump (images : list Z) (u : Z) : Z :=
  match images with
  | [] => 0
  | c :: images => Z.lxor (if Z.odd u then c else 0) (jump images (Z.div2 u))
  end.

Lemma jump_linear (f : Z → Z) images k u :
  (∀ a b, f (Z.lxor a b) = Z.lxor (f a) (f b)) → 0 <= k →
  (∀ i c, images !! i = Some c → f (2 ^ (k + Z.of_nat i)) = c) →
  0 <= u < 2 ^ Z.of_nat (length images) → jump images u = f (u * 2 ^ k).
Proof.
  intros Hf. assert (f 0 = 0) as Hf0 by (pose proof (Hf 0 0) as H; by rewrite !Z.lxor_nilpotent in H).
  revert k u. induction images as [|c images IH]; intros k u Hk Hi Hu; cbn [jump length] in *.
  { assert (u = 0) as -> by (cbn in Hu; lia). by rewrite Z.mul_0_l, Hf0. }
  rewrite Nat2Z.inj_succ, Z.pow_succ_r in Hu by lia. pose proof (Z.div2_odd u) as Eu.
  rewrite (IH (k + 1) (Z.div2 u)); [|lia| |destruct (Z.odd u); cbn in Eu; lia].
  - assert ((if Z.odd u then c else 0) = f ((if Z.odd u then 1 else 0) * 2 ^ k)) as ->.
    { destruct (Z.odd u); [|by rewrite Z.mul_0_l, Hf0]. rewrite Z.mul_1_l. specialize (Hi 0%nat c eq_refl).
      by rewrite Z.add_0_r in Hi. }
    rewrite <- Hf. f_equal. rewrite Z.pow_add_r by lia. replace (Z.div2 u * (2 ^ k * 2 ^ 1)) with (2 * Z.div2 u * 2 ^ k) by lia.
    rewrite <- !Z.shiftl_mul_pow2, <- Z.shiftl_lxor by lia. f_equal. rewrite Eu at 3. destruct (Z.odd u) eqn:Eo; [|cbn [Z.b2z]; by rewrite Z.lxor_0_l, Z.add_0_r].
    assert (0 <= Z.div2 u) as Hd by (apply Z.div2_nonneg; lia). by destruct (Z.div2 u).
  - intros i c' Hc'. rewrite <- (Hi (S i) c' Hc'). f_equal. f_equal. lia.
Qed.

Definition images : list Z := (fun k => Nat.iter stride step (2 ^ k)) <$> seqZ 0 32.

Lemma iter_lxor n a b : Nat.iter n step (Z.lxor a b) = Z.lxor (Nat.iter n step a) (Nat.iter n step b).
Proof. induction n as [|n IH]; [done|]. by rewrite !Nat.iter_succ, IH, step_lxor. Qed.

Lemma jump_stride u : word u → jump images u = Nat.iter stride step u.
Proof.
  intros Hu. rewrite (jump_linear (Nat.iter stride step) images 0); [by rewrite Z.mul_1_r|apply iter_lxor|done| |].
  - intros i c. unfold images. rewrite list_lookup_fmap. intros (k & Hk & ->)%fmap_Some.
    apply lookup_seqZ in Hk as [-> _]. done.
  - unfold images. rewrite length_fmap, length_seqZ. exact Hu.
Qed.

(** The three shifts undone, from the last one. *)
Definition retreat (y : Z) : Z :=
  let undo n f y := Nat.iter n (fun x => Z.lxor y (f x)) y in
  let x := undo 7%nat (fun x => Z.land (Z.shiftl x 5) word_mask) y in
  let x := undo 2%nat (fun x => Z.shiftr x 17) x in
  undo 3%nat (fun x => Z.land (Z.shiftl x 13) word_mask) x.

Fixpoint words_before (n : nat) (v : Z) : list Z :=
  match n with O => [] | S n => v :: words_before n (retreat v) end.

Definition retreats (v : Z) : bool := (step (retreat v) =? v) && (0 <=? retreat v) && (retreat v <? 2 ^ 32).

Lemma words_before_complete n v j u :
  forallb retreats (words_before n v) = true → word u → (j < n)%nat → Nat.iter j step u = v → u ∈ words_before n v.
Proof.
  revert v j. induction n as [|n IH]; intros v j Hf Hu Hj E; [lia|]. cbn [words_before forallb] in *.
  apply andb_true_iff in Hf as [Hv Hf]. unfold retreats in Hv. rewrite !andb_true_iff in Hv. destruct Hv as [[Hs Hlo] Hhi].
  destruct j as [|j]; [cbn in E; subst; by left|]. right. apply (IH _ j Hf Hu); [lia|]. rewrite Nat.iter_succ in E.
  assert (∀ m, word (Nat.iter m step u)) as Hw by (intros m; induction m; [done|by apply step_word]).
  apply step_inj; [apply Hw|unfold word; lia|]. rewrite E. lia.
Qed.

(** The words at the start of each block. *)
Fixpoint blocks (n : nat) (u : Z) : list Z :=
  match n with O => [] | S n => u :: blocks n (jump images u) end.

Lemma blocks_lookup n u i : word u → (i < n)%nat → blocks n u !! i = Some (Nat.iter (i * stride) step u).
Proof.
  revert u i. induction n as [|n IH]; intros u i Hu Hi; [lia|]. destruct i as [|i]; [done|]. cbn [blocks lookup list_lookup].
  rewrite jump_stride by done.
  assert (∀ m v, word v → word (Nat.iter m step v)) as Hw by (intros m v Hv; induction m; [done|by apply step_word]).
  rewrite IH by (by apply Hw || lia). f_equal. rewrite <- Nat.iter_add. f_equal. lia.
Qed.

Definition top_free (n : nat) (u : Z) : bool :=
  let before := words_before stride 1584200935 in
  forallb retreats before && forallb (fun g => negb (existsb (Z.eqb g) before)) (blocks n u).

Lemma clean_of_words n s : (∀ k, (k < n)%nat → top_word (Nat.iter k advance s) = false) → clean n s = true.
Proof.
  revert s. induction n as [|n IH]; intros s H; [done|]. cbn [clean].
  pose proof (H 0%nat ltac:(lia)) as H0. cbn [Nat.iter nat_rect] in H0. rewrite H0. cbn [negb andb].
  apply IH. intros k Hk. rewrite <- Nat.iter_succ_r. apply H. lia.
Qed.

Lemma iter_advance_step k s : uint32 (Nat.iter k advance s) = Nat.iter k step (uint32 s).
Proof. induction k as [|k IH]; [done|]. by rewrite !Nat.iter_succ, step_advance, IH. Qed.

Lemma top_free_clean n s : top_free n (uint32 s) = true → clean (n * stride) s = true.
Proof.
  unfold top_free. rewrite andb_true_iff. intros [Hb Hg]. apply clean_of_words. intros k Hk. rewrite top_word_step. apply Z.eqb_neq. intros E.
  rewrite iter_advance_step in E. set (u := uint32 s) in *. assert (word u) as Hu by apply uint32_word.
  assert (∀ m, word (Nat.iter m step u)) as Hw by (intros m; induction m; [done|by apply step_word]).
  pose proof (Nat.div_mod_eq k stride) as Ek. pose proof (Nat.mod_upper_bound k stride ltac:(done)) as Hm. revert Ek Hm Hk Hg.
  generalize (k / stride)%nat (k mod stride)%nat. intros q r Ek Hm Hk Hg.
  assert (q < n)%nat as Hq by nia. rewrite forallb_forall in Hg.
  assert (Nat.iter r step (Nat.iter (q * stride) step u) = 1584200935) as Er.
  { rewrite <- Nat.iter_add. replace (r + q * stride)%nat with k by lia. apply step_inj; [apply Hw|split; by vm_compute|].
    rewrite E. by vm_compute. }
  specialize (Hg (Nat.iter (q * stride) step u)). rewrite negb_true_iff, <- not_true_iff_false, existsb_exists in Hg. apply Hg.
  { apply list_elem_of_In. eapply list_elem_of_lookup_2. by apply blocks_lookup. }
  exists (Nat.iter (q * stride) step u). split; [|apply Z.eqb_refl]. apply list_elem_of_In.
  exact (words_before_complete _ _ r _ Hb (Hw _) Hm Er).
Qed.

(** The corpus of the program: ten thousand cases of at most twenty draws each. *)
Lemma corpus_clean : clean (Z.to_nat 10000 * 20) (create 20260910) = true.
Proof. apply (clean_le (445 * stride)); [unfold stride; lia|]. apply top_free_clean. by vm_compute. Qed.

