(* ===== verification/Types.v ===== *)
(** * Shared vocabulary: web/src/lib/data/types.ts

    The enumerations, with the constant arrays the program iterates over, and
    the records.  A TypeScript union of string literals is an inductive type
    with a [*_name] function giving the literal; an interface is a record; a
    [string | null] or optional field is an [option]. *)

From S2P Require Import Prelude.
Open Scope Z_scope.

(** ** Enumerations *)

Inductive Severity := info | low | medium | high | critical.
Inductive Disposition := benign | suspicious | malicious | incomplete.
Inductive Tactic :=
| initial_access | execution | persistence | privilege_escalation | defense_evasion
| credential_access | discovery | lateral_movement | collection | command_and_control
| exfiltration | impact.
Inductive CaseStatus := st_open | investigating | escalated | dismissed | closed.
Inductive EntityType := host | user | process | ip | file | session.
Inductive Polarity := supports | refutes.
Inductive ResponseActionKind :=
| isolate_host | disable_account | revoke_session | block_indicator | quarantine_file.
Inductive ActionStatus := pending | approved | modified | rejected.

#[export] Instance Severity_eq_dec : EqDecision Severity.
Proof. solve_decision. Defined.
#[export] Instance Disposition_eq_dec : EqDecision Disposition.
Proof. solve_decision. Defined.
#[export] Instance Tactic_eq_dec : EqDecision Tactic.
Proof. solve_decision. Defined.
#[export] Instance CaseStatus_eq_dec : EqDecision CaseStatus.
Proof. solve_decision. Defined.
#[export] Instance EntityType_eq_dec : EqDecision EntityType.
Proof. solve_decision. Defined.
#[export] Instance Polarity_eq_dec : EqDecision Polarity.
Proof. solve_decision. Defined.
#[export] Instance ResponseActionKind_eq_dec : EqDecision ResponseActionKind.
Proof. solve_decision. Defined.
#[export] Instance ActionStatus_eq_dec : EqDecision ActionStatus.
Proof. solve_decision. Defined.

Definition SEVERITIES : list Severity := [info; low; medium; high; critical].
Definition DISPOSITIONS : list Disposition := [benign; suspicious; malicious; incomplete].
Definition TACTICS : list Tactic :=
  [initial_access; execution; persistence; privilege_escalation; defense_evasion;
   credential_access; discovery; lateral_movement; collection; command_and_control;
   exfiltration; impact].
Definition CASE_STATUSES : list CaseStatus :=
  [st_open; investigating; escalated; dismissed; closed].

Definition severity_name (s : Severity) : string :=
  match s with
  | info => "info" | low => "low" | medium => "medium" | high => "high"
  | critical => "critical"
  end.
Definition disposition_name (d : Disposition) : string :=
  match d with
  | benign => "benign" | suspicious => "suspicious" | malicious => "malicious"
  | incomplete => "incomplete"
  end.
Definition tactic_name (t : Tactic) : string :=
  match t with
  | initial_access => "initial-access" | execution => "execution"
  | persistence => "persistence" | privilege_escalation => "privilege-escalation"
  | defense_evasion => "defense-evasion" | credential_access => "credential-access"
  | discovery => "discovery" | lateral_movement => "lateral-movement"
  | collection => "collection" | command_and_control => "command-and-control"
  | exfiltration => "exfiltration" | impact => "impact"
  end.
Definition status_name (s : CaseStatus) : string :=
  match s with
  | st_open => "open" | investigating => "investigating" | escalated => "escalated"
  | dismissed => "dismissed" | closed => "closed"
  end.
Definition polarity_name (p : Polarity) : string :=
  match p with supports => "supports" | refutes => "refutes" end.
Definition action_status_name (s : ActionStatus) : string :=
  match s with
  | pending => "pending" | approved => "approved" | modified => "modified"
  | rejected => "rejected"
  end.

(** The member of an enumeration that a string names. *)
Definition of_name {A} (all : list A) (name : A → string) (s : string) : option A :=
  List.find (fun a => bool_decide (name a = s)) all.

(** The position of a tactic in the kill chain, [TACTICS.indexOf(t)]. *)
Definition tactic_index (t : Tactic) : Z :=
  match index_of t TACTICS with Some i => Z.of_nat i | None => -1 end.

#[export] Program Instance Severity_countable : Countable Severity :=
  inj_countable severity_name (of_name SEVERITIES severity_name) _.
Next Obligation. by intros []. Qed.
#[export] Program Instance Disposition_countable : Countable Disposition :=
  inj_countable disposition_name (of_name DISPOSITIONS disposition_name) _.
Next Obligation. by intros []. Qed.
#[export] Program Instance Tactic_countable : Countable Tactic :=
  inj_countable tactic_name (of_name TACTICS tactic_name) _.
Next Obligation. by intros []. Qed.

(** ** Records *)

Record Case := mkCase {
  case_id : string;
  case_tenantId : string;
  case_title : string;
  case_primaryEntity : string;
  case_entityType : EntityType;
  case_severity : Severity;
  case_disposition : Disposition;
  case_riskScore : Z;
  case_tactics : list Tactic;
  case_claimCount : Z;
  case_createdAtMs : Z;
  case_updatedAtMs : Z;
  case_status : CaseStatus;
  case_assignee : option string;
  case_summary : string;
  case_dismissReason : option string;
}.

(** [ruleId] is a string in the source's type; [None] is the undefined that the
    generator's [pick] can make of it. *)
Record DetectorFireEvent := mkFire {
  fire_id : string;
  fire_atMs : Z;
  fire_ruleId : option string;
  fire_entity : string;
}.

Inductive StatUnit := u_count | u_duration_s | u_percent.
Inductive GoodDirection := g_up | g_down.

Record StatTile := mkStatTile {
  tile_id : string;
  tile_label : string;
  tile_value : Z;
  tile_unit : StatUnit;
  tile_delta : Z;
  tile_baselineLabel : string;
  tile_trend : list Z;
  tile_goodDirection : GoodDirection;
}.

Record TimelineEvent := mkTimelineEvent {
  ev_id : string;
  ev_atMs : Z;
  ev_tactic : Tactic;
  ev_predicate : string;
  ev_entity : string;
  ev_claimId : string;
}.

Record BlastRadius := mkBlastRadius {
  br_affectedPrincipals : list string;
  br_affectedHosts : list string;
  br_dependentServices : list string;
  br_isTier0 : bool;
}.

Record ResponseAction := mkAction {
  ra_id : string;
  ra_caseId : string;
  ra_kind : ResponseActionKind;
  ra_target : string;
  ra_proposedAtMs : Z;
  ra_rationale : string;
  ra_status : ActionStatus;
}.

(** A claim as sealed; before the kernel has run, [claim_id] does not exist and
    the rest is [RawClaim], the shape the kernel request carries. *)
Record RawClaim := mkRawClaim {
  cl_predicate : string;
  cl_subject : string;
  cl_object : option string;
  cl_interval_start_ns : Z;
  cl_interval_end_ns : Z;
  cl_evidence : list string;
  cl_extractor_kind : string;
  cl_extractor_id : string;
  cl_extractor_version : string;
  cl_observed_value : option Z;
  cl_polarity : Polarity;
  cl_hypothesis_ref : option string;
}.

Record LedgerClaim := mkLedgerClaim { lc_raw : RawClaim; lc_claim_id : string }.

Record InferenceMeta := mkInferenceMeta {
  inf_provider : string;
  inf_model_id : string;
  inf_weights_digest : string;
  inf_seed : option Z;
}.

Record Manifest := mkManifest {
  mf_investigation_id : string;
  mf_tenant_id : string;
  mf_case_id : string;
  mf_epoch_root : string;
  mf_epoch_id : Z;
  mf_index_snapshot_hash : string;
  mf_claim_set_hash : string;
  mf_claim_ids : list string;
  mf_inference : InferenceMeta;
  mf_policy_version : string;
  mf_kernel_version : string;
  mf_attack_model_version : string;
  mf_verdict_severity : Severity;
  mf_verdict_confidence : Z;
  mf_verdict_disposition : Disposition;
  mf_verdict_hash : string;
  mf_budget_tool_calls : Z;
  mf_budget_turns : Z;
  mf_started_at_ns : Z;
  mf_completed_at_ns : Z;
  mf_prev_manifest_hash : string;
}.

Record SealedManifest := mkSealed {
  sm_manifest : Manifest;
  sm_manifest_hash : string;
  sm_signature : string;
  sm_public_key : string;
  sm_chainBroken : bool;
}.

Record PolicyDelta := mkPolicyDelta {
  pd_predicate : string;
  pd_old_weight : Z;
  pd_new_weight : Z;
}.

Record AttributedClaim := mkAttributed {
  ac_claim_id : string;
  ac_predicate : string;
  ac_attributed_weight : Z;
}.

Record VerdictDrift := mkDrift {
  vd_case_id : string;
  vd_tenant_id : string;
  vd_old_severity : Severity;
  vd_new_severity : Severity;
  vd_old_disposition : Disposition;
  vd_new_disposition : Disposition;
  vd_old_verdict_hash : string;
  vd_new_verdict_hash : string;
  vd_old_contributing_claims : list AttributedClaim;
  vd_new_contributing_claims : list AttributedClaim;
  vd_responsible_claim_ids : list string;
  vd_policy_deltas : list PolicyDelta;
  vd_indicator_corpus_version : string;
  vd_indicator_corpus_hash : string;
  vd_flipped_at_ms : Z;
  vd_closed_at_ms : Z;
}.

Record GraphNode := mkGraphNode {
  gn_id : string;
  gn_type : EntityType;
  gn_label : string;
  gn_firstSeenMs : Z;
  gn_priorCaseCount : Z;
}.

Record GraphEdge := mkGraphEdge {
  ge_id : string;
  ge_fromNodeId : string;
  ge_toNodeId : string;
  ge_predicate : string;
  ge_polarity : Polarity;
  ge_intervalStartMs : Z;
  ge_intervalEndMs : Z;
  ge_extractorKind : string;
  ge_extractorId : string;
  ge_extractorVersion : string;
  ge_confidence : Z;
  ge_evidenceIds : list string;
  ge_hypothesisGroup : option string;
}.

(** ** Facts shared by the clients *)

Lemma tactic_index_range t : 0 <= tactic_index t < 12.
Proof. by destruct t. Qed.

Lemma tactic_index_inj t u : tactic_index t = tactic_index u → t = u.
Proof. by destruct t, u. Qed.

Lemma elem_of_TACTICS t : t ∈ TACTICS.
Proof. apply list_elem_of_In. destruct t; simpl; tauto. Qed.

Lemma NoDup_TACTICS : NoDup TACTICS.
Proof. apply (bool_decide_unpack _). by vm_compute. Qed.

Lemma of_name_tactic t : of_name TACTICS tactic_name (tactic_name t) = Some t.
Proof. by destruct t. Qed.

Lemma of_name_severity s : of_name SEVERITIES severity_name (severity_name s) = Some s.
Proof. by destruct s. Qed.

#[export] Hint Resolve elem_of_TACTICS NoDup_TACTICS : attesta.
