(* ===== verification/Seed.v ===== *)
(** * The synthetic corpus: web/src/lib/data/seed.ts

    The generators of cases and of timeline events, over the drawing monad of
    Rng.  Draws are in the source's order: the fields of an object literal are
    evaluated top to bottom. *)

From S2P Require Import Prelude JsNum Rng Types.
From Stdlib Require Import Ascii QArith Qround Lqa.
Open Scope Z_scope.
Import Xorshift32.

Definition ENTITY_TYPES : list EntityType := [host; user; process; ip; file; session].
Definition HOST_NAMES : list string := ["WIN-CLIENT"; "WIN-SRV"; "LNX-WEB"; "LNX-DB"; "MAC-CORP"].
Definition USER_NAMES : list string :=
  ["jdoe"; "asmith"; "mchen"; "rkumar"; "tlee"; "svc-backup"; "svc-deploy"].
Definition SEED_TENANTS : list string := ["tenant-alpha"; "tenant-beta"; "tenant-gamma"].
Definition ASSIGNEES : list (option string) :=
  [Some "a.patel"; Some "j.nguyen"; Some "k.oconnor"; None; None].
Definition TITLE_TEMPLATES : list string :=
  ["Credential access burst on {entity}"; "Suspicious interpreter spawn on {entity}";
   "Lateral movement from {entity}"; "C2 beacon candidate on {entity}";
   "Privilege escalation attempt on {entity}"; "Data staging detected on {entity}";
   "Anomalous auth from new ASN for {entity}"; "Persistence mechanism installed on {entity}"].

Definition severityForScore (score : Z) : Severity :=
  if 8500 <=? score then critical
  else if 6000 <=? score then high
  else if 3500 <=? score then medium
  else if 1500 <=? score then low
  else info.

Definition dispositionFor (severity : Severity) (incomplete_ : bool) : Disposition :=
  if incomplete_ then incomplete
  else match severity with
       | info | low => benign
       | medium => suspicious
       | high | critical => malicious
       end.

Definition randomEntity : M Z (string * EntityType) :=
  entityType ← pick ENTITY_TYPES;
  match entityType with
  | host =>
      h ← pick HOST_NAMES; n ← int 1 99;
      mret (h +:+ "-" +:+ pad_start 2 "0"%char (to_dec n), entityType)
  | user => u ← pick USER_NAMES; mret ("user:" +:+ u, entityType)
  | ip =>
      a ← int 10 203; b ← int 0 255; c ← int 0 255; d ← int 1 254;
      mret (to_dec a +:+ "." +:+ to_dec b +:+ "." +:+ to_dec c +:+ "." +:+ to_dec d, entityType)
  | process =>
      p ← pick ["powershell.exe"; "cmd.exe"; "bash"; "rundll32.exe"; "curl"];
      mret (p, entityType)
  | file =>
      f ← pick ["update"; "svc"; "cache"; "payload"]; e ← pick ["bin"; "sh"; "dll"];
      mret ("/tmp/" +:+ f +:+ "." +:+ e, entityType)
  | session => n ← int 100000 999999; mret ("sess-" +:+ to_dec n, entityType)
  end.

Definition tactic_leb (a b : Tactic) : bool := tactic_index a - tactic_index b <=? 0.

Definition tacticsForSeverity (severity : Severity) : M Z (list Tactic) :=
  n ← match severity with critical => int 3 5 | high => int 2 4 | _ => int 1 2 end;
  ts ← pickN TACTICS n;
  mret (sort_by tactic_leb ts).

Definition statusForSeverity (severity : Severity) : M Z CaseStatus :=
  match severity with
  | critical => pick [escalated; investigating; escalated]
  | high => pick [investigating; escalated; st_open]
  | _ =>
      roll ← next;
      mret (if Qltb roll (fl (15 # 100)) then dismissed
            else if Qltb roll (fl (35 # 100)) then closed
            else if Qltb roll (fl (6 # 10)) then investigating
            else st_open)
  end.

(** [s.replace(pat, rep)]: the first occurrence only. *)
Fixpoint replace_first (pat rep s : string) : string :=
  if String.prefix pat s
  then rep +:+ String.substring (String.length pat) (String.length s - String.length pat) s
  else match s with
       | EmptyString => EmptyString
       | String c s' => String c (replace_first pat rep s')
       end.

(** [Math.round(x) || 1]. *)
Definition round_or_one (q : Q) : Z := let r := js_round q in if r =? 0 then 1 else r.

Definition case_summary_text (tactics : list Tactic) (entity : string) (ageMs riskScore : Z) : string :=
  to_dec (Z.of_nat (length tactics)) +:+ " tactic" +:+
  (if (length tactics =? 1)%nat then EmptyString else "s") +:+ " observed against " +:+ entity +:+
  " over the last " +:+ to_dec (round_or_one (ddiv (inject_Z ageMs) (inject_Z 3600000))) +:+
  "h. Risk score " +:+ to_dec riskScore +:+ "/10000.".

Definition generateCase (index nowMs : Z) : M Z Case :=
  e ← randomEntity;
  let entity := e.1 in
  riskScore ← int 0 10000;
  let severity := severityForScore riskScore in
  incomplete_ ← bool_ (4 # 100);
  let disposition := dispositionFor severity incomplete_ in
  tactics ← tacticsForSeverity severity;
  ageMs ← int 60000 (21 * 24 * 60 * 60 * 1000);
  template ← pick TITLE_TEMPLATES;
  tenantId ← pick SEED_TENANTS;
  claimCount ← int 1 12;
  back ← int 0 (Z.min ageMs 3600000);
  status ← statusForSeverity severity;
  assignee ← pick ASSIGNEES;
  mret {| case_id := "case-" +:+ to_radix 36 index;
          case_tenantId := tenantId;
          case_title := replace_first "{entity}" entity template;
          case_primaryEntity := entity;
          case_entityType := e.2;
          case_severity := severity;
          case_disposition := disposition;
          case_riskScore := riskScore;
          case_tactics := tactics;
          case_claimCount := claimCount;
          case_createdAtMs := nowMs - ageMs;
          case_updatedAtMs := nowMs - back;
          case_status := status;
          case_assignee := assignee;
          case_summary := case_summary_text tactics entity ageMs riskScore;
          case_dismissReason := None |}.

(** The loop of [generateCases] for [i < count]. *)
Fixpoint generate_from (n : nat) (i nowMs : Z) : M Z (list Case) :=
  match n with
  | O => mret []
  | S n' => c ← generateCase i nowMs; cs ← generate_from n' (i + 1) nowMs; mret (c :: cs)
  end.

Definition generateCases (count : nat) (seed nowMs : Z) : outcome (list Case) :=
  (generate_from count 0 nowMs (create seed)).2.

Definition PREDICATES_BY_TACTIC (t : Tactic) : list string :=
  match t with
  | initial_access => ["AUTH_FAILED_BURST"; "AUTH_FROM_NEW_ASN"]
  | execution => ["INTERPRETER_SPAWNED_BY"; "ENCODED_COMMAND"]
  | persistence => ["PERSISTENCE_REGISTRY_RUN_KEY"]
  | privilege_escalation => ["PRIVILEGE_ESCALATION_ATTEMPT"]
  | defense_evasion => ["DEFENSE_EVASION_ATTEMPT"]
  | credential_access => ["AUTH_SUCCEEDED_AFTER_FAILURES"; "TOKEN_REPLAYED"]
  | discovery => ["RDP_INTERNAL_FIRST_TIME"]
  | lateral_movement => ["LATERAL_MOVEMENT_DETECTED"]
  | collection => ["DATA_STAGING_DETECTED"]
  | command_and_control => ["INTERPRETER_NETWORK_EGRESS"; "CONNECTED_TO_INDICATOR"]
  | exfiltration => ["DATA_EXFILTRATED"]
  | impact => ["IMPACT_DETECTED"]
  end.

(** [Array.from({ length: n }, () => rng.int(0, 15).toString(16)).join("")] *)
Definition hex_digits (n : nat) : M Z string :=
  ds ← repeatM n (int 0 15); mret (String.concat EmptyString (to_radix 16 <$> ds)).

Definition windowMs (c : Case) : Z :=
  let w := case_updatedAtMs c - case_createdAtMs c in if w =? 0 then 60000 else w.

(** The inner loop: [n] events for one tactic, appended to [events]. *)
Fixpoint timeline_tactic (c : Case) (tactic : Tactic) (n : nat) (events : list TimelineEvent)
    : M Z (list TimelineEvent) :=
  match n with
  | O => mret events
  | S n' =>
      q ← next;
      predicate ← pick (PREDICATES_BY_TACTIC tactic);
      claimId ← hex_digits 16;
      timeline_tactic c tactic n'
        (events ++ [{| ev_id := case_id c +:+ "-ev-" +:+ to_dec (Z.of_nat (length events));
                       ev_atMs := case_createdAtMs c + js_round (dmul q (inject_Z (windowMs c)));
                       ev_tactic := tactic;
                       ev_predicate := predicate;
                       ev_entity := case_primaryEntity c;
                       ev_claimId := claimId |}])
  end.

Definition event_leb (a b : TimelineEvent) : bool := ev_atMs a - ev_atMs b <=? 0.

Definition timeline_events (c : Case) : M Z (list TimelineEvent) :=
  events ← foldM (fun events tactic =>
                    n ← int 1 3; timeline_tactic c tactic (Z.to_nat n) events)
                 [] (case_tactics c);
  mret (sort_by event_leb events).

Definition generateTimelineEvents (c : Case) (seed : Z) : outcome (list TimelineEvent) :=
  (timeline_events c (create seed)).2.

(** ** What the corpus promises *)

(** The fields that depend on each other agree. *)
Record case_ok (c : Case) : Prop := {
  ok_risk : 0 <= case_riskScore c <= 10000;
  ok_severity : case_severity c = severityForScore (case_riskScore c);
  ok_disposition :
    case_disposition c = dispositionFor (case_severity c)
                           (bool_decide (case_disposition c = incomplete));
  ok_tactics_nodup : NoDup (case_tactics c);
  ok_tactics_sorted : StronglySorted (fun a b => tactic_index a <= tactic_index b) (case_tactics c);
  ok_tactics_len : (1 <= length (case_tactics c) <= 5)%nat;
}.

(** What generation adds: the times of a fresh case are ordered. *)
Record case_fresh (nowMs : Z) (c : Case) : Prop := {
  fresh_ok : case_ok c;
  fresh_claims : 1 <= case_claimCount c <= 12;
  fresh_times : case_createdAtMs c <= case_updatedAtMs c <= nowMs;
  fresh_age : nowMs - 1814400000 <= case_createdAtMs c <= nowMs - 60000;
}.

Lemma dispositionFor_self s b :
  dispositionFor s b = dispositionFor s (bool_decide (dispositionFor s b = incomplete)).
Proof. by destruct s, b. Qed.

Lemma draws_randomEntity : draws 5 randomEntity (fun _ => True).
Proof.
  unfold randomEntity, ENTITY_TYPES, HOST_NAMES, USER_NAMES. draw t Ht.
  destruct t; draw_all; by apply draws_done.
Qed.

Lemma tactic_sorted_strong l :
  StronglySorted (fun a b => tactic_index a <= tactic_index b) (sort_by tactic_leb l).
Proof.
  eapply StronglySorted_weaken; [|apply sort_by_strongly_sorted];
    unfold tactic_leb; intros *; rewrite ?Z.leb_le; lia.
Qed.

Lemma draws_tacticsForSeverity s :
  draws 6 (tacticsForSeverity s) (fun l =>
    NoDup l ∧ StronglySorted (fun a b => tactic_index a <= tactic_index b) l ∧
    (1 <= length l <= 5)%nat).
Proof.
  unfold tacticsForSeverity.
  apply (draws_step 1 6 _ _ (fun n => 1 <= n <= 5)).
  { destruct s; (eapply draws_weaken; [eauto with draws|simpl; lia]). }
  { lia. }
  intros n Hn. cbn [Nat.sub].
  eapply (draws_step (Z.to_nat n)); [apply draws_pickN; [apply NoDup_TACTICS|done]|lia|].
  intros l (Hl & Hnd & _). apply draws_done.
  split; [by rewrite sort_by_perm|]. split; [apply tactic_sorted_strong|].
  rewrite length_sort_by, Hl. change (length TACTICS) with 12%nat. lia.
Qed.

Lemma draws_statusForSeverity s : draws 1 (statusForSeverity s) (fun _ => True).
Proof.
  destruct s; simpl; try (draw q Hq; by apply draws_done);
    (eapply draws_weaken; [eauto with draws|done]).
Qed.

#[local] Hint Resolve draws_randomEntity draws_tacticsForSeverity draws_statusForSeverity : draws.

(** A case takes at most 20 draws, and they give a well-formed case. *)
Lemma draws_generateCase index nowMs :
  draws 20 (generateCase index nowMs) (fun c =>
    case_fresh nowMs c ∧ case_id c = "case-" +:+ to_radix 36 index ∧ case_tenantId c ∈ SEED_TENANTS).
Proof.
  unfold generateCase, TITLE_TEMPLATES, SEED_TENANTS, ASSIGNEES.
  draw e He. draw risk Hrisk. draw inc Hinc. draw tactics Htac. draw age Hage.
  draw template Htem. draw tenant Hten. draw claims Hcl. draw back Hback. draw status Hst.
  draw assignee Has. apply draws_done. destruct Htac as (Hnd & Hso & Hlen).
  split; [|done].
  repeat split; simpl; try done; try lia. apply dispositionFor_self.
Qed.

Lemma draws_generate_from n i nowMs :
  draws (n * 20) (generate_from n i nowMs) (fun cs =>
    Forall (case_fresh nowMs) cs ∧ Forall (fun c => case_tenantId c ∈ SEED_TENANTS) cs ∧
    case_id <$> cs = (fun j => "case-" +:+ to_radix 36 j) <$> seqZ i (Z.of_nat n)).
Proof.
  revert i; induction n as [|n IH]; intros i; [by apply draws_done|].
  cbn [generate_from].
  eapply (draws_step 20); [apply draws_generateCase|lia|]. intros c (Hc & Hid & Ht).
  replace (S n * 20 - 20)%nat with (n * 20)%nat by lia.
  eapply (draws_step (n * 20)); [apply IH|lia|]. intros cs (Hcs & Hts & Hids).
  apply draws_done. rewrite seqZ_cons by lia. csimpl.
  rewrite Hid, Hids. replace (Z.succ i) with (i + 1) by lia.
  replace (Z.pred (Z.of_nat (S n))) with (Z.of_nat n) by lia.
  split; [by constructor|]. split; [by constructor|done].
Qed.

Lemma case_id_text_inj : Inj (=) (=) (fun j => "case-" +:+ to_radix 36 j).
Proof.
  intros i j Heq. simpl in Heq. simplify_eq. by eapply to_radix_inj in Heq; [|lia].
Qed.

(** ** Timeline events *)

Definition event_ok (c : Case) (e : TimelineEvent) : Prop :=
  ev_tactic e ∈ case_tactics c ∧
  ev_predicate e ∈ PREDICATES_BY_TACTIC (ev_tactic e) ∧
  ev_entity e = case_primaryEntity c ∧
  case_createdAtMs c <= ev_atMs e <= case_createdAtMs c + windowMs c.

Lemma windowMs_pos c : case_createdAtMs c <= case_updatedAtMs c → 0 < windowMs c.
Proof. intros H. unfold windowMs. destruct (Z.eqb_spec (case_updatedAtMs c - case_createdAtMs c) 0); lia. Qed.

Lemma PREDICATES_nonempty t : PREDICATES_BY_TACTIC t ≠ [].
Proof. by destruct t. Qed.

Lemma PREDICATES_short t : Z.of_nat (length (PREDICATES_BY_TACTIC t)) < 2 ^ 53.
Proof. by destruct t. Qed.

Lemma draws_predicate t :
  draws 1 (pick (PREDICATES_BY_TACTIC t)) (fun p => p ∈ PREDICATES_BY_TACTIC t).
Proof. apply draws_pick; [apply PREDICATES_nonempty|apply PREDICATES_short]. Qed.

Lemma draws_hex_digits n : draws n (hex_digits n) (fun _ => True).
Proof.
  unfold hex_digits. eapply (draws_step (n * 1)); [apply draws_repeat, draws_int; lia|lia|].
  intros ds _. by apply draws_done.
Qed.

#[export] Hint Resolve draws_predicate draws_hex_digits : draws.

(** Events numbered by their position in the list under construction. *)
Definition numbered (c : Case) (l : list TimelineEvent) : Prop :=
  ev_id <$> l = (fun j => case_id c +:+ "-ev-" +:+ to_dec j) <$> seqZ 0 (Z.of_nat (length l)).

Lemma numbered_snoc c l e :
  numbered c l → ev_id e = case_id c +:+ "-ev-" +:+ to_dec (Z.of_nat (length l)) →
  numbered c (l ++ [e]).
Proof.
  unfold numbered. intros Hl He. rewrite fmap_app, Hl, length_app, Nat2Z.inj_add, seqZ_app by lia.
  rewrite fmap_app. f_equal. csimpl. by rewrite He.
Qed.

Lemma draws_timeline_tactic c t n events :
  case_createdAtMs c <= case_updatedAtMs c → t ∈ case_tactics c →
  numbered c events → Forall (event_ok c) events →
  draws (n * 18) (timeline_tactic c t n events) (fun l =>
    numbered c l ∧ Forall (event_ok c) l ∧ length l = (length events + n)%nat ∧
    ∃ k, l = events ++ k).
Proof.
  intros Hc Ht. revert events; induction n as [|n IH]; intros events Hnum Hok.
  { apply draws_done. repeat split; [done..|lia|]. exists []. by rewrite app_nil_r. }
  cbn [timeline_tactic].
  eapply (draws_step 1); [apply draws_next|lia|]. intros q Hq. cbv beta in Hq.
  eapply (draws_step 1); [apply draws_predicate|lia|]. intros p Hp. cbv beta in Hp.
  eapply (draws_step 16); [apply draws_hex_digits|lia|]. intros h _.
  replace (S n * 18 - 1 - 1 - 16)%nat with (n * 18)%nat by lia.
  eapply draws_weaken; [apply IH|].
  - by apply numbered_snoc.
  - apply Forall_app. split; [done|]. apply Forall_singleton.
    pose proof (scaled_round q _ (windowMs_pos c Hc) Hq).
    repeat split; simpl; try done; lia.
  - intros l (Hl1 & Hl2 & Hl3 & k & ->). rewrite !length_app in Hl3.
    split; [done|]. split; [done|]. rewrite !length_app. change (length [_]) with 1%nat in *.
    split; [lia|]. rewrite <- app_assoc. eauto.
Qed.

Lemma draws_timeline_fold c ts events :
  case_createdAtMs c <= case_updatedAtMs c → ts ⊆ case_tactics c →
  numbered c events → Forall (event_ok c) events →
  draws (length ts * 55)
    (foldM (fun events tactic => n ← int 1 3; timeline_tactic c tactic (Z.to_nat n) events) events ts)
    (fun l => numbered c l ∧ Forall (event_ok c) l ∧
       (length events + length ts <= length l <= length events + 3 * length ts)%nat).
Proof.
  intros Hc. revert events; induction ts as [|t ts IH]; intros events Hsub Hnum Hok.
  { apply draws_done. repeat split; simpl; try done; lia. }
  cbn [foldM length].
  eapply (draws_step 55 _ _ _ (fun l => numbered c l ∧ Forall (event_ok c) l ∧
      (length events + 1 <= length l <= length events + 3)%nat)).
  - eapply (draws_step 1 55); [apply draws_int; lia|lia|]. intros n Hn. cbv beta in Hn.
    eapply (draws_mono (Z.to_nat n * 18)); [apply draws_timeline_tactic; [set_solver..]|lia|].
    intros l (? & ? & ? & _). repeat split; [done..|lia|lia].
  - lia.
  - intros l (? & ? & ?). replace (S (length ts) * 55 - 55)%nat with (length ts * 55)%nat by lia.
    eapply draws_weaken; [apply IH; [set_solver|done..]|].
    intros l' (? & ? & ?). repeat split; [done..|lia|lia].
Qed.

(** ** Properties *)

(** From any seed whose draws avoid the top word, [generateCases] returns
    [count] cases with pairwise distinct ids, each with a severity and a
    disposition derived from its score, tactics in kill-chain order without
    repetition, and times in the last 21 days. *)
Theorem generateCases_ok count seed nowMs :
  clean (count * 20) (create seed) = true →
  ∃ cs, generateCases count seed nowMs = Ok cs ∧ length cs = count ∧
    NoDup (case_id <$> cs) ∧ Forall (case_fresh nowMs) cs.
Proof.
  intros Hc.
  destruct (draws_generate_from count 0 nowMs _ Hc) as (k & cs & _ & Heq & Hcs & _ & Hids).
  exists cs. unfold generateCases. rewrite Heq. split; [done|].
  split; [|split; [|done]].
  - apply (f_equal length) in Hids. rewrite !length_fmap, length_seqZ in Hids. lia.
  - rewrite Hids. apply NoDup_fmap_2; [apply case_id_text_inj|apply NoDup_seqZ].
Qed.

Lemma generateCases_ok_witness :
  clean 60 (create 20260910) = true ∧
  ∃ cs, generateCases 3 20260910 1757500000000 = Ok cs ∧ length cs = 3%nat ∧
    NoDup (case_id <$> cs) ∧ Forall (case_fresh 1757500000000) cs.
Proof.
  assert (clean (3 * 20) (create 20260910) = true) as H by (vm_compute; reflexivity).
  split; [exact H|exact (generateCases_ok 3 20260910 1757500000000 H)].
Defined.

(** The timeline of a case is sorted by time; each of its tactics has one to
    three events, inside the case's window, with a predicate of that tactic and
    ids numbered without repetition. *)
Theorem generateTimelineEvents_ok c seed :
  case_createdAtMs c <= case_updatedAtMs c →
  clean (length (case_tactics c) * 55) (create seed) = true →
  ∃ es, generateTimelineEvents c seed = Ok es ∧
    StronglySorted (fun a b => ev_atMs a <= ev_atMs b) es ∧
    Forall (event_ok c) es ∧ NoDup (ev_id <$> es) ∧
    (length (case_tactics c) <= length es <= 3 * length (case_tactics c))%nat.
Proof.
  intros Ht Hc.
  destruct (draws_timeline_fold c (case_tactics c) [] Ht) with (create seed) as
    (k & l & _ & Heq & Hnum & Hok & Hlen); [done|done|constructor|done|].
  exists (sort_by event_leb l). unfold generateTimelineEvents, timeline_events.
  rewrite (bind_Ok _ _ _ _ _ Heq). repeat split.
  - eapply StronglySorted_weaken; [|apply sort_by_strongly_sorted];
      unfold event_leb; intros *; rewrite ?Z.leb_le; lia.
  - by rewrite sort_by_perm.
  - rewrite sort_by_perm, Hnum. apply NoDup_fmap_2; [|apply NoDup_seqZ].
    intros i j Hij. apply (inj (String.append _)) in Hij. simpl in Hij. simplify_eq.
    by eapply to_radix_inj in Hij; [|lia].
  - rewrite length_sort_by. simpl in Hlen. lia.
  - rewrite length_sort_by. simpl in Hlen. lia.
Qed.

Definition sample_case : Case :=
  {| case_id := "case-0"; case_tenantId := "tenant-alpha"; case_title := "C2 beacon candidate on curl";
     case_primaryEntity := "curl"; case_entityType := process; case_severity := high;
     case_disposition := malicious; case_riskScore := 7000;
     case_tactics := [execution; command_and_control]; case_claimCount := 4;
     case_createdAtMs := 1757400000000; case_updatedAtMs := 1757499000000;
     case_status := investigating; case_assignee := None;
     case_summary := "sample"; case_dismissReason := None |}.

Lemma generateTimelineEvents_ok_witness :
  clean 110 (create 7) = true ∧
  ∃ es, generateTimelineEvents sample_case 7 = Ok es ∧
    StronglySorted (fun a b => ev_atMs a <= ev_atMs b) es ∧
    Forall (event_ok sample_case) es ∧ NoDup (ev_id <$> es) ∧
    (length (case_tactics sample_case) <= length es <= 3 * length (case_tactics sample_case))%nat.
Proof.
  assert (clean 110 (create 7) = true) as H by (vm_compute; reflexivity).
  split; [exact H|].
  refine (generateTimelineEvents_ok sample_case 7 _ H). simpl. lia.
Defined.
