(* ===== verification/Store.v ===== *)
(** * The in-memory store: web/src/lib/data/store.ts

    The singleton behind every API route of the console: cases, response
    actions and the live generator.  Its operations are computations over the
    record [Store]; [Date.now()] is an argument, one per reading.  The two API
    routes that drive it (app/api/cases/stream and
    app/api/response-actions/[id]/...) are here too. *)

From S2P Require Import Prelude JsNum Rng Orbit Types Seed.
From Stdlib Require Import Ascii QArith Qround Lqa.
Open Scope Z_scope.
Import Xorshift32.

Definition CASE_COUNT : nat := Z.to_nat 10000.

Record Store := mkStore {
  st_cases : gmap string Case;
  st_order : list string;
  st_detectorFires : list DetectorFireEvent;
  st_responseActions : list (string * ResponseAction);
  st_liveRng : Z;
  st_ingestRatePerSec : Z;
}.

Definition set_cases (f : gmap string Case → gmap string Case) (st : Store) : Store :=
  mkStore (f (st_cases st)) (st_order st) (st_detectorFires st) (st_responseActions st)
          (st_liveRng st) (st_ingestRatePerSec st).
Definition set_order (f : list string → list string) (st : Store) : Store :=
  mkStore (st_cases st) (f (st_order st)) (st_detectorFires st) (st_responseActions st)
          (st_liveRng st) (st_ingestRatePerSec st).
Definition set_fires (f : list DetectorFireEvent → list DetectorFireEvent) (st : Store) : Store :=
  mkStore (st_cases st) (st_order st) (f (st_detectorFires st)) (st_responseActions st)
          (st_liveRng st) (st_ingestRatePerSec st).
Definition set_actions (f : list (string * ResponseAction) → list (string * ResponseAction))
    (st : Store) : Store :=
  mkStore (st_cases st) (st_order st) (st_detectorFires st) (f (st_responseActions st))
          (st_liveRng st) (st_ingestRatePerSec st).
Definition set_rng (r : Z) (st : Store) : Store :=
  mkStore (st_cases st) (st_order st) (st_detectorFires st) (st_responseActions st)
          r (st_ingestRatePerSec st).

(** ** Initialisation *)

Definition ACTION_KINDS : list ResponseActionKind :=
  [isolate_host; disable_account; revoke_session; block_indicator; quarantine_file].

Definition proposedAction (kind : ResponseActionKind) (c : Case) : ResponseAction :=
  {| ra_id := "ra-" +:+ case_id c;
     ra_caseId := case_id c;
     ra_kind := kind;
     ra_target := case_primaryEntity c;
     ra_proposedAtMs := case_updatedAtMs c;
     ra_rationale := to_dec (Z.of_nat (length (case_tactics c))) +:+
       " contributing tactic(s), risk score " +:+ to_dec (case_riskScore c) +:+
       "/10000 -- see case " +:+ case_id c +:+ ".";
     ra_status := pending |}.

Definition action_candidates (cases : list Case) : list Case :=
  take 40 (filter (fun c => case_severity c = high ∨ case_severity c = critical) cases).

Definition buildResponseActions (cases : list Case) : M Z (list (string * ResponseAction)) :=
  foldM (fun actions c =>
           kind ← pick ACTION_KINDS;
           mret (omap_set ("ra-" +:+ case_id c) (proposedAction kind c) actions))
        [] (action_candidates cases).

(** [new Map(cases.map((c) => [c.id, c]))]: a later entry wins. *)
Definition case_map (cases : list Case) : gmap string Case :=
  foldl (fun m c => <[case_id c := c]> m) ∅ cases.

(** [initStore] for a corpus of [count] cases; the program's own is [initStore]. *)
Definition initStore_of (count : nat) (nowMs : Z) : outcome Store :=
  cases ← generateCases count 20260910 nowMs;
  let '(rng, r) := buildResponseActions cases (create 12648430) in
  actions ← r;
  Ok {| st_cases := case_map cases;
        st_order := case_id <$> cases;
        st_detectorFires := [];
        st_responseActions := actions;
        st_liveRng := rng;
        st_ingestRatePerSec := 40 |}.

Definition initStore : Z → outcome Store := initStore_of CASE_COUNT.

(** [getStore] on the singleton, absent before the first call. *)
Definition getStore (nowMs : Z) (cached : option Store) : outcome Store :=
  match cached with Some st => Ok st | None => initStore nowMs end.

(** ** Reading *)

Definition listCases (st : Store) : outcome (list Case) :=
  mapM_out (fun id => or_throw Undefined (st_cases st !! id)) (st_order st).

Definition getCase (id : string) (st : Store) : option Case := st_cases st !! id.

Definition listResponseActions (st : Store) : list ResponseAction :=
  omap_values (st_responseActions st).

Definition getResponseAction (id : string) (st : Store) : option ResponseAction :=
  omap_get id (st_responseActions st).

(** ** One simulated tick *)

Inductive tick_result :=
| R_update (c : Case)
| R_new (c : Case)
| R_fire (e : DetectorFireEvent).

Definition FIRE_RULES : list string :=
  ["cdl.credential.auth-burst-then-success"; "cdl.execution.interpreter-spawned";
   "cdl.execution.encoded-command"; "cdl.c2.interpreter-network-egress";
   "cdl.c2.connected-to-indicator"].

(** A draw from [store.liveRng]. *)
Definition live {A} (m : M Z A) : M Store A := zoom st_liveRng set_rng m.

Definition gets {A} (f : Store → A) : M Store A := fun st => (st, Ok (f st)).
Definition modify (f : Store → Store) : M Store unit := fun st => (f st, Ok tt).

(** [{ ...generated, id, createdAtMs: nowMs, updatedAtMs: nowMs }] *)
Definition spawned_case (id : string) (nowMs : Z) (c : Case) : Case :=
  {| case_id := id; case_tenantId := case_tenantId c; case_title := case_title c;
     case_primaryEntity := case_primaryEntity c; case_entityType := case_entityType c;
     case_severity := case_severity c; case_disposition := case_disposition c;
     case_riskScore := case_riskScore c; case_tactics := case_tactics c;
     case_claimCount := case_claimCount c; case_createdAtMs := nowMs; case_updatedAtMs := nowMs;
     case_status := case_status c; case_assignee := case_assignee c;
     case_summary := case_summary c; case_dismissReason := case_dismissReason c |}.

(** [{ ...existing, riskScore, severity, disposition, updatedAtMs }] *)
Definition rescored_case (riskScore nowMs : Z) (existing : Case) : Case :=
  let severity := severityForScore riskScore in
  {| case_id := case_id existing; case_tenantId := case_tenantId existing;
     case_title := case_title existing; case_primaryEntity := case_primaryEntity existing;
     case_entityType := case_entityType existing; case_severity := severity;
     case_disposition :=
       dispositionFor severity (bool_decide (case_disposition existing = incomplete));
     case_riskScore := riskScore; case_tactics := case_tactics existing;
     case_claimCount := case_claimCount existing; case_createdAtMs := case_createdAtMs existing;
     case_updatedAtMs := nowMs; case_status := case_status existing;
     case_assignee := case_assignee existing; case_summary := case_summary existing;
     case_dismissReason := case_dismissReason existing |}.

Section tick.

(** [x ** y] on doubles, which ECMAScript leaves implementation-approximated. *)
Context (js_pow : Q → Z → Q).

Definition tick_new (now1 now2 : Z) : M Store tick_result :=
  n ← live (int 0 9999);
  let id := "case-" +:+ to_radix 36 now1 +:+ "-" +:+ to_dec n in
  seed ← live (int 1 (2 ^ 31 - 1));
  cs ← lift (generateCases 1 seed now2);
  c0 ← lift (or_throw Undefined (cs !! O));
  let c := spawned_case id now2 c0 in
  _ ← modify (set_cases <[id := c]>);
  _ ← modify (set_order (cons id));
  mret (R_new c).

Definition tick_update (now : Z) : M Store tick_result :=
  q ← live next;
  order ← gets st_order;
  let len := Z.of_nat (length order) in
  let biasedIndex := js_floor (dmul (js_pow q 3) (inject_Z len)) in
  id ← lift (or_throw TypeError (at_index order (Z.min biasedIndex (len - 1))));
  cases ← gets st_cases;
  existing ← lift (or_throw TypeError (cases !! id));
  d ← live (int (-150) 150);
  let riskScore := Z.max 0 (Z.min 10000 (case_riskScore existing + d)) in
  let updated := rescored_case riskScore now existing in
  _ ← modify (set_cases <[id := updated]>);
  mret (R_update updated).

Definition tick_fire (now1 now2 : Z) : M Store tick_result :=
  n ← live (int 0 9999);
  ruleId ← live (pick_opt FIRE_RULES);
  order ← gets st_order;
  cases ← gets st_cases;
  entity ← (if (0 <? length order)%nat
            then i ← live (int 0 (Z.of_nat (length order) - 1));
                 c ← lift (or_throw TypeError (id ← at_index order i; cases !! id));
                 mret (case_primaryEntity c)
            else mret "unknown");
  let event := {| fire_id := "fire-" +:+ to_radix 36 now1 +:+ "-" +:+ to_dec n;
                  fire_atMs := now2; fire_ruleId := ruleId; fire_entity := entity |} in
  _ ← modify (set_fires (fun fs => fs ++ [event]));
  _ ← modify (set_fires (fun fs => if (200 <? length fs)%nat then drop 1 fs else fs));
  mret (R_fire event).

Definition tick (now1 now2 : Z) : M Store tick_result :=
  roll ← live next;
  if Qltb roll (fl (6 # 100)) then tick_new now1 now2
  else if Qltb roll (fl (26 # 100)) then tick_update now1
  else tick_fire now1 now2.

End tick.

(** ** Response actions *)

Definition set_status (a : ResponseAction) (status : ActionStatus) : ResponseAction :=
  {| ra_id := ra_id a; ra_caseId := ra_caseId a; ra_kind := ra_kind a; ra_target := ra_target a;
     ra_proposedAtMs := ra_proposedAtMs a; ra_rationale := ra_rationale a; ra_status := status |}.

Definition decideResponseAction (id : string) (status : ActionStatus) (st : Store)
    : Store * option ResponseAction :=
  match omap_get id (st_responseActions st) with
  | None => (st, None)
  | Some action =>
      let updated := set_status action status in
      (set_actions (omap_set id updated) st, Some updated)
  end.

(** app/api/response-actions/[id]/decision: [body] is the [status] property of
    the parsed body when it is a string. *)
Inductive decision_response :=
| D_bad_request
| D_not_found
| D_action (a : ResponseAction).

Definition VALID_DECISIONS : list ActionStatus := [approved; modified; rejected].

Definition POST_decision (id : string) (body : option string) (st : Store)
    : Store * decision_response :=
  match body ≫= of_name VALID_DECISIONS action_status_name with
  | None => (st, D_bad_request)
  | Some status =>
      match decideResponseAction id status st with
      | (st', None) => (st', D_not_found)
      | (st', Some a) => (st', D_action a)
      end
  end.

Definition blast_radius (a : ResponseAction) : M Z BlastRadius :=
  principalCount ← int 1 6;
  hostCount ← int 1 5;
  serviceCount ← int 0 4;
  isTier0 ← bool_ (2 # 10);
  principals ← repeatM (Z.to_nat principalCount)
    (u ← pick ["jdoe"; "asmith"; "mchen"; "rkumar"; "svc-backup"]; mret ("user:" +:+ u));
  hosts ← repeatM (Z.to_nat hostCount)
    (h ← pick ["WIN-CLIENT"; "WIN-SRV"; "LNX-WEB"; "LNX-DB"]; n ← int 1 99;
     mret (h +:+ "-" +:+ to_dec n));
  services ← repeatM (Z.to_nat serviceCount)
    (pick ["billing-api"; "auth-gateway"; "case-search"; "report-export"; "ingest-collector"]);
  mret {| br_affectedPrincipals := principals; br_affectedHosts := hosts;
          br_dependentServices := services; br_isTier0 := isTier0 |}.

Definition computeBlastRadius (a : ResponseAction) : outcome BlastRadius :=
  (blast_radius a (create (Z.of_nat (String.length (ra_id a)) * 7919 + ra_proposedAtMs a))).2.

(** app/api/response-actions/[id]/blast-radius, after its delay. *)
Definition GET_blast_radius (id : string) (st : Store) : outcome (option BlastRadius) :=
  match getResponseAction id st with
  | None => Ok None
  | Some a => b ← computeBlastRadius a; Ok (Some b)
  end.

(** ** Statistics *)

Definition open_status (s : CaseStatus) : bool :=
  match s with st_open | investigating | escalated => true | _ => false end.

Definition trend (base spread : Z) : M Z (list Z) :=
  repeatM 12 (d ← int (- spread) spread; mret (Z.max 0 (base + d))).

Definition compute_tiles (openCount : Z) : M Z (list StatTile) :=
  t1 ← trend openCount (Z.max 1 (js_round (dmul (inject_Z openCount) (fl (8 # 100)))));
  t2 ← trend 50 8;
  t3 ← trend 300 30;
  t4 ← trend 32 5;
  t5 ← trend 5 3;
  mret [ mkStatTile "open-by-severity" "Open cases" openCount u_count
           (openCount - js_round (dmul (inject_Z openCount) (fl (93 # 100))))
           "vs same time yesterday" t1 g_down;
         mkStatTile "mttd" "Mean time to detect" 47 u_duration_s (-6) "vs trailing 7d" t2 g_down;
         mkStatTile "mttr" "Mean time to respond" 312 u_duration_s 18 "vs trailing 7d" t3 g_down;
         mkStatTile "autonomous-close-rate" "Autonomous-close rate" 34 u_percent 3
           "vs trailing 30d" t4 g_up;
         mkStatTile "drift-alerts-today" "Drift alerts today" 6 u_count 2 "vs yesterday" t5 g_down ].

Definition computeStats (st : Store) : outcome (list StatTile) :=
  cases ← listCases st;
  let openCases := filter (fun c => open_status (case_status c)) cases in
  let n := Z.of_nat (length openCases) in
  (compute_tiles n (create (359029 + n))).2.

(** ** The timeline of a case *)

(** [for (...) seed = (seed * 31 + caseId.charCodeAt(i)) | 0;] *)
Fixpoint hash31 (seed : Z) (s : string) : Z :=
  match s with
  | EmptyString => seed
  | String c s' => hash31 (int32 (seed * 31 + Z.of_N (N_of_ascii c))) s'
  end.

Definition getCaseTimeline (caseId : string) (st : Store) : outcome (option (list TimelineEvent)) :=
  match getCase caseId st with
  | None => Ok None
  | Some c => es ← generateTimelineEvents c (hash31 0 caseId); Ok (Some es)
  end.

(** ** The store invariant *)

Record store_ok (st : Store) : Prop := {
  so_cases : ∀ id c, st_cases st !! id = Some c → case_id c = id ∧ case_ok c;
  so_order : ∀ id, id ∈ st_order st ↔ is_Some (st_cases st !! id);
  so_fires : (length (st_detectorFires st) <= 200)%nat;
  so_actions : ∀ id a, omap_get id (st_responseActions st) = Some a → ra_id a = id;
  so_rng : uint32 (st_liveRng st) ≠ 0;
}.

(** The abstract step of a tick: what it may do to the cases, their order and
    the fires, whatever the draws are. *)
Inductive store_step (st : Store) : tick_result → Store → Prop :=
| step_new c rng :
    case_ok c → case_createdAtMs c = case_updatedAtMs c → uint32 rng ≠ 0 →
    store_step st (R_new c)
      (set_order (cons (case_id c)) (set_cases <[case_id c := c]> (set_rng rng st)))
| step_update old score now rng :
    st_cases st !! case_id old = Some old →
    0 <= score <= 10000 → Z.abs (score - case_riskScore old) <= 150 → uint32 rng ≠ 0 →
    store_step st (R_update (rescored_case score now old))
      (set_cases <[case_id old := rescored_case score now old]> (set_rng rng st))
| step_fire e rng :
    (fire_ruleId e = None ∨ ∃ rule, fire_ruleId e = Some rule ∧ rule ∈ FIRE_RULES) →
    (∃ c, st_cases st !! case_id c = Some c ∧ fire_entity e = case_primaryEntity c) →
    uint32 rng ≠ 0 →
    store_step st (R_fire e)
      (set_fires (fun fs => drop (length (fs ++ [e]) - 200) (fs ++ [e])) (set_rng rng st)).

Lemma rescored_ok score now c : 0 <= score <= 10000 → case_ok c → case_ok (rescored_case score now c).
Proof.
  intros Hs []. split; simpl; try done. apply dispositionFor_self.
Qed.

Lemma store_step_ok st r st' : store_ok st → store_step st r st' → store_ok st'.
Proof.
  intros [Hc Ho Hf Ha Hr]. destruct 1 as [c rng Hok _ Hnz|old score now rng Hold Hs Hd Hnz|e rng _ _ Hnz];
    split; simpl; try done.
  - intros id c'. destruct (decide (id = case_id c)) as [->|Hne].
    + rewrite lookup_insert_eq. by intros [= <-].
    + rewrite lookup_insert_ne by done. apply Hc.
  - intros id. rewrite elem_of_cons, Ho. destruct (decide (id = case_id c)) as [->|Hne].
    + rewrite lookup_insert_eq. naive_solver.
    + rewrite lookup_insert_ne by done. naive_solver.
  - intros id c'. destruct (decide (id = case_id old)) as [->|Hne].
    + rewrite lookup_insert_eq. intros [= <-]. split; [done|]. apply rescored_ok; [done|].
      by eapply Hc.
    + rewrite lookup_insert_ne by done. apply Hc.
  - intros id. rewrite Ho. destruct (decide (id = case_id old)) as [->|Hne].
    + rewrite lookup_insert_eq. naive_solver.
    + by rewrite lookup_insert_ne by done.
  - rewrite length_drop, length_app. simpl. lia.
Qed.

(** ** A tick implements the abstract step *)

Lemma live_Ok {A} (m : M Z A) st rng a :
  m (st_liveRng st) = (rng, Ok a) → live m st = (set_rng rng st, Ok a).
Proof. unfold live, zoom. by intros ->. Qed.

(** Run the next operation of a computation over the store. *)
Ltac run_live H := erewrite bind_Ok by (apply live_Ok; exact H); simpl.
Ltac run_pure := erewrite bind_Ok by reflexivity; simpl.

Section tick_refines.
Context (js_pow : Q → Z → Q).
Hypothesis js_pow_unit : ∀ q, (0 <= q <= 1)%Q → (0 <= js_pow q 3)%Q.

Lemma tick_new_refines st now1 now2 :
  store_ok st → clean 20 (create (seed_of (step (uint32 (advance (st_liveRng st)))))) = true →
  ∃ st' c, tick_new now1 now2 st = (st', Ok (R_new c)) ∧ store_step st (R_new c) st'.
Proof.
  intros Hok Hseed. destruct (int_range 0 9999 (st_liveRng st) ltac:(lia) ltac:(lia)) as (n & Hn & _).
  pose proof (int_seed (advance (st_liveRng st))) as Hs. set (seed := seed_of _) in *.
  destruct (draws_generate_from 1 0 now2 _ Hseed) as (k & cs & _ & Heq & Hcs & _ & Hids).
  destruct cs as [|c0 [|c1 cs]]; [by apply (f_equal length) in Hids| |by apply (f_equal length) in Hids].
  apply Forall_cons in Hcs as [[Hc0 _ _ _] _].
  unfold tick_new. run_live Hn. run_live Hs.
  erewrite bind_Ok by (unfold lift, generateCases; rewrite Heq; reflexivity).
  do 3 run_pure. eexists _, _. split; [reflexivity|].
  set (c := spawned_case _ _ _). change ("case-" +:+ _) with (case_id c).
  apply (step_new st c); [by destruct Hc0; split|done|].
  by apply advance_nonzero, advance_nonzero, so_rng.
Qed.

Lemma biased_index q len :
  (0 <= q <= 1)%Q → 0 < len →
  0 <= Z.min (js_floor (dmul (js_pow q 3) (inject_Z len))) (len - 1) < len.
Proof using js_pow_unit.
  intros Hq Hlen. assert (0 <= js_pow q 3)%Q as Hp.
  { by apply js_pow_unit. }
  assert (0 <= js_floor (dmul (js_pow q 3) (inject_Z len))); [|lia].
  change 0 with (Qfloor 0) at 1. apply Qfloor_resp_le. apply fl_nonneg.
  apply Qmult_le_0_compat; [done|]. unfold Qle; simpl; lia.
Qed.

Lemma tick_update_refines st now :
  store_ok st → st_order st ≠ [] → top_word (advance (st_liveRng st)) = false →
  ∃ st' c, tick_update js_pow now st = (st', Ok (R_update c)) ∧ store_step st (R_update c) st'.
Proof using js_pow_unit.
  intros Hok Hne Ht2.
  assert (0 < length (st_order st))%nat by (destruct (st_order st); simpl; [done|lia]).
  pose proof (next_ratio (st_liveRng st)) as Hq. set (q := ratio _) in *.
  assert (0 <= q <= 1)%Q as Hqr by (apply ratio_unit, step_word, uint32_word).
  destruct (at_index_Some (st_order st) (Z.min (js_floor (dmul (js_pow q 3)
     (inject_Z (Z.of_nat (length (st_order st)))))) (Z.of_nat (length (st_order st)) - 1)))
    as (id & Hid & Hin); [apply biased_index; [done|lia]|].
  apply (so_order _ Hok) in Hin as [old Hold].
  destruct (so_cases _ Hok _ _ Hold) as [<- Hcok].
  destruct (int_clean (-150) 150 _ ltac:(lia) ltac:(lia) Ht2) as (d & Hd & Hdr).
  unfold tick_update. run_live Hq. run_pure.
  erewrite bind_Ok by (unfold lift; rewrite Hid; reflexivity). run_pure.
  erewrite bind_Ok by (unfold lift; rewrite Hold; reflexivity). run_live Hd. run_pure.
  eexists _, _. split; [reflexivity|].
  apply (step_update st old); [done|lia| |by apply advance_nonzero, advance_nonzero, so_rng].
  pose proof (ok_risk _ Hcok). lia.
Qed.

Lemma rule_picked s : ∃ o, pick_opt FIRE_RULES s = (advance s, Ok o) ∧
  (o = None ∧ top_word s = true ∨ ∃ rule, o = Some rule ∧ rule ∈ FIRE_RULES).
Proof.
  pose proof (pick_spec FIRE_RULES s ltac:(done) ltac:(simpl; lia)) as H. destruct (top_word s); [by exists None; auto|].
  destruct H as (x & H & Hx). exists (Some x). eauto.
Qed.

Lemma tick_fire_refines st now1 now2 :
  store_ok st → st_order st ≠ [] → Z.of_nat (length (st_order st)) < 2 ^ 53 →
  top_word (advance (advance (st_liveRng st))) = false →
  ∃ st' r, tick_fire now1 now2 st = (st', Ok r) ∧ store_step st r st' ∧
    ∀ e, r = R_fire e → fire_ruleId e = None → top_word (advance (st_liveRng st)) = true.
Proof.
  intros Hok Hne Hlen Ht3.
  assert (0 < length (st_order st))%nat by (destruct (st_order st); simpl; [done|lia]).
  destruct (int_range 0 9999 (st_liveRng st) ltac:(lia) ltac:(lia)) as (n & Hn & _).
  destruct (rule_picked (advance (st_liveRng st))) as (rule & Hrule & Hin).
  destruct (int_clean 0 (Z.of_nat (length (st_order st)) - 1) _ ltac:(lia) ltac:(lia) Ht3)
    as (i & Hi & Hir).
  destruct (at_index_Some (st_order st) i ltac:(lia)) as (id & Hid & Hido).
  apply (so_order _ Hok) in Hido as [c Hc]. destruct (so_cases _ Hok _ _ Hc) as [<- Hcok].
  unfold tick_fire. run_live Hn. run_live Hrule. run_pure. run_pure.
  rewrite (proj2 (Nat.ltb_lt _ _)) by done.
  erewrite bind_Ok; [|run_live Hi; erewrite bind_Ok; [reflexivity|];
     unfold lift; rewrite Hid; simpl; rewrite Hc; reflexivity].
  run_pure. run_pure. eexists _, _. split; [reflexivity|].
  set (e := {| fire_id := _ |}). set (rng := advance _).
  split; [|intros e' [= <-] He; destruct Hin as [[_ Ht]|(x & Hx & _)]; [exact Ht|cbn in He; congruence]].
  assert (store_step st (R_fire e) (set_fires (fun fs => drop (length (fs ++ [e]) - 200) (fs ++ [e]))
    (set_rng rng st))) as Hstep.
  { apply (step_fire st e); [cbn; destruct Hin as [[-> _]|?]; auto|by exists c|].
    by apply advance_nonzero, advance_nonzero, advance_nonzero, so_rng. }
  revert Hstep. unfold set_fires. simpl. pose proof (so_fires _ Hok) as Hf.
  assert (length (st_detectorFires st ++ [e]) = S (length (st_detectorFires st))) as Hl
    by (rewrite length_app; simpl; lia).
  rewrite Hl. destruct (Nat.ltb_spec 200 (S (length (st_detectorFires st)))).
  - by replace (S (length (st_detectorFires st)) - 200)%nat with 1%nat by lia.
  - by replace (S (length (st_detectorFires st)) - 200)%nat with 0%nat by lia.
Qed.

End tick_refines.

Section reachable.
Context (js_pow : Q → Z → Q).
Hypothesis js_pow_unit : ∀ q, (0 <= q <= 1)%Q → (0 <= js_pow q 3)%Q.

(** The draws of a tick that could leave their range are the last one of an update and
    the last one of a fire; the states from which they would meet the top word begin
    with a draw that makes the tick another one. *)
Lemma tick_run st now1 now2 :
  store_ok st → st_order st ≠ [] → Z.of_nat (length (st_order st)) < 2 ^ 53 →
  ∃ st' r, tick js_pow now1 now2 st = (st', Ok r) ∧ store_step st r st' ∧
    ∀ e, r = R_fire e → fire_ruleId e = None → uint32 (st_liveRng st) = 153712863.
Proof using js_pow_unit.
  intros Hok Hne Hlen. pose proof (next_ratio (st_liveRng st)) as Hq. set (s := st_liveRng st) in *.
  set (st1 := set_rng (advance s) st).
  assert (store_ok st1) as Hok1.
  { destruct Hok. split; try done. simpl. by apply advance_nonzero. }
  assert (∀ r st', store_step st1 r st' → store_step st r st') as Hmono.
  { intros r st'. destruct 1 as [c rng|old score now rng|e rng].
    - by apply (step_new st c rng).
    - by apply (step_update st old score now rng).
    - by apply (step_fire st e rng). }
  unfold tick. run_live Hq. fold st1.
  assert (top_word (advance (advance s)) = true → uint32 s = 153712863) as Ht2.
  { intros Ht. pose proof (top_after 2 s ltac:(lia) Ht) as H. by injection H. }
  destruct (Qltb _ (fl (6 # 100))) eqn:E6; [|destruct (Qltb _ (fl (26 # 100))) eqn:E26].
  - destruct (tick_new_refines st1 now1 now2 Hok1) as (st' & c & Heq & Hs); [by apply spawned_clean|].
    exists st', (R_new c). split; [exact Heq|]. by split; [apply Hmono|].
  - destruct (tick_update_refines js_pow js_pow_unit st1 now1 Hok1 Hne) as (st' & c & Heq & Hs).
    { apply not_true_iff_false. intros Ht%Ht2. rewrite Ht in E26. by vm_compute in E26. }
    exists st', (R_update c). split; [exact Heq|]. by split; [apply Hmono|].
  - destruct (tick_fire_refines st1 now1 now2 Hok1 Hne Hlen) as (st' & r & Heq & Hs & Hrule).
    { apply not_true_iff_false. intros Ht. apply (top_after 3 s) in Ht; [|lia]. injection Ht as Ht.
      rewrite <- Ht in E6. by vm_compute in E6. }
    exists st', r. split; [exact Heq|]. split; [by apply Hmono|]. intros e He Hn. apply Ht2, (Hrule e He Hn).
Qed.

End reachable.

(** ** The initial store *)

Lemma case_map_lookup cs id c :
  NoDup (case_id <$> cs) → case_map cs !! id = Some c ↔ c ∈ cs ∧ case_id c = id.
Proof.
  intros Hnd. unfold case_map.
  assert (∀ m : gmap string Case, (∀ x, x ∈ cs → m !! case_id x = None) →
    foldl (fun m c => <[case_id c := c]> m) m cs !! id = Some c ↔
    (c ∈ cs ∧ case_id c = id) ∨ m !! id = Some c) as Hg.
  { induction cs as [|x cs IH]; intros m Hm; simpl; [set_solver|].
    csimpl in Hnd. apply NoDup_cons in Hnd as [Hx Hnd].
    rewrite IH; [|done|].
    - rewrite elem_of_cons. destruct (decide (id = case_id x)) as [->|Hne].
      + rewrite lookup_insert_eq, (Hm x) by set_solver. split.
        * intros [[Hc Heq]|[= ->]]; [|by left; auto].
          left. split; [by right|done].
        * intros [[[->|Hc] Heq]|?]; [by right| |done].
          left; done.
      + rewrite lookup_insert_ne by done. naive_solver.
    - intros y Hy. rewrite lookup_insert_ne; [apply Hm; set_solver|].
      intros Heq. apply Hx. rewrite Heq. by apply list_elem_of_fmap_2. }
  rewrite Hg by (intros; apply lookup_empty). rewrite lookup_empty. naive_solver.
Qed.

Lemma case_map_dom cs id :
  NoDup (case_id <$> cs) → id ∈ case_id <$> cs ↔ is_Some (case_map cs !! id).
Proof.
  intros Hnd. rewrite list_elem_of_fmap. split.
  - intros (c & -> & Hin). exists c. by apply case_map_lookup.
  - intros [c Hc]. exists c. apply case_map_lookup in Hc as [Hin <-]; done.
Qed.

Definition action_from (cases : list Case) (id : string) (a : ResponseAction) : Prop :=
  ra_id a = id ∧ ra_status a = pending ∧
  ∃ c kind, c ∈ cases ∧ (case_severity c = high ∨ case_severity c = critical) ∧
    a = proposedAction kind c.

Lemma draws_actions cs l acc :
  (∀ c, c ∈ l → c ∈ cs ∧ (case_severity c = high ∨ case_severity c = critical)) →
  (∀ id a, omap_get id acc = Some a → action_from cs id a) →
  draws (length l) (foldM (fun actions c =>
      kind ← pick ACTION_KINDS;
      mret (omap_set ("ra-" +:+ case_id c) (proposedAction kind c) actions)) acc l)
    (fun m => ∀ id a, omap_get id m = Some a → action_from cs id a).
Proof.
  revert acc; induction l as [|c l IH]; intros acc Hl Hacc; [by apply draws_done|].
  cbn [foldM length]. eapply (draws_step 1); [|lia|].
  - eapply (draws_step 1); [apply draws_pick; [done|simpl; lia]|lia|].
    intros kind _. apply (draws_done _ _ (fun m => ∀ id a, omap_get id m = Some a → action_from cs id a)).
    intros id a. destruct (decide (id = "ra-" +:+ case_id c)) as [->|Hne].
    + rewrite omap_get_set_eq. intros [= <-]. split; [done|]. split; [done|].
      exists c, kind. destruct (Hl c) as [? ?]; [by left|done].
    + rewrite omap_get_set_ne by done. apply Hacc.
  - intros m Hm. simpl. rewrite Nat.sub_0_r. apply IH; [|done].
    intros c' Hc'. apply Hl. by right.
Qed.

Lemma init_run count nowMs :
  clean (count * 20) (create 20260910) = true →
  ∃ st cs, initStore_of count nowMs = Ok st ∧ store_ok st ∧
    generateCases count 20260910 nowMs = Ok cs ∧
    st_order st = case_id <$> cs ∧ NoDup (st_order st) ∧ length (st_order st) = count ∧
    (∀ id a, getResponseAction id st = Some a → action_from cs id a).
Proof.
  intros Hc.
  destruct (draws_generate_from count 0 nowMs _ Hc) as (k & cs & _ & Heq & Hcs & _ & Hids).
  assert (clean 40 (create 12648430) = true) as Hc2 by (vm_compute; reflexivity).
  assert (length (action_candidates cs) <= 40)%nat as Hlen
    by (unfold action_candidates; rewrite length_take; lia).
  destruct (draws_actions cs (action_candidates cs) []) with (create 12648430)
    as (j & m & _ & Hb & Hm).
  { intros c. unfold action_candidates. intros Hin.
    apply (subseteq_take 40) in Hin. apply list_elem_of_filter in Hin. tauto. }
  { done. }
  { by eapply clean_le. }
  assert (NoDup (case_id <$> cs)) as Hnd.
  { rewrite Hids. apply NoDup_fmap_2; [apply case_id_text_inj|apply NoDup_seqZ]. }
  exists (mkStore (case_map cs) (case_id <$> cs) [] m (Nat.iter j advance (create 12648430)) 40), cs.
  split.
  { unfold initStore_of, generateCases. rewrite Heq. simpl.
    unfold mbind, outcome_bind. unfold buildResponseActions. by rewrite Hb. }
  split; [split; simpl|].
  - intros id c. rewrite case_map_lookup by done. intros [Hin <-]. split; [done|].
    rewrite Forall_forall in Hcs. by apply (fresh_ok nowMs), Hcs.
  - intros id. by apply case_map_dom.
  - lia.
  - intros id a Ha. by apply Hm in Ha as (? & _).
  - apply iter_advance_nonzero, create_nonzero.
  - split; [by unfold generateCases; rewrite Heq|]. split; [done|]. split; [done|].
    split; [|exact Hm].
    apply (f_equal length) in Hids. rewrite !length_fmap, length_seqZ in Hids.
    cbn [st_order]. rewrite length_fmap. lia.
Qed.

(** ** Stores the running server can be in

    [reachable n st]: from the initial store of [count] cases, [n] requests later:
    ticks of any stream, whatever they draw, and decisions. *)

Section reachability.
Context (js_pow : Q → Z → Q).
Hypothesis js_pow_unit : ∀ q, (0 <= q <= 1)%Q → (0 <= js_pow q 3)%Q.
Context (count : nat).

Inductive reachable : nat → Store → Prop :=
| reach_init nowMs st : initStore_of count nowMs = Ok st → reachable O st
| reach_tick n st now1 now2 :
    reachable n st → reachable (S n) (tick js_pow now1 now2 st).1
| reach_decide n st id body :
    reachable n st → reachable (S n) (POST_decision id body st).1.

Lemma omap_set_ids id a (m : list (string * ResponseAction)) :
  ra_id a = id → (∀ i x, omap_get i m = Some x → ra_id x = i) →
  ∀ i x, omap_get i (omap_set id a m) = Some x → ra_id x = i.
Proof.
  intros Ha Hm i x. destruct (decide (i = id)) as [->|Hne].
  - rewrite omap_get_set_eq. by intros [= <-].
  - rewrite omap_get_set_ne by done. apply Hm.
Qed.

Lemma POST_decision_ok id body st : store_ok st → store_ok (POST_decision id body st).1.
Proof.
  intros Hok. unfold POST_decision, decideResponseAction.
  destruct (body ≫= _) as [status|]; [|done].
  destruct (omap_get id (st_responseActions st)) as [a|] eqn:Ha; [|done].
  destruct Hok as [? ? ? Hact ?]. split; try done. simpl. apply omap_set_ids; [|done].
  simpl. by apply Hact.
Qed.

Lemma POST_decision_order id body st : st_order (POST_decision id body st).1 = st_order st.
Proof.
  unfold POST_decision, decideResponseAction.
  destruct (body ≫= _); [|done]. by destruct (omap_get _ _).
Qed.

Lemma store_step_order st r st' :
  store_step st r st' → st_order st' = st_order st ∨ ∃ id, st_order st' = id :: st_order st.
Proof. destruct 1; simpl; eauto. Qed.

Lemma reachable_inv n st :
  (0 < count)%nat → Z.of_nat (count + n) < 2 ^ 53 → clean (count * 20) (create 20260910) = true →
  reachable n st →
  store_ok st ∧ (count <= length (st_order st) <= count + n)%nat.
Proof using js_pow_unit.
  intros Hpos Hbound Hc Hr. induction Hr as [now st Hinit|n st now1 now2 Hr IH|n st id body Hr IH].
  - destruct (init_run count now Hc) as (st' & cs & Heq & Hok & _ & _ & _ & Hlen & _).
    rewrite Heq in Hinit. simplify_eq. split; [done|lia].
  - destruct IH as [Hok Hlen]; [lia|].
    destruct (tick_run js_pow js_pow_unit st now1 now2 Hok) as (st' & r & Heq & Hs & _).
    { intros He. rewrite He in Hlen. simpl in Hlen. lia. }
    { lia. }
    rewrite Heq. split; [by eapply store_step_ok|]. simpl.
    destruct (store_step_order _ _ _ Hs) as [->|[id ->]]; simpl; lia.
  - destruct IH as [Hok Hlen]; [lia|]. split; [by apply POST_decision_ok|].
    rewrite POST_decision_order. lia.
Qed.

End reachability.

Lemma listCases_ok st :
  store_ok st → ∃ cs, listCases st = Ok cs ∧ case_id <$> cs = st_order st ∧
    Forall case_ok cs ∧ ∀ c, c ∈ cs → st_cases st !! case_id c = Some c.
Proof.
  intros Hok. unfold listCases.
  assert (∀ id, id ∈ st_order st → ∃ c, st_cases st !! id = Some c ∧ case_id c = id ∧ case_ok c) as H.
  { intros id Hin. apply (so_order _ Hok) in Hin as [c Hc]. exists c.
    destruct (so_cases _ Hok _ _ Hc). done. }
  induction (st_order st) as [|id l IH].
  { exists []. split; [done|]. split; [done|]. split; [constructor|]. by intros c Hc%not_elem_of_nil. }
  destruct IH as (cs & Heq & Hids & Hcs & Hlk); [set_solver|].
  destruct (H id) as (c & Hc & Hid & Hcok); [set_solver|].
  exists (c :: cs). cbn [mapM_out]. unfold mbind, outcome_bind. rewrite Hc, Heq. cbn [or_throw].
  split; [done|]. rewrite fmap_cons, Hid, Hids. split; [done|]. split; [by constructor|].
  intros x Hx. apply elem_of_cons in Hx as [->|Hx]; [by rewrite Hid|by apply Hlk].
Qed.

(** ** Properties *)

(** C4: in every store the server can reach, from its own ten thousand cases on and
    whatever the generator draws, the store invariant holds; a tick never throws, and
    its effect is one abstract step: a new well-formed case in front of the order, a
    rescoring of one case by at most 150 with severity and disposition recomputed, or
    one more fire on the last 200; the invariant holds after it and every case of the
    order is listed.  The word on which [next] is exactly 1 does no more harm than
    this: from one state of the generator, 153712863, a fire has no rule. *)
Theorem reachable_tick (js_pow : Q → Z → Q) n st now1 now2 :
  (∀ q, (0 <= q <= 1)%Q → (0 <= js_pow q 3%Z)%Q) →
  Z.of_nat (CASE_COUNT + n) < 2 ^ 53 → reachable js_pow CASE_COUNT n st →
  store_ok st ∧ ∃ st' r cs, tick js_pow now1 now2 st = (st', Ok r) ∧ store_step st r st' ∧
    store_ok st' ∧ listCases st' = Ok cs ∧ Forall case_ok cs ∧ case_id <$> cs = st_order st' ∧
    ∀ e, r = R_fire e → fire_ruleId e = None → uint32 (st_liveRng st) = 153712863.
Proof.
  intros Hpow Hb Hr. assert (0 < CASE_COUNT)%nat as Hpos by (unfold CASE_COUNT; lia).
  destruct (reachable_inv js_pow Hpow CASE_COUNT n st Hpos Hb corpus_clean Hr) as [Hok Hlen].
  split; [done|].
  destruct (tick_run js_pow Hpow st now1 now2 Hok) as (st' & r & Heq & Hs & Hrule); [|lia|].
  { intros He. rewrite He in Hlen. cbn [length] in Hlen. lia. }
  assert (store_ok st') as Hok' by by eapply store_step_ok.
  destruct (listCases_ok st' Hok') as (cs & Hl & Hids & Hcs & _).
  by exists st', r, cs.
Qed.

(** The decision endpoint: an invalid status or an unknown action leaves the
    store as it is; otherwise the status of that one action changes, to
    approved, modified or rejected, whatever it was before, and nothing else. *)
Theorem POST_decision_spec id body st :
  let '(st', resp) := POST_decision id body st in
  match resp with
  | D_bad_request => st' = st ∧ body ∉ Some <$> ["approved"; "modified"; "rejected"]
  | D_not_found => st' = st ∧ getResponseAction id st = None
  | D_action a => ∃ old status,
      getResponseAction id st = Some old ∧ a = set_status old status ∧
      status ≠ pending ∧ body = Some (action_status_name status) ∧
      getResponseAction id st' = Some a ∧
      (∀ id', id' ≠ id → getResponseAction id' st' = getResponseAction id' st) ∧
      (st_responseActions st').*1 = (st_responseActions st).*1 ∧
      st' = set_actions (fun _ => st_responseActions st') st
  end.
Proof.
  unfold POST_decision. destruct body as [s|]; [|simpl; split; [done|set_solver]].
  change (Some s ≫= ?f) with (f s).
  unfold of_name. destruct (List.find (fun a => bool_decide (action_status_name a = s)) VALID_DECISIONS) as [status|] eqn:Hf.
  - apply List.find_some in Hf as [Hin Hname]. apply bool_decide_eq_true in Hname.
    unfold decideResponseAction, getResponseAction.
    destruct (omap_get id (st_responseActions st)) as [old|] eqn:Ha; [|by split].
    exists old, status. split; [done|]. split; [done|].
    split; [intros ->; simpl in Hin; naive_solver|]. split; [by rewrite Hname|].
    simpl. split; [apply omap_get_set_eq|]. split; [intros; by apply omap_get_set_ne|].
    split; [apply omap_set_keys; eauto|done].
  - split; [done|]. 
    pose proof (List.find_none (fun a => bool_decide (action_status_name a = s)) _ Hf) as Hn.
    intros Hin. csimpl in Hin. rewrite !elem_of_cons in Hin.
    destruct Hin as [[= ->]|[[= ->]|[[= ->]|Hin]]]; [..|by apply not_elem_of_nil in Hin].
    + by specialize (Hn approved ltac:(simpl; tauto)).
    + by specialize (Hn modified ltac:(simpl; tauto)).
    + by specialize (Hn rejected ltac:(simpl; tauto)).
Qed.

(** [x ** 3] by repeated rounded products. *)
Definition pow_by_products (x : Q) (n : Z) : Q := Nat.iter (Z.to_nat n) (dmul x) 1%Q.

Lemma pow_by_products_unit q : (0 <= q <= 1)%Q → (0 <= pow_by_products q 3%Z)%Q.
Proof.
  intros [Hq _]. unfold pow_by_products. simpl. unfold dmul.
  repeat (apply fl_nonneg; apply Qmult_le_0_compat; [done|]). lra.
Qed.

Definition sample_store : Store :=
  match initStore_of 4 1757500000000 with
  | Ok st => (tick pow_by_products 1757500000700 1757500000701 st).1
  | Throw _ => mkStore ∅ [] [] [] 0 0
  end.

Lemma sample_store_reachable : reachable pow_by_products 4 1 sample_store.
Proof.
  unfold sample_store. destruct (initStore_of 4 1757500000000) as [st|e] eqn:Hst.
  - apply reach_tick. by eapply reach_init.
  - exfalso. assert (match initStore_of 4 1757500000000 with Ok _ => true | _ => false end = true)
      as Hc by (vm_compute; reflexivity).
    by rewrite Hst in Hc.
Qed.

Lemma reachable_tick_witness :
  ∃ st st' r, initStore 1757500000000 = Ok st ∧ length (st_order st) = CASE_COUNT ∧
    tick pow_by_products 1757500001400 1757500001401 st = (st', Ok r) ∧ store_ok st'.
Proof.
  destruct (init_run CASE_COUNT 1757500000000 corpus_clean) as (st & cs & Hst & _ & _ & _ & _ & Hlen & _).
  destruct (reachable_tick pow_by_products 0 st 1757500001400 1757500001401 pow_by_products_unit
    ltac:(unfold CASE_COUNT; lia) (reach_init _ _ _ _ Hst)) as (_ & st' & r & cs' & Heq & _ & Hok & _).
  exists st, st', r. split; [exact Hst|]. split; [exact Hlen|]. split; [exact Heq|exact Hok].
Defined.
