(* ===== verification/Stream.v ===== *)
(** * The live feed: web/src/components/watchfloor/use-case-stream.ts

    The hook [useCaseStream] as operations on its state (the React state, the
    fire timestamps and the seeded flag, both refs), and the server half of the
    stream, web/src/app/api/cases/stream/route.ts, as the events a consumer is
    sent.  React applies the queued updates of one component in the order they
    were queued, transitions included, so the state after a batch is the fold of
    the messages. *)

From S2P Require Import Prelude JsNum Types Seed Store.
From Stdlib Require Import QArith.
Open Scope Z_scope.

Inductive StreamEvent :=
| E_hello (atMs : Z)
| E_new (c : Case)
| E_update (c : Case)
| E_fire (e : DetectorFireEvent).

Record CaseStreamState := mkStream {
  cs_cases : gmap string Case;
  cs_order : list string;
  cs_detectorFires : list DetectorFireEvent;
  cs_ingestRatePerSec : Q;
  cs_connected : bool;
}.

Record Hook := mkHook {
  hk_state : CaseStreamState;
  hk_fireTimestamps : list Z;
  hk_seeded : bool;
}.

Definition TICKER_LIMIT : nat := 40.

Definition stream_initial : CaseStreamState := mkStream ∅ [] [] 0%Q false.
Definition hook_initial : Hook := mkHook stream_initial [] false.

(** The seeding effect, run when [initialCases] changes. *)
Definition seed_effect (initialCases : list Case) (h : Hook) : Hook :=
  if hk_seeded h || (length initialCases =? 0)%nat then h
  else let s := hk_state h in
       mkHook (mkStream (case_map initialCases) (case_id <$> initialCases) (cs_detectorFires s)
                        (cs_ingestRatePerSec s) (cs_connected s))
              (hk_fireTimestamps h) true.

Definition set_connected (b : bool) (h : Hook) : Hook :=
  let s := hk_state h in
  mkHook (mkStream (cs_cases s) (cs_order s) (cs_detectorFires s) (cs_ingestRatePerSec s) b)
         (hk_fireTimestamps h) (hk_seeded h).
Definition onopen : Hook → Hook := set_connected true.
Definition onerror : Hook → Hook := set_connected false.

Definition onmessage (now : Z) (event : StreamEvent) (h : Hook) : Hook :=
  let s := hk_state h in
  match event with
  | E_hello _ => h
  | E_new c =>
      mkHook (mkStream (<[case_id c := c]> (cs_cases s)) (case_id c :: cs_order s)
                       (cs_detectorFires s) (cs_ingestRatePerSec s) (cs_connected s))
             (hk_fireTimestamps h) (hk_seeded h)
  | E_update c =>
      mkHook (mkStream (<[case_id c := c]> (cs_cases s)) (cs_order s)
                       (cs_detectorFires s) (cs_ingestRatePerSec s) (cs_connected s))
             (hk_fireTimestamps h) (hk_seeded h)
  | E_fire e =>
      let stamps := filter (fun t => now - t < 5000) (hk_fireTimestamps h ++ [now]) in
      let ratePerSec := ddiv (inject_Z (Z.of_nat (length stamps))) (inject_Z 5) in
      mkHook (mkStream (cs_cases s) (cs_order s) (take TICKER_LIMIT (e :: cs_detectorFires s))
                       ratePerSec (cs_connected s))
             stamps (hk_seeded h)
  end.

(** [stream.order.map((id) => stream.cases.get(id)!)] *)
Definition stream_rows (h : Hook) : list (option Case) :=
  (fun id => cs_cases (hk_state h) !! id) <$> cs_order (hk_state h).

(** ** The server half: one tick per interval, sent to the consumer whose
    interval fired; a tick that throws ends that consumer's stream. *)

Definition event_of (r : tick_result) : StreamEvent :=
  match r with R_new c => E_new c | R_update c => E_update c | R_fire e => E_fire e end.

Section stream_route.
Context (js_pow : Q → Z → Q).

(** The ticks of one consumer: each with the clock readings of the server and
    of the client. *)
Fixpoint serve (ticks : list (Z * Z * Z)) (st : Store) : Store * list (Z * StreamEvent) :=
  match ticks with
  | [] => (st, [])
  | (now1, now2, seen) :: ticks' =>
      match tick js_pow now1 now2 st with
      | (st', Ok r) =>
          let '(st'', es) := serve ticks' st' in (st'', (seen, event_of r) :: es)
      | (st', Throw _) => (st', [])
      end
  end.

End stream_route.

Definition receive (es : list (Z * StreamEvent)) (h : Hook) : Hook :=
  foldl (fun h e => onmessage e.1 e.2 h) h es.

(** ** The client's cases follow the server's *)

(** The queue is well formed: entries are keyed by their id, and every id of the
    order has one. *)
Record queue_ok (st : Store) : Prop := {
  qo_keyed : ∀ id c, st_cases st !! id = Some c → case_id c = id;
  qo_present : ∀ id, id ∈ st_order st → is_Some (st_cases st !! id);
}.

(** The client and the server hold the same queue. *)
Record synced (st : Store) (h : Hook) : Prop := {
  sy_order : cs_order (hk_state h) = st_order st;
  sy_cases : ∀ id, id ∈ st_order st → cs_cases (hk_state h) !! id = st_cases st !! id;
}.

Lemma store_ok_queue st : store_ok st → queue_ok st.
Proof.
  intros Hok. split; intros id; [intros c Hc; by eapply so_cases|by intros ?%so_order].
Qed.

Lemma live_frame {A} (m : M Z A) st st' r :
  live m st = (st', r) → st_cases st' = st_cases st ∧ st_order st' = st_order st.
Proof. unfold live, zoom. destruct (m (st_liveRng st)). by intros [= <- _]. Qed.

#[local] Opaque live generateCases.

(** Take a draw, or a fallible reading, off the front of a run. *)
Ltac take_live H v E :=
  let s := fresh "s" in let e := fresh "e" in
  apply bind_inv in H as [(s & v & E & H)|(s & e & E & H)];
  apply live_frame in E; [|try discriminate H; try (injection H as -> ->)].
Ltac take_lift H v E :=
  let s := fresh "s" in let e := fresh "e" in
  apply bind_inv in H as [(s & v & E & H)|(s & e & E & H)];
  apply lift_inv in E; [|try discriminate H; try (injection H as -> ->; destruct E as [E _])].

(** What a tick does to cases and order, however it ends. *)
Lemma tick_effect js_pow now1 now2 st st' o :
  tick js_pow now1 now2 st = (st', o) →
  match o with
  | Ok (R_new c) => st_cases st' = <[case_id c := c]> (st_cases st) ∧
                    st_order st' = case_id c :: st_order st
  | Ok (R_update c) => (∃ id, st_cases st' = <[id := c]> (st_cases st) ∧ id ∈ st_order st ∧
                        ∃ old, st_cases st !! id = Some old ∧ case_id c = case_id old) ∧
                       st_order st' = st_order st
  | _ => st_cases st' = st_cases st ∧ st_order st' = st_order st
  end.
Proof.
  unfold tick. intros Heq.
  take_live Heq q E1; [|exact E1]. destruct E1 as [<- <-].
  destruct (Qltb q _); [|destruct (Qltb q _)]; unfold tick_new, tick_update, tick_fire in Heq.
  - take_live Heq n E2; [|exact E2]. destruct E2 as [<- <-].
    take_live Heq sd E3; [|exact E3]. destruct E3 as [<- <-].
    take_lift Heq cs E4; [|destruct_and?; by subst]. take_lift Heq c E5; [|destruct_and?; by subst].
    injection Heq as <- <-. destruct_and?. by subst.
  - take_live Heq q2 E2; [|exact E2]. destruct E2 as [<- <-].
    erewrite bind_Ok in Heq by reflexivity. cbv zeta in Heq.
    take_lift Heq cid E3; [|destruct_and?; by subst]. destruct E3 as [-> Hcid%or_throw_Ok].
    erewrite bind_Ok in Heq by reflexivity.
    take_lift Heq old E4; [|destruct_and?; by subst]. destruct E4 as [-> Hold%or_throw_Ok].
    take_live Heq d E5; [|exact E5]. destruct E5 as [Ec Eo].
    injection Heq as <- <-. split; [|exact Eo]. exists cid. simpl. rewrite Ec. split; [done|].
    split; [by eapply at_index_elem|by exists old].
  - take_live Heq n E2; [|exact E2]. destruct E2 as [<- <-].
    take_live Heq ru E3; [|exact E3]. destruct E3 as [<- <-].
    do 2 erewrite bind_Ok in Heq by reflexivity.
    destruct (0 <? _)%nat; [|by injection Heq as <- <-].
    apply bind_inv in Heq as [(s4 & ent & Hent & Heq)|(s4 & e & Hent & [= -> ->])].
    + injection Heq as <- <-. simpl.
      take_live Hent i E4. destruct E4 as [<- <-].
      take_lift Hent c E5. by injection Hent as <- <-; destruct E5 as [-> _].
    + take_live Hent i E4; [|exact E4]. destruct E4 as [<- <-].
      take_lift Hent c E5; [|destruct_and?; by subst]. done.
Qed.

Lemma queue_insert st st' c :
  queue_ok st → st_cases st' = <[case_id c := c]> (st_cases st) →
  (∀ id, id ∈ st_order st' → id = case_id c ∨ id ∈ st_order st) → queue_ok st'.
Proof.
  intros [Hk Hp] Hc Ho. split.
  - intros i x. rewrite Hc. destruct (decide (i = case_id c)) as [->|Hne].
    + rewrite lookup_insert_eq. by intros [= <-].
    + rewrite lookup_insert_ne by done. apply Hk.
  - intros i Hi. rewrite Hc. destruct (decide (i = case_id c)) as [->|Hne].
    + rewrite lookup_insert_eq. eauto.
    + rewrite lookup_insert_ne by done. apply Hp. by destruct (Ho i Hi).
Qed.

(** A tick keeps the queue well formed, and its event, when there is one, brings
    a client that was in step back in step. *)
Lemma synced_tick js_pow now1 now2 seen st st' o h :
  queue_ok st → synced st h → tick js_pow now1 now2 st = (st', o) →
  queue_ok st' ∧
  match o with
  | Ok r => synced st' (onmessage seen (event_of r) h)
  | Throw _ => synced st' h
  end.
Proof.
  intros Hq [Ho Hc] Heq. apply tick_effect in Heq.
  assert (st_cases st' = st_cases st → st_order st' = st_order st → queue_ok st') as Hsame.
  { intros E1 E2. destruct Hq. split; rewrite ?E1, ?E2; done. }
  destruct o as [[c|c|e]|e]; simpl in *.
  - destruct Heq as [(cid & Hcs & Hin & old & Hold & Hid) Hord].
    rewrite (qo_keyed _ Hq _ _ Hold) in Hid. subst cid.
    split; [apply (queue_insert st st' c); [done..|rewrite Hord; auto]|].
    split; simpl; rewrite Hord; [done|]. intros i Hi. rewrite Hcs.
    destruct (decide (i = case_id c)) as [->|Hne]; [by rewrite !lookup_insert_eq|].
    rewrite !lookup_insert_ne by done. by apply Hc.
  - destruct Heq as [Hcs Hord].
    split; [apply (queue_insert st st' c); [done..|rewrite Hord; set_solver]|].
    split; simpl; rewrite Hord; [by rewrite Ho|]. intros i Hi. rewrite Hcs.
    destruct (decide (i = case_id c)) as [->|Hne]; [by rewrite !lookup_insert_eq|].
    rewrite !lookup_insert_ne by done. apply Hc. by apply elem_of_cons in Hi as [|].
  - destruct Heq as [Hcs Hord]. split; [by apply Hsame|]. split; simpl; rewrite ?Hcs, Hord; done.
  - destruct Heq as [Hcs Hord]. split; [by apply Hsame|]. split; rewrite ?Hcs, Hord; done.
Qed.

Lemma synced_serve js_pow ticks st st' es h :
  queue_ok st → synced st h → serve js_pow ticks st = (st', es) →
  queue_ok st' ∧ synced st' (receive es h).
Proof.
  revert st st' es h; induction ticks as [|[[now1 now2] seen] ticks IH]; intros st st' es h Hq Hs Heq.
  { simpl in Heq. by simplify_eq. }
  cbn [serve] in Heq. destruct (tick js_pow now1 now2 st) as [s1 o] eqn:Ht.
  pose proof (synced_tick _ _ _ seen _ _ _ _ Hq Hs Ht) as [Hq1 Hs1].
  destruct o as [r|e].
  - destruct (serve js_pow ticks s1) as [s2 es2] eqn:Hserve. injection Heq as <- <-.
    apply (IH s1 s2 es2 _ Hq1 Hs1 Hserve).
  - injection Heq as <- <-. done.
Qed.

Lemma listCases_queue st :
  queue_ok st → ∃ cs, listCases st = Ok cs ∧
    Some <$> cs = (fun id => st_cases st !! id) <$> st_order st ∧ case_id <$> cs = st_order st.
Proof.
  intros [Hk Hp]. unfold listCases. revert Hp.
  induction (st_order st) as [|i l IH]; intros Hp; [by exists []|].
  destruct IH as (cs & Heq & Hcs & Hids); [intros; apply Hp; by right|].
  destruct (Hp i) as [c Hc]; [by left|]. exists (c :: cs). cbn [mapM_out].
  unfold mbind, outcome_bind. rewrite Heq, Hc, !fmap_cons, Hcs, Hids, Hc, (Hk _ _ Hc). done.
Qed.

Lemma synced_rows st h cs :
  synced st h → Some <$> cs = (fun id => st_cases st !! id) <$> st_order st →
  stream_rows h = Some <$> cs.
Proof.
  intros [Ho Hc] ->. unfold stream_rows. rewrite Ho. apply list_fmap_ext.
  intros j x Hx. apply Hc. by eapply list_elem_of_lookup_2.
Qed.

Lemma synced_seed st cs h :
  queue_ok st → listCases st = Ok cs → cs ≠ [] → hk_seeded h = false → synced st (seed_effect cs h).
Proof.
  intros Hq Hl Hne Hs. destruct (listCases_queue st Hq) as (cs' & Hl' & Hcs & Hids).
  assert (cs' = cs) as -> by congruence. clear Hl'.
  unfold seed_effect. rewrite Hs.
  assert ((length cs =? 0)%nat = false) as -> by (destruct cs; done).
  split; simpl; [by rewrite Hids|]. intros i Hi. rewrite <- Hids in Hi.
  assert (∀ c, c ∈ cs → st_cases st !! case_id c = Some c) as Hlk.
  { intros c Hc. apply (list_elem_of_fmap_2 Some) in Hc. rewrite Hcs in Hc.
    apply list_elem_of_fmap in Hc as (j & Hj & _). by rewrite (qo_keyed _ Hq j c). }
  clear Hcs Hids Hl Hne. unfold case_map.
  assert (∀ m : gmap string Case, (∀ c, c ∈ cs → st_cases st !! case_id c = Some c) →
    i ∈ case_id <$> cs ∨ m !! i = st_cases st !! i →
    foldl (fun m c => <[case_id c := c]> m) m cs !! i = st_cases st !! i) as Hg; [|by apply Hg; auto].
  clear Hlk Hi. induction cs as [|c cs IH]; intros m Hlk Hi.
  { destruct Hi as [Hi|Hi]; [by apply not_elem_of_nil in Hi|done]. }
  cbn [foldl]. apply IH; [intros; apply Hlk; by right|].
  destruct (decide (i = case_id c)) as [->|Hne].
  - right. rewrite lookup_insert_eq. symmetry. apply Hlk. by left.
  - rewrite lookup_insert_ne by done. csimpl in Hi. rewrite elem_of_cons in Hi. tauto.
Qed.

Definition fires_of (es : list (Z * StreamEvent)) : list DetectorFireEvent :=
  omap (fun e => match e.2 with E_fire f => Some f | _ => None end) es.

Lemma take_cons_take {A} n (x : A) l : take n (x :: take n l) = take n (x :: l).
Proof. destruct n; [done|]. simpl. rewrite take_take. f_equal. f_equal. lia. Qed.

Lemma receive_fires es h :
  cs_detectorFires (hk_state (receive es h)) =
    match fires_of es with
    | [] => cs_detectorFires (hk_state h)
    | fs => take TICKER_LIMIT (reverse fs ++ cs_detectorFires (hk_state h))
    end.
Proof.
  unfold receive. revert h. induction es as [|[seen e] es IH]; intros h; [done|].
  cbn [foldl]. rewrite IH. destruct e as [a|c|c|f]; try done.
  change (fires_of ((seen, E_fire f) :: es)) with (f :: fires_of es).
  cbn [onmessage hk_state cs_detectorFires fst snd].
  destruct (fires_of es) as [|g fs]; [done|].
  rewrite (reverse_cons (g :: fs) f), <- app_assoc. cbn [app].
  generalize (reverse (g :: fs)) as l, (cs_detectorFires (hk_state h)) as k. intros l k.
  rewrite !take_app, take_take. f_equal.
  destruct (TICKER_LIMIT - length l)%nat eqn:E; [done|].
  replace (S n `min` TICKER_LIMIT)%nat with (S n) by lia. done.
Qed.

(** ** Properties *)

(** C5: one consumer of the stream, seeded with the list of cases of a store,
    shows the server's queue: after any ticks (a thrown one included), its rows
    are the server's cases in the server's order, and its ticker holds the last
    forty fires it was sent, newest first. *)
Theorem single_consumer_refines js_pow ticks st st' es cs h :
  store_ok st → listCases st = Ok cs → cs ≠ [] → hk_seeded h = false →
  cs_detectorFires (hk_state h) = [] → serve js_pow ticks st = (st', es) →
  ∃ cs', listCases st' = Ok cs' ∧
    stream_rows (receive es (seed_effect cs h)) = Some <$> cs' ∧
    cs_detectorFires (hk_state (receive es (seed_effect cs h)))
      = take TICKER_LIMIT (reverse (fires_of es)).
Proof.
  intros Hok%store_ok_queue Hl Hne Hs Hf Hserve.
  destruct (synced_serve _ _ _ _ _ _ Hok (synced_seed st cs h Hok Hl Hne Hs) Hserve) as [Hq' Hs'].
  destruct (listCases_queue st' Hq') as (cs' & Hl' & Hcs' & _).
  exists cs'. split; [done|]. split; [by apply (synced_rows st')|].
  rewrite receive_fires. unfold seed_effect.
  destruct (hk_seeded h || _); cbn [hk_state cs_detectorFires]; rewrite Hf;
    destruct (fires_of es); rewrite ?app_nil_r; done.
Qed.

Definition sample_cases : list Case :=
  match listCases sample_store with Ok cs => cs | Throw _ => [] end.

Lemma sample_store_ok : store_ok sample_store.
Proof.
  destruct (reachable_inv pow_by_products pow_by_products_unit 4 1 sample_store) as [Hok _];
    [lia|simpl; lia|by vm_compute|apply sample_store_reachable|done].
Qed.

Lemma sample_cases_listed : listCases sample_store = Ok sample_cases.
Proof.
  unfold sample_cases. destruct (listCases_ok _ sample_store_ok) as (cs & -> & _). done.
Qed.

Lemma single_consumer_refines_witness :
  let h := onopen hook_initial in
  let '(st', es) := serve pow_by_products [(1, 2, 3); (700, 701, 702); (1400, 1401, 1402)] sample_store in
  length es = 3%nat ∧ ∃ cs', listCases st' = Ok cs' ∧
    stream_rows (receive es (seed_effect sample_cases h)) = Some <$> cs'.
Proof.
  destruct (serve _ _ sample_store) as [st' es] eqn:E.
  split; [transitivity (length (serve pow_by_products
    [(1, 2, 3); (700, 701, 702); (1400, 1401, 1402)] sample_store).2);
    [by rewrite E|by vm_compute]|].
  destruct (single_consumer_refines pow_by_products _ sample_store st' es sample_cases (onopen hook_initial)
    sample_store_ok sample_cases_listed ltac:(by vm_compute) eq_refl eq_refl E) as (cs' & H1 & H2 & _).
  exists cs'. split; [exact H1|exact H2].
Defined.

(** Every open stream runs ticks of its own on the one store, and an event
    goes to the stream whose tick it was: after another consumer's tick that
    adds a case, or changes one, a client that was in step is not in step any
    more, while the consumer that got the event is. *)
Theorem other_consumer_diverges js_pow now1 now2 seen st st' r hA hB :
  queue_ok st → synced st hA → synced st hB →
  tick js_pow now1 now2 st = (st', Ok r) →
  match r with
  | R_new _ => True
  | R_update c => st_cases st !! case_id c ≠ Some c
  | R_fire _ => False
  end →
  synced st' (onmessage seen (event_of r) hA) ∧ ¬ synced st' hB.
Proof.
  intros Hq HA [HoB HcB] Ht Hr.
  split; [by destruct (synced_tick _ _ _ seen _ _ _ _ Hq HA Ht)|].
  apply tick_effect in Ht. intros [Ho Hc]. destruct r as [c|c|e]; [| |done].
  - destruct Ht as [(cid & Hcs & Hin & old & Hold & Hid) Hord].
    rewrite (qo_keyed _ Hq _ _ Hold) in Hid. subst cid.
    apply Hr. rewrite <- HcB, Hc, Hcs by (by rewrite ?Hord). by rewrite lookup_insert_eq.
  - destruct Ht as [_ Hord]. rewrite Hord, HoB in Ho.
    apply (f_equal length) in Ho. simpl in Ho. lia.
Qed.

(** The sample store with the live generator on a state whose next draw falls in
    the range of a new case. *)
Definition spawning_store : Store := set_rng 1 sample_store.

Lemma set_rng_ok rng st : store_ok st → uint32 rng ≠ 0 → store_ok (set_rng rng st).
Proof. intros [] Hr. by split. Qed.

Lemma spawning_ok : store_ok spawning_store.
Proof. apply set_rng_ok; [apply sample_store_ok|done]. Qed.

Lemma spawning_tick :
  ∃ st' c, tick pow_by_products 5 6 spawning_store = (st', Ok (R_new c)).
Proof.
  assert (match (tick pow_by_products 5 6 spawning_store).2 with
          | Ok (R_new _) => true | _ => false end = true) as H by (vm_compute; reflexivity).
  destruct (tick pow_by_products 5 6 spawning_store) as [st' [[c|c|e]|e]]; try discriminate H.
  by exists st', c.
Qed.

Lemma other_consumer_diverges_witness :
  let h := seed_effect sample_cases hook_initial in
  ∃ st' c, synced st' (onmessage 7 (E_new c) h) ∧ ¬ synced st' h.
Proof.
  destruct spawning_tick as (st' & c & Ht). exists st', c.
  assert (synced spawning_store (seed_effect sample_cases hook_initial)) as Hs.
  { apply (synced_seed spawning_store); [apply store_ok_queue, spawning_ok|
      exact sample_cases_listed|by vm_compute|done]. }
  exact (other_consumer_diverges pow_by_products 5 6 7 spawning_store st' (R_new c) _ _
    (store_ok_queue _ spawning_ok) Hs Hs Ht I).
Defined.

(** An event that reaches the client before its first list of cases is
    lost: seeding replaces the map and the order, so a case created after the
    server answered the list request, and before the client seeded, is missing
    from then on. *)
Theorem early_event_lost js_pow now1 now2 seen st st' c cs h :
  queue_ok st → listCases st = Ok cs → cs ≠ [] → hk_seeded h = false →
  tick js_pow now1 now2 st = (st', Ok (R_new c)) →
  let h' := seed_effect cs (onmessage seen (E_new c) h) in
  stream_rows h' = stream_rows (seed_effect cs h) ∧ stream_rows h' = Some <$> cs ∧
  hk_seeded h' = true ∧ ∃ cs', listCases st' = Ok cs' ∧ length cs' = S (length cs).
Proof.
  intros Hq Hl Hne Hs Ht.
  pose proof (synced_seed st cs h Hq Hl Hne Hs) as Hsy.
  destruct (listCases_queue st Hq) as (cs0 & Hl0 & Hcs & Hids).
  assert (cs0 = cs) as -> by congruence.
  assert (stream_rows (seed_effect cs (onmessage seen (E_new c) h)) = stream_rows (seed_effect cs h)) as Heq.
  { unfold seed_effect. cbn [onmessage hk_seeded hk_state]. rewrite Hs.
    by destruct (length cs =? 0)%nat eqn:E; [destruct cs|]. }
  split; [done|]. split; [rewrite Heq; by eapply synced_rows|]. split.
  { unfold seed_effect. cbn [onmessage hk_seeded hk_state]. rewrite Hs. by destruct cs. }
  destruct (synced_tick _ _ _ seen _ _ _ _ Hq Hsy Ht) as [Hq' _].
  destruct (listCases_queue st' Hq') as (cs' & Hl' & _ & Hids'). exists cs'. split; [done|].
  apply tick_effect in Ht as [_ Ht]. rewrite Ht in Hids'.
  apply (f_equal length) in Hids, Hids'. rewrite length_cons, <- Hids, !length_fmap in Hids'. done.
Qed.

Lemma early_event_lost_witness :
  ∃ st' c, tick pow_by_products 5 6 spawning_store = (st', Ok (R_new c)) ∧
    stream_rows (seed_effect sample_cases (onmessage 7 (E_new c) hook_initial)) = Some <$> sample_cases.
Proof.
  destruct spawning_tick as (st' & c & Ht). exists st', c. split; [exact Ht|].
  apply (early_event_lost pow_by_products 5 6 7 spawning_store st' c sample_cases hook_initial
    (store_ok_queue _ spawning_ok) sample_cases_listed ltac:(by vm_compute) eq_refl Ht).
Defined.
