(* ===== verification/Watchfloor.v ===== *)
(** * The Watchfloor: web/src/components/watchfloor/{filter-rail,watchfloor-client,dismiss-dialog,case-table}.tsx

    Filters and their counts, the keyboard handler of the queue, local status
    overrides and the dismiss dialog.  What TanStack Table shows is a parameter:
    the rows it is given, in descending risk score. *)

From S2P Require Import Prelude JsNum Types Seed Store Stream.
From Stdlib Require Import Ascii.
Open Scope Z_scope.

(** ** Filters (filter-rail.tsx) *)

Record FilterState := mkFilter {
  fl_severities : gset Severity;
  fl_dispositions : gset Disposition;
  fl_tenants : gset string;
  fl_tactics : gset Tactic;
  fl_unassignedOnly : bool;
}.

Definition emptyFilterState : FilterState := mkFilter ∅ ∅ ∅ ∅ false.

Definition case_passes (filters : FilterState) (c : Case) : bool :=
  if (0 <? size (fl_severities filters))%nat &&
     negb (bool_decide (case_severity c ∈ fl_severities filters)) then false
  else if (0 <? size (fl_dispositions filters))%nat &&
     negb (bool_decide (case_disposition c ∈ fl_dispositions filters)) then false
  else if (0 <? size (fl_tenants filters))%nat &&
     negb (bool_decide (case_tenantId c ∈ fl_tenants filters)) then false
  else if (0 <? size (fl_tactics filters))%nat &&
     negb (existsb (fun t => bool_decide (t ∈ fl_tactics filters)) (case_tactics c)) then false
  else if fl_unassignedOnly filters && negb (bool_decide (case_assignee c = None)) then false
  else true.

Definition applyFilters (cases : list Case) (filters : FilterState) : list Case :=
  filter (fun c => case_passes filters c) cases.

Definition toggle {T} `{Countable T} (s : gset T) (value : T) : gset T :=
  if decide (value ∈ s) then s ∖ {[value]} else s ∪ {[value]}.

(** The five [onChange] handlers of the rail. *)
Inductive filter_click :=
| F_severity (v : Severity)
| F_disposition (v : Disposition)
| F_tenant (v : string)
| F_tactic (v : Tactic)
| F_unassigned.

Definition rail_change (k : filter_click) (f : FilterState) : FilterState :=
  match k with
  | F_severity v => mkFilter (toggle (fl_severities f) v) (fl_dispositions f) (fl_tenants f)
                             (fl_tactics f) (fl_unassignedOnly f)
  | F_disposition v => mkFilter (fl_severities f) (toggle (fl_dispositions f) v) (fl_tenants f)
                                (fl_tactics f) (fl_unassignedOnly f)
  | F_tenant v => mkFilter (fl_severities f) (fl_dispositions f) (toggle (fl_tenants f) v)
                           (fl_tactics f) (fl_unassignedOnly f)
  | F_tactic v => mkFilter (fl_severities f) (fl_dispositions f) (fl_tenants f)
                           (toggle (fl_tactics f) v) (fl_unassignedOnly f)
  | F_unassigned => mkFilter (fl_severities f) (fl_dispositions f) (fl_tenants f)
                             (fl_tactics f) (negb (fl_unassignedOnly f))
  end.

(** [counts.set(k, (counts.get(k) ?? 0) + 1)] *)
Definition bump {K} `{Countable K} (k : K) (m : gmap K Z) : gmap K Z :=
  <[k := default 0 (m !! k) + 1]> m.

Record RailCounts := mkCounts {
  rc_severity : gmap Severity Z;
  rc_disposition : gmap Disposition Z;
  rc_tenant : gmap string Z;
  rc_tactic : gmap Tactic Z;
  rc_unassigned : Z;
}.

Definition count_case (r : RailCounts) (c : Case) : RailCounts :=
  mkCounts (bump (case_severity c) (rc_severity r))
           (bump (case_disposition c) (rc_disposition r))
           (bump (case_tenantId c) (rc_tenant r))
           (foldl (fun m t => bump t m) (rc_tactic r) (case_tactics c))
           (if decide (case_assignee c = None) then rc_unassigned r + 1 else rc_unassigned r).

Definition rail_counts (cases : list Case) : RailCounts :=
  foldl count_case (mkCounts ∅ ∅ ∅ ∅ 0) cases.

(** The number shown beside an option: [counts.get(option) ?? 0]. *)
Definition shown {K} `{Countable K} (m : gmap K Z) (k : K) : Z := default 0 (m !! k).

(** ** Overrides and rows (watchfloor-client.tsx) *)

(** The [Partial<Case>] patches the surface makes. *)
Record Override := mkOverride {
  ov_status : option CaseStatus;
  ov_dismissReason : option string;
}.

Definition merge_override (old : option Override) (patch : Override) : Override :=
  let prev := default (mkOverride None None) old in
  mkOverride (match ov_status patch with Some s => Some s | None => ov_status prev end)
             (match ov_dismissReason patch with Some r => Some r | None => ov_dismissReason prev end).

Definition apply_override (base : Case) (o : Override) : Case :=
  {| case_id := case_id base; case_tenantId := case_tenantId base; case_title := case_title base;
     case_primaryEntity := case_primaryEntity base; case_entityType := case_entityType base;
     case_severity := case_severity base; case_disposition := case_disposition base;
     case_riskScore := case_riskScore base; case_tactics := case_tactics base;
     case_claimCount := case_claimCount base; case_createdAtMs := case_createdAtMs base;
     case_updatedAtMs := case_updatedAtMs base;
     case_status := default (case_status base) (ov_status o);
     case_assignee := case_assignee base; case_summary := case_summary base;
     case_dismissReason := match ov_dismissReason o with
                           | Some r => Some r | None => case_dismissReason base end |}.

(** [stream.order.map(...)] with the overrides merged in. *)
Definition allCases (rows : list Case) (overrides : gmap string Override) : list Case :=
  (fun base => match overrides !! case_id base with
               | Some o => apply_override base o
               | None => base
               end) <$> rows.

(** ** The surface's state and its keyboard handler *)

Record Surface := mkSurface {
  sf_filters : FilterState;
  sf_selectedId : option string;
  sf_overrides : gmap string Override;
  sf_dismissTarget : option Case;
  sf_reason : string;
  sf_pushed : list string;
}.

Definition surface_initial : Surface := mkSurface emptyFilterState None ∅ None EmptyString [].

Definition set_selected (id : string) (s : Surface) : Surface :=
  mkSurface (sf_filters s) (Some id) (sf_overrides s) (sf_dismissTarget s) (sf_reason s) (sf_pushed s).
Definition set_target (t : option Case) (s : Surface) : Surface :=
  mkSurface (sf_filters s) (sf_selectedId s) (sf_overrides s) t (sf_reason s) (sf_pushed s).
Definition set_reason (r : string) (s : Surface) : Surface :=
  mkSurface (sf_filters s) (sf_selectedId s) (sf_overrides s) (sf_dismissTarget s) r (sf_pushed s).
Definition set_filters (f : FilterState) (s : Surface) : Surface :=
  mkSurface f (sf_selectedId s) (sf_overrides s) (sf_dismissTarget s) (sf_reason s) (sf_pushed s).
Definition push_route (r : string) (s : Surface) : Surface :=
  mkSurface (sf_filters s) (sf_selectedId s) (sf_overrides s) (sf_dismissTarget s) (sf_reason s)
            (sf_pushed s ++ [r]).

Definition setStatus (id : string) (patch : Override) (s : Surface) : Surface :=
  mkSurface (sf_filters s) (sf_selectedId s)
            (<[id := merge_override (sf_overrides s !! id) patch]> (sf_overrides s))
            (sf_dismissTarget s) (sf_reason s) (sf_pushed s).

Definition filteredCases (rows : list Case) (s : Surface) : list Case :=
  applyFilters (allCases rows (sf_overrides s)) (sf_filters s).

Record KeyEvent := mkKey {
  ke_key : string;
  ke_editable : bool;
  ke_modified : bool;
}.

(** [selectedId ?]: the empty string is falsy. *)
Definition truthy (id : option string) : option string :=
  match id with Some EmptyString => None | _ => id end.

Definition currentIndex (cases : list Case) (selectedId : option string) : Z :=
  match truthy selectedId with
  | Some id => match index_of id (case_id <$> cases) with Some i => Z.of_nat i | None => -1 end
  | None => -1
  end.

(** [setSelectedId(filteredCases[i].id)] *)
Definition select_index (cases : list Case) (i : Z) (s : Surface) : outcome Surface :=
  match at_index cases i with
  | Some c => Ok (set_selected (case_id c) s)
  | None => Throw TypeError
  end.

(** [onKeyDown]; [chromeOpen] is [paletteOpen || helpOpen]. *)
Definition onKeyDown (rows : list Case) (chromeOpen : bool) (ev : KeyEvent) (s : Surface)
    : outcome Surface :=
  let cases := filteredCases rows s in
  if chromeOpen || ke_editable ev || ke_modified ev then Ok s
  else if (length cases =? 0)%nat then Ok s
  else
    let cur := currentIndex cases (sf_selectedId s) in
    let len := Z.of_nat (length cases) in
    if decide (ke_key ev = "j") then
      let nextIndex := Z.min (cur + 1) (len - 1) in select_index cases (Z.max nextIndex 0) s
    else if decide (ke_key ev = "k") then
      let nextIndex := Z.max (cur - 1) 0 in select_index cases nextIndex s
    else match truthy (sf_selectedId s) with
    | None => Ok s
    | Some id =>
        if decide (ke_key ev = "e") then Ok (setStatus id (mkOverride (Some escalated) None) s)
        else if decide (ke_key ev = "d") then
          Ok (set_target (List.find (fun c => bool_decide (case_id c = id)) cases) s)
        else if decide (ke_key ev = "i") then
          Ok (push_route ("/investigation-canvas?case=" +:+ id) s)
        else Ok s
    end.

(** ** The dismiss dialog (dismiss-dialog.tsx) *)

(** White space of [String.prototype.trim] among the characters of [string]. *)
Definition is_space (c : ascii) : bool :=
  let n := N_of_ascii c in ((9 <=? n) && (n <=? 13) || (n =? 32) || (n =? 160))%N.

Fixpoint trim_start (s : string) : string :=
  match s with
  | String c s' => if is_space c then trim_start s' else s
  | EmptyString => EmptyString
  end.

Fixpoint trim_end (s : string) : string :=
  match s with
  | EmptyString => EmptyString
  | String c s' =>
      match trim_end s' with
      | EmptyString => if is_space c then EmptyString else String c EmptyString
      | t => String c t
      end
  end.

Definition trim (s : string) : string := trim_end (trim_start s).

Definition dismiss_disabled (s : Surface) : bool := bool_decide (trim (sf_reason s) = EmptyString).

(** [onOpenChange(false)], the Cancel button and the overlay. *)
Definition close_dialog (s : Surface) : Surface := set_target None s.

(** A click on Dismiss; a disabled button ignores it. *)
Definition confirm_dismiss (s : Surface) : Surface :=
  if dismiss_disabled s then s
  else
    let reason := trim (sf_reason s) in
    let s1 := match sf_dismissTarget s with
              | Some t => setStatus (case_id t) (mkOverride (Some dismissed) (Some reason)) s
              | None => s
              end in
    close_dialog (set_reason EmptyString s1).

(** ** Case table (case-table.tsx) *)

Definition ROW_HEIGHT : Z := 32.
Definition EXPANDED_EXTRA_HEIGHT : Z := 56.

Definition estimateSize (rows : list Case) (expandedId : option string) (index : nat) : Z :=
  match rows !! index with
  | Some r => if decide (Some (case_id r) = expandedId) then ROW_HEIGHT + EXPANDED_EXTRA_HEIGHT
              else ROW_HEIGHT
  | None => ROW_HEIGHT
  end.

(** A click on a row: select it, and expand or collapse it. *)
Definition row_click (c : Case) (expandedId : option string) (s : Surface) : option string * Surface :=
  (if decide (expandedId = Some (case_id c)) then None else Some (case_id c),
   set_selected (case_id c) s).

(** ** Steps of the surface *)

Inductive surface_step (rows : list Case) : Surface → Surface → Prop :=
| ss_key chromeOpen ev s s' : onKeyDown rows chromeOpen ev s = Ok s' → surface_step rows s s'
| ss_click c e s : c ∈ filteredCases rows s → surface_step rows s (row_click c e s).2
| ss_filter k s : surface_step rows s (set_filters (rail_change k (sf_filters s)) s)
| ss_type r s : sf_dismissTarget s ≠ None → surface_step rows s (set_reason r s)
| ss_close s : surface_step rows s (close_dialog s)
| ss_confirm s : sf_dismissTarget s ≠ None → surface_step rows s (confirm_dismiss s).

(** Reachable while the stream changes the rows between steps. *)
Inductive surface_reachable : Surface → Prop :=
| sr_init : surface_reachable surface_initial
| sr_step rows s s' : surface_reachable s → surface_step rows s s' → surface_reachable s'.

(** ** Filters *)

(** A dimension of the filter with nothing selected lets everything through. *)
Definition dim_ok {T} `{Countable T} (s : gset T) (P : Prop) : Prop := s = ∅ ∨ P.

#[export] Instance dim_ok_proper {T} `{Countable T} (s : gset T) : Proper (iff ==> iff) (dim_ok s).
Proof. unfold dim_ok. intros P Q HPQ. by rewrite HPQ. Qed.

Lemma dim_test {T} `{Countable T} (s : gset T) (b : bool) :
  (0 <? size s)%nat && negb b = false ↔ dim_ok s (b = true).
Proof.
  unfold dim_ok. destruct (decide (s = ∅)) as [->|Hne]; [rewrite size_empty; naive_solver|].
  assert ((0 <? size s)%nat = true) as ->.
  { destruct (size s) eqn:E; [|done]. exfalso. by apply Hne, leibniz_equiv, size_empty_inv. }
  destruct b; naive_solver.
Qed.

Lemma case_passes_spec f c :
  case_passes f c = true ↔
    dim_ok (fl_severities f) (case_severity c ∈ fl_severities f) ∧
    dim_ok (fl_dispositions f) (case_disposition c ∈ fl_dispositions f) ∧
    dim_ok (fl_tenants f) (case_tenantId c ∈ fl_tenants f) ∧
    dim_ok (fl_tactics f) (∃ t, t ∈ case_tactics c ∧ t ∈ fl_tactics f) ∧
    (fl_unassignedOnly f = true → case_assignee c = None).
Proof.
  unfold case_passes.
  assert (∀ b x : bool, (if b then false else x) = true ↔ b = false ∧ x = true) as Hif
    by (intros [] []; naive_solver).
  rewrite !Hif, !dim_test, !bool_decide_eq_true, existsb_exists.
  assert ((∃ x, In x (case_tactics c) ∧ bool_decide (x ∈ fl_tactics f) = true) ↔
          (∃ t, t ∈ case_tactics c ∧ t ∈ fl_tactics f)) as Hex.
  { setoid_rewrite bool_decide_eq_true. by setoid_rewrite list_elem_of_In. }
  rewrite Hex.
  destruct (fl_unassignedOnly f), (decide (case_assignee c = None)) as [E|E];
    [rewrite bool_decide_eq_true_2 by done|rewrite bool_decide_eq_false_2 by done|..];
    simpl; tauto || naive_solver.
Qed.

Lemma toggle_toggle {T} `{Countable T} (s : gset T) v : toggle (toggle s v) v = s.
Proof.
  unfold toggle. destruct (decide (v ∈ s)) as [Hin|Hin].
  - rewrite decide_False by set_solver. apply leibniz_equiv. intros x.
    destruct (decide (x = v)); set_solver.
  - rewrite decide_True by set_solver. set_solver.
Qed.

Lemma rail_change_twice k f : rail_change k (rail_change k f) = f.
Proof.
  destruct f, k; unfold rail_change; simpl; by rewrite ?toggle_toggle, ?negb_involutive.
Qed.

(** ** Counts *)

Section counts.
Context {K : Type} `{Countable K}.

Lemma shown_bump k k' (m : gmap K Z) :
  shown (bump k m) k' = shown m k' + if decide (k = k') then 1 else 0.
Proof.
  unfold shown, bump. destruct (decide (k = k')) as [->|Hne].
  - by rewrite lookup_insert_eq.
  - rewrite lookup_insert_ne by done. lia.
Qed.

Lemma shown_bumps ks k' (m : gmap K Z) :
  NoDup ks → shown (foldl (fun m t => bump t m) m ks) k' = shown m k' + if decide (k' ∈ ks) then 1 else 0.
Proof.
  intros Hnd. revert m. induction Hnd as [|k ks Hk Hnd IH]; intros m; cbn [foldl].
  { rewrite decide_False by apply not_elem_of_nil. lia. }
  rewrite IH, shown_bump. repeat case_decide; try lia.
  all: rewrite elem_of_cons in *; naive_solver lia.
Qed.

End counts.

(** How many cases pass a test, as the rail counts them. *)
Definition count_if (P : Case → bool) (cases : list Case) : Z :=
  Z.of_nat (length (filter (fun c => P c) cases)).

Lemma count_if_cons P c cs : count_if P (c :: cs) = (if P c then 1 else 0) + count_if P cs.
Proof.
  unfold count_if. rewrite filter_cons. destruct (P c) eqn:E.
  - rewrite decide_True by done. simpl. lia.
  - rewrite decide_False by (by intros []). lia.
Qed.

Lemma rail_counts_spec cs :
  Forall (fun c => NoDup (case_tactics c)) cs →
  let r := rail_counts cs in
  (∀ v, shown (rc_severity r) v = count_if (fun c => bool_decide (case_severity c = v)) cs) ∧
  (∀ v, shown (rc_disposition r) v = count_if (fun c => bool_decide (case_disposition c = v)) cs) ∧
  (∀ v, shown (rc_tenant r) v = count_if (fun c => bool_decide (case_tenantId c = v)) cs) ∧
  (∀ v, shown (rc_tactic r) v = count_if (fun c => bool_decide (v ∈ case_tactics c)) cs) ∧
  rc_unassigned r = count_if (fun c => bool_decide (case_assignee c = None)) cs.
Proof.
  unfold rail_counts. intros Hnd.
  assert (∀ r0, let r := foldl count_case r0 cs in
    (∀ v, shown (rc_severity r) v = shown (rc_severity r0) v + count_if (fun c => bool_decide (case_severity c = v)) cs) ∧
    (∀ v, shown (rc_disposition r) v = shown (rc_disposition r0) v + count_if (fun c => bool_decide (case_disposition c = v)) cs) ∧
    (∀ v, shown (rc_tenant r) v = shown (rc_tenant r0) v + count_if (fun c => bool_decide (case_tenantId c = v)) cs) ∧
    (∀ v, shown (rc_tactic r) v = shown (rc_tactic r0) v + count_if (fun c => bool_decide (v ∈ case_tactics c)) cs) ∧
    rc_unassigned r = rc_unassigned r0 + count_if (fun c => bool_decide (case_assignee c = None)) cs) as Hg.
  { induction Hnd as [|c cs Hc Hnd IH]; intros r0; cbn [foldl].
    { unfold count_if. simpl. repeat split; intros; lia. }
    destruct (IH (count_case r0 c)) as (H1 & H2 & H3 & H4 & H5).
    repeat split; try intros v; rewrite count_if_cons, ?H1, ?H2, ?H3, ?H4, ?H5; simpl;
      rewrite ?shown_bump, ?(shown_bumps _ _ _ Hc);
      repeat (case_bool_decide || case_decide); (lia || (exfalso; tauto)). }
  specialize (Hg (mkCounts ∅ ∅ ∅ ∅ 0)). simpl in Hg. unfold shown in Hg at 2 4 6 8.
  setoid_rewrite lookup_empty in Hg. exact Hg.
Qed.

Lemma count_if_filter (P : Case → bool) f cs :
  (∀ c, P c = true ↔ case_passes f c = true) →
  count_if P cs = Z.of_nat (length (applyFilters cs f)).
Proof.
  intros HP. unfold count_if, applyFilters. f_equal. f_equal. apply list_filter_iff.
  intros c. rewrite !Is_true_true. apply HP.
Qed.

Lemma dim_empty {T} `{Countable T} (P : Prop) : dim_ok (∅ : gset T) P ↔ True.
Proof. unfold dim_ok. tauto. Qed.

Lemma dim_single {T} `{Countable T} (v : T) (P : Prop) : dim_ok {[v]} P ↔ P.
Proof.
  unfold dim_ok. split; [|by right]. intros [He|?]; [|done].
  exfalso. assert (v ∈ (∅ : gset T)) as Hv by (rewrite <- He; set_solver). set_solver.
Qed.

Lemma toggle_empty {T} `{Countable T} (v : T) : toggle ∅ v = {[v]}.
Proof. unfold toggle. rewrite decide_False by set_solver. set_solver. Qed.

(** What the filter left by one click on an otherwise empty rail lets through. *)
Definition click_test (k : filter_click) (c : Case) : bool :=
  match k with
  | F_severity v => bool_decide (case_severity c = v)
  | F_disposition v => bool_decide (case_disposition c = v)
  | F_tenant v => bool_decide (case_tenantId c = v)
  | F_tactic v => bool_decide (v ∈ case_tactics c)
  | F_unassigned => bool_decide (case_assignee c = None)
  end.

Lemma click_test_spec k c :
  click_test k c = true ↔ case_passes (rail_change k emptyFilterState) c = true.
Proof.
  rewrite case_passes_spec. destruct k; simpl; rewrite bool_decide_eq_true, ?toggle_empty,
    ?dim_empty, ?dim_single, ?elem_of_singleton; naive_solver set_solver.
Qed.

(** ** The keyboard *)

Definition press (rows : list Case) (k : string) (s : Surface) : outcome Surface :=
  onKeyDown rows false (mkKey k false false) s.

Lemma filteredCases_selected rows id s : filteredCases rows (set_selected id s) = filteredCases rows s.
Proof. done. Qed.

Lemma currentIndex_range cs sel : -1 <= currentIndex cs sel < Z.of_nat (length cs) ∨ currentIndex cs sel = -1.
Proof.
  unfold currentIndex. destruct (truthy sel) as [id|]; [|by right].
  destruct (index_of id (case_id <$> cs)) as [i|] eqn:E; [|by right].
  left. apply index_of_Some, lookup_lt_Some in E. rewrite length_fmap in E. lia.
Qed.

Lemma press_j rows s :
  filteredCases rows s ≠ [] →
  ∃ c, at_index (filteredCases rows s)
         (Z.max (Z.min (currentIndex (filteredCases rows s) (sf_selectedId s) + 1)
                       (Z.of_nat (length (filteredCases rows s)) - 1)) 0) = Some c ∧
    press rows "j" s = Ok (set_selected (case_id c) s).
Proof.
  intros Hne. unfold press, onKeyDown. cbn [ke_key ke_editable ke_modified orb].
  set (cs := filteredCases rows s) in *.
  assert (0 < length cs)%nat by (destruct cs; simpl; [done|lia]).
  destruct (at_index_Some cs (Z.max (Z.min (currentIndex cs (sf_selectedId s) + 1)
    (Z.of_nat (length cs) - 1)) 0)) as (c & Hc & _); [lia|].
  exists c. split; [done|].
  destruct (Nat.eqb_spec (length cs) 0); [lia|]. rewrite decide_True by done.
  unfold select_index. by rewrite Hc.
Qed.

Lemma press_k rows s :
  filteredCases rows s ≠ [] →
  ∃ c, at_index (filteredCases rows s)
         (Z.max (currentIndex (filteredCases rows s) (sf_selectedId s) - 1) 0) = Some c ∧
    press rows "k" s = Ok (set_selected (case_id c) s).
Proof.
  intros Hne. unfold press, onKeyDown. cbn [ke_key ke_editable ke_modified orb].
  set (cs := filteredCases rows s) in *.
  assert (0 < length cs)%nat by (destruct cs; simpl; [done|lia]).
  destruct (at_index_Some cs (Z.max (currentIndex cs (sf_selectedId s) - 1) 0)) as (c & Hc & _).
  { pose proof (currentIndex_range cs (sf_selectedId s)). lia. }
  exists c. split; [done|].
  destruct (Nat.eqb_spec (length cs) 0); [lia|].
  rewrite decide_False by done. rewrite decide_True by done.
  unfold select_index. by rewrite Hc.
Qed.

Lemma index_of_NoDup {A} `{EqDecision A} (l : list A) i x :
  NoDup l → l !! i = Some x → index_of x l = Some i.
Proof.
  intros Hnd. revert i. induction Hnd as [|y l Hy Hnd IH]; intros i Hi; [done|].
  destruct i as [|i]; simpl in *; [simplify_eq; by rewrite decide_True|].
  rewrite decide_False; [by rewrite (IH i)|]. intros ->. apply Hy. by eapply list_elem_of_lookup_2.
Qed.

Lemma currentIndex_at cs i c :
  NoDup (case_id <$> cs) → case_id c ≠ EmptyString → cs !! i = Some c →
  currentIndex cs (Some (case_id c)) = Z.of_nat i.
Proof.
  intros Hnd Hne Hi. unfold currentIndex, truthy.
  destruct (case_id c) eqn:E; [done|]. rewrite <- E, (index_of_NoDup _ i); [done..|].
  by rewrite list_lookup_fmap, Hi.
Qed.

Section walk.
Context (rows : list Case) (s : Surface).
Let cs := filteredCases rows s.
Hypothesis rows_distinct : NoDup (case_id <$> cs).
Hypothesis rows_named : Forall (fun c => case_id c ≠ EmptyString) cs.

Lemma press_j_from i c :
  cs !! i = Some c → ∃ d, cs !! (S i `min` (length cs - 1))%nat = Some d ∧
    press rows "j" (set_selected (case_id c) s) = Ok (set_selected (case_id d) s).
Proof using rows_distinct rows_named.
  intros Hc. pose proof (lookup_lt_Some _ _ _ Hc) as Hlt.
  destruct (press_j rows (set_selected (case_id c) s)) as (d & Hd & Hp).
  { intros He. change (filteredCases rows (set_selected (case_id c) s)) with cs in He.
    rewrite He in Hlt. simpl in Hlt. lia. }
  exists d. rewrite Hp. split; [|done]. rewrite <- Hd.
  change (filteredCases rows (set_selected (case_id c) s)) with cs. cbn [sf_selectedId set_selected].
  rewrite (currentIndex_at cs i c); [|done| |done].
  - unfold at_index. rewrite (proj2 (Z.ltb_ge _ 0)) by lia. f_equal. lia.
  - rewrite Forall_forall in rows_named. apply rows_named. by eapply list_elem_of_lookup_2.
Qed.

Lemma press_k_from i c :
  cs !! i = Some c → ∃ d, cs !! (i - 1)%nat = Some d ∧
    press rows "k" (set_selected (case_id c) s) = Ok (set_selected (case_id d) s).
Proof using rows_distinct rows_named.
  intros Hc. pose proof (lookup_lt_Some _ _ _ Hc) as Hlt.
  destruct (press_k rows (set_selected (case_id c) s)) as (d & Hd & Hp).
  { intros He. change (filteredCases rows (set_selected (case_id c) s)) with cs in He.
    rewrite He in Hlt. simpl in Hlt. lia. }
  exists d. rewrite Hp. split; [|done]. rewrite <- Hd.
  change (filteredCases rows (set_selected (case_id c) s)) with cs. cbn [sf_selectedId set_selected].
  rewrite (currentIndex_at cs i c); [|done| |done].
  - unfold at_index. rewrite (proj2 (Z.ltb_ge _ 0)) by lia. f_equal. lia.
  - rewrite Forall_forall in rows_named. apply rows_named. by eapply list_elem_of_lookup_2.
Qed.

End walk.

(** ** Properties *)

(** The rows are those that pass every dimension of the filter (no
    selection in a dimension lets all pass, options of one dimension are
    alternatives), in the order they had; the empty filter keeps them all, and a
    second click on an option undoes the first. *)
Theorem applyFilters_spec cases f :
  applyFilters cases f `sublist_of` cases ∧
  (∀ c, c ∈ applyFilters cases f ↔ c ∈ cases ∧
    dim_ok (fl_severities f) (case_severity c ∈ fl_severities f) ∧
    dim_ok (fl_dispositions f) (case_disposition c ∈ fl_dispositions f) ∧
    dim_ok (fl_tenants f) (case_tenantId c ∈ fl_tenants f) ∧
    dim_ok (fl_tactics f) (∃ t, t ∈ case_tactics c ∧ t ∈ fl_tactics f) ∧
    (fl_unassignedOnly f = true → case_assignee c = None)) ∧
  applyFilters cases emptyFilterState = cases ∧
  ∀ k, applyFilters cases (rail_change k (rail_change k f)) = applyFilters cases f.
Proof.
  split; [apply sublist_filter|]. split.
  { intros c. unfold applyFilters. rewrite list_elem_of_filter, Is_true_true, case_passes_spec. tauto. }
  split; [|intros k; by rewrite rail_change_twice].
  unfold applyFilters. induction cases as [|c cs IH]; [done|].
  rewrite filter_cons_True, IH by (by rewrite Is_true_true). done.
Qed.

(** The number beside an option is the number of rows that a click on it
    would leave, starting from an empty filter. *)
Theorem rail_counts_match cases :
  Forall (fun c => NoDup (case_tactics c)) cases →
  let r := rail_counts cases in
  let after k := Z.of_nat (length (applyFilters cases (rail_change k emptyFilterState))) in
  (∀ v, shown (rc_severity r) v = after (F_severity v)) ∧
  (∀ v, shown (rc_disposition r) v = after (F_disposition v)) ∧
  (∀ v, shown (rc_tenant r) v = after (F_tenant v)) ∧
  (∀ v, shown (rc_tactic r) v = after (F_tactic v)) ∧
  rc_unassigned r = after F_unassigned.
Proof.
  intros Hnd r after. destruct (rail_counts_spec cases Hnd) as (H1 & H2 & H3 & H4 & H5).
  unfold r, after.
  repeat split; try intros v; rewrite ?H1, ?H2, ?H3, ?H4, ?H5;
    apply count_if_filter; intros c;
    first [ exact (click_test_spec (F_severity v) c) | exact (click_test_spec (F_disposition v) c)
          | exact (click_test_spec (F_tenant v) c) | exact (click_test_spec (F_tactic v) c)
          | exact (click_test_spec F_unassigned c) ].
Qed.

Lemma rail_counts_match_witness :
  Forall (fun c => NoDup (case_tactics c)) [sample_case] ∧
  shown (rc_tactic (rail_counts [sample_case])) execution =
    Z.of_nat (length (applyFilters [sample_case] (rail_change (F_tactic execution) emptyFilterState))).
Proof.
  assert (Forall (fun c => NoDup (case_tactics c)) [sample_case]) as H.
  { constructor; [|constructor]. apply (bool_decide_unpack _). vm_compute. exact I. }
  split; [exact H|]. apply (rail_counts_match [sample_case] H).
Defined.

(** C11: with distinct row ids, [j] pressed [i + 1] times from no selection selects
    row [i], or the last row when there are fewer; from there [k] goes back up
    one row at a time, to the first.  No row is unreachable and no key throws. *)
Theorem keyboard_walk rows s i j :
  let cs := filteredCases rows s in
  cs ≠ [] → NoDup (case_id <$> cs) → Forall (fun c => case_id c ≠ EmptyString) cs →
  sf_selectedId s = None →
  let keys n k o := Nat.iter n (fun o => s ← o; press rows k s) o in
  ∃ c d, cs !! (i `min` (length cs - 1))%nat = Some c ∧
    keys (S i) "j" (Ok s) = Ok (set_selected (case_id c) s) ∧
    cs !! (i `min` (length cs - 1) - j)%nat = Some d ∧
    keys j "k" (keys (S i) "j" (Ok s)) = Ok (set_selected (case_id d) s).
Proof.
  intros cs Hne Hnd Hids Hsel keys.
  assert (0 < length cs)%nat by (destruct cs; simpl; [done|lia]).
  assert (∀ n, ∃ c, cs !! (n `min` (length cs - 1))%nat = Some c ∧
    keys (S n) "j" (Ok s) = Ok (set_selected (case_id c) s)) as Hj.
  { intros n. induction n as [|n (c & Hc & IH)].
    - destruct (press_j rows s Hne) as (c & Hc & Hp). exists c.
      fold cs in Hc. rewrite Hsel in Hc. unfold at_index, currentIndex in Hc. simpl in Hc.
      split; [|exact Hp]. rewrite <- Hc. rewrite (proj2 (Z.ltb_ge _ 0)) by lia. f_equal. lia.
    - change (keys (S (S n)) "j" (Ok s)) with (s ← keys (S n) "j" (Ok s); press rows "j" s).
      rewrite IH. destruct (press_j_from rows s Hnd Hids _ _ Hc) as (d & Hd & Hp).
      exists d. split; [|exact Hp]. fold cs in Hd. rewrite <- Hd. f_equal. lia. }
  destruct (Hj i) as (c & Hc & Hkc).
  assert (∀ n, ∃ d, cs !! (i `min` (length cs - 1) - n)%nat = Some d ∧
    keys n "k" (keys (S i) "j" (Ok s)) = Ok (set_selected (case_id d) s)) as Hk.
  { intros n. induction n as [|n (d & Hd & IH)]; [exists c; by rewrite Nat.sub_0_r|].
    change (keys (S n) "k" (keys (S i) "j" (Ok s)))
      with (s ← keys n "k" (keys (S i) "j" (Ok s)); press rows "k" s).
    rewrite IH. destruct (press_k_from rows s Hnd Hids _ _ Hd) as (e & He & Hp).
    exists e. split; [|exact Hp]. fold cs in He. rewrite <- He. f_equal. lia. }
  destruct (Hk j) as (d & Hd & Hkd). by exists c, d.
Qed.

(** Two rows as the stream may order them: the newer one has the lower risk. *)
Definition low_case : Case := rescored_case 100 1757499500000 (spawned_case "case-low" 1757499400000 sample_case).
Definition walk_rows : list Case := [low_case; sample_case].

Lemma keyboard_walk_witness :
  ∃ c d, walk_rows !! 1%nat = Some c ∧
    press walk_rows "j" (set_selected "case-low" surface_initial) = Ok (set_selected (case_id c) surface_initial) ∧
    walk_rows !! 0%nat = Some d ∧
    (s ← press walk_rows "j" (set_selected "case-low" surface_initial); press walk_rows "k" s)
      = Ok (set_selected (case_id d) surface_initial).
Proof.
  assert (filteredCases walk_rows surface_initial = walk_rows) as Hf by (vm_compute; reflexivity).
  assert (NoDup (case_id <$> filteredCases walk_rows surface_initial)) as Hnd
    by (rewrite Hf; apply (bool_decide_unpack _); vm_compute; exact I).
  assert (Forall (fun c => case_id c ≠ EmptyString) (filteredCases walk_rows surface_initial)) as Hne
    by (rewrite Hf; repeat constructor; discriminate).
  destruct (keyboard_walk walk_rows surface_initial 1 1 ltac:(rewrite Hf; discriminate) Hnd Hne eq_refl)
    as (c & d & Hc & Hj & Hd & Hk).
  rewrite Hf in Hc, Hd. exists c, d.
  split; [exact Hc|]. split; [exact Hj|]. split; [exact Hd|exact Hk].
Defined.

(** The order the keys walk is the order of the stream, not the order on
    screen.  Whenever the table shows its rows by descending risk, a queue whose
    newer case has the lower risk shows the riskier one first, and [j] on that
    first row stays on it: the row shown below it is not reached. *)
Theorem keyboard_ignores_display (displayed : list Case → list Case) rows s a b :
  (∀ l, displayed l ≡ₚ l ∧ StronglySorted (fun x y => case_riskScore y <= case_riskScore x) (displayed l)) →
  filteredCases rows s = [a; b] → case_riskScore a < case_riskScore b →
  case_id a ≠ case_id b → case_id b ≠ EmptyString →
  displayed (filteredCases rows s) = [b; a] ∧
  press rows "j" (set_selected (case_id b) s) = Ok (set_selected (case_id b) s).
Proof.
  intros Hd Hf Hrisk Hab Hb. split.
  - destruct (Hd (filteredCases rows s)) as [Hp Hs]. rewrite Hf in *.
    destruct (displayed [a; b]) as [|x [|y [|z l]]]; try (by apply Permutation_length in Hp).
    apply StronglySorted_inv in Hs as [_ Hx]. inversion Hx as [|? ? Hxy]; subst.
    apply Permutation_length_2_inv in Hp as [[= -> ->]|[= -> ->]]; [lia|done].
  - destruct (press_j rows (set_selected (case_id b) s)) as (c & Hc & Hp).
    { change (filteredCases rows s ≠ []). by rewrite Hf. }
    rewrite Hp. change (filteredCases rows (set_selected _ s)) with (filteredCases rows s) in Hc.
    rewrite Hf in Hc. cbn [sf_selectedId set_selected] in Hc.
    rewrite (currentIndex_at _ 1 b) in Hc; [|repeat constructor; set_solver|done|done].
    vm_compute in Hc. by injection Hc as ->.
Qed.

Lemma risk_sorted l : StronglySorted (fun x y => case_riskScore y <= case_riskScore x)
  (sort_by (fun x y => case_riskScore y <=? case_riskScore x) l).
Proof.
  eapply StronglySorted_weaken; [|apply sort_by_strongly_sorted];
    intros *; rewrite ?Z.leb_le; lia.
Qed.

Lemma keyboard_ignores_display_witness :
  sort_by (fun x y => case_riskScore y <=? case_riskScore x) (filteredCases walk_rows surface_initial)
    = [sample_case; low_case] ∧
  press walk_rows "j" (set_selected "case-0" surface_initial) = Ok (set_selected "case-0" surface_initial).
Proof.
  apply (keyboard_ignores_display (sort_by (fun x y => case_riskScore y <=? case_riskScore x))
           walk_rows surface_initial low_case sample_case);
    [intros l; split; [apply sort_by_perm|apply risk_sorted]|vm_compute; reflexivity..|discriminate|discriminate].
Defined.

(** ** Dismissals *)

(** Every local dismissal has a reason that is not blank. *)
Definition reasons_given (s : Surface) : Prop :=
  ∀ id o, sf_overrides s !! id = Some o → ov_status o = Some dismissed →
    ∃ typed, ov_dismissReason o = Some (trim typed) ∧ trim typed ≠ EmptyString.

Lemma reasons_setStatus id patch s :
  (ov_status patch = Some dismissed →
     ∃ typed, ov_dismissReason patch = Some (trim typed) ∧ trim typed ≠ EmptyString) →
  ov_status patch ≠ None → reasons_given s → reasons_given (setStatus id patch s).
Proof.
  intros Hp Hne Hs id' o. unfold setStatus. cbn [sf_overrides].
  destruct (decide (id' = id)) as [->|Hid]; [rewrite lookup_insert_eq|rewrite lookup_insert_ne by done; apply Hs].
  intros [= <-]. unfold merge_override. simpl.
  destruct (ov_status patch) as [st|]; [|done]. intros [= ->].
  destruct (Hp eq_refl) as (typed & -> & Ht). by exists typed.
Qed.

Lemma onKeyDown_reasons rows open ev s s' :
  onKeyDown rows open ev s = Ok s' → reasons_given s → reasons_given s'.
Proof.
  unfold onKeyDown, select_index. intros Heq Hs. repeat case_match; simplify_eq; try done.
  by apply reasons_setStatus.
Qed.

(** The reason of a dismissal as a row has it. *)
Definition reason_shown (c : Case) : Prop :=
  ∃ typed, case_dismissReason c = Some (trim typed) ∧ trim typed ≠ EmptyString.

Lemma shown_dismissed s rows c : reasons_given s → c ∈ allCases rows (sf_overrides s) → case_status c = dismissed →
  reason_shown c ∨ ∃ base, base ∈ rows ∧ case_id base = case_id c ∧ case_status base = dismissed.
Proof.
  intros Hs (base & -> & Hin)%list_elem_of_fmap. destruct (sf_overrides s !! case_id base) as [o|] eqn:E; [|by right; exists base].
  cbn [apply_override case_status case_id]. destruct (ov_status o) as [st|] eqn:Est; [|by right; exists base].
  intros Hst. change (st = dismissed) in Hst. subst st. left. destruct (Hs _ _ E Est) as (typed & Ho & Ht). exists typed. split; [|done]. unfold apply_override. cbn [case_dismissReason]. by rewrite Ho.
Qed.

Lemma reachable_reasons s : surface_reachable s → reasons_given s.
Proof.
  induction 1 as [|rows s s' Hr IH Hstep]; [by intros id o ?|].
  destruct Hstep as [open ev s s' Hk|c e s Hc|k s|r s Hd|s|s Hd]; try done.
  - by eapply onKeyDown_reasons.
  - unfold confirm_dismiss, dismiss_disabled.
    destruct (bool_decide_reflect (trim (sf_reason s) = EmptyString)) as [|Hne]; [done|].
    destruct (sf_dismissTarget s) as [t|]; [|done].
    apply (reasons_setStatus (case_id t)); [|done|done]. intros _. by exists (sf_reason s).
Qed.

(** C12: whatever the keys, clicks and live updates, a dismissal made on this surface
    has a non-blank reason: a row that is shown dismissed, over any rows of the
    feed, either shows such a reason or is a case the server itself sent as
    dismissed (which it does without one). *)
Theorem dismissals_have_reasons s : surface_reachable s →
  reasons_given s ∧
  ∀ rows c, c ∈ allCases rows (sf_overrides s) → case_status c = dismissed →
    reason_shown c ∨ ∃ base, base ∈ rows ∧ case_id base = case_id c ∧ case_status base = dismissed.
Proof. intros Hr%reachable_reasons. split; [done|]. intros rows c. by apply shown_dismissed. Qed.

Definition chosen_surface : Surface :=
  set_target (Some sample_case) (set_selected "case-0" surface_initial).
Definition dismissed_surface : Surface :=
  confirm_dismiss (set_reason " benign scan " chosen_surface).

Lemma chosen_reachable : surface_reachable chosen_surface.
Proof.
  eapply (sr_step [sample_case]); [eapply (sr_step [sample_case]); [apply sr_init|]|].
  - apply (ss_click [sample_case] sample_case None). vm_compute. left.
  - apply (ss_key [sample_case] false (mkKey "d" false false)). vm_compute. reflexivity.
Qed.

Lemma dismissals_have_reasons_witness :
  sf_overrides dismissed_surface !! "case-0" =
    Some (mkOverride (Some dismissed) (Some "benign scan")) ∧
  reasons_given dismissed_surface ∧
  case_dismissReason <$> allCases [sample_case] (sf_overrides dismissed_surface) = [Some "benign scan"].
Proof.
  split; [vm_compute; reflexivity|]. split; [|vm_compute; reflexivity]. apply dismissals_have_reasons.
  apply (sr_step [sample_case] (set_reason " benign scan " chosen_surface)).
  - apply (sr_step [sample_case] chosen_surface); [apply chosen_reachable|].
    apply ss_type. discriminate.
  - apply ss_confirm. discriminate.
Defined.

(** Cancel leaves what was typed in the dialog: opened on another case, it
    has the earlier text in it and Dismiss enabled, so that one click dismisses
    the second case with the reason given for the first. *)
Theorem cancelled_reason_survives s typed a b :
  sf_dismissTarget s = Some a → trim typed ≠ EmptyString →
  let s1 := close_dialog (set_reason typed s) in
  let s2 := set_target (Some b) s1 in
  sf_dismissTarget s1 = None ∧ dismiss_disabled s2 = false ∧
  ∃ o, sf_overrides (confirm_dismiss s2) !! case_id b = Some o ∧
    ov_status o = Some dismissed ∧ ov_dismissReason o = Some (trim typed).
Proof.
  intros Ha Ht s1 s2. split; [done|].
  assert (dismiss_disabled s2 = false) as Hd by by apply bool_decide_eq_false.
  split; [done|]. unfold confirm_dismiss. rewrite Hd. simpl.
  rewrite lookup_insert_eq. eauto.
Qed.

Lemma cancelled_reason_survives_witness :
  let s := set_target (Some sample_case) surface_initial in
  dismiss_disabled (set_target (Some low_case) (close_dialog (set_reason "duplicate" s))) = false.
Proof.
  intros s. apply (cancelled_reason_survives s "duplicate" sample_case low_case); [reflexivity|discriminate].
Defined.
