(* ===== verification/Session.v ===== *)
(** * Sessions: web/src/lib/auth/session.ts, middleware.ts, the login page and the console layout

    A signed cookie carries the operator's address and role.  The middleware
    looks at its presence only; the console layout verifies it.  The keyed hash
    of node:crypto is the parameter [hmac]; a cookie jar is the value of the one
    cookie, if any. *)

From S2P Require Import Prelude JsNum Json Text View Shortcuts Types Store.
From Stdlib Require Import Ascii.
Open Scope Z_scope.

Definition SESSION_COOKIE : string := "attesta_dev_session".

(** A value of the type [Session] after the unchecked cast of [decode]: the
    address is a string, the role is one of the list, [issuedAt] is whatever the
    text had, [None] when it had nothing. *)
Record Session := mkSession {
  se_email : string;
  se_role : Role;
  se_issuedAt : option json;
}.

Definition session_json (s : Session) : json :=
  JObj ([("email", JStr (se_email s)); ("role", JStr (role_name (se_role s)))] ++
        match se_issuedAt s with Some v => [("issuedAt", v)] | None => [] end).

Definition DEV_SIGNING_SECRET : string := "attesta-dev-only-not-a-real-secret".

(** [ROLES.includes(name)], with the role it names. *)
Definition role_of (name : string) : option Role := of_name ROLES role_name name.

(** The cookie as [store.set] is given it. *)
Record Cookie := mkCookie {
  ck_value : string;
  ck_httpOnly : bool;
  ck_sameSite : string;
  ck_secure : bool;
  ck_path : string;
  ck_maxAge : Z;
}.

Section session.
Context (hmac : list Z → list Z → list Z).

Definition sign (payload : string) : string :=
  b64url_encode (hmac (bytes_of DEV_SIGNING_SECRET) (bytes_of payload)).

Definition payload_of (s : Session) : string := b64url_encode (bytes_of (stringify (session_json s))).

Definition encode (s : Session) : string :=
  let payload := payload_of s in
  let signature := sign payload in
  payload +:+ "." +:+ signature.

(** The checks on the parsed text, and the cast. *)
Definition session_of (parsed : json) : option Session :=
  match json_field "email" parsed, json_field "role" parsed with
  | Some (JStr email), Some (JStr role) =>
      r ← role_of role; Some (mkSession email r (json_field "issuedAt" parsed))
  | _, _ => None
  end.

Definition decode (token : string) : option Session :=
  match split_on "." token with
  | (payload, signature :: _) =>
      if decide (payload = "") then None
      else if decide (signature = "") then None
      else
        let expected := sign payload in
        let a := bytes_of signature in
        let b := bytes_of expected in
        if negb (length a =? length b)%nat || negb (bool_decide (a = b)) then None
        else parsed ← parse_json (utf8_decode (b64url_decode payload)); session_of parsed
  | (_, []) => None
  end.

Definition getSession (jar : option string) : option Session :=
  match jar with
  | None => None
  | Some token => if decide (token = "") then None else decode token
  end.

(** [now] is [Date.now()]; [production] is [process.env.NODE_ENV === "production"]. *)
Definition createSession (email : string) (role : Role) (now : Z) (production : bool) : Cookie :=
  mkCookie (encode (mkSession email role (Some (json_int now)))) true "lax" production "/" (60 * 60 * 8).

Definition destroySession (jar : option string) : option string := None.

(** ** The middleware *)

Record Location := mkLocation { lo_path : string; lo_query : list (string * string) }.

(** A literal pattern in which [.] stands for any character. *)
Fixpoint matches_pattern (pat s : string) : bool :=
  match pat, s with
  | EmptyString, _ => true
  | String p pat', String c s' => (Ascii.eqb p "." || Ascii.eqb p c) && matches_pattern pat' s'
  | _, EmptyString => false
  end.

(** [config.matcher]: [/((?!_next/static|_next/image|favicon.ico).* )] *)
Definition matcher (path : string) : bool :=
  match path with
  | String c rest =>
      Ascii.eqb c "/" &&
      negb (existsb (fun pat => matches_pattern pat rest) ["_next/static"; "_next/image"; "favicon.ico"])
  | EmptyString => false
  end.

(** [None] is [NextResponse.next()]. *)
Definition middleware (jar : option string) (path : string) : option Location :=
  let hasSession := bool_decide (is_Some jar) in
  let isLoginRoute := starts_with "/login" path in
  if negb hasSession && negb isLoginRoute then Some (mkLocation "/login" [("from", path)])
  else if hasSession && isLoginRoute then Some (mkLocation "/" [])
  else None.

(** What the platform does with the request before a route sees it. *)
Definition gate (jar : option string) (path : string) : option Location :=
  if matcher path then middleware jar path else None.

(** ** Login *)

Record LoginForm := mkLoginForm {
  lf_email : option string;
  lf_role : option string;
  lf_from : option string;
}.

(** The cookie set, if any, and where the action redirects. *)
Definition signIn (form : LoginForm) (now : Z) (production : bool) : option Cookie * string :=
  let email := trim (default "" (lf_email form)) in
  let role := default "" (lf_role form) in
  let from := default "/" (lf_from form) in
  match (if decide (email = "") then None else role_of role) with
  | None => (None, "/login?error=invalid")
  | Some r => (Some (createSession email r now production), if starts_with "/" from then from else "/")
  end.

Definition query_get (key : string) (query : list (string * string)) : option string :=
  snd <$> List.find (fun p => bool_decide (p.1 = key)) query.

(** [role[0].toUpperCase() + role.slice(1)] *)
Definition capitalized (s : string) : string :=
  match s with
  | String c s' =>
      let n := code c in
      String (if (97 <=? n) && (n <=? 122) then char_of (n - 32) else c) s'
  | EmptyString => EmptyString
  end.

(** The login page for the query of its address. *)
Definition LoginPage (query : list (string * string)) : view :=
  El "div" []
   [El "span" [] [Txt "ATTESTA"];
    El "div" []
     ([El "h1" [] [Txt "Sign in"]; El "p" [] [Txt "Operator console access."]] ++
      when (match query_get "error" query with Some e => negb (bool_decide (e = "")) | None => false end)
        (El "p" [("role", Some "alert")] [Txt "Enter a work email and select a role to continue."]) ++
      [El "form" []
        [El "input" [("type", Some "hidden"); ("name", Some "from");
                     ("value", Some (default "/" (query_get "from" query)))] [];
         El "div" []
          [El "label" [("for", Some "email")] [Txt "Email"];
           El "input" [("id", Some "email"); ("name", Some "email"); ("type", Some "email");
                       ("required", Some ""); ("autocomplete", Some "username");
                       ("placeholder", Some "analyst@tenant.example")] []];
         El "div" []
          [El "label" [("for", Some "role")] [Txt "Role"];
           El "select" [("id", Some "role"); ("name", Some "role"); ("required", Some "")]
            (El "option" [("value", Some ""); ("disabled", Some "")] [Txt "Select a role"] ::
             map (fun r => El "option" [("value", Some (role_name r))] [Txt (capitalized (role_name r))]) ROLES)];
         El "button" [("type", Some "submit")] [Txt "Continue"]]])].

(** The form as a browser submits it: the hidden field from the page, the two
    others from the visitor. *)
Definition submitted (query : list (string * string)) (email role : string) : LoginForm :=
  mkLoginForm (Some email) (Some role)
    (by_attr "name" "from" [LoginPage query] !! 0%nat ≫= attr "value").

(** [signOutAction] *)
Definition signOutAction (jar : option string) : option string * string := (destroySession jar, "/login").

(** ** Pages *)

Inductive Reply :=
| Redirected (l : Location)
| LoginShown (query : list (string * string))
| Shown (s : Session) (path : string)
| ApiServed (path : string)
| NotFound.

(** [ConsoleLayout], around the page at [path]. *)
Definition ConsoleLayout (jar : option string) (path : string) : Reply :=
  match getSession jar with
  | None => Redirected (mkLocation "/login" [])
  | Some s => Shown s path
  end.

Definition ALLOWED_ROLES : list string := ["admin"; "auditor"].

Definition TenantAdminPage (jar : option string) : view :=
  let signed_in := getSession jar in
  let allowed := match signed_in with Some s => bool_decide (role_name (se_role s) ∈ ALLOWED_ROLES) | None => false end in
  El "div" []
   [PageHeader "Tenant Admin" (Some "Org, users, RBAC, retention, API keys, audit log");
    if allowed
    then EmptyState "No tenant configuration to show"
           "Org settings, RBAC assignment, data residency, inference endpoint binding, and the audit log all need the control-plane API this console doesn't talk to yet."
           "Built in Phase 12 — multi-tenancy hardening and deployment"
    else EmptyState "Restricted to admin and auditor roles"
           "Tenant Admin exposes RBAC, billing, and data-residency controls. Sign in with an admin or auditor role to reach it."
           ("Signed in as " +:+ match signed_in with Some s => role_name (se_role s) | None => "unknown" end)].

(** The router of the application directory: the nine surfaces under the console
    layout, the login page and the API handlers. *)
Definition respond (jar : option string) (l : Location) : Reply :=
  match gate jar (lo_path l) with
  | Some l' => Redirected l'
  | None =>
      if decide (lo_path l = "/login") then LoginShown (lo_query l)
      else if decide (lo_path l ∈ su_href <$> SURFACES) then ConsoleLayout jar (lo_path l)
      else if starts_with "/api/" (lo_path l) then ApiServed (lo_path l)
      else NotFound
  end.

(** Where a browser goes for a target that starts with a slash: [None] is another
    site, since two slashes (or a backslash for the second) introduce a host.
    The query's escapes are not decoded. *)
Definition off_site (target : string) : bool := starts_with "//" target || starts_with "/\" target.

Definition query_pair (s : string) : string * string :=
  let r := split_on "=" s in (r.1, default "" (r.2 !! 0%nat)).

Definition resolve (target : string) : option Location :=
  if off_site target then None
  else match split_on "?" target with
  | (path, []) => Some (mkLocation path [])
  | (path, query :: _) => let r := split_on "&" query in Some (mkLocation path (query_pair <$> r.1 :: r.2))
  end.

(** A browser that follows redirects. *)
Fixpoint follow (fuel : nat) (jar : option string) (l : Location) : option Reply :=
  match fuel with
  | O => None
  | S f =>
      match respond jar l with
      | Redirected l' => follow f jar l'
      | r => Some r
      end
  end.

(** The sign-in action is a request to the login page's address, gated like it. *)
Definition post_signIn (jar : option string) (form : LoginForm) (now : Z) (production : bool)
    : option string * option Location :=
  match gate jar "/login" with
  | Some l => (jar, Some l)
  | None =>
      let r := signIn form now production in
      (match r.1 with Some c => Some (ck_value c) | None => jar end, resolve r.2)
  end.

(** The decision endpoint as a client reaches it: [None] is the redirect. *)
Definition post_decision (jar : option string) (id : string) (body : option string) (st : Store.Store)
    : Store.Store * option decision_response :=
  match gate jar ("/api/response-actions/" +:+ id +:+ "/decision") with
  | Some _ => (st, None)
  | None => let r := POST_decision id body st in (r.1, Some r.2)
  end.

End session.

(** ** Lemmas *)

Lemma digits_ascii s : all_digits s = true → ascii_only s.
Proof.
  unfold ascii_only. induction s as [|c s IH]; [constructor|]. cbn [all_digits bytes_of].
  rewrite andb_true_iff. unfold is_digit. rewrite andb_true_iff, !Z.leb_le. intros [Hc Hs].
  constructor; [lia|by apply IH].
Qed.

Lemma to_dec_ascii z : ascii_only (to_dec z).
Proof.
  assert (∀ n, ascii_only (radix_digits (radix_fuel n) 10 n EmptyString)) as Hd
    by (intros n; by apply digits_ascii, radix_all_digits).
  unfold to_dec, to_radix. case_match; [|apply Hd].
  apply (ascii_only_app "-"); [by apply (bool_decide_unpack _); vm_compute|apply Hd].
Qed.

Lemma role_of_name r : role_of (role_name r) = Some r.
Proof. by destruct r. Qed.

Lemma role_of_Some name r : role_of name = Some r → name = role_name r.
Proof. intros H. apply List.find_some in H as [_ H]. by apply bool_decide_eq_true in H. Qed.

(** A session whose text reads back: the address is a well-formed string and the
    date an integer. *)
Definition session_ok (s : Session) : Prop :=
  well_formed (se_email s) ∧ match se_issuedAt s with Some v => ∃ z, v = json_int z | None => True end.

(** The text after the address. *)
Definition session_tail (s : Session) : string :=
  quote_text +:+ "," +:+ quoted "role" +:+ ":" +:+ quoted (role_name (se_role s)) +:+
  match se_issuedAt s with
  | Some v => "," +:+ quoted "issuedAt" +:+ ":" +:+ stringify v +:+ "}"
  | None => "}"
  end.

Lemma session_text s :
  stringify (session_json s) =
  ("{" +:+ quoted "email" +:+ ":" +:+ quote_text) +:+ (escape_all (se_email s) +:+ session_tail s).
Proof.
  destruct s as [email role o]; unfold session_json, session_tail; cbn [se_email se_role se_issuedAt app].
  assert (quoted email = String dquote (escape_all email +:+ quote_text)) as Hq by reflexivity.
  destruct o as [v|]; cbn [stringify map fst snd commas app]; rewrite Hq;
    [generalize (quoted "issuedAt") (stringify v); intros i n|];
    generalize (escape_all email) (quoted "email") (quoted "role") (quoted (role_name role)); clear;
    intros e q1 q2 q3; unfold quote_text;
    str_norm; reflexivity.
Qed.

Lemma session_tail_ascii s : session_ok s → ascii_only (session_tail s).
Proof.
  intros [_ Hv]. unfold session_tail.
  assert (∀ t, ascii_only t → ascii_only (quote_text +:+ "," +:+ quoted "role" +:+ ":" +:+
    quoted (role_name (se_role s)) +:+ t)) as Hc.
  { intros t Ht.
    assert (ascii_only (quoted (role_name (se_role s)))) as Hr
      by (destruct (se_role s); by apply (bool_decide_unpack _); vm_compute).
    repeat apply ascii_only_app; first [exact Ht|exact Hr|by apply (bool_decide_unpack _); vm_compute]. }
  apply Hc. destruct (se_issuedAt s) as [v|]; [|by apply (bool_decide_unpack _); vm_compute].
  destruct Hv as [z ->]. repeat apply ascii_only_app; try apply to_dec_ascii;
    by apply (bool_decide_unpack _); vm_compute.
Qed.

Lemma session_text_well_formed s : session_ok s → well_formed (stringify (session_json s)).
Proof.
  intros Hok. rewrite session_text. destruct (session_tail s) as [|c t] eqn:E; [done|].
  apply well_formed_between; [by apply (bool_decide_unpack _); vm_compute| |].
  - by apply well_formed_escape_all, Hok.
  - rewrite <- E. by apply session_tail_ascii.
Qed.

Lemma session_json_ok s : session_ok s → json_ok (session_json s).
Proof.
  intros [_ Hv]. unfold session_json. destruct (se_issuedAt s) as [v|]; [|done].
  destruct Hv as [z ->]. cbn. repeat split; try apply json_int_ok.
Qed.

Lemma session_of_json s : session_of (session_json s) = Some s.
Proof. by destruct s as [email [] [v|]]. Qed.

Section tokens.
Context (hmac : list Z → list Z → list Z).
Context (hmac_bytes : ∀ k m, hmac k m ≠ [] ∧ Forall (fun b => 0 <= b < 256) (hmac k m)).

(** The payload of a session, decoded, is its text. *)
Lemma payload_text s :
  session_ok s → parse_json (utf8_decode (b64url_decode (payload_of s))) = Some (session_json s).
Proof.
  intros Hok. unfold payload_of, utf8_decode. rewrite b64url_decode_encode by apply bytes_of_range.
  rewrite text_of_bytes_of, session_text_well_formed by done. by apply parse_stringify, session_json_ok.
Qed.

Lemma b64url_nonempty l : l ≠ [] → b64url_encode l ≠ EmptyString.
Proof. by destruct l as [|a [|b [|c l]]]. Qed.

Lemma payload_nonempty s : payload_of s ≠ "".
Proof. apply b64url_nonempty. rewrite session_text. done. Qed.

Lemma split_token s :
  split_on "." (encode hmac s) = (payload_of s, [sign hmac (payload_of s)]).
Proof using hmac_bytes.
  unfold encode. change ("." +:+ sign hmac (payload_of s)) with (String "." (sign hmac (payload_of s))).
  rewrite split_on_app by apply b64url_no_dot, bytes_of_range.
  by rewrite split_on_none by apply b64url_no_dot, hmac_bytes.
Qed.

(** What a token must be to be accepted. *)
Lemma decode_iff token s :
  decode hmac token = Some s ↔
  ∃ payload rest parsed,
    split_on "." token = (payload, sign hmac payload :: rest) ∧ payload ≠ "" ∧
    parse_json (utf8_decode (b64url_decode payload)) = Some parsed ∧ session_of parsed = Some s.
Proof using hmac_bytes.
  unfold decode. split.
  - destruct (split_on "." token) as [payload [|signature rest]]; [done|].
    destruct (decide (payload = "")); [done|]. destruct (decide (signature = "")); [done|].
    destruct (negb _ || negb _) eqn:E; [done|]. apply orb_false_iff in E as [_ E].
    apply negb_false_iff, bool_decide_eq_true in E.
    assert (signature = sign hmac payload) as -> by (rewrite <- (text_of_bytes_of signature), E; apply text_of_bytes_of).
    destruct (parse_json _) as [parsed|] eqn:Hp; [|done]. intros H. by exists payload, rest, parsed.
  - intros (payload & rest & parsed & -> & Hne & Hp & Hs). rewrite decide_False by done.
    rewrite decide_False by (apply b64url_nonempty, hmac_bytes).
    rewrite Nat.eqb_refl, bool_decide_eq_true_2 by done. cbn [negb orb]. rewrite Hp. exact Hs.
Qed.

Lemma decode_encode s : session_ok s → decode hmac (encode hmac s) = Some s.
Proof using hmac_bytes.
  intros Hok. apply decode_iff. exists (payload_of s), [], (session_json s).
  rewrite split_token. eauto using payload_nonempty, payload_text, session_of_json.
Qed.

Lemma encode_nonempty s : encode hmac s ≠ "".
Proof.
  unfold encode. pose proof (payload_nonempty s) as H. destruct (payload_of s); done.
Qed.

Lemma getSession_encode s : session_ok s → getSession hmac (Some (encode hmac s)) = Some s.
Proof using hmac_bytes.
  intros Hok. unfold getSession. rewrite decide_False by apply encode_nonempty. by apply decode_encode.
Qed.

End tokens.

(** The console's addresses pass the platform's matcher and are not the login page. *)
Lemma console_path path :
  path ∈ su_href <$> SURFACES → matcher path = true ∧ starts_with "/login" path = false ∧ path ≠ "/login" ∧
    off_site path = false ∧ split_on "?" path = (path, []) ∧ starts_with "/" path = true.
Proof.
  intros H. assert (Forall (fun p => matcher p = true ∧ starts_with "/login" p = false ∧ p ≠ "/login" ∧
    off_site p = false ∧ split_on "?" p = (p, []) ∧ starts_with "/" p = true) (su_href <$> SURFACES)) as Hall
    by (apply (bool_decide_unpack _); by vm_compute).
  rewrite Forall_forall in Hall. by apply Hall.
Qed.

Lemma surface_not_api path : path ∈ su_href <$> SURFACES → starts_with "/api/" path = false.
Proof.
  intros H. assert (Forall (fun p => starts_with "/api/" p = false) (su_href <$> SURFACES)) as Hall
    by (apply (bool_decide_unpack _); by vm_compute).
  rewrite Forall_forall in Hall. by apply Hall.
Qed.

Lemma gate_console jar path :
  path ∈ su_href <$> SURFACES →
  gate jar path = if decide (jar = None) then Some (mkLocation "/login" [("from", path)]) else None.
Proof.
  intros H. apply console_path in H as (Hm & Hl & _). unfold gate, middleware. rewrite Hm, Hl.
  by destruct jar.
Qed.

Lemma gate_login jar : gate jar "/login" = if decide (jar = None) then None else Some (mkLocation "/" []).
Proof. by destruct jar. Qed.

Lemma gate_api jar rest :
  gate jar ("/api/" +:+ rest) =
  if decide (jar = None) then Some (mkLocation "/login" [("from", "/api/" +:+ rest)]) else None.
Proof. by destruct jar. Qed.

Lemma respond_console hmac jar path query :
  path ∈ su_href <$> SURFACES →
  respond hmac jar (mkLocation path query) =
  if decide (jar = None) then Redirected (mkLocation "/login" [("from", path)])
  else ConsoleLayout hmac jar path.
Proof.
  intros H. unfold respond. cbn [lo_path lo_query]. rewrite gate_console by done. case_decide; [done|].
  rewrite decide_False by (by apply console_path). by rewrite decide_True.
Qed.

Lemma respond_login hmac jar query :
  respond hmac jar (mkLocation "/login" query) =
  if decide (jar = None) then LoginShown query else Redirected (mkLocation "/" []).
Proof. by destruct jar. Qed.

Lemma root_surface : "/" ∈ su_href <$> SURFACES.
Proof. apply (bool_decide_unpack _). by vm_compute. Qed.

(** The two pages between which an unverifiable cookie sends a browser. *)
Lemma redirect_loop hmac t n query :
  getSession hmac (Some t) = None →
  follow hmac n (Some t) (mkLocation "/" query) = None ∧ follow hmac n (Some t) (mkLocation "/login" query) = None.
Proof.
  intros Hs. revert query. induction n as [|n IH]; intros query; [done|]. cbn [follow].
  rewrite respond_console, respond_login by apply root_surface. rewrite !decide_False by done.
  unfold ConsoleLayout. rewrite Hs. split; apply IH.
Qed.

(** A token is read back: for a session with a well-formed address the cookie
    that [encode] makes is accepted and gives the same session, whatever its date
    of issue, so that nothing on the server ends it. *)
Theorem session_round_trip (hmac : list Z → list Z → list Z) s :
  (∀ k m, hmac k m ≠ [] ∧ Forall (fun b => 0 <= b < 256) (hmac k m)) → session_ok s →
  getSession hmac (Some (encode hmac s)) = Some s.
Proof. intros Hh Hok. by apply getSession_encode. Qed.

(** A keyed hash for the witnesses: not a good one. *)
Definition demo_hmac (k m : list Z) : list Z :=
  [foldl (fun h b => (h * 31 + b) mod 251) 7 (k ++ m); foldl (fun h b => (h * 17 + b + 3) mod 241) 5 m].

Lemma demo_hmac_bytes k m : demo_hmac k m ≠ [] ∧ Forall (fun b => 0 <= b < 256) (demo_hmac k m).
Proof.
  split; [done|].
  assert (∀ (f : Z → Z → Z) l h n, n <= 256 → (∀ h b, 0 <= f h b < n) → 0 <= h < 256 → 0 <= foldl f h l < 256) as Hf.
  { intros f l. induction l as [|b l IH]; intros h n Hn Hb Hh; [done|]. cbn. eapply IH; [exact Hn|done|].
    specialize (Hb h b). lia. }
  repeat constructor.
  1-2: apply (Hf (fun h b => (h * 31 + b) mod 251) (k ++ m) 7 251); [lia|intros; by apply Z.mod_pos_bound|lia].
  1-2: apply (Hf (fun h b => (h * 17 + b + 3) mod 241) m 5 241); [lia|intros; by apply Z.mod_pos_bound|lia].
Qed.

Definition demo_session : Session := mkSession "ana@tenant.example" admin (Some (json_int 1757462400123)).

Lemma demo_session_ok : session_ok demo_session.
Proof. split; [by vm_compute|]. by exists 1757462400123. Qed.

Lemma session_round_trip_witness :
  session_ok demo_session ∧ getSession demo_hmac (Some (encode demo_hmac demo_session)) = Some demo_session.
Proof.
  split; [apply demo_session_ok|]. apply session_round_trip; [apply demo_hmac_bytes|apply demo_session_ok].
Defined.

(** C35: a token is read back and cannot be edited: the cookie made for a session with
    a well-formed address is accepted and gives that session, whatever its date of
    issue, so that nothing on the server ends it; and a token that is accepted and
    carries the signature of an issued session is a session with that very content,
    as long as the keyed hash does not give its payload and the issued one the same
    value. *)
Theorem token_integrity (hmac : list Z → list Z → list Z) issued :
  (∀ k m, hmac k m ≠ [] ∧ Forall (fun b => 0 <= b < 256) (hmac k m)) → session_ok issued →
  getSession hmac (Some (encode hmac issued)) = Some issued ∧
  ∀ token s, getSession hmac (Some token) = Some s →
    (split_on "." token).2 !! 0%nat = (split_on "." (encode hmac issued)).2 !! 0%nat →
    (∀ k p q, p ∈ [(split_on "." token).1; payload_of issued] → q ∈ [(split_on "." token).1; payload_of issued] →
       hmac k (bytes_of p) = hmac k (bytes_of q) → p = q) →
    s = issued.
Proof.
  intros Hh Hok. split; [by apply getSession_encode|]. intros token s Hs Hseg Hnc.
  unfold getSession in Hs. destruct (decide (token = "")); [done|].
  apply decode_iff in Hs as (payload & rest & parsed & E & _ & Hp & Hses); [|done].
  rewrite E in Hseg, Hnc. rewrite split_token in Hseg by done. injection Hseg as Hsig.
  assert (payload = payload_of issued) as ->.
  { apply (Hnc (bytes_of DEV_SIGNING_SECRET)); [by left|right; by left|].
    unfold sign in Hsig. rewrite <- (b64url_decode_encode (hmac _ (bytes_of payload))) by apply Hh.
    rewrite Hsig. apply b64url_decode_encode, Hh. }
  rewrite payload_text in Hp by done. injection Hp as <-. rewrite session_of_json in Hses. congruence.
Qed.

Lemma token_integrity_witness :
  getSession demo_hmac (Some (encode demo_hmac demo_session +:+ ".and.more")) = Some demo_session ∧
  demo_session = demo_session.
Proof.
  assert (getSession demo_hmac (Some (encode demo_hmac demo_session +:+ ".and.more")) = Some demo_session) as H
    by (by vm_compute).
  split; [exact H|].
  apply (proj2 (token_integrity demo_hmac demo_session demo_hmac_bytes demo_session_ok) (encode demo_hmac demo_session +:+ ".and.more"));
    [exact H|by vm_compute|].
  intros k p q Hp Hq _. assert ((split_on "." (encode demo_hmac demo_session +:+ ".and.more")).1 = payload_of demo_session) as E
    by (by vm_compute). rewrite E in Hp, Hq.
  rewrite !elem_of_cons, elem_of_nil in Hp, Hq. intuition congruence.
Defined.

(** C36: where a visit to a surface ends.  Without a cookie, on the login page in two
    requests; with a cookie that verifies, on the surface in one; with any other
    cookie, nowhere: the layout redirects to the login page, the middleware sends
    every visitor with a cookie from there back, no number of redirects ends it,
    and the sign-in action itself, which would replace the cookie, is redirected. *)
Theorem navigation_settles (hmac : list Z → list Z → list Z) jar path query form now production :
  path ∈ su_href <$> SURFACES →
  let visit n := follow hmac n jar (mkLocation path query) in
  match jar, getSession hmac jar with
  | None, _ => visit 2%nat = Some (LoginShown [("from", path)])
  | Some _, Some s => visit 1%nat = Some (Shown s path)
  | Some t, None =>
      (∀ n, visit n = None) ∧ (∀ n q, follow hmac n jar (mkLocation "/login" q) = None) ∧
      post_signIn hmac jar form now production = (jar, Some (mkLocation "/" []))
  end.
Proof.
  intros Hp visit. unfold visit. destruct jar as [t|].
  - destruct (getSession hmac (Some t)) as [s|] eqn:Hs.
    + cbn [follow]. rewrite respond_console by done. cbn. unfold ConsoleLayout. by rewrite Hs.
    + split; [|split; [|done]]; intros n; [destruct n as [|n]; [done|]|intros q; by apply redirect_loop].
      cbn [follow]. rewrite respond_console by done. rewrite decide_False by done. unfold ConsoleLayout. rewrite Hs.
      by apply redirect_loop.
  - cbn [follow]. rewrite respond_console by done. reflexivity.
Qed.

Lemma navigation_settles_witness :
  "/timeline" ∈ su_href <$> SURFACES ∧
  follow demo_hmac 2 None (mkLocation "/timeline" []) = Some (LoginShown [("from", "/timeline")]) ∧
  (∀ n, follow demo_hmac n (Some "forged.token") (mkLocation "/timeline" []) = None).
Proof.
  assert ("/timeline" ∈ su_href <$> SURFACES) as H by (apply (bool_decide_unpack _); by vm_compute).
  split; [exact H|]. split.
  - exact (navigation_settles demo_hmac None "/timeline" [] (mkLoginForm None None None) 0 true H).
  - exact (proj1 (navigation_settles demo_hmac (Some "forged.token") "/timeline" []
      (mkLoginForm None None None) 0 true H)).
Defined.

Lemma resolve_console path : path ∈ su_href <$> SURFACES → resolve path = Some (mkLocation path []).
Proof.
  intros H. apply console_path in H as (_ & _ & _ & Ho & Hq & _). unfold resolve. by rewrite Ho, Hq.
Qed.

Lemma signed_in_ok email role now :
  well_formed (trim email) → session_ok (mkSession (trim email) role (Some (json_int now))).
Proof. intros H. split; [done|]. by exists now. Qed.

(** A visitor without a cookie who opens a surface, fills in the login form with
    an address and a role of the list, and follows the redirects arrives at that
    surface with the trimmed address and that role.  A form without an address or
    with another role sets no cookie and shows the error; a form whose [from] is
    not the page's leaves the console exactly when [from] names a host. *)
Theorem sign_in_lands (hmac : list Z → list Z → list Z) path query email now production :
  (∀ k m, hmac k m ≠ [] ∧ Forall (fun b => 0 <= b < 256) (hmac k m)) →
  path ∈ su_href <$> SURFACES → well_formed (trim email) →
  (∀ r, trim email ≠ "" →
     ∃ page jar l, follow hmac 2 None (mkLocation path query) = Some (LoginShown page) ∧
       post_signIn hmac None (submitted page email (role_name r)) now production = (jar, Some l) ∧
       follow hmac 1 jar l = Some (Shown (mkSession (trim email) r (Some (json_int now))) path)) ∧
  (∀ from role, trim email = "" ∨ role ∉ role_name <$> ROLES →
     post_signIn hmac None (mkLoginForm (Some email) (Some role) from) now production =
       (None, Some (mkLocation "/login" [("error", "invalid")]))) ∧
  (∀ from r, trim email ≠ "" →
     (post_signIn hmac None (mkLoginForm (Some email) (Some (role_name r)) (Some from)) now production).2 = None ↔
       off_site from = true).
Proof.
  intros Hh Hp Hw. unfold post_signIn. rewrite gate_login, decide_True by done.
  cbn [signIn lf_email lf_role lf_from from_option id]. split; [|split].
  - intros r Hne. exists [("from", path)], (Some (encode hmac (mkSession (trim email) r (Some (json_int now))))), (mkLocation path []).
    split; [|split].
    + cbn [follow]. rewrite respond_console by done. reflexivity.
    + unfold signIn, submitted. change (by_attr "name" "from" [LoginPage [("from", path)]] !! 0%nat ≫= attr "value") with (Some path).
      cbn [lf_email lf_role lf_from from_option id]. rewrite decide_False by done. rewrite role_of_name. cbn [fst snd ck_value createSession].
      rewrite (proj2 (proj2 (proj2 (proj2 (proj2 (console_path path Hp)))))). by rewrite resolve_console.
    + cbn [follow]. rewrite respond_console by done. rewrite decide_False by done. unfold ConsoleLayout.
      by rewrite getSession_encode by (done || by apply signed_in_ok).
  - intros from role Hbad. unfold signIn. cbn [lf_email lf_role lf_from from_option id].
    destruct (decide (trim email = "")) as [_|Hne]; [done|]. destruct Hbad as [?|Hbad]; [done|].
    destruct (role_of role) as [r|] eqn:E; [|done]. exfalso. apply role_of_Some in E as ->. apply Hbad.
    apply list_elem_of_fmap. exists r. split; [done|]. by destruct r; apply (bool_decide_unpack _); vm_compute.
  - intros from r Hne. unfold signIn. cbn [lf_email lf_role lf_from from_option id].
    rewrite decide_False by done. rewrite role_of_name. cbn [snd].
    assert (starts_with "/" from = false → off_site from = false) as Hoff.
    { destruct from as [|c from]; [done|]. cbn [starts_with]. unfold off_site. cbn [starts_with].
      intros E. by rewrite andb_true_r in E; rewrite E. }
    destruct (starts_with "/" from); unfold resolve.
    + destruct (off_site from); [done|]. by destruct (split_on "?" from) as [? []].
    + rewrite Hoff by done. done.
Qed.

Lemma sign_in_lands_witness :
  "/drift-monitor" ∈ su_href <$> SURFACES ∧
  (∃ jar, post_signIn demo_hmac None (submitted [("from", "/drift-monitor")] "  ana@tenant.example " "senior") 7 true =
            (jar, Some (mkLocation "/drift-monitor" [])) ∧ is_Some jar) ∧
  (post_signIn demo_hmac None (mkLoginForm (Some "ana@tenant.example") (Some "senior") (Some "//evil.example/x")) 7 true).2 = None.
Proof.
  assert ("/drift-monitor" ∈ su_href <$> SURFACES) as Hp by (apply (bool_decide_unpack _); by vm_compute).
  split; [exact Hp|].
  destruct (sign_in_lands demo_hmac "/drift-monitor" [] "  ana@tenant.example " 7 true demo_hmac_bytes Hp) as (H1 & _ & H3);
    [by vm_compute|]. split.
  - destruct (H1 senior) as (page & jar & l & Hf & Hpost & Hl); [by vm_compute|].
    assert (page = [("from", "/drift-monitor")]) as -> by (by injection Hf as <-).
    exists jar. assert (l = mkLocation "/drift-monitor" []) as -> by (vm_compute in Hpost; congruence).
    split; [exact Hpost|]. destruct jar; [done|]. by vm_compute in Hl.
  - apply (proj2 (H3 "//evil.example/x" senior ltac:(by vm_compute))). by vm_compute.
Defined.

(** C37: who gets what.  A surface is shown exactly to a cookie that verifies, with
    that cookie's session, and the restricted page's content exactly to an admin
    or an auditor; but an API address, the decision endpoint included, answers to
    any cookie of that name, whatever its value, and to none other. *)
Theorem access_control (hmac : list Z → list Z → list Z) jar path query rest id body st :
  path ∈ su_href <$> SURFACES →
  (∀ s p, respond hmac jar (mkLocation path query) = Shown s p ↔ getSession hmac jar = Some s ∧ p = path) ∧
  (by_tag "h2" [TenantAdminPage hmac jar] = [El "h2" [] [Txt "No tenant configuration to show"]] ↔
     ∃ s, getSession hmac jar = Some s ∧ (se_role s = admin ∨ se_role s = auditor)) ∧
  (respond hmac jar (mkLocation ("/api/" +:+ rest) query) = ApiServed ("/api/" +:+ rest) ↔ jar ≠ None) ∧
  post_decision jar id body st =
    match jar with
    | Some _ => ((POST_decision id body st).1, Some (POST_decision id body st).2)
    | None => (st, None)
    end.
Proof.
  intros Hp. split; [|split; [|split]].
  - intros s p. rewrite respond_console by done. unfold ConsoleLayout. case_decide as Hj.
    + subst jar. by split; [|intros [? _]].
    + destruct (getSession hmac jar) as [s'|]; [|by split; [|intros [? _]]].
      split; [by intros [= <- <-]|]. by intros [[= <-] ->].
  - unfold TenantAdminPage. destruct (getSession hmac jar) as [[email r v]|].
    + destruct r; cbn; (split; [|intros (s' & [= <-] & H); by destruct H]); try done;
        intros _; eexists; (split; [reflexivity|by (left + right)]).
    + by split; [|intros (? & ? & _)].
  - unfold respond. cbn [lo_path]. rewrite gate_api. case_decide as Hj; [by split|].
    rewrite decide_False by done. rewrite decide_False; [|].
    + split; [done|]. intros _. by rewrite starts_with_app.
    + intros H. apply surface_not_api in H. by rewrite starts_with_app in H.
  - unfold post_decision. change ("/api/response-actions/" +:+ id +:+ "/decision")
      with ("/api/" +:+ ("response-actions/" +:+ id +:+ "/decision")).
    rewrite gate_api. by destruct jar.
Qed.

Lemma access_control_witness :
  "/" ∈ su_href <$> SURFACES ∧
  by_tag "h2" [TenantAdminPage demo_hmac (Some "x")] = [El "h2" [] [Txt "Restricted to admin and auditor roles"]] ∧
  (∀ body st, (post_decision (Some "x") "act-1" body st).2 ≠ None).
Proof.
  assert ("/" ∈ su_href <$> SURFACES) as Hp by (apply (bool_decide_unpack _); by vm_compute).
  split; [exact Hp|]. split; [by vm_compute|]. intros body st.
  destruct (access_control demo_hmac (Some "x") "/" [] "" "act-1" body st Hp) as (_ & _ & _ & H).
  rewrite H. done.
Defined.
