(* ===== verification/Chrome.v ===== *)
(** * The console's frame: console-chrome-provider.tsx and what reads it

    The open state of the palette and of the help overlay, the global keyboard
    handler with its two-key chord, and the four places that list the surfaces:
    the side bar, the palette, the help overlay and the chords.  The last part
    composes the handler with the Watchfloor's, both of which listen to the
    window. *)

From S2P Require Import Prelude Text View Shortcuts Session Types Seed Watchfloor.
From Stdlib Require Import Ascii.
Open Scope Z_scope.

(** ** State and events *)

(** The target of an event: not an element, or one with a tag. *)
Inductive EventTarget :=
| NoElement
| Element (tagName : string) (isContentEditable : bool).

Definition isEditableTarget (target : EventTarget) : bool :=
  match target with
  | NoElement => false
  | Element tag editable =>
      bool_decide (tag = "INPUT") || bool_decide (tag = "TEXTAREA") || editable || bool_decide (tag = "SELECT")
  end.

Record ChromeEvent := mkChromeEvent {
  ce_key : string;
  ce_target : EventTarget;
  ce_meta : bool;
  ce_ctrl : bool;
  ce_alt : bool;
  ce_prevented : bool;
}.

(** [cs_chord] is [chordActiveRef], [cs_timer] a pending chord timeout; [cs_pushed]
    is what the router was sent, the latest first. *)
Record ChromeState := mkChrome {
  ch_paletteOpen : bool;
  ch_helpOpen : bool;
  ch_chord : bool;
  ch_timer : bool;
  ch_theme : string;
  ch_pushed : list string;
}.

Definition chrome_initial (theme : string) : ChromeState := mkChrome false false false false theme [].

Definition setPaletteOpen (b : bool) (s : ChromeState) : ChromeState :=
  mkChrome b (ch_helpOpen s) (ch_chord s) (ch_timer s) (ch_theme s) (ch_pushed s).
Definition setHelpOpen (b : bool) (s : ChromeState) : ChromeState :=
  mkChrome (ch_paletteOpen s) b (ch_chord s) (ch_timer s) (ch_theme s) (ch_pushed s).
Definition setTheme (t : string) (s : ChromeState) : ChromeState :=
  mkChrome (ch_paletteOpen s) (ch_helpOpen s) (ch_chord s) (ch_timer s) t (ch_pushed s).
Definition push_to (href : string) (s : ChromeState) : ChromeState :=
  mkChrome (ch_paletteOpen s) (ch_helpOpen s) (ch_chord s) (ch_timer s) (ch_theme s) (href :: ch_pushed s).

(** Also what the timeout runs, and the effect's cleanup. *)
Definition clearChord (s : ChromeState) : ChromeState :=
  mkChrome (ch_paletteOpen s) (ch_helpOpen s) false false (ch_theme s) (ch_pushed s).
Definition startChord (s : ChromeState) : ChromeState :=
  mkChrome (ch_paletteOpen s) (ch_helpOpen s) true true (ch_theme s) (ch_pushed s).

(** The handler: the state after, and whether [preventDefault] was called. *)
Definition chrome_onKeyDown (r : Role) (ev : ChromeEvent) (s : ChromeState) : ChromeState * bool :=
  if ce_prevented ev then (s, false)
  else if decide (ce_key ev = "Escape") then (clearChord (setHelpOpen false (setPaletteOpen false s)), false)
  else
    let editable := isEditableTarget (ce_target ev) in
    if ch_chord s && negb editable then
      let s1 := clearChord s in
      match List.find (fun su => bool_decide (su_chordKey su = lower (ce_key ev))) (reachableSurfaces r) with
      | Some su => (push_to (su_href su) s1, true)
      | None => (s1, false)
      end
    else if editable || ce_meta ev || ce_ctrl ev || ce_alt ev then
      if (ce_meta ev || ce_ctrl ev) && bool_decide (lower (ce_key ev) = "k")
      then (setPaletteOpen true s, true) else (s, false)
    else if decide (ce_key ev = "/") then (setPaletteOpen true s, true)
    else if decide (ce_key ev = "?") then (setHelpOpen true s, true)
    else if decide (ce_key ev = "g") then (startChord s, false)
    else (s, false).

(** ** The palette, the top bar and the theme *)

(** [useMountedTheme]: nothing until the page is hydrated. *)
Definition mounted_theme (mounted : bool) (theme : string) : option string :=
  if mounted then Some theme else None.

Definition toggled (theme : option string) : string :=
  if decide (theme = Some "dark") then "light" else "dark".

(** [go(href)] *)
Definition palette_go (href : string) (s : ChromeState) : ChromeState := push_to href (setPaletteOpen false s).
Definition palette_theme (s : ChromeState) : ChromeState :=
  setPaletteOpen false (setTheme (toggled (mounted_theme true (ch_theme s))) s).
Definition palette_signOut (s : ChromeState) : ChromeState := setPaletteOpen false s.

(** The palette is mounted all the time; [open] is the dialog's. *)
Definition CommandPalette (r : Role) (mounted : bool) (s : ChromeState) : view :=
  let theme := mounted_theme mounted (ch_theme s) in
  El "CommandDialog" [("open", bool_attr (ch_paletteOpen s)); ("title", Some "Command palette");
                      ("description", Some "Jump to a surface or run an action")]
    [El "CommandInput" [("placeholder", Some "Jump to a surface, or search an action…")] [];
     El "CommandList" []
      [El "CommandEmpty" [] [Txt "No matches."];
       El "CommandGroup" [("heading", Some "Surfaces")]
        (map (fun su => El "CommandItem" [("key", Some (su_href su))]
           [El "span" [] [Txt (su_label su)];
            El "CommandShortcut" [] [Txt "g "; Txt (su_chordKey su)]]) (reachableSurfaces r));
       El "CommandSeparator" [] [];
       El "CommandGroup" [("heading", Some "Actions")]
        [El "CommandItem" [] [El "span" [] [Txt "Switch to "; Txt (toggled theme); Txt " theme"]];
         El "CommandItem" [] [El "span" [] [Txt "Sign out"]]]]].

Definition Topbar (s : Session) (mounted : bool) (c : ChromeState) : view :=
  let theme := mounted_theme mounted (ch_theme c) in
  El "header" []
   [El "button" [("type", Some "button")] [El "span" [] [Txt "Jump to a surface…"]; El "kbd" [] [Txt "/"]];
    El "div" []
     [El "Button" [("aria-label", Some "Keyboard shortcuts")] [];
      El "Button" [("aria-label", Some (if decide (theme = Some "dark") then "Switch to light theme" else "Switch to dark theme"))] [];
      El "DropdownMenu" []
       [El "DropdownMenuTrigger" [] [El "Button" [("aria-label", Some "Account menu")] []];
        El "DropdownMenuContent" []
         [El "DropdownMenuLabel" [] [El "span" [] [Txt (se_email s)]; El "span" [] [Txt (role_name (se_role s))]];
          El "DropdownMenuSeparator" [] [];
          El "DropdownMenuItem" [] [Txt "Sign out"]]]]].

Definition topbar_search (s : ChromeState) : ChromeState := setPaletteOpen true s.
Definition topbar_help (s : ChromeState) : ChromeState := setHelpOpen true s.
Definition topbar_theme (s : ChromeState) : ChromeState := setTheme (toggled (mounted_theme true (ch_theme s))) s.

(** ** The side bar and the help overlay *)

Definition SidebarLink (pathname : string) (su : ConsoleSurface) : view :=
  let active := bool_decide (pathname = su_href su) in
  El "Tooltip" [("key", Some (su_href su))]
   [El "TooltipTrigger" []
     [El "Link" [("href", Some (su_href su)); ("aria-label", Some (su_label su));
                 ("aria-current", if active then Some "page" else None)]
       (when active (El "span" [("aria-hidden", Some "true")] []))];
    El "TooltipContent" [("side", Some "right")]
     [Txt (su_label su); El "span" [] [Txt "g "; Txt (su_chordKey su)]]].

Definition SidebarNav (r : Role) (pathname : string) : view :=
  El "nav" [("aria-label", Some "Primary")]
   (El "Link" [("href", Some "/"); ("aria-label", Some "ATTESTA — Watchfloor")] [] ::
    map (SidebarLink pathname) (reachableSurfaces r)).

Definition ShortcutRow (entry : ShortcutEntry) : view :=
  El "div" [("key", Some (sc_keys entry))]
   [El "span" [] [Txt (sc_description entry)]; El "kbd" [] [Txt (sc_keys entry)]].

Definition ShortcutsHelp (s : ChromeState) : view :=
  El "Dialog" [("open", bool_attr (ch_helpOpen s))]
    [El "DialogContent" []
      ([El "DialogHeader" []
         [El "DialogTitle" [] [Txt "Keyboard shortcuts"];
          El "DialogDescription" [] [Txt "Triage without leaving the keyboard."]]] ++
       map (fun g => El "div" [] [El "h3" [] [Txt g.1]; El "div" [] (map ShortcutRow g.2)])
         [("Global", GLOBAL_SHORTCUTS); ("Go to a surface", surfaceChordShortcuts);
          ("Watchfloor queue", QUEUE_SHORTCUTS)])].

(** ** Steps of the frame *)

Inductive chrome_step (r : Role) : ChromeState → ChromeState → Prop :=
| cs_key ev s : chrome_step r s (chrome_onKeyDown r ev s).1
| cs_timeout s : ch_timer s = true → chrome_step r s (clearChord s)
| cs_rerender s : chrome_step r s (clearChord s)
| cs_palette su s : ch_paletteOpen s = true → su ∈ reachableSurfaces r → chrome_step r s (palette_go (su_href su) s)
| cs_palette_theme s : ch_paletteOpen s = true → chrome_step r s (palette_theme s)
| cs_palette_out s : ch_paletteOpen s = true → chrome_step r s (palette_signOut s)
| cs_palette_open b s : chrome_step r s (setPaletteOpen b s)
| cs_help_open b s : chrome_step r s (setHelpOpen b s)
| cs_theme s : chrome_step r s (topbar_theme s).

Inductive chrome_reachable (r : Role) : ChromeState → Prop :=
| cr_init theme : chrome_reachable r (chrome_initial theme)
| cr_step s s' : chrome_reachable r s → chrome_step r s s' → chrome_reachable r s'.

(** ** Two listeners on one window *)

(** The Watchfloor's handler calls [preventDefault] for the keys it acts on. *)
Definition queue_prevents (rows : list Case) (chromeOpen : bool) (ev : KeyEvent) (s : Surface) : bool :=
  negb (chromeOpen || ke_editable ev || ke_modified ev) &&
  negb (length (filteredCases rows s) =? 0)%nat &&
  (bool_decide (ke_key ev ∈ ["j"; "k"]) ||
   bool_decide (ke_key ev ∈ ["e"; "d"; "i"]) && bool_decide (is_Some (truthy (sf_selectedId s)))).

Definition queue_event (ev : ChromeEvent) : KeyEvent :=
  mkKey (ce_key ev) (isEditableTarget (ce_target ev)) (ce_meta ev || ce_ctrl ev || ce_alt ev).

Definition prevented (b : bool) (ev : ChromeEvent) : ChromeEvent :=
  mkChromeEvent (ce_key ev) (ce_target ev) (ce_meta ev) (ce_ctrl ev) (ce_alt ev) (ce_prevented ev || b).

(** One key press on the Watchfloor.  The listeners run in the order in which they
    were added last: the surface's effect runs before the provider's when both
    mount, and again, behind it, whenever the selection or the rows change.  Both
    handlers see the open state of the last render. *)
Definition press_on_watchfloor (queue_first : bool) (r : Role) (rows : list Case) (ev : ChromeEvent)
    (c : ChromeState) (s : Surface) : ChromeState * outcome Surface :=
  let chromeOpen := ch_paletteOpen c || ch_helpOpen c in
  let s' := onKeyDown rows chromeOpen (queue_event ev) s in
  if queue_first
  then ((chrome_onKeyDown r (prevented (queue_prevents rows chromeOpen (queue_event ev) s) ev) c).1, s')
  else ((chrome_onKeyDown r ev c).1, s').

(** ** Lemmas *)

Definition plain (key : string) : ChromeEvent := mkChromeEvent key NoElement false false false false.

Lemma surface_by_chord r su :
  su ∈ SURFACES →
  List.find (fun su' => bool_decide (su_chordKey su' = lower (su_chordKey su))) (reachableSurfaces r) =
  if surface_open r su then Some su else None.
Proof.
  intros H. assert (Forall (fun su =>
    List.find (fun su' => bool_decide (su_chordKey su' = lower (su_chordKey su))) (reachableSurfaces r) =
    if surface_open r su then Some su else None) SURFACES) as Hall
    by (destruct r; repeat constructor).
  rewrite Forall_forall in Hall. by apply Hall.
Qed.

Lemma elem_of_reachable r su : su ∈ reachableSurfaces r ↔ su ∈ SURFACES ∧ surface_open r su = true.
Proof. unfold reachableSurfaces. rewrite !list_elem_of_In, List.filter_In. done. Qed.

Lemma chord_push r ev c :
  ce_prevented ev = false → ce_key ev ≠ "Escape" → ch_chord c = true → isEditableTarget (ce_target ev) = false →
  chrome_onKeyDown r ev c =
  match List.find (fun su => bool_decide (su_chordKey su = lower (ce_key ev))) (reachableSurfaces r) with
  | Some su => (push_to (su_href su) (clearChord c), true)
  | None => (clearChord c, false)
  end.
Proof.
  intros Hp Hk Hc He. unfold chrome_onKeyDown. rewrite Hp, decide_False by done. rewrite Hc, He. by case_match.
Qed.

Lemma chord_key_not_escape su : su ∈ SURFACES → su_chordKey su ≠ "Escape".
Proof.
  intros H. assert (Forall (fun su => su_chordKey su ≠ "Escape") SURFACES) as Hall
    by (apply (bool_decide_unpack _); by vm_compute).
  rewrite Forall_forall in Hall. by apply Hall.
Qed.

(** What a handler call may push. *)
Lemma chrome_onKeyDown_pushed r ev c :
  ch_pushed (chrome_onKeyDown r ev c).1 = ch_pushed c ∨
  ∃ su, su ∈ reachableSurfaces r ∧ ch_pushed (chrome_onKeyDown r ev c).1 = su_href su :: ch_pushed c.
Proof.
  unfold chrome_onKeyDown. repeat case_match; try (by left).
  all: match goal with H : List.find _ _ = Some ?su |- _ =>
         right; exists su; split; [apply list_elem_of_In, (proj1 (List.find_some _ _ H))|done] end.
Qed.

(** The handler keeps the timeout running exactly while the chord is armed. *)
Lemma chrome_onKeyDown_timer r ev c :
  ch_timer c = ch_chord c → ch_timer (chrome_onKeyDown r ev c).1 = ch_chord (chrome_onKeyDown r ev c).1.
Proof. intros H. unfold chrome_onKeyDown. repeat case_match; simpl; congruence. Qed.

Lemma chrome_reachable_ok r s :
  chrome_reachable r s →
  Forall (fun href => href ∈ su_href <$> reachableSurfaces r) (ch_pushed s) ∧ ch_timer s = ch_chord s.
Proof.
  induction 1 as [theme|s s' Hr [IH IHt] Hstep]; [done|].
  destruct Hstep as [ev s|s Ht|s|su s Ho Hsu|s Ho|s Ho|b s|b s|s]; try done.
  - split; [|by apply chrome_onKeyDown_timer].
    destruct (chrome_onKeyDown_pushed r ev s) as [->|(su & Hsu & ->)]; [done|].
    constructor; [by apply list_elem_of_fmap_2|done].
  - split; [|done]. constructor; [by apply list_elem_of_fmap_2|done].
Qed.

Lemma current_link p su :
  by_attr "aria-current" "page" [SidebarLink p su] =
  if decide (p = su_href su)
  then [El "Link" [("href", Some (su_href su)); ("aria-label", Some (su_label su)); ("aria-current", Some "page")]
          [El "span" [("aria-hidden", Some "true")] []]]
  else [].
Proof. unfold SidebarLink. case_decide as H; [rewrite bool_decide_eq_true_2 by done|rewrite bool_decide_eq_false_2 by done]; reflexivity. Qed.

Lemma current_links p l :
  NoDup (su_href <$> l) →
  length (by_attr "aria-current" "page" (map (SidebarLink p) l)) = if decide (p ∈ su_href <$> l) then 1%nat else 0%nat.
Proof.
  induction l as [|su l IH]; intros Hnd; [done|]. cbn [map fmap list_fmap] in *.
  apply NoDup_cons in Hnd as [Hni Hnd]. rewrite by_attr_cons, length_app, current_link, IH by done.
  destruct (decide (p = su_href su)) as [->|Hne].
  - rewrite (decide_False (P := _ ∈ su_href <$> l)) by done. by rewrite decide_True by left.
  - cbn [length Nat.add]. apply decide_ext. rewrite elem_of_cons. naive_solver.
Qed.

Lemma hrefs_distinct_reachable r : NoDup (su_href <$> reachableSurfaces r).
Proof. destruct r; apply (bool_decide_unpack _); by vm_compute. Qed.

Lemma link_hrefs p l :
  attr "href" <$> by_tag "Link" (map (SidebarLink p) l) = Some <$> (su_href <$> l).
Proof.
  induction l as [|su l IH]; [done|]. cbn [map]. unfold by_tag in *. rewrite select_cons, fmap_app, IH, !fmap_cons.
  unfold SidebarLink. by destruct (bool_decide (p = su_href su)).
Qed.

Lemma sidebar_links r p :
  attr "href" <$> by_tag "Link" [SidebarNav r p] = Some "/" :: (Some <$> (su_href <$> reachableSurfaces r)).
Proof.
  unfold SidebarNav, by_tag. rewrite select_inside, select_cons, fmap_app by done.
  change (select _ (map _ _)) with (by_tag "Link" (map (SidebarLink p) (reachableSurfaces r))).
  rewrite link_hrefs. reflexivity.
Qed.

(** The four lists of surfaces agree.  For every role, the side bar links to, and
    the palette lists, exactly the surfaces open to it, in order, with one link
    marked current when the address is one of them; a chord goes to a surface
    exactly when it is open to the role, whatever overlay is open; a role sees the
    restricted surface exactly when its page would let it in; and however the
    frame is used the router is only ever sent to surfaces open to the role, with
    the chord's timeout pending exactly while it is armed. *)
Theorem surfaces_agree r :
  (∀ p, attr "href" <$> by_tag "Link" [SidebarNav r p] = Some "/" :: (Some <$> (su_href <$> reachableSurfaces r))) ∧
  (∀ p, length (by_attr "aria-current" "page" [SidebarNav r p]) =
        if decide (p ∈ su_href <$> reachableSurfaces r) then 1%nat else 0%nat) ∧
  (∀ m c, attr "open" (CommandPalette r m c) = bool_attr (ch_paletteOpen c) ∧
     attr "key" <$> by_tag "CommandItem" [CommandPalette r m c] =
     (Some <$> (su_href <$> reachableSurfaces r)) ++ [None; None]) ∧
  (∀ su c, su ∈ SURFACES → ch_chord c = false →
     let c1 := (chrome_onKeyDown r (plain "g") c).1 in
     let c2 := (chrome_onKeyDown r (plain (su_chordKey su)) c1).1 in
     ch_pushed c2 = (if surface_open r su then [su_href su] else []) ++ ch_pushed c ∧ ch_chord c2 = false) ∧
  (∀ su, su ∈ SURFACES → su_href su = "/tenant-admin" →
     surface_open r su = bool_decide (role_name r ∈ ALLOWED_ROLES)) ∧
  (∀ c, chrome_reachable r c →
     Forall (fun href => href ∈ su_href <$> reachableSurfaces r) (ch_pushed c) ∧ ch_timer c = ch_chord c).
Proof.
  split; [|split; [|split; [|split; [|split]]]].
  - apply sidebar_links.
  - intros p. rewrite <- (current_links p (reachableSurfaces r)) by apply hrefs_distinct_reachable.
    unfold SidebarNav, by_attr. rewrite select_inside, select_cons by done. done.
  - intros m c. split; [reflexivity|]. destruct r; reflexivity.
  - intros su c Hsu Hc c1 c2.
    assert (c1 = startChord c) as E1 by (unfold c1, chrome_onKeyDown; cbn; by rewrite Hc).
    unfold c2. rewrite E1, chord_push; [|done|by apply chord_key_not_escape|done|done].
    change (ce_key (plain (su_chordKey su))) with (su_chordKey su).
    rewrite surface_by_chord by done. by destruct (surface_open r su).
  - intros su Hsu Hh. assert (Forall (fun su => su_href su = "/tenant-admin" →
      surface_open r su = bool_decide (role_name r ∈ ALLOWED_ROLES)) SURFACES) as Hall
      by (destruct r; repeat constructor; intros E; try discriminate E; by vm_compute).
    rewrite Forall_forall in Hall. by apply Hall.
  - apply chrome_reachable_ok.
Qed.

(** A queue key on the Watchfloor, with a row selected. *)
Lemma queue_key rows s id row k :
  sf_selectedId s = Some id → id ≠ "" →
  List.find (fun c => bool_decide (case_id c = id)) (filteredCases rows s) = Some row → k ∈ ["e"; "d"; "i"] →
  onKeyDown rows false (queue_event (plain k)) s =
    Ok (if decide (k = "e") then setStatus id (mkOverride (Some escalated) None) s
        else if decide (k = "d") then set_target (Some row) s
        else push_route ("/investigation-canvas?case=" +:+ id) s) ∧
  queue_prevents rows false (queue_event (plain k)) s = true.
Proof.
  intros Hid Hne Hf Hk. unfold onKeyDown, queue_prevents. cbn [queue_event plain ke_key ke_editable ke_modified
    ce_key ce_target ce_meta ce_ctrl ce_alt isEditableTarget orb negb andb].
  assert (truthy (sf_selectedId s) = Some id) as -> by (rewrite Hid; by destruct id).
  destruct (filteredCases rows s) as [|c cs] eqn:E; [done|]. rewrite <- E in *.
  assert ((length (filteredCases rows s) =? 0)%nat = false) as -> by (by rewrite E). rewrite Hf.
  rewrite !elem_of_cons, elem_of_nil in Hk. by destruct Hk as [->|[->|[->|[]]]].
Qed.

(** Chords and queue keys collide on the Watchfloor.  With a case selected, the
    second key of [g d] also opens the dismiss dialog and that of [g i] also opens
    the case's investigation, in whichever order the two listeners run; when the
    queue's runs first the chord does not navigate and stays armed, so that the
    next key is taken for its second one.  [g e], which names no surface, escalates
    the case. *)
Theorem chord_meets_queue queue_first r rows c s id row :
  sf_selectedId s = Some id → id ≠ "" →
  List.find (fun c => bool_decide (case_id c = id)) (filteredCases rows s) = Some row →
  ch_paletteOpen c = false → ch_helpOpen c = false → ch_chord c = true →
  let press k := press_on_watchfloor queue_first r rows (plain k) c s in
  (press "d").2 = Ok (set_target (Some row) s) ∧
  (press "i").2 = Ok (push_route ("/investigation-canvas?case=" +:+ id) s) ∧
  (press "e").2 = Ok (setStatus id (mkOverride (Some escalated) None) s) ∧
  (∀ k, k ∈ ["d"; "i"; "e"] → ch_chord (press k).1 = queue_first) ∧
  ch_pushed (press "d").1 = (if queue_first then [] else ["/drift-monitor"]) ++ ch_pushed c ∧
  ch_pushed (press "i").1 = (if queue_first then [] else ["/investigation-canvas"]) ++ ch_pushed c.
Proof.
  intros Hid Hne Hf Hp Hh Hc press. unfold press, press_on_watchfloor. rewrite Hp, Hh.
  destruct (queue_key rows s id row "d" Hid Hne Hf ltac:(by repeat constructor)) as [Ed Pd].
  destruct (queue_key rows s id row "i" Hid Hne Hf ltac:(by repeat constructor)) as [Ei Pi].
  destruct (queue_key rows s id row "e" Hid Hne Hf ltac:(by repeat constructor)) as [Ee Pe]. cbn [orb].
  rewrite Ed, Ei, Ee, Pd, Pi. destruct queue_first; cbn [fst snd]; (split; [done|split; [done|split; [done|split]]]).
  - intros k Hk. rewrite !elem_of_cons, elem_of_nil in Hk.
    destruct Hk as [->|[->|[->|[]]]]; rewrite ?Pd, ?Pi, ?Pe; exact Hc.
  - done.
  - intros k Hk. rewrite !elem_of_cons, elem_of_nil in Hk.
    destruct Hk as [->|[->|[->|[]]]]; cbn [fst]; rewrite chord_push by done;
      match goal with |- context [List.find ?f ?l] => destruct (List.find f l) end; reflexivity.
  - split; rewrite chord_push by done; by destruct r.
Qed.

Lemma chord_meets_queue_witness :
  let s := set_selected (case_id sample_case) surface_initial in
  let c := (chrome_onKeyDown analyst (plain "g") (chrome_initial "dark")).1 in
  (press_on_watchfloor true analyst walk_rows (plain "d") c s).2 = Ok (set_target (Some sample_case) s) ∧
  ch_pushed (press_on_watchfloor false analyst walk_rows (plain "d") c s).1 = ["/drift-monitor"].
Proof.
  intros s c. split.
  - apply (chord_meets_queue true analyst walk_rows c s (case_id sample_case) sample_case); done.
  - apply (chord_meets_queue false analyst walk_rows c s (case_id sample_case) sample_case); done.
Defined.
