(* ===== verification/Shell.v ===== *)
(** * The page around a surface: app/layout.tsx and app/(console)/layout.tsx

    The document, its skip link, the providers and the frame of the console, down to
    the elements of components/ui ([expand]).  What a portal leaves in the document is
    the dialog library's, and a parameter: its laws ([PortalLaws]) are that the
    portal's content is there while the dialog is open and not otherwise. *)

From S2P Require Import Prelude JsNum View Ui Shortcuts Session Chrome.
From Stdlib Require Import Ascii.
Open Scope Z_scope.

(** ** From imported components to elements *)

(** The properties a wrapper hands on. *)
Definition without (names : list string) (ps : props) : props := List.filter (fun a => negb (bool_decide (a.1 ∈ names))) ps.
Definition given (name : string) (tag : string) (ps : props) : option string := attr name (El tag ps []).

(** The wrappers the frame uses, by the names they are imported under. *)
Definition primitive (tag : string) (ps : props) (children : list view) : option view :=
  if decide (tag = "Button") then Some (Button (given "variant" tag ps) (given "size" tag ps) None (without ["variant"; "size"] ps) children)
  else if decide (tag = "Dialog") then Some (Dialog ps children)
  else if decide (tag = "DialogContent") then Some (DialogContent None ps children)
  else if decide (tag = "DialogHeader") then Some (DialogHeader ps children)
  else if decide (tag = "DialogTitle") then Some (DialogTitle ps children)
  else if decide (tag = "DialogDescription") then Some (DialogDescription ps children)
  else if decide (tag = "CommandDialog") then
    Some (CommandDialog (given "title" tag ps) (given "description" tag ps) None (without ["title"; "description"] ps) children)
  else if decide (tag = "CommandInput") then Some (CommandInput ps)
  else if decide (tag = "CommandList") then Some (CommandList ps children)
  else if decide (tag = "CommandEmpty") then Some (CommandEmpty ps children)
  else if decide (tag = "CommandGroup") then Some (CommandGroup ps children)
  else if decide (tag = "CommandSeparator") then Some (CommandSeparator ps children)
  else if decide (tag = "CommandItem") then Some (CommandItem ps children)
  else if decide (tag = "CommandShortcut") then Some (CommandShortcut ps children)
  else if decide (tag = "Tooltip") then Some (Tooltip ps children)
  else if decide (tag = "TooltipTrigger") then Some (TooltipTrigger ps children)
  else if decide (tag = "TooltipContent") then Some (TooltipContent None ps children)
  else if decide (tag = "DropdownMenu") then Some (DropdownMenu ps children)
  else if decide (tag = "DropdownMenuTrigger") then Some (DropdownMenuTrigger ps children)
  else if decide (tag = "DropdownMenuContent") then Some (DropdownMenuContent (given "align" tag ps) None (without ["align"] ps) children)
  else if decide (tag = "DropdownMenuLabel") then Some (DropdownMenuLabel None ps children)
  else if decide (tag = "DropdownMenuSeparator") then Some (DropdownMenuSeparator ps children)
  else if decide (tag = "DropdownMenuItem") then Some (DropdownMenuItem None (given "variant" tag ps) (without ["variant"] ps) children)
  else None.

Fixpoint expand (v : view) : view :=
  match v with
  | Txt s => Txt s
  | El tag ps children =>
      let children := map expand children in
      match primitive tag ps children with Some w => w | None => El tag ps children end
  end.

(** What the dialog library documents of a portal, given whether its dialog is open. *)
Record PortalLaws (portal : bool → list view → list view) : Prop := {
  portal_open : ∀ content, portal true content = content;
  portal_closed : ∀ content, portal false content = [];
}.

Section document.
Context (portal : bool → list view → list view).

(** The elements there are while the dialogs have the [open] they are given; [shown]
    is whether the innermost dialog around is open. *)
Fixpoint mount (shown : bool) (v : view) : list view :=
  match v with
  | Txt s => [Txt s]
  | El tag ps children =>
      if decide (tag = "DialogPrimitive.Portal") then
        portal shown [El tag ps (mjoin (map (mount shown) children))]
      else
        let shown := if decide (tag = "DialogPrimitive.Root") then bool_decide (given "open" tag ps = Some "true") else shown in
        [El tag ps (mjoin (map (mount shown) children))]
  end.

(** What a component leaves in the document. *)
Definition document (v : view) : list view := mount true (expand v).
End document.

(** ** The layouts *)

Definition ThemeProvider (ps : props) (children : list view) : view :=
  spread "NextThemesProvider"
    [("attribute", Some "class"); ("defaultTheme", Some "dark"); ("themes", Some "dark light");
     ("enableSystem", bool_attr false); ("disableTransitionOnChange", bool_attr true)] ps children.

Definition STALE_TIME_MS : Z := 5000.
Definition QueryProvider (children : list view) : view :=
  El "QueryClientProvider" [("staleTime", Some (to_dec STALE_TIME_MS))] children.

(** session-context.tsx: the session is the context's value, which the view leaves out;
    [None] is a component outside the provider. *)
Definition SessionProvider (session : Session) (children : list view) : view := El "SessionContext.Provider" [] children.
Definition useSession (context : option Session) : outcome Session :=
  or_throw (JsError "useSession() called outside SessionProvider") context.

Definition metadata_title : string := "ATTESTA".
Definition metadata_description : string := "Operator console".

Definition RootLayout (children : list view) : view :=
  El "html" [("lang", Some "en")]
    [El "body" []
      [El "a" [("href", Some "#main-content")] [Txt "Skip to main content"];
       ThemeProvider [] [TooltipProvider (Some 300) [] children]]].

(** What [ConsoleLayout] returns for a session that verifies. *)
Definition ConsoleFrame (s : Session) (pathname : string) (mounted : bool) (c : ChromeState) (children : list view) : view :=
  SessionProvider s
    [QueryProvider
      [El "MotionConfig" [("reducedMotion", Some "user")]
        [El "ConsoleChromeProvider" []
          [El "div" []
            [SidebarNav (se_role s) pathname;
             El "div" [] [Topbar s mounted c; El "main" [("id", Some "main-content")] children]];
           CommandPalette (se_role s) mounted c;
           ShortcutsHelp c]]]].

(** The target of a link to a part of the page. *)
Definition link_target (href : string) (vs : list view) : list view :=
  match href with
  | String "#"%char id => by_attr "id" id vs
  | _ => []
  end.

(** ** What the page has *)

Section view_ind.
Context (P : view → Prop) (HT : ∀ s, P (Txt s)) (HE : ∀ tag ps cs, Forall P cs → P (El tag ps cs)).
Fixpoint view_ind' (v : view) : P v :=
  match v with
  | Txt s => HT s
  | El tag ps cs => HE tag ps cs ((fix go cs : Forall P cs :=
      match cs with [] => List.Forall_nil P | c :: cs => List.Forall_cons P c cs (view_ind' c) (go cs) end) cs)
  end.
End view_ind.

(** No element carries an id. *)
Fixpoint quiet (v : view) : bool :=
  match v with
  | Txt _ => true
  | El tag ps cs => bool_decide (attr "id" (El tag ps []) = None) && forallb quiet cs
  end.

Lemma attr_children name tag ps cs cs' : attr name (El tag ps cs) = attr name (El tag ps cs').
Proof. done. Qed.

Lemma attr_app name tag ps own cs :
  attr name (El tag ps cs) = None → attr name (El tag own cs) = None → attr name (El tag (ps ++ own) cs) = None.
Proof. cbn. intros H Ho. induction ps as [|[k v] ps IH]; [done|]. cbn in *. destruct (decide (k = name)); [done|]. by apply IH. Qed.

Lemma attr_without name names tag ps cs : name ∉ names → attr name (El tag (without names ps) cs) = attr name (El tag ps cs).
Proof.
  intros Hn. cbn. unfold without. induction ps as [|[k v] ps IH]; [done|]. cbn [List.filter fst].
  destruct (bool_decide (k ∈ names)) eqn:E; cbn [negb foldr fst snd].
  - apply bool_decide_eq_true in E. destruct (decide (k = name)) as [->|]; [done|]. exact IH.
  - destruct (decide (k = name)); [done|]. exact IH.
Qed.

Lemma quiet_El tag ps cs : quiet (El tag ps cs) = true ↔ attr "id" (El tag ps []) = None ∧ forallb quiet cs = true.
Proof. cbn [quiet]. by rewrite andb_true_iff, bool_decide_eq_true. Qed.

Lemma quiet_spread tag own ps cs :
  attr "id" (El tag ps []) = None → bool_decide (attr "id" (El tag own []) = None) = true → forallb quiet cs = true →
  quiet (spread tag own ps cs) = true.
Proof. intros Hp Ho%bool_decide_eq_true Hc. apply quiet_El. split; [by apply attr_app|done]. Qed.

Lemma quiet_select value v : quiet v = true → by_attr "id" value [v] = [].
Proof.
  intros Hq. unfold by_attr. induction v as [s|tag ps cs IH] using view_ind'; [done|].
  apply quiet_El in Hq as [Ha Hc]. rewrite select_inside by (rewrite (attr_children _ _ _ cs []), Ha; done).
  induction IH as [|c cs Hc' _ IH]; [done|]. cbn in Hc. apply andb_true_iff in Hc as [H1 H2].
  by rewrite select_cons, Hc', IH.
Qed.

Lemma quiet_forest value vs : forallb quiet vs = true → by_attr "id" value vs = [].
Proof.
  induction vs as [|v vs IH]; [done|]. intros [H1 H2]%andb_true_iff. rewrite by_attr_cons, quiet_select, IH by done. done.
Qed.

Ltac quiet_step := first [reflexivity | assumption | apply quiet_spread
  | (apply quiet_El; split; [reflexivity|])
  | (cbn [forallb app when default from_option id]; rewrite ?forallb_app; first [rewrite !andb_true_iff; repeat split | idtac])].

Lemma primitive_quiet tag ps cs w :
  attr "id" (El tag ps []) = None → forallb quiet cs = true → primitive tag ps cs = Some w → quiet w = true.
Proof.
  intros Ha Hc. assert (∀ t, attr "id" (El t ps []) = None) as Ha' by done.
  assert (∀ t names, bool_decide ("id" ∉ names) = true → attr "id" (El t (without names ps) []) = None) as Hw.
  { intros t names Hn%bool_decide_eq_true. by rewrite attr_without. }
  unfold primitive. repeat (case_decide; [intros [= <-];
    unfold CommandDialog, CommandInput, DialogContent, TooltipContent, DropdownMenuContent, InputGroup, InputGroupAddon;
    repeat first [apply Ha' | (apply Hw; reflexivity) | quiet_step]|]). done.
Qed.

Lemma expand_quiet v : quiet v = true → quiet (expand v) = true.
Proof.
  induction v as [s|tag ps cs IH] using view_ind'; [done|]. intros [Ha Hc]%quiet_El. cbn [expand].
  assert (forallb quiet (map expand cs) = true) as Hcs.
  { clear Ha. induction IH as [|c cs Hc' _ IH]; [done|]. cbn in Hc |- *. apply andb_true_iff in Hc as [H1 H2]. by rewrite Hc', IH. }
  destruct (primitive tag ps (map expand cs)) as [w|] eqn:E; [by eapply primitive_quiet|]. by apply quiet_El.
Qed.

Section shell_proofs.
Context (portal : bool → list view → list view) (Hportal : PortalLaws portal).
Local Notation mount := (mount portal).
Local Notation document := (document portal).

Lemma mount_quiet b v : quiet v = true → forallb quiet (mount b v) = true.
Proof.
  revert b. induction v as [s|tag ps cs IH] using view_ind'; intros b; [done|]. intros [Ha Hc]%quiet_El.
  assert (∀ b, forallb quiet (mjoin (map (mount b) cs)) = true) as Hcs.
  { intros b'. clear Ha. induction IH as [|c cs Hc' _ IH]; [done|]. cbn in Hc. apply andb_true_iff in Hc as [H1 H2].
    cbn [map]. rewrite mjoin_cons, forallb_app, Hc', IH by done. done. }
  cbn [Shell.mount]. case_decide; [destruct b; rewrite ?(portal_open _ Hportal), ?(portal_closed _ Hportal); [|done]|];
    cbn [forallb]; rewrite andb_true_r; apply quiet_El; by split.
Qed.

Lemma document_quiet value v : quiet v = true → by_attr "id" value (document v) = [].
Proof. intros H. by apply quiet_forest, mount_quiet, expand_quiet. Qed.

(** The frame's own pieces carry none. *)
Lemma SidebarNav_quiet r p : quiet (SidebarNav r p) = true.
Proof.
  assert (∀ l, forallb quiet (map (SidebarLink p) l) = true) as H.
  { induction l as [|su l IH]; [done|]. cbn [map forallb]. rewrite IH, andb_true_r. unfold SidebarLink. by destruct (bool_decide _). }
  unfold SidebarNav. cbn [quiet forallb]. rewrite H. done.
Qed.
Lemma Topbar_quiet s m c : quiet (Topbar s m c) = true.
Proof. reflexivity. Qed.
Lemma CommandPalette_quiet r m c : quiet (CommandPalette r m c) = true.
Proof. by destruct r. Qed.
Lemma ShortcutsHelp_quiet c : quiet (ShortcutsHelp c) = true.
Proof. reflexivity. Qed.

Lemma LoginPage_quiet_main query : by_attr "id" "main-content" (document (LoginPage query)) = [].
Proof.
  unfold LoginPage. destruct (match query_get "error" query with Some e => _ | None => _ end); reflexivity.
Qed.

(** An element that is neither a wrapper nor a dialog's stays, with what its children leave. *)
Lemma document_El tag ps cs :
  (∀ cs, primitive tag ps cs = None) → tag ≠ "DialogPrimitive.Portal" → tag ≠ "DialogPrimitive.Root" →
  document (El tag ps cs) = [El tag ps (mjoin (map document cs))].
Proof.
  intros Hp H1 H2. unfold document at 1. cbn [expand]. rewrite Hp. cbn [Shell.mount]. rewrite !decide_False by done.
  by rewrite map_map.
Qed.

Lemma inside_document value tag ps cs :
  (∀ cs, primitive tag ps cs = None) → tag ≠ "DialogPrimitive.Portal" → tag ≠ "DialogPrimitive.Root" →
  attr "id" (El tag ps []) = None →
  by_attr "id" value (document (El tag ps cs)) = by_attr "id" value (mjoin (map document cs)).
Proof.
  intros Hp H1 H2 Ha. rewrite document_El by done. unfold by_attr. rewrite select_inside; [done|].
  by rewrite (attr_children _ _ _ _ []), Ha.
Qed.

Lemma by_id_app value vs ws : by_attr "id" value (vs ++ ws) = by_attr "id" value vs ++ by_attr "id" value ws.
Proof. apply select_app. Qed.

Lemma by_id_docs value c cs :
  by_attr "id" value (mjoin (map document (c :: cs))) = by_attr "id" value (document c) ++ by_attr "id" value (mjoin (map document cs)).
Proof. cbn [map]. by rewrite mjoin_cons, by_id_app. Qed.
Lemma by_id_no_docs value : by_attr "id" value (mjoin (map document [])) = [].
Proof. done. Qed.

Ltac enter tag := rewrite (inside_document _ tag) by done.

Lemma main_of_frame s path mounted c children :
  by_attr "id" "main-content" (mjoin (map document children)) = [] →
  by_attr "id" "main-content" (document (ConsoleFrame s path mounted c children)) =
  [El "main" [("id", Some "main-content")] (mjoin (map document children))].
Proof.
  intros Hc. unfold ConsoleFrame, SessionProvider, QueryProvider.
  enter "SessionContext.Provider". rewrite by_id_docs. enter "QueryClientProvider". rewrite by_id_docs. enter "MotionConfig".
  rewrite by_id_docs. enter "ConsoleChromeProvider". rewrite !by_id_docs, !by_id_no_docs.
  rewrite (document_quiet _ _ (CommandPalette_quiet _ _ _)), (document_quiet _ _ (ShortcutsHelp_quiet _)).
  enter "div". rewrite !by_id_docs, !by_id_no_docs, (document_quiet _ _ (SidebarNav_quiet _ _)).
  enter "div". rewrite by_id_docs, by_id_docs, by_id_no_docs.
  assert (by_attr "id" "main-content" (document (Topbar s mounted c)) = []) as -> by (apply document_quiet, Topbar_quiet).
  rewrite !app_nil_r. cbn [app]. rewrite document_El by done. unfold by_attr at 1. rewrite select_hit by done.
  fold (by_attr "id" "main-content" (mjoin (map document children))). by rewrite Hc.
Qed.
End shell_proofs.

(** ** Properties *)

(** The shell.  Around any page the first link is the skip link, and its one target
    is the main element with the page in it; a help overlay that is not open leaves
    no text in the document, but a palette that is not open leaves its title and
    description, which its dialog puts outside the part that closes; and on the
    login page, which has the skip link too, the link leads nowhere. *)
Theorem console_shell portal s path mounted c children :
  PortalLaws portal →
  let document := document portal in
  by_attr "id" "main-content" (mjoin (map document children)) = [] →
  (let page := document (RootLayout [ConsoleFrame s path mounted c children]) in
   attr "href" <$> head (by_tag "a" page) = Some (Some "#main-content") ∧
   link_target "#main-content" page = [El "main" [("id", Some "main-content")] (mjoin (map document children))]) ∧
  (ch_helpOpen c = false → text_contents (document (ShortcutsHelp c)) = EmptyString) ∧
  (ch_paletteOpen c = false → text_contents (document (CommandPalette (se_role s) mounted c)) =
     "Command palette" +:+ "Jump to a surface or run an action") ∧
  (∀ query, attr "href" <$> head (by_tag "a" (document (RootLayout [LoginPage query]))) = Some (Some "#main-content") ∧
     link_target "#main-content" (document (RootLayout [LoginPage query])) = []).
Proof.
  intros Hportal document Hc. subst document.
  assert (∀ body, link_target "#main-content" (document portal (RootLayout [body])) = by_attr "id" "main-content" (document portal body) ∧
    attr "href" <$> head (by_tag "a" (document portal (RootLayout [body]))) = Some (Some "#main-content")) as Hroot.
  { intros body. unfold RootLayout, ThemeProvider, TooltipProvider, spread. cbn [link_target]. rewrite inside_document by done.
    split.
    - repeat first [rewrite by_id_docs | rewrite by_id_no_docs
        | (rewrite (inside_document _ _ "body") by done) | (rewrite (inside_document _ _ "NextThemesProvider") by done)
        | (rewrite (inside_document _ _ "TooltipPrimitive.Provider") by done)].
      by rewrite !app_nil_r.
    - rewrite document_El by done. reflexivity. }
  split; [|split; [|split]].
  - cbv zeta. destruct (Hroot (ConsoleFrame s path mounted c children)) as [-> ->]. split; [done|]. by apply main_of_frame.
  - intros Hh. unfold ShortcutsHelp. rewrite Hh. unfold document. vm_compute. by rewrite (portal_closed _ Hportal).
  - intros Hp. unfold CommandPalette. rewrite Hp. unfold document. destruct (se_role s); vm_compute; by rewrite (portal_closed _ Hportal).
  - intros query. destruct (Hroot (LoginPage query)) as [-> ->]. split; [done|]. apply LoginPage_quiet_main.
Qed.

(** A portal whose content goes at once. *)
Definition instant_portal (shown : bool) (content : list view) : list view := if shown then content else [].

Lemma instant_portal_laws : PortalLaws instant_portal.
Proof. done. Qed.

Lemma console_shell_witness :
  length (link_target "#main-content" (document instant_portal (RootLayout
    [ConsoleFrame (mkSession "ana@tenant.example" admin None) "/" true (chrome_initial "dark") [PageHeader "Watchfloor" None]]))) = 1%nat.
Proof.
  destruct (console_shell instant_portal (mkSession "ana@tenant.example" admin None) "/" true (chrome_initial "dark") [PageHeader "Watchfloor" None]
    instant_portal_laws ltac:(reflexivity)) as [[_ E] _].
  exact (f_equal length E).
Defined.
