(* ===== verification/Response.v ===== *)
(** * The response console: web/src/components/response-console

    The proposed actions, the blast radius of the selected one, the three
    decision buttons and the autonomous-execution switches.  The query library
    hands a component the data it has, if any, and whether a first fetch is under
    way; a decision goes to the server's endpoint ([Store.POST_decision]). *)

From S2P Require Import Prelude JsNum Rng View Types Store.
Import Xorshift32.
Open Scope Z_scope.

Definition KIND_LABEL (k : ResponseActionKind) : string :=
  match k with
  | isolate_host => "Isolate host"
  | disable_account => "Disable account"
  | revoke_session => "Revoke session"
  | block_indicator => "Block indicator"
  | quarantine_file => "Quarantine file"
  end.

Definition kind_name (k : ResponseActionKind) : string :=
  match k with
  | isolate_host => "isolate_host"
  | disable_account => "disable_account"
  | revoke_session => "revoke_session"
  | block_indicator => "block_indicator"
  | quarantine_file => "quarantine_file"
  end.

(** What [useQuery] returns: [data] and [isLoading]. *)
Record Query (A : Type) := mkQuery { q_data : option A; q_isLoading : bool }.
Arguments mkQuery {A} _ _.
Arguments q_data {A} _.
Arguments q_isLoading {A} _.

(** ** The blast radius *)

(** [Section] of blast-radius-panel.tsx. *)
Definition BlastSection (label : string) (items : list string) : view :=
  El "div" []
   [El "div" [] [Txt label];
    match items with
    | [] => El "span" [] [Txt "None"]
    | _ => El "ul" [] (map (fun item => El "li" [("key", Some item)] [Txt item]) items)
    end].

Definition BlastRadiusPanel (b : BlastRadius) : view :=
  El "div" []
   (when (br_isTier0 b) (El "div" [] [Txt "Tier-0 asset affected"]) ++
    [BlastSection "Affected principals" (br_affectedPrincipals b);
     BlastSection "Affected hosts" (br_affectedHosts b);
     BlastSection "Dependent services" (br_dependentServices b)]).

(** ** One action *)

Definition canApprove (action : ResponseAction) (q : Query BlastRadius) : bool :=
  negb (q_isLoading q) && bool_decide (is_Some (q_data q)) && bool_decide (ra_status action = pending).

Definition decision_button (label : string) (attrs : list (string * option string)) (enabled : bool) : view :=
  El "Button" (attrs ++ [("disabled", flag_attr (negb enabled))]) [Txt label].

Definition ActionDetail (action : ResponseAction) (q : Query BlastRadius) : view :=
  let decided := negb (bool_decide (ra_status action = pending)) in
  El "div" []
   ([El "div" []
      [El "h2" [] [Txt (KIND_LABEL (ra_kind action))];
       El "p" [] [Txt (ra_target action)];
       El "p" [] [Txt (ra_rationale action)]]] ++
    (if q_isLoading q
     then [El "div" [("data-testid", Some "blast-radius-loading")] [Txt "Computing blast radius…"]]
     else match q_data q with
     | Some b => [El "div" [("data-testid", Some "blast-radius-panel")] [BlastRadiusPanel b]]
     | None => []
     end) ++
    [El "div" []
      [decision_button (if decided then "Decided" else "Approve") [("data-testid", Some "approve-button")] (canApprove action q);
       decision_button "Modify" [] (canApprove action q);
       decision_button "Reject" [] (canApprove action q)]]).

(** ** The list *)

Definition ActionItem (selectedId : option string) (action : ResponseAction) : view :=
  El "li" [("key", Some (ra_id action))]
   [El "button" [("type", Some "button"); ("aria-current", bool_attr (bool_decide (selectedId = Some (ra_id action))))]
     [El "span" [] [Txt (KIND_LABEL (ra_kind action))];
      El "span" [] [Txt (ra_target action)];
      El "span" [] [Txt (action_status_name (ra_status action))]]].

Definition ActionList (actions : list ResponseAction) (selectedId : option string) : view :=
  El "ul" []
   (map (ActionItem selectedId) actions ++
    when (length actions =? 0)%nat (El "li" [] [Txt "No proposed actions pending."])).

(** ** Autonomous execution *)

Definition KINDS : list ResponseActionKind :=
  [isolate_host; disable_account; revoke_session; block_indicator; quarantine_file].

Definition previewCount (kind : string) : outcome Z :=
  (int 0 40 (create (Z.of_nat (String.length kind) * 104729))).2.

(** The switch's handler: [next.has(kind) ? next.delete(kind) : next.add(kind)] *)
Definition toggle_kind (k : ResponseActionKind) (enabled : list ResponseActionKind) : list ResponseActionKind :=
  if decide (k ∈ enabled) then List.filter (fun k' => negb (bool_decide (k' = k))) enabled else enabled ++ [k].

Definition PolicySwitch (enabled : list ResponseActionKind) (k : ResponseActionKind) (count : Z) : view :=
  El "div" [("key", Some (kind_name k))]
   [El "div" []
     [El "div" [] [Txt (KIND_LABEL k)];
      El "div" [] [Txt (to_dec count); Txt " time"; Txt (if count =? 1 then "" else "s"); Txt " in the last 30d"]];
    El "button" [("type", Some "button"); ("role", Some "switch");
                 ("aria-checked", bool_attr (bool_decide (k ∈ enabled)));
                 ("aria-label", Some ("Autonomous " +:+ KIND_LABEL k))] []].

Definition AutonomyPolicy (enabled : list ResponseActionKind) : outcome view :=
  rows ← mapM_out (fun k => count ← previewCount (kind_name k); Ok (PolicySwitch enabled k count)) KINDS;
  Ok (El "div" [] [El "h3" [] [Txt "Autonomous execution"]; El "div" [] rows]).

(** ** The console *)

Record ConsoleState := mkConsole {
  rc_actions : option (list ResponseAction);
  rc_selectedId : option string;
  rc_blast : string → Query BlastRadius;
  rc_enabled : list ResponseActionKind;
}.

Definition console_initial : ConsoleState := mkConsole None None (fun _ => mkQuery None true) [].

(** [list.find((a) => a.id === selectedId) ?? list[0] ?? null] *)
Definition selected_action (c : ConsoleState) : option ResponseAction :=
  let l := default [] (rc_actions c) in
  match List.find (fun a => bool_decide (Some (ra_id a) = rc_selectedId c)) l with
  | Some a => Some a
  | None => l !! 0%nat
  end.

Definition ResponseConsoleClient (c : ConsoleState) : outcome view :=
  let l := default [] (rc_actions c) in
  let selected := selected_action c in
  match l with
  | [] =>
      Ok (EmptyState "No proposed actions pending"
        "Blast radius must render before any approval control is enabled -- this screen won't ship an approve button that isn't provably gated on it."
        "Waiting for a high/critical case to propose a response")
  | _ =>
      policy ← AutonomyPolicy (rc_enabled c);
      Ok (El "div" []
        ([ActionList l (ra_id <$> selected)] ++
         match selected with Some a => [ActionDetail a (rc_blast c (ra_id a))] | None => [] end ++
         [policy]))
  end.

(** What the operator and the network can do, with the server's store beside the
    page: the log is of the decisions posted, each with what the page held for the
    blast radius of that action. *)
Definition log_entry : Type := string * ActionStatus * option BlastRadius.

Inductive console_step : ConsoleState * Store * list log_entry → ConsoleState * Store * list log_entry → Prop :=
| rs_fetch c st log :
    console_step (c, st, log)
      (mkConsole (Some (listResponseActions st)) (rc_selectedId c) (rc_blast c) (rc_enabled c), st, log)
| rs_blast c st log id q :
    (q_data q = None ∨ ∃ b, q_data q = Some b ∧ GET_blast_radius id st = Ok (Some b)) →
    console_step (c, st, log)
      (mkConsole (rc_actions c) (rc_selectedId c) (fun i => if decide (i = id) then q else rc_blast c i) (rc_enabled c), st, log)
| rs_select c st log id :
    console_step (c, st, log) (mkConsole (rc_actions c) (Some id) (rc_blast c) (rc_enabled c), st, log)
| rs_toggle c st log k :
    console_step (c, st, log) (mkConsole (rc_actions c) (rc_selectedId c) (rc_blast c) (toggle_kind k (rc_enabled c)), st, log)
| rs_tick c st log js_pow now1 now2 : console_step (c, st, log) (c, (tick js_pow now1 now2 st).1, log)
| rs_other c st log id body : console_step (c, st, log) (c, (POST_decision id body st).1, log)
| rs_decide c st log a status :
    selected_action c = Some a → canApprove a (rc_blast c (ra_id a)) = true → status ∈ VALID_DECISIONS →
    console_step (c, st, log)
      (c, (POST_decision (ra_id a) (Some (action_status_name status)) st).1,
       (ra_id a, status, q_data (rc_blast c (ra_id a))) :: log).

Inductive console_reachable (st0 : Store) : ConsoleState * Store * list log_entry → Prop :=
| rr_init : console_reachable st0 (console_initial, st0, [])
| rr_step x y : console_reachable st0 x → console_step x y → console_reachable st0 y.

(** ** The tick leaves the actions alone *)

(** A computation that never changes what [f] reads. *)
Definition keeps {S A B} (f : S → B) (m : M S A) : Prop := ∀ s, f (m s).1 = f s.

Lemma keeps_bind {S A A' B} (f : S → B) (m : M S A) (k : A → M S A') :
  keeps f m → (∀ a, keeps f (k a)) → keeps f (m ≫= k).
Proof.
  intros Hm Hk s. unfold mbind, M_bind. specialize (Hm s). destruct (m s) as [s1 [a|e]]; simpl in *; [|done].
  by rewrite Hk.
Qed.
Lemma keeps_ret {S A B} (f : S → B) (a : A) : keeps f (mret a).
Proof. done. Qed.
Lemma keeps_lift {S A B} (f : S → B) (o : outcome A) : keeps f (lift o).
Proof. done. Qed.
Lemma keeps_gets {A B} (f : Store → B) (g : Store → A) : keeps f (gets g).
Proof. done. Qed.
Lemma keeps_live {A} (m : M Z A) : keeps st_responseActions (live m).
Proof. intros s. unfold live, zoom. by destruct (m (st_liveRng s)). Qed.
Lemma keeps_modify (g : Store → Store) :
  (∀ s, st_responseActions (g s) = st_responseActions s) → keeps st_responseActions (modify g).
Proof. intros H s. apply H. Qed.

Ltac keeps_step :=
  first [apply keeps_bind; [|intros ?] | apply keeps_ret | apply keeps_lift | apply keeps_gets
        | apply keeps_live | apply keeps_modify; intros ?; reflexivity | case_match].

Lemma tick_actions js_pow now1 now2 : keeps st_responseActions (tick js_pow now1 now2).
Proof. unfold tick, tick_new, tick_update, tick_fire. repeat keeps_step. Qed.

(** ** The gate *)

Lemma POST_decision_blast id body st i :
  GET_blast_radius i (POST_decision id body st).1 = GET_blast_radius i st.
Proof.
  unfold POST_decision, decideResponseAction. destruct (body ≫= _) as [status|]; [|done].
  destruct (omap_get id (st_responseActions st)) as [a|] eqn:Ha; [|done].
  unfold GET_blast_radius, getResponseAction. simpl. destruct (decide (i = id)) as [->|Hne].
  - by rewrite omap_get_set_eq, Ha.
  - by rewrite omap_get_set_ne.
Qed.

Lemma tick_blast js_pow now1 now2 st i :
  GET_blast_radius i (tick js_pow now1 now2 st).1 = GET_blast_radius i st.
Proof. unfold GET_blast_radius, getResponseAction. by rewrite tick_actions. Qed.

Definition enabled_buttons (v : view) : list view :=
  List.filter (fun b => bool_decide (attr "disabled" b = None)) (by_tag "Button" [v]).

Lemma BlastSection_quiet f label items :
  (∀ t c, f (El "div" [] c) = false ∧ f (El "span" [] c) = false ∧ f (El "ul" [] c) = false ∧ f (El "li" [("key", Some t)] c) = false) →
  select f [BlastSection label items] = [].
Proof.
  intros H. unfold BlastSection. rewrite select_inside by apply (H "" _).
  rewrite select_cons, select_inside by apply (H "" _). change (select f [Txt label]) with (@nil view). cbn [app].
  assert (select f (map (fun item => El "li" [("key", Some item)] [Txt item]) items) = []) as Hl.
  { rewrite (select_map f _ (fun _ => [])); [by induction items|]. intros x _. rewrite select_inside by apply (H x _). done. }
  destruct items as [|x items]; [rewrite select_inside by apply (H "" _); done|].
  rewrite select_inside by apply (H "" _). exact Hl.
Qed.

Lemma panel_quiet f b :
  (∀ t c, f (El "div" [] c) = false ∧ f (El "span" [] c) = false ∧ f (El "ul" [] c) = false ∧ f (El "li" [("key", Some t)] c) = false) →
  select f [BlastRadiusPanel b] = [].
Proof.
  intros H. unfold BlastRadiusPanel. rewrite select_inside by apply (H "" _).
  rewrite select_app, select_cons, BlastSection_quiet, select_cons, !BlastSection_quiet by done.
  destruct (br_isTier0 b); [|done]. cbn [when]. rewrite select_inside by apply (H "" _). done.
Qed.

(** Where the panel and the buttons are. *)
Lemma detail_panel a q :
  by_testid "blast-radius-panel" [ActionDetail a q] =
  if q_isLoading q then [] else
  match q_data q with Some b => [El "div" [("data-testid", Some "blast-radius-panel")] [BlastRadiusPanel b]] | None => [] end.
Proof.
  unfold by_testid, by_attr, ActionDetail. rewrite select_inside by done. rewrite !select_app.
  destruct (q_isLoading q); [done|]. destruct (q_data q) as [b|]; [|done].
  rewrite (select_hit _ "div" [("data-testid", _)]), panel_quiet by done. done.
Qed.

Lemma detail_buttons a q :
  by_tag "Button" [ActionDetail a q] =
  [decision_button (if negb (bool_decide (ra_status a = pending)) then "Decided" else "Approve")
     [("data-testid", Some "approve-button")] (canApprove a q);
   decision_button "Modify" [] (canApprove a q); decision_button "Reject" [] (canApprove a q)].
Proof.
  unfold by_tag, ActionDetail. rewrite select_inside by done. rewrite !select_app.
  assert (select (λ v, bool_decide (tag_of v = Some "Button"))
    (if q_isLoading q then [El "div" [("data-testid", Some "blast-radius-loading")] [Txt "Computing blast radius…"]]
     else match q_data q with
     | Some b => [El "div" [("data-testid", Some "blast-radius-panel")] [BlastRadiusPanel b]]
     | None => []
     end) = []) as ->.
  { destruct (q_isLoading q); [done|]. destruct (q_data q) as [b|]; [|done].
    rewrite select_inside by done. by apply panel_quiet. }
  done.
Qed.

Lemma detail_enabled a q :
  length (enabled_buttons (ActionDetail a q)) = if canApprove a q then 3%nat else 0%nat.
Proof. unfold enabled_buttons. rewrite detail_buttons. by destruct (canApprove a q). Qed.

Record console_ok (x : ConsoleState * Store * list log_entry) : Prop := {
  co_blast : ∀ id b, q_data (rc_blast x.1.1 id) = Some b → GET_blast_radius id x.1.2 = Ok (Some b);
  co_log : ∀ id status o, (id, status, o) ∈ x.2 →
    status ≠ pending ∧ ∃ b, o = Some b ∧ GET_blast_radius id x.1.2 = Ok (Some b);
}.

Lemma canApprove_data a q : canApprove a q = true → q_isLoading q = false ∧ ra_status a = pending ∧ ∃ b, q_data q = Some b.
Proof.
  unfold canApprove. rewrite !andb_true_iff, negb_true_iff, !bool_decide_eq_true. intros [[H1 [b H2]] H3]. eauto.
Qed.

Lemma console_step_ok x y : console_ok x → console_step x y → console_ok y.
Proof.
  intros [Hb Hl] Hs. destruct Hs as [c st log|c st log id q Hq|c st log id|c st log k|c st log js_pow now1 now2
    |c st log id body|c st log a status Ha Hc Hv]; split; simpl in *; try done.
  - intros i b. case_decide as Hi; [|apply Hb]. subst i. destruct Hq as [->|(b' & -> & Hg)]; [done|].
    by intros [= <-].
  - intros i b. rewrite tick_blast. apply Hb.
  - intros i s o Hin. rewrite tick_blast. by eapply Hl.
  - intros i b. rewrite POST_decision_blast. apply Hb.
  - intros i s o Hin. rewrite POST_decision_blast. by eapply Hl.
  - intros i b. rewrite POST_decision_blast. apply Hb.
  - intros i s o Hin. rewrite POST_decision_blast. apply elem_of_cons in Hin as [[= -> -> ->]|Hin]; [|by eapply Hl].
    apply canApprove_data in Hc as (_ & _ & b & Hd). split; [intros ->|eauto].
    apply (bool_decide_pack _) in Hv. by vm_compute in Hv.
Qed.

(** C39: no decision without its blast radius.  Whatever the operator, the other
    consoles, the feed and the network do, the three buttons of an action are
    enabled exactly when it is pending and its blast radius is on the page, all
    three or none; what is on the page is what the server computes for that action
    now; and every decision that was posted was posted with that blast radius on
    the page. *)
Theorem decisions_see_blast_radius st0 c st log :
  console_reachable st0 (c, st, log) →
  (∀ a, let v := ActionDetail a (rc_blast c (ra_id a)) in
     let shown := by_testid "blast-radius-panel" [v] in
     length (enabled_buttons v) = (if decide (shown ≠ [] ∧ ra_status a = pending) then 3%nat else 0%nat) ∧
     (shown ≠ [] → ∃ b, GET_blast_radius (ra_id a) st = Ok (Some b) ∧
        shown = [El "div" [("data-testid", Some "blast-radius-panel")] [BlastRadiusPanel b]])) ∧
  (∀ id status o, (id, status, o) ∈ log →
     status ≠ pending ∧ ∃ b, o = Some b ∧ GET_blast_radius id st = Ok (Some b)).
Proof.
  intros Hr. assert (console_ok (c, st, log)) as [Hb Hl].
  { remember (c, st, log) as x eqn:E. clear E. induction Hr as [|x y Hr IH Hs]; [|by eapply console_step_ok].
    split; simpl; [done|]. intros ? ? ? H. by apply not_elem_of_nil in H. }
  split; [|exact Hl]. intros a v shown. unfold shown, v. rewrite detail_enabled, detail_panel.
  unfold canApprove. specialize (Hb (ra_id a)). simpl in Hb.
  destruct (rc_blast c (ra_id a)) as [[b|] []]; cbn [q_isLoading q_data negb andb] in *.
  1,3,4: (split; [rewrite decide_False by (by intros [? _]); by rewrite ?bool_decide_eq_false_2 by (by intros [? ?])|done]).
  split; [|intros _; exists b; split; [by apply Hb|done]].
  rewrite bool_decide_eq_true_2 by done. cbn [andb]. destruct (decide (ra_status a = pending)) as [Hp|Hp].
  - by rewrite bool_decide_eq_true_2, decide_True by done.
  - rewrite bool_decide_eq_false_2 by done. by rewrite decide_False by naive_solver.
Qed.

Definition demo_action : ResponseAction :=
  mkAction "act-1" "case-1" isolate_host "WIN-CLIENT-7" 1757462400123 "Contain the host." pending.
Definition demo_store : Store := mkStore ∅ [] [] [("act-1", demo_action)] 1 0.

(** The operator approves the action once its blast radius is there. *)
Lemma demo_run : ∃ c b, console_reachable demo_store
  (c, (POST_decision "act-1" (Some "approved") demo_store).1, [("act-1", approved, Some b)]).
Proof.
  destruct (GET_blast_radius "act-1" demo_store) as [[b|]|e] eqn:E.
  2-3: exfalso; assert (match GET_blast_radius "act-1" demo_store with Ok (Some _) => true | _ => false end = true) as H
         by (by vm_compute); by rewrite E in H.
  set (fetched := mkConsole (Some [demo_action]) None (fun _ => mkQuery None true) []).
  set (loaded := mkConsole (Some [demo_action]) None
    (fun i => if decide (i = "act-1") then mkQuery (Some b) false else mkQuery None true) []).
  exists loaded, b.
  assert (console_reachable demo_store (fetched, demo_store, [])) as H1
    by exact (rr_step _ _ _ (rr_init _) (rs_fetch console_initial demo_store [])).
  assert (console_reachable demo_store (loaded, demo_store, [])) as H2.
  { apply (rr_step _ _ _ H1). apply (rs_blast fetched demo_store [] "act-1" (mkQuery (Some b) false)).
    right. exists b. exact (conj eq_refl E). }
  apply (rr_step _ _ _ H2).
  exact (rs_decide loaded demo_store [] demo_action approved eq_refl eq_refl (list_elem_of_here _ _)).
Qed.

Lemma decisions_see_blast_radius_witness :
  ∃ b, GET_blast_radius "act-1" (POST_decision "act-1" (Some "approved") demo_store).1 = Ok (Some b).
Proof.
  destruct demo_run as (c & b & Hr).
  destruct (decisions_see_blast_radius _ _ _ _ Hr) as [_ H].
  destruct (H "act-1" approved (Some b)) as [_ (b' & _ & Hg)]; [by left|]. exists b'. exact Hg.
Defined.

(** The preview is drawn from the length of the kind's name, so that three of the
    five kinds show the same number. *)
Lemma preview_by_length :
  previewCount "disable_account" = previewCount "block_indicator" ∧
  previewCount "block_indicator" = previewCount "quarantine_file".
Proof. done. Qed.
