(* ===== verification/Timeline.v ===== *)
(** * The timeline reconstructor: web/src/components/timeline

    The mapping from times to pixels, with and without the compression of idle
    stretches, the bands of the track and the page around it.  Times are integers
    of milliseconds; pixels are doubles. *)

From S2P Require Import Prelude JsNum Doubles View Types.
From Stdlib Require Import QArith Lqa.
Open Scope Z_scope.

Definition BAND_HEIGHT : Z := 32.
Definition IDLE_GAP_THRESHOLD_MS : Z := 60 * 60 * 1000.
Definition COMPRESSED_GAP_PX : Q := 24.

Record Segment := mkSegment {
  seg_startMs : Z;
  seg_endMs : Z;
  seg_pxStart : Q;
  seg_pxWidth : Q;
}.

(** ** [buildScale] *)

Record Scale := mkScale {
  sc_segments : list Segment;
  sc_totalPx : Q;
  sc_toPx : Z → Q;
}.

Definition earlier (a b : TimelineEvent) : bool := ev_atMs a - ev_atMs b <=? 0.

(** The body of the loop over the sorted events: [segments], [segStart], [lastMs]. *)
Definition split_step (st : list Segment * Z * Z) (e : TimelineEvent) : list Segment * Z * Z :=
  let '(segments, segStart, lastMs) := st in
  if IDLE_GAP_THRESHOLD_MS <? ev_atMs e - lastMs
  then (segments ++ [mkSegment segStart lastMs 0 0], ev_atMs e, ev_atMs e)
  else (segments, segStart, ev_atMs e).

Definition split_segments (minMs : Z) (rest : list TimelineEvent) : list Segment :=
  let '(segments, segStart, lastMs) := foldl split_step ([], minMs, minMs) rest in
  segments ++ [mkSegment segStart lastMs 0 0].

(** The loop that lays the segments out; [first] is [i === 0]. *)
Fixpoint place (pxPerMsActive : Q) (first : bool) (cursor : Q) (segments : list Segment) : list Segment * Q :=
  match segments with
  | [] => ([], cursor)
  | seg :: rest =>
      let pxStart := if first then cursor else dadd cursor COMPRESSED_GAP_PX in
      let pxWidth := qmax 4 (dmul (inject_Z (seg_endMs seg - seg_startMs seg)) pxPerMsActive) in
      let r := place pxPerMsActive false (dadd pxStart pxWidth) rest in
      (mkSegment (seg_startMs seg) (seg_endMs seg) pxStart pxWidth :: r.1, r.2)
  end.

Definition inside (ms : Z) (seg : Segment) : bool := (seg_startMs seg <=? ms) && (ms <=? seg_endMs seg).

(** [toPx] of the compressed scale. *)
Definition compressed_toPx (segments : list Segment) (pxPerMsActive : Q) (ms : Z) : Q :=
  match List.find (inside ms) segments with
  | Some seg => dadd (seg_pxStart seg) (dmul (inject_Z (ms - seg_startMs seg)) pxPerMsActive)
  | None =>
      match List.find (fun s => ms <? seg_startMs s) segments with
      | Some after => seg_pxStart after
      | None =>
          match last segments with
          | Some seg => dadd (seg_pxStart seg) (seg_pxWidth seg)
          | None => 0%Q
          end
      end
  end.

Definition buildScale (events : list TimelineEvent) (compress : bool) (pxPerMsActive : Q) : Scale :=
  match sort_by earlier events with
  | [] => mkScale [] 0 (fun _ => 0%Q)
  | first :: rest =>
      let minMs := ev_atMs first in
      let maxMs := match last (first :: rest) with Some e => ev_atMs e | None => minMs end in
      if negb compress then
        let totalPx := qmax 1 (dmul (inject_Z (maxMs - minMs)) pxPerMsActive) in
        mkScale [mkSegment minMs maxMs 0 totalPx] totalPx
          (fun ms => dmul (inject_Z (ms - minMs)) pxPerMsActive)
      else
        let '(segments, cursor) := place pxPerMsActive true 0 (split_segments minMs rest) in
        mkScale segments cursor (compressed_toPx segments pxPerMsActive)
  end.

(** ** The track *)

Section page.
(** [new Date(ms).toLocaleString()], which depends on the browser's locale. *)
Context (toLocaleString : Z → string).

(** An event's button: where its middle is in its band's body, in pixels, and what it
    says. *)
Record Marker := mkMarker {
  mk_event : string;
  mk_left : Q;
  mk_pressed : bool;
  mk_label : string;
}.

Definition marker (scale : Scale) (selectedEventId : option string) (e : TimelineEvent) : Marker :=
  mkMarker (ev_id e) (sc_toPx scale (ev_atMs e)) (bool_decide (Some (ev_id e) = selectedEventId))
    (ev_predicate e +:+ " on " +:+ ev_entity e +:+ " at " +:+ toLocaleString (ev_atMs e)).

(** [(0.00006 * zoom) || 0.00006] *)
Definition pxPerMs (zoom : Q) : Q :=
  let p := dmul (fl (6 # 100000)) zoom in if Qeq_bool p 0 then fl (6 # 100000) else p.

(** The label column of a band, [w-36 shrink-0]: nine rem, before the body. *)
Definition LABEL_PX : Q := 144.

(** A band: its label, where its body begins in the track, and the markers in it. *)
Record Band := mkBand {
  tb_tactic : Tactic;
  tb_bodyStart : Q;
  tb_markers : list Marker;
}.

(** The width of the track, and the bands in the order of the tactics. *)
Definition TimelineTrack (events : list TimelineEvent) (compress : bool) (zoom : Q)
    (selectedEventId : option string) : Q * list Band :=
  let scale := buildScale events compress (pxPerMs zoom) in
  (qmax 800 (dadd (sc_totalPx scale) 80),
   map (fun tactic =>
     mkBand tactic LABEL_PX (map (marker scale selectedEventId)
        (List.filter (fun e => bool_decide (ev_tactic e = tactic)) events))) TACTICS).

(** Where a marker of a band is in the track. *)
Definition track_left (band : Band) (m : Marker) : Q := tb_bodyStart band + mk_left m.

(** ** The page *)

Record TimelineState := mkTimeline {
  tl_compress : bool;
  tl_zoom : Q;
  tl_selectedEventId : option string;
}.

Definition timeline_initial : TimelineState := mkTimeline false 1 None.

Definition toggle_compress (s : TimelineState) : TimelineState :=
  mkTimeline (negb (tl_compress s)) (tl_zoom s) (tl_selectedEventId s).
(** [Math.max(0.25, z / 1.5)] and [Math.min(8, z * 1.5)] *)
Definition zoom_out (s : TimelineState) : TimelineState :=
  mkTimeline (tl_compress s) (qmax (1 # 4) (ddiv (tl_zoom s) (3 # 2))) (tl_selectedEventId s).
Definition zoom_in (s : TimelineState) : TimelineState :=
  mkTimeline (tl_compress s) (qmin 8 (dmul (tl_zoom s) (3 # 2))) (tl_selectedEventId s).
Definition select_event (id : string) (s : TimelineState) : TimelineState :=
  mkTimeline (tl_compress s) (tl_zoom s) (Some id).

Inductive TimelinePage :=
| TimelineEmpty (v : view)
| TimelineLoading (v : view)
| TimelineShown (head : view) (track : Q * list Band) (foot : list view).

(** [caseId] is the search parameter, [data] what the query has. *)
Definition TimelineClient (caseId : option string) (data : option (Case * list TimelineEvent))
    (s : TimelineState) : TimelinePage :=
  match caseId, data with
  | None, _ | Some EmptyString, _ =>
      TimelineEmpty (EmptyState "No case selected"
        "Open a case from the Watchfloor (press i on a selected row, or select “Open investigation”) to reconstruct its timeline."
        "Select a case to begin")
  | Some _, None => TimelineLoading (El "div" [] [Txt "Loading timeline…"])
  | Some _, Some (c, events) =>
      TimelineShown
        (El "div" []
          [El "div" [] [El "div" [] [Txt (case_title c)]; El "div" [] [Txt (case_primaryEntity c)]];
           El "label" [] [El "input" [("type", Some "checkbox"); ("checked", flag_attr (tl_compress s))] []; Txt "Compress idle time"];
           El "Button" [("aria-label", Some "Zoom out")] []; El "Button" [("aria-label", Some "Zoom in")] []])
        (TimelineTrack events (tl_compress s) (tl_zoom s) (tl_selectedEventId s))
        (match List.find (fun e => bool_decide (Some (ev_id e) = tl_selectedEventId s)) events with
         | Some e =>
             [El "div" []
               [El "span" [] [Txt (ev_predicate e)]; El "span" [] [Txt (toLocaleString (ev_atMs e))];
                El "span" [] [Txt "claim:"; Txt (String.substring 0 12 (ev_claimId e)); Txt "…"]]]
         | None => []
         end)
  end.

End page.

Inductive timeline_reachable : TimelineState → Prop :=
| tr_init : timeline_reachable timeline_initial
| tr_compress s : timeline_reachable s → timeline_reachable (toggle_compress s)
| tr_out s : timeline_reachable s → timeline_reachable (zoom_out s)
| tr_in s : timeline_reachable s → timeline_reachable (zoom_in s)
| tr_select id s : timeline_reachable s → timeline_reachable (select_event id s).

(** ** Segments *)

Definition seg_before (a b : Segment) : Prop := seg_endMs a + IDLE_GAP_THRESHOLD_MS < seg_startMs b.

(** After some events: the closed segments and the open one, from [segStart] to the
    last event, cover them in order. *)
Record split_ok (seen : list TimelineEvent) (st : list Segment * Z * Z) : Prop := {
  so_sorted : StronglySorted seg_before st.1.1;
  so_seg : Forall (fun g => seg_startMs g <= seg_endMs g ∧ seg_endMs g + IDLE_GAP_THRESHOLD_MS < st.1.2) st.1.1;
  so_open : st.1.2 <= st.2;
  so_cover : ∀ e, e ∈ seen → (∃ g, g ∈ st.1.1 ∧ inside (ev_atMs e) g = true) ∨ st.1.2 <= ev_atMs e <= st.2;
}.

Lemma StronglySorted_snoc {A} (R : relation A) l x :
  StronglySorted R l → Forall (fun y => R y x) l → StronglySorted R (l ++ [x]).
Proof.
  induction 1 as [|a l Hs IH Ha]; intros Hx; [by repeat constructor|].
  apply Forall_cons in Hx as [Hax Hx]. simpl. constructor; [by apply IH|].
  apply Forall_app. split; [done|]. by constructor.
Qed.

Lemma split_step_ok seen st e :
  split_ok seen st → st.2 <= ev_atMs e → split_ok (seen ++ [e]) (split_step st e).
Proof.
  destruct st as [[segs s] l]. intros [H1 H2 H3 H4] Hle. unfold split_step. simpl in *.
  assert (0 < IDLE_GAP_THRESHOLD_MS) as HT by done.
  destruct (Z.ltb_spec IDLE_GAP_THRESHOLD_MS (ev_atMs e - l)) as [Hgap|Hgap]; split; simpl.
  - apply StronglySorted_snoc; [done|]. eapply Forall_impl; [exact H2|]. intros g Hg. unfold seg_before. simpl in *. lia.
  - apply Forall_app. split; [|repeat constructor; simpl; lia].
    eapply Forall_impl; [exact H2|]. intros g Hg. simpl in *. lia.
  - lia.
  - intros e' Hin. apply elem_of_app in Hin as [Hin|Hin].
    + left. destruct (H4 e' Hin) as [(g & Hg & Hi)|Hr].
      * exists g. split; [apply elem_of_app; by left|done].
      * exists (mkSegment s l 0 0). split; [apply elem_of_app; right; by left|].
        unfold inside. simpl. rewrite andb_true_iff, !Z.leb_le. lia.
    + apply list_elem_of_singleton in Hin as ->. right. lia.
  - done.
  - done.
  - lia.
  - intros e' Hin. apply elem_of_app in Hin as [Hin|Hin].
    + destruct (H4 e' Hin) as [?|Hr]; [by left|right; lia].
    + apply list_elem_of_singleton in Hin as ->. right. lia.
Qed.

Lemma split_fold_ok seen st rest :
  split_ok seen st → StronglySorted (fun a b => ev_atMs a <= ev_atMs b) rest →
  Forall (fun e => st.2 <= ev_atMs e) rest → split_ok (seen ++ rest) (foldl split_step st rest).
Proof.
  revert seen st. induction rest as [|e rest IH]; intros seen st Hok Hs Hf; [by rewrite app_nil_r|].
  apply StronglySorted_inv in Hs as [Hs He]. apply Forall_cons in Hf as [Hle Hf].
  simpl. replace (seen ++ e :: rest) with ((seen ++ [e]) ++ rest) by (by rewrite <- app_assoc).
  apply IH; [by apply split_step_ok|done|].
  eapply Forall_impl; [exact He|]. intros e' Hle'. unfold split_step. destruct st as [[? ?] ?].
  by destruct (IDLE_GAP_THRESHOLD_MS <? _).
Qed.

Lemma split_segments_ok first rest :
  StronglySorted (fun a b => ev_atMs a <= ev_atMs b) (first :: rest) →
  let segs := split_segments (ev_atMs first) rest in
  StronglySorted seg_before segs ∧ Forall (fun g => seg_startMs g <= seg_endMs g) segs ∧
  ∀ e, e ∈ first :: rest → ∃ g, g ∈ segs ∧ inside (ev_atMs e) g = true.
Proof.
  intros Hs. apply StronglySorted_inv in Hs as [Hs Hf].
  assert (split_ok [first] ([], ev_atMs first, ev_atMs first)) as H0.
  { split; simpl; [constructor|constructor|lia|]. intros e He. apply list_elem_of_singleton in He as ->. right. lia. }
  apply (split_fold_ok _ _ rest H0 Hs) in Hf as [H1 H2 H3 H4]. unfold split_segments.
  destruct (foldl split_step _ rest) as [[segs s] l]. simpl in *. split; [|split].
  - apply StronglySorted_snoc; [done|]. eapply Forall_impl; [exact H2|]. intros g Hg. unfold seg_before. simpl in *. lia.
  - apply Forall_app. split; [|repeat constructor; simpl; lia]. eapply Forall_impl; [exact H2|]. intros g Hg. simpl in *. lia.
  - intros e He. destruct (H4 e He) as [(g & Hg & Hi)|Hr].
    + exists g. split; [apply elem_of_app; by left|done].
    + exists (mkSegment s l 0 0). split; [apply elem_of_app; right; by left|].
      unfold inside. simpl. rewrite andb_true_iff, !Z.leb_le. lia.
Qed.

(** ** Pixels *)

Definition seg_pxEnd (g : Segment) : Q := dadd (seg_pxStart g) (seg_pxWidth g).

(** A segment laid out between two cursors. *)
Definition placed (ppm c c' : Q) (g : Segment) : Prop :=
  (c <= seg_pxStart g ∧ is_double (seg_pxStart g) ∧ 0 <= seg_pxWidth g ∧
   dmul (inject_Z (seg_endMs g - seg_startMs g)) ppm <= seg_pxWidth g ∧ seg_pxEnd g <= c')%Q.

Lemma place_ok ppm first c segs :
  is_double c → (0 <= c)%Q →
  let r := place ppm first c segs in
  (c <= r.2)%Q ∧ is_double r.2 ∧ Forall (placed ppm c r.2) r.1 ∧
  StronglySorted (fun a b => seg_pxEnd a <= seg_pxStart b)%Q r.1 ∧
  (λ g, (seg_startMs g, seg_endMs g)) <$> r.1 = (λ g, (seg_startMs g, seg_endMs g)) <$> segs.
Proof.
  revert first c. induction segs as [|g segs IH]; intros first c Hd Hc r.
  { split; [apply Qle_refl|]. repeat split; try constructor. done. }
  unfold r. cbn [place]. set (px := if first then c else dadd c COMPRESSED_GAP_PX).
  set (w := qmax 4 _). assert (c <= px)%Q as Hpx.
  { unfold px. destruct first; [apply Qle_refl|]. apply dadd_grow; [done|]. unfold COMPRESSED_GAP_PX. lra. }
  assert (is_double px) as Hdp by (unfold px; destruct first; [done|apply dadd_is_double]).
  assert (4 <= w)%Q as Hw by apply qmax_l.
  destruct (IH false (dadd px w)) as (H1 & H2 & H3 & H4 & H5).
  { apply dadd_is_double. } { apply dadd_nonneg; lra. }
  assert (px <= dadd px w)%Q as Hgrow by (apply dadd_grow; [done|lra]).
  cbn [fst snd]. split; [lra|]. split; [done|]. split; [|split].
  - constructor.
    + unfold placed, seg_pxEnd. cbn [seg_pxStart seg_pxWidth seg_startMs seg_endMs].
      split; [done|]. split; [done|]. split; [lra|]. split; [apply qmax_r|done].
    + eapply Forall_impl; [exact H3|]. intros g' (P1 & P). split; [lra|exact P].
  - constructor; [done|]. eapply Forall_impl; [exact H3|]. intros g' (P1 & _). exact P1.
  - by rewrite !fmap_cons, H5.
Qed.

(** Two members of a strongly sorted list: equal, or one before the other. *)
Lemma StronglySorted_cases {A} (R : relation A) l x y :
  StronglySorted R l → x ∈ l → y ∈ l → x = y ∨ R x y ∨ R y x.
Proof.
  induction 1 as [|a l Hs IH Ha]; intros Hx Hy; [by apply not_elem_of_nil in Hx|].
  rewrite Forall_forall in Ha. apply elem_of_cons in Hx as [->|Hx], Hy as [->|Hy]; auto.
  all: try (right; left; by apply Ha). all: try (right; right; by apply Ha).
Qed.

Lemma StronglySorted_conj {A} (R S : relation A) l :
  StronglySorted R l → StronglySorted S l → StronglySorted (fun a b => R a b ∧ S a b) l.
Proof.
  induction 1 as [|a l Hs IH Ha]; intros HS; [constructor|].
  apply StronglySorted_inv in HS as [HS HSa]. constructor; [by apply IH|].
  rewrite Forall_forall in *. naive_solver.
Qed.

Lemma StronglySorted_fmap {A B} (f : A → B) (R : relation B) l :
  StronglySorted R (f <$> l) ↔ StronglySorted (fun a b => R (f a) (f b)) l.
Proof.
  induction l as [|a l IH]; [split; constructor|]. rewrite fmap_cons. split; intros H;
    apply StronglySorted_inv in H as [H Ha]; constructor; try (by apply IH);
    rewrite ?Forall_fmap in *; done.
Qed.

Lemma inside_spec ms g : inside ms g = true ↔ seg_startMs g <= ms <= seg_endMs g.
Proof. unfold inside. by rewrite andb_true_iff, !Z.leb_le. Qed.

(** Where an event of a laid-out segment is drawn. *)
Lemma inside_px ppm c c' g ms :
  (0 <= ppm)%Q → placed ppm c c' g → inside ms g = true →
  (seg_pxStart g <= dadd (seg_pxStart g) (dmul (inject_Z (ms - seg_startMs g)) ppm) <= seg_pxEnd g)%Q.
Proof.
  intros Hp (_ & Hd & Hw & Hle & _) Hi. apply inside_spec in Hi. split.
  - apply dadd_grow; [done|]. apply dmul_nonneg; [|done]. change 0%Q with (inject_Z 0). rewrite <- Zle_Qle. lia.
  - apply dadd_mono; [apply Qle_refl|]. eapply Qle_trans; [|exact Hle].
    apply dmul_mono_l; [|done]. rewrite <- Zle_Qle. lia.
Qed.

Lemma last_max (es : list TimelineEvent) e d :
  StronglySorted (fun a b => ev_atMs a <= ev_atMs b) es → e ∈ es → ev_atMs e <= match last es with Some x => ev_atMs x | None => d end.
Proof.
  intros Hs He. destruct (last es) as [x|] eqn:E.
  - apply last_Some in E as [es' ->]. apply elem_of_app in He as [He|He].
    + apply StronglySorted_app_1_elem_of with (x1 := e) (x2 := x) in Hs; [done|done|by left].
    + apply list_elem_of_singleton in He as ->. lia.
  - apply last_None in E as ->. by apply not_elem_of_nil in He.
Qed.

Lemma earlier_sorted events : StronglySorted (fun a b => ev_atMs a <= ev_atMs b) (sort_by earlier events).
Proof.
  eapply StronglySorted_weaken; [|apply sort_by_strongly_sorted].
  - intros a b. unfold earlier. rewrite Z.leb_le. lia.
  - intros a b. unfold earlier. rewrite !Z.leb_le. lia.
  - intros a b c. unfold earlier. rewrite !Z.leb_le. lia.
Qed.

(** A scale that draws the events in order, between 0 and its total. *)
Definition scale_ok (events : list TimelineEvent) (s : Scale) : Prop :=
  (∀ e, e ∈ events → (0 <= sc_toPx s (ev_atMs e) <= sc_totalPx s)%Q) ∧
  (∀ a b, a ∈ events → b ∈ events → ev_atMs a <= ev_atMs b →
     (sc_toPx s (ev_atMs a) <= sc_toPx s (ev_atMs b))%Q).

Lemma uncompressed_ok events first rest ppm :
  (0 <= ppm)%Q → sort_by earlier events = first :: rest → scale_ok events (buildScale events false ppm).
Proof.
  intros Hp E. pose proof (earlier_sorted events) as Hs. unfold buildScale. rewrite E in *. cbn [negb].
  assert (∀ e, e ∈ events → e ∈ first :: rest) as Hin by (intros e He; rewrite <- E; by apply elem_of_sort_by).
  assert (∀ e, e ∈ first :: rest → ev_atMs first <= ev_atMs e) as Hmin.
  { intros e He. apply elem_of_cons in He as [->|He]; [lia|].
    apply StronglySorted_inv in Hs as [_ Hf]. rewrite Forall_forall in Hf. by apply Hf. }
  split; cbn [sc_toPx sc_totalPx].
  - intros e He. apply Hin in He. split.
    + apply dmul_nonneg; [|done]. change 0%Q with (inject_Z 0). rewrite <- Zle_Qle. specialize (Hmin e He). lia.
    + eapply Qle_trans; [|apply qmax_r]. apply dmul_mono_l; [|done]. rewrite <- Zle_Qle.
      pose proof (last_max _ e (ev_atMs first) Hs He). lia.
  - intros a b _ _ Hab. apply dmul_mono_l; [|done]. rewrite <- Zle_Qle. lia.
Qed.

Lemma find_inside ms segs g :
  g ∈ segs → inside ms g = true → ∃ h, List.find (inside ms) segs = Some h ∧ h ∈ segs ∧ inside ms h = true.
Proof.
  intros Hg Hi. destruct (List.find (inside ms) segs) as [h|] eqn:E.
  - exists h. apply List.find_some in E as [Hh ?]. by rewrite <- list_elem_of_In in Hh.
  - apply list_elem_of_In in Hg. rewrite (List.find_none _ _ E g Hg) in Hi. done.
Qed.

Lemma placed_sorted segs r :
  (λ g, (seg_startMs g, seg_endMs g)) <$> r = (λ g, (seg_startMs g, seg_endMs g)) <$> segs →
  StronglySorted seg_before segs → StronglySorted seg_before r.
Proof.
  intros E. rewrite <- (StronglySorted_fmap (λ g, (seg_startMs g, seg_endMs g)) (fun x y => x.2 + IDLE_GAP_THRESHOLD_MS < y.1)).
  rewrite <- E. by rewrite StronglySorted_fmap.
Qed.

Lemma compressed_ok events first rest ppm :
  (0 <= ppm)%Q → sort_by earlier events = first :: rest → scale_ok events (buildScale events true ppm).
Proof.
  intros Hp E. pose proof (earlier_sorted events) as Hs. unfold buildScale. rewrite E in *. cbn [negb].
  destruct (split_segments_ok first rest Hs) as (Hb & _ & Hcover). set (segs := split_segments _ _) in *.
  destruct (place_ok ppm true 0 segs (inject_is_double 0 ltac:(lia)) ltac:(lra)) as (_ & _ & Hpl & Hpx & Hmap).
  destruct (place ppm true 0 segs) as [r total] eqn:Er. cbn [fst snd sc_toPx sc_totalPx] in *.
  assert (StronglySorted (fun a b => seg_before a b ∧ (seg_pxEnd a <= seg_pxStart b)%Q) r) as Hr
    by (apply StronglySorted_conj; [by eapply placed_sorted|done]).
  rewrite Forall_forall in Hpl.
  (* every event is in a laid-out segment *)
  assert (∀ e, e ∈ events → ∃ g, g ∈ r ∧ inside (ev_atMs e) g = true ∧
    compressed_toPx r ppm (ev_atMs e) = dadd (seg_pxStart g) (dmul (inject_Z (ev_atMs e - seg_startMs g)) ppm)) as Hev.
  { intros e He. assert (e ∈ first :: rest) as He' by (rewrite <- E; by apply elem_of_sort_by).
    destruct (Hcover e He') as (g & Hg & Hi).
    assert ((seg_startMs g, seg_endMs g) ∈ (λ g, (seg_startMs g, seg_endMs g)) <$> r) as Hin
      by (rewrite Hmap; by apply (list_elem_of_fmap_2 (λ g, (seg_startMs g, seg_endMs g)))).
    apply list_elem_of_fmap in Hin as (g' & [= Es Ee] & Hg').
    destruct (find_inside (ev_atMs e) r g' Hg') as (h & Hf & Hh & Hih).
    { apply inside_spec. apply inside_spec in Hi. lia. }
    exists h. split; [done|]. split; [done|]. unfold compressed_toPx. by rewrite Hf. }
  unfold scale_ok. cbn [sc_toPx sc_totalPx]. split.
  - intros e He. destruct (Hev e He) as (g & Hg & Hi & ->). pose proof (Hpl g Hg) as Hgp.
    destruct (inside_px ppm 0 total g _ Hp Hgp Hi) as [Hlo Hhi]. destruct Hgp as (H0 & _ & _ & _ & Ht).
    split; [lra|lra].
  - intros a b Ha Hb' Hab. destruct (Hev a Ha) as (g & Hg & Hi & ->), (Hev b Hb') as (h & Hh & Hj & ->).
    destruct (inside_px ppm 0 total g _ Hp (Hpl g Hg) Hi) as [_ Hg2].
    destruct (inside_px ppm 0 total h _ Hp (Hpl h Hh) Hj) as [Hh1 _].
    destruct (StronglySorted_cases _ r g h Hr Hg Hh) as [->|[[_ Hbef]|[Hbef _]]].
    + apply dadd_mono; [apply Qle_refl|]. apply dmul_mono_l; [|done]. rewrite <- Zle_Qle. lia.
    + lra.
    + exfalso. unfold seg_before in Hbef. apply inside_spec in Hi, Hj.
      assert (0 < IDLE_GAP_THRESHOLD_MS) by done. lia.
Qed.

Lemma buildScale_ok events compress ppm : (0 <= ppm)%Q → scale_ok events (buildScale events compress ppm).
Proof.
  intros Hp. destruct (sort_by earlier events) as [|first rest] eqn:E.
  - assert (events = []) as ->.
    { apply Permutation_nil_r. rewrite <- E. symmetry. apply sort_by_perm. }
    split; [intros e He|intros a b He]; by apply not_elem_of_nil in He.
  - destruct compress; [by eapply compressed_ok|by eapply uncompressed_ok].
Qed.

Lemma timeline_zoom s : timeline_reachable s → (1 # 4 <= tl_zoom s <= 8)%Q.
Proof.
  induction 1 as [|s Hr IH|s Hr IH|s Hr IH|id s Hr IH]; simpl in *; try done.
  - split; [apply qmax_l|]. unfold qmax. case_match; [|lra].
    assert (tl_zoom s / (3 # 2) <= 8)%Q as H1 by (apply Qle_shift_div_r; lra).
    apply fl_mono in H1. assert (fl 8 == 8)%Q as H8 by reflexivity. unfold ddiv. lra.
  - split; [|apply qmin_l]. unfold qmin. case_match; [lra|].
    assert (1 # 4 <= tl_zoom s * (3 # 2))%Q as H1 by lra.
    apply fl_mono in H1. assert (fl (1 # 4) == (1 # 4))%Q as H8 by reflexivity. unfold dmul. lra.
Qed.

Lemma pxPerMs_nonneg zoom : (0 <= zoom → 0 <= pxPerMs zoom)%Q.
Proof.
  intros Hz. unfold pxPerMs. case_match; [apply fl_nonneg; lra|]. apply dmul_nonneg; [apply fl_nonneg; lra|done].
Qed.

(** Without compression the last event is at the total length, when there is one. *)
Lemma latest_at_end events ppm e : (0 <= ppm)%Q → e ∈ events → (∀ a, a ∈ events → ev_atMs a <= ev_atMs e) →
  let s := buildScale events false ppm in (1 < sc_totalPx s → sc_toPx s (ev_atMs e) == sc_totalPx s)%Q.
Proof.
  intros Hp He Hmax. pose proof (earlier_sorted events) as Hs. unfold buildScale.
  assert (∀ a, a ∈ events ↔ a ∈ sort_by earlier events) as Hin by (intros a; symmetry; apply elem_of_sort_by).
  destruct (sort_by earlier events) as [|first rest] eqn:E; [apply Hin, not_elem_of_nil in He; done|].
  cbn [negb sc_toPx sc_totalPx].
  assert (match last (first :: rest) with Some e => ev_atMs e | None => ev_atMs first end = ev_atMs e) as ->.
  { apply Hin in He. pose proof (last_max _ e (ev_atMs first) Hs He) as Hle.
    destruct (last (first :: rest)) as [l|] eqn:El; [|by apply last_None in El].
    pose proof (Hmax l (proj2 (Hin l) (last_Some_elem_of _ _ El))). lia. }
  unfold qmax. case_match; [|done]. intros Hlt. lra.
Qed.

(** The body of a band is as wide as the track without its labels. *)
Lemma track_width total : (0 <= total <= 4503599627370496)%Q →
  let width := qmax 800 (dadd total 80) in
  (800 <= width ∧ (total <= 656 → LABEL_PX + total <= width) ∧ LABEL_PX + total <= width + 65 ∧
   (656 < total → width < LABEL_PX + total))%Q.
Proof.
  intros Ht. unfold dadd, LABEL_PX. destruct (fl_err 4503599627370576 (total + 80)) as (e & Ee & He); [lra|].
  assert (fl (total + 80) <= qmax 800 (fl (total + 80)))%Q by apply qmax_r. assert (800 <= qmax 800 (fl (total + 80)))%Q by apply qmax_l.
  split; [done|]. split; [lra|]. split; [lra|]. intros Hlt. unfold qmax. case_match; lra.
Qed.

(** C40: the track, in every state the page can reach: the zoom stays between 1/4 and
    8; there is one band per tactic, in order, with one marker per event of that
    tactic, in the events' order; a marker is never left of the end of the labels nor
    right of the total length after it; an event never lies left of an earlier one,
    with or without the compression of idle time.  The track's width leaves 80 pixels
    after the total length and the labels take 144: up to a total of 656 pixels every
    marker is inside the track, beyond it a marker can be up to 65 pixels outside,
    and without compression the latest event's is. *)
Theorem track_ok toLocaleString events s :
  timeline_reachable s →
  let scale := buildScale events (tl_compress s) (pxPerMs (tl_zoom s)) in
  let total := sc_totalPx scale in
  let '(width, bands) := TimelineTrack toLocaleString events (tl_compress s) (tl_zoom s) (tl_selectedEventId s) in
  (1 # 4 <= tl_zoom s <= 8)%Q ∧ (800 <= width)%Q ∧
  tb_tactic <$> bands = TACTICS ∧
  (∀ band, band ∈ bands →
     let es := List.filter (fun e => bool_decide (ev_tactic e = tb_tactic band)) events in
     mk_event <$> tb_markers band = ev_id <$> es ∧
     track_left band <$> tb_markers band = (fun e => LABEL_PX + sc_toPx scale (ev_atMs e))%Q <$> es) ∧
  (∀ e, e ∈ events → (0 <= sc_toPx scale (ev_atMs e) <= total)%Q) ∧
  (∀ a b, a ∈ events → b ∈ events → ev_atMs a <= ev_atMs b →
     (sc_toPx scale (ev_atMs a) <= sc_toPx scale (ev_atMs b))%Q) ∧
  (∀ e, e ∈ events → (total <= 4503599627370496)%Q →
     let centre := (LABEL_PX + sc_toPx scale (ev_atMs e))%Q in
     (total <= 656 → centre <= width)%Q ∧ (centre <= width + 65)%Q ∧
     (tl_compress s = false → (∀ a, a ∈ events → ev_atMs a <= ev_atMs e) → (656 < total → width < centre)%Q)).
Proof.
  intros Hr scale total. unfold TimelineTrack. fold scale total. pose proof (timeline_zoom s Hr) as Hz.
  assert (0 <= pxPerMs (tl_zoom s))%Q as Hp by (apply pxPerMs_nonneg; lra).
  destruct (buildScale_ok events (tl_compress s) _ Hp) as [Hrange Hmono]. fold scale total in Hrange, Hmono.
  split; [done|]. split; [apply qmax_l|]. split; [done|]. split; [|split; [done|]; split; [done|]].
  - intros band Hin. change (map ?f TACTICS) with (f <$> TACTICS) in Hin.
    apply list_elem_of_fmap in Hin as (t & -> & _). cbn [tb_tactic tb_markers].
    match goal with |- context [map ?f ?l] => change (map f l) with (f <$> l) end.
    by rewrite <- !list_fmap_compose.
  - intros e He Ht. pose proof (Hrange e He). destruct (track_width total ltac:(lra)) as (_ & H1 & H2 & H3).
    split; [intros; lra|]. split; [lra|]. intros Hc Hlast Hlt.
    pose proof (latest_at_end events _ e Hp He Hlast) as El. cbv zeta in El.
    assert (buildScale events false (pxPerMs (tl_zoom s)) = scale) as Es by (unfold scale; by rewrite Hc).
    rewrite Es in El. fold total in El. specialize (El ltac:(lra)). specialize (H3 Hlt). lra.
Qed.

Definition demo_event (n : nat) (at_ : Z) (t : Tactic) : TimelineEvent :=
  mkTimelineEvent (to_dec (Z.of_nat n)) at_ t "P" "host-1" "claim".
(** Two bursts with a quiet day between them. *)
Definition demo_events : list TimelineEvent :=
  [demo_event 0 0 initial_access; demo_event 1 600000 execution; demo_event 2 90000000 execution;
   demo_event 3 93000000 impact].

Lemma track_ok_witness :
  timeline_reachable (zoom_in (toggle_compress timeline_initial)) ∧
  Qle (sc_toPx (buildScale demo_events true (pxPerMs (3 # 2))) 600000)
      (sc_toPx (buildScale demo_events true (pxPerMs (3 # 2))) 90000000) ∧
  sc_totalPx (buildScale demo_events true (pxPerMs 1)) = 240%Q ∧
  (let '(width, _) := TimelineTrack (fun _ => "") demo_events false 1 None in
   width < LABEL_PX + sc_toPx (buildScale demo_events false (pxPerMs 1)) 93000000)%Q.
Proof.
  assert (timeline_reachable (zoom_in (toggle_compress timeline_initial))) as Hr by (repeat constructor).
  split; [exact Hr|]. split; [|split; [by vm_compute|]].
  - destruct (track_ok (fun _ => "") demo_events _ Hr) as (_ & _ & _ & _ & _ & H & _).
    apply (H (demo_event 1 600000 execution) (demo_event 2 90000000 execution)); [by repeat constructor..|done].
  - destruct (track_ok (fun _ => "") demo_events timeline_initial ltac:(constructor)) as (_ & _ & _ & _ & _ & _ & H).
    apply (H (demo_event 3 93000000 impact)); [by repeat constructor|by vm_compute|done| |by vm_compute].
    intros a Ha. repeat (apply elem_of_cons in Ha as [->|Ha]; [by vm_compute|]). by apply not_elem_of_nil in Ha.
Defined.
