(* ===== verification/Widgets.v ===== *)
(** * Small components: web/src/components/dataviz and the cells of the watchfloor

    Number texts, the sparkline, the stat tiles, the risk meter, the chips, the
    live feed's column and the relative ages of the two tables.  A colour class is
    left out, except where it is computed ([tile_tone]). *)

From S2P Require Import Prelude JsNum Doubles View Types.
From Stdlib Require Import QArith Lqa Qround.
Open Scope Z_scope.

(** ** Numbers as text (format.ts) *)

(** [toFixed(1)]: the nearest tenth, halves away from zero. *)
Definition tenths (n : Z) : string := to_dec (n / 10) +:+ "." +:+ to_dec (n mod 10).
Definition to_fixed1 (q : Q) : string :=
  if Qltb q 0 then "-" +:+ tenths (Qfloor (- q * 10 + (1 # 2))) else tenths (Qfloor (q * 10 + (1 # 2))).

(** Of an integer: [toLocaleString("en-US")] is reached below one thousand only,
    where it has no separator. *)
Definition formatCompact (n : Z) : string :=
  if 1000000 <=? Z.abs n then to_fixed1 (ddiv (inject_Z n) 1000000) +:+ "M"
  else if 1000 <=? Z.abs n then to_fixed1 (ddiv (inject_Z n) 1000) +:+ "K"
  else to_dec n.

Definition formatDuration (seconds : Z) : string :=
  if seconds <? 60 then to_dec seconds +:+ "s"
  else
    let minutes := js_floor (ddiv (inject_Z seconds) 60) in
    let rem := Z.rem seconds 60 in
    if minutes <? 60 then
      if 0 <? rem then to_dec minutes +:+ "m " +:+ to_dec rem +:+ "s" else to_dec minutes +:+ "m"
    else
      let hours := js_floor (ddiv (inject_Z minutes) 60) in
      to_dec hours +:+ "h " +:+ to_dec (Z.rem minutes 60) +:+ "m".

Definition formatStatValue (value : Z) (unit : StatUnit) : string :=
  match unit with
  | u_count => formatCompact value
  | u_duration_s => formatDuration value
  | u_percent => to_dec value +:+ "%"
  end.

(** ** Sparkline (sparkline.tsx), at its default size *)

Definition spark_width : Z := 64.
Definition spark_height : Z := 20.

Definition zmin_list (l : list Z) : Z := match l with x :: l' => foldl Z.min x l' | [] => 0 end.
Definition zmax_list (l : list Z) : Z := match l with x :: l' => foldl Z.max x l' | [] => 0 end.

Definition spark_point (values : list Z) (i : nat) (v : Z) : Q * Q :=
  let min := zmin_list values in
  let max := zmax_list values in
  let range := if max - min =? 0 then 1 else max - min in
  let stepX := ddiv (inject_Z spark_width) (inject_Z (Z.of_nat (length values) - 1)) in
  (dmul (inject_Z (Z.of_nat i)) stepX,
   dsub (inject_Z spark_height) (dmul (ddiv (inject_Z (v - min)) (inject_Z range)) (inject_Z spark_height))).

Definition spark_points (values : list Z) : list (Q * Q) := imap (spark_point values) values.

Fixpoint join_with (sep : string) (l : list string) : string :=
  match l with [] => EmptyString | [x] => x | x :: l' => x +:+ sep +:+ join_with sep l' end.

(** The path's [d] and the centre of the last point's dot; [null] below two values. *)
Definition Sparkline (values : list Z) : option (string * (Q * Q)) :=
  if (length values <? 2)%nat then None
  else
    let points := spark_points values in
    Some (join_with " " (imap (fun i p => (if (i =? 0)%nat then "M" else "L") +:+ to_fixed1 p.1 +:+ "," +:+ to_fixed1 p.2) points),
          match last points with Some p => p | None => (0%Q, 0%Q) end).

(** ** Stat tile (stat-tile.tsx) and strip (stat-strip.tsx) *)

Inductive Tone := flat | improved | worsened.

Definition tile_tone (tile : StatTile) : Tone :=
  let isImprovement :=
    match tile_goodDirection tile with g_up => 0 <? tile_delta tile | g_down => tile_delta tile <? 0 end in
  if tile_delta tile =? 0 then flat else if isImprovement then improved else worsened.

Definition delta_suffix (unit : StatUnit) : string :=
  match unit with u_percent => "pp" | u_duration_s => "s" | u_count => "" end.

Definition StatTileView (tile : StatTile) : view :=
  let isFlat := tile_delta tile =? 0 in
  El "div" [("key", Some (tile_id tile))]
   [El "span" [] [Txt (tile_label tile)];
    El "div" []
     (El "span" [] [Txt (formatStatValue (tile_value tile) (tile_unit tile))] ::
      match Sparkline (tile_trend tile) with
      | Some (path, _) => [El "svg" [("aria-hidden", Some "true")] [El "path" [("d", Some path)] []; El "circle" [] []]]
      | None => []
      end);
    El "div" []
     (when (negb isFlat)
        (El "span" []
          [El (if 0 <=? tile_delta tile then "ArrowUp" else "ArrowDown") [("aria-hidden", Some "true")] [];
           Txt (to_dec (Z.abs (tile_delta tile))); Txt (delta_suffix (tile_unit tile))]) ++
      [El "span" [] [Txt (tile_baselineLabel tile)]])].

(** [tiles] is what the query has. *)
Definition StatStrip (tiles : option (list StatTile)) : view :=
  El "div" [] (map StatTileView (default [] tiles)).

(** ** Labels, chips and the meter *)

Definition SeverityLabel (s : Severity) : view := El "span" [] [Txt (severity_name s)].
Definition DispositionLabel (d : Disposition) : view := El "span" [] [Txt (disposition_name d)].

(** The width of the fill, in percent. *)
Definition meter_pct (score : Z) : Z := js_round (dmul (ddiv (inject_Z score) 10000) 100).

Definition RiskMeter (score : Z) (severity : Severity) : view :=
  El "div" [("role", Some "meter"); ("aria-valuenow", Some (to_dec score)); ("aria-valuemin", Some "0");
            ("aria-valuemax", Some "10000");
            ("aria-label", Some ("Risk score " +:+ to_dec score +:+ " of 10000, severity " +:+ severity_name severity))]
   [El "div" [("style", Some ("width: " +:+ to_dec (meter_pct score) +:+ "%"))] []].

Definition TacticChips (tactics : list Tactic) (max : nat) : view :=
  let shown := take max tactics in
  let overflow := Z.of_nat (length tactics) - Z.of_nat (length shown) in
  El "div" []
   (map (fun t => El "span" [("key", Some (tactic_name t))] [Txt (tactic_name t)]) shown ++
    when (0 <? overflow) (El "span" [] [Txt "+"; Txt (to_dec overflow)])).

(** ** The live feed (event-ticker.tsx) *)

Definition EventTicker (fires : list DetectorFireEvent) (ingestRatePerSec : Q) (connected : bool) : view :=
  El "aside" []
   [El "div" []
     [El "span" [] [Txt "Live feed"];
      El "span" [] [El "span" [("aria-hidden", Some "true")] []; Txt (if connected then "connected" else "reconnecting…")]];
    El "div" [] [El "span" [] [Txt (to_fixed1 ingestRatePerSec)]; El "span" [] [Txt "events/sec"]];
    El "ul" []
     (map (fun f => El "li" [("key", Some (fire_id f))]
        [El "div" [] (Txt <$> option_list (fire_ruleId f)); El "div" [] [Txt (fire_entity f)]]) fires ++
      when (length fires =? 0)%nat (El "li" [] [Txt "Waiting for detector fires…"]))].

(** ** Relative ages *)

(** What both tables print for an age in seconds. *)
Definition age_text (deltaS : Z) : string :=
  if deltaS <? 60 then to_dec deltaS +:+ "s"
  else if deltaS <? 3600 then to_dec (js_round (ddiv (inject_Z deltaS) 60)) +:+ "m"
  else if deltaS <? 86400 then to_dec (js_round (ddiv (inject_Z deltaS) 3600)) +:+ "h"
  else to_dec (js_round (ddiv (inject_Z deltaS) 86400)) +:+ "d".

(** case-table.tsx: [ms] and [now] in milliseconds. *)
Definition relativeAge (now ms : Z) : string :=
  age_text (Z.max 0 (js_round (ddiv (inject_Z (now - ms)) 1000))).

(** manifest-table.tsx: [ns] in nanoseconds, a double of some 2 ^ 60. *)
Definition relativeAge_ns (now ns : Z) : string :=
  age_text (Z.max 0 (js_round (ddiv (dsub (inject_Z now) (ddiv (inject_Z ns) 1000000)) 1000))).

(** ** Bounds *)

Lemma foldl_min_spec l x : (foldl Z.min x l <= x) ∧ Forall (fun v => foldl Z.min x l <= v) l.
Proof.
  revert x. induction l as [|y l IH]; intros x; [split; [simpl; lia|constructor]|]. simpl.
  destruct (IH (Z.min x y)) as [H1 H2]. split; [lia|]. constructor; [lia|done].
Qed.

Lemma foldl_max_spec l x : (x <= foldl Z.max x l) ∧ Forall (fun v => v <= foldl Z.max x l) l.
Proof.
  revert x. induction l as [|y l IH]; intros x; [split; [simpl; lia|constructor]|]. simpl.
  destruct (IH (Z.max x y)) as [H1 H2]. split; [lia|]. constructor; [lia|done].
Qed.

(** The extremes are among the values. *)
Lemma foldl_min_in l x : foldl Z.min x l ∈ x :: l.
Proof.
  revert x. induction l as [|y l IH]; intros x; [by left|]. simpl. specialize (IH (Z.min x y)).
  apply elem_of_cons in IH as [->|IH]; [|by do 2 right]. destruct (Z.min_spec x y) as [[_ ->]|[_ ->]]; set_solver.
Qed.

Lemma foldl_max_in l x : foldl Z.max x l ∈ x :: l.
Proof.
  revert x. induction l as [|y l IH]; intros x; [by left|]. simpl. specialize (IH (Z.max x y)).
  apply elem_of_cons in IH as [->|IH]; [|by do 2 right]. destruct (Z.max_spec x y) as [[_ ->]|[_ ->]]; set_solver.
Qed.

Lemma min_max_list l v : v ∈ l → zmin_list l <= v <= zmax_list l.
Proof.
  destruct l as [|x l]; intros Hv; [by apply not_elem_of_nil in Hv|]. simpl.
  destruct (foldl_min_spec l x) as [H1 H2], (foldl_max_spec l x) as [H3 H4]. rewrite Forall_forall in H2, H4.
  apply elem_of_cons in Hv as [->|Hv]; [lia|]. specialize (H2 v Hv). specialize (H4 v Hv). lia.
Qed.

(** The y of every point is inside the drawing. *)
Lemma spark_point_y values i v :
  v ∈ values → (0 <= (spark_point values i v).2 <= 20)%Q.
Proof.
  intros Hv. apply min_max_list in Hv. unfold spark_point. cbn [snd].
  set (range := if _ =? 0 then 1 else _).
  assert (0 < range ∧ v - zmin_list values <= range) as [Hr Hle]
    by (unfold range; destruct (Z.eqb_spec (zmax_list values - zmin_list values) 0); lia).
  clearbody range. change (inject_Z spark_height) with 20%Q.
  assert (0 < inject_Z range)%Q as Hrq by (change 0%Q with (inject_Z 0); by rewrite <- Zlt_Qlt).
  assert (0 <= ddiv (inject_Z (v - zmin_list values)) (inject_Z range) <= 1)%Q as [H0 H1].
  { split; [apply (fl_ge_Z _ 0); [done|]; apply Qle_shift_div_l|apply (fl_le_Z _ 1); [done|]; apply Qle_shift_div_r];
      rewrite ?Qmult_0_l, ?Qmult_1_l, <- ?Zle_Qle; try done; change 0%Q with (inject_Z 0); rewrite <- Zle_Qle; lia. }
  set (t := ddiv _ _) in *.
  assert (0 <= dmul t 20 <= 20)%Q as [H2 H3]
    by (split; [apply (fl_ge_Z _ 0)|apply (fl_le_Z _ 20)]; [done| |done|]; unfold inject_Z; lra).
  split; [apply (fl_ge_Z _ 0)|apply (fl_le_Z _ 20)]; try done; unfold inject_Z; lra.
Qed.

Lemma js_round_mono a b : (a <= b)%Q → js_round a <= js_round b.
Proof. intros H. apply Qfloor_resp_le. lra. Qed.

Lemma meter_pct_range score : 0 <= score <= 10000 → 0 <= meter_pct score <= 100.
Proof.
  intros Hs. unfold meter_pct.
  assert (ddiv (inject_Z 0) 10000 <= ddiv (inject_Z score) 10000 <= ddiv (inject_Z 10000) 10000)%Q as [H1 H2]
    by (split; (apply ddiv_mono_l; [rewrite <- Zle_Qle; lia|lra])).
  split.
  - change 0 with (js_round (dmul (ddiv (inject_Z 0) 10000) 100)). apply js_round_mono, dmul_mono_l; [done|lra].
  - transitivity (js_round (dmul (ddiv (inject_Z 10000) 10000) 100)); [|by vm_compute]. apply js_round_mono, dmul_mono_l; [done|lra].
Qed.

(** Just below an hour and a day the rounded unit carries over: "60m", "24h". *)
Lemma age_carries : age_text 3599 = "60m" ∧ age_text 86399 = "24h" ∧ age_text 3600 = "1h" ∧ age_text 86400 = "1d".
Proof. by vm_compute. Qed.
