(* ===== verification/WatchfloorView.v ===== *)
(** * What the Watchfloor shows: web/src/components/watchfloor

    The case table (case-table.tsx), the filter rail (filter-rail.tsx), the dismiss
    dialog (dismiss-dialog.tsx) and the page around them (watchfloor-client.tsx),
    over the state of Watchfloor.  The two libraries of the table are what they
    return: the rows in the order shown, how each column is sorted, and which rows
    are in the window ([Table], with its documented laws [TableLaws]). *)

From S2P Require Import Prelude JsNum View Types Seed Store Stream Watchfloor Widgets.
From Stdlib Require Import QArith.
Open Scope Z_scope.

(** ** The case table *)

(** [columns], by accessor. *)
Inductive Column :=
| col_riskScore | col_title | col_primaryEntity | col_tactics
| col_claimCount | col_updatedAtMs | col_status | col_assignee.

Definition columns : list Column :=
  [col_riskScore; col_title; col_primaryEntity; col_tactics; col_claimCount; col_updatedAtMs; col_status; col_assignee].

Definition col_id (k : Column) : string :=
  match k with
  | col_riskScore => "riskScore" | col_title => "title" | col_primaryEntity => "primaryEntity"
  | col_tactics => "tactics" | col_claimCount => "claimCount" | col_updatedAtMs => "updatedAtMs"
  | col_status => "status" | col_assignee => "assignee"
  end.

Definition col_header (k : Column) : string :=
  match k with
  | col_riskScore => "Risk" | col_title => "Title" | col_primaryEntity => "Primary entity"
  | col_tactics => "Tactics" | col_claimCount => "Claims" | col_updatedAtMs => "Age"
  | col_status => "Status" | col_assignee => "Assignee"
  end.

(** [enableSorting: false] on the tactics only. *)
Definition col_sortable (k : Column) : bool := match k with col_tactics => false | _ => true end.

(** The [cell] of a column; the default one prints the value. *)
Definition cell (now : Z) (k : Column) (c : Case) : view :=
  match k with
  | col_riskScore => RiskMeter (case_riskScore c) (case_severity c)
  | col_title => El "div" [] [El "span" [] [Txt (case_title c)]; DispositionLabel (case_disposition c)]
  | col_primaryEntity => El "span" [] [Txt (case_primaryEntity c)]
  | col_tactics => TacticChips (case_tactics c) 3
  | col_claimCount => Txt (to_dec (case_claimCount c))
  | col_updatedAtMs => El "span" [] [Txt (relativeAge now (case_createdAtMs c))]
  | col_status => El "span" [] [Txt (status_name (case_status c))]
  | col_assignee => El "span" [] [Txt (default "—" (case_assignee c))]
  end.

(** What the two libraries answer: [getRowModel().rows], [getIsSorted()] ([Some
    true] is ["desc"]) and [getVirtualItems()], as row indices. *)
Record Table := mkTable {
  tb_rows : list Case;
  tb_sorted : Column → option bool;
  tb_items : list nat;
}.

(** The row model holds the rows of the data, and the window lists rows of it,
    each once. *)
Record TableLaws (cases : list Case) (t : Table) : Prop := {
  tl_rows : tb_rows t ≡ₚ cases;
  tl_items : Forall (fun i => (i < length (tb_rows t))%nat) (tb_items t);
  tl_once : NoDup (tb_items t);
}.

(** The effect on a change of selection: the index handed to [scrollToIndex]. *)
Definition scroll_target (rows : list Case) (selectedId : option string) : option nat :=
  match truthy selectedId with
  | Some id => index_of id (case_id <$> rows)
  | None => None
  end.

Definition HeaderCell (t : Table) (k : Column) : view :=
  El "button" [("key", Some (col_id k)); ("type", Some "button"); ("role", Some "columnheader");
               ("aria-sort", Some (match tb_sorted t k with
                                   | Some desc => if desc then "descending" else "ascending"
                                   | None => "none"
                                   end));
               ("disabled", flag_attr (negb (col_sortable k)))]
   (Txt (col_header k) :: when (col_sortable k) (El "ArrowUpDown" [("aria-hidden", Some "true")] [])).

Definition RowCell (now : Z) (c : Case) (k : Column) : view :=
  El "div" [("key", Some (case_id c +:+ "_" +:+ col_id k)); ("role", Some "gridcell")] [cell now k c].

Definition CaseRow (now : Z) (selectedId expandedId : option string) (i : nat) (c : Case) : view :=
  let isExpanded := bool_decide (expandedId = Some (case_id c)) in
  let isSelected := bool_decide (selectedId = Some (case_id c)) in
  El "div" [("key", Some (case_id c)); ("data-index", Some (to_dec (Z.of_nat i)))]
   (El "div" [("role", Some "row"); ("aria-selected", bool_attr isSelected); ("tabIndex", Some "-1")]
      (map (RowCell now c) columns) ::
    when isExpanded (El "div" [] [Txt (case_summary c)])).

(** [rows[virtualRow.index]], whose [original] is read at once. *)
Definition window_rows (now : Z) (t : Table) (selectedId expandedId : option string) : outcome (list view) :=
  mapM_out (fun i => c ← or_throw TypeError (tb_rows t !! i); Ok (CaseRow now selectedId expandedId i c)) (tb_items t).

Definition CaseTable (now : Z) (t : Table) (selectedId expandedId : option string) : outcome view :=
  rows ← window_rows now t selectedId expandedId;
  Ok (El "div" [("role", Some "grid"); ("aria-rowcount", Some (to_dec (Z.of_nat (length (tb_rows t)))));
                ("aria-label", Some "Case queue")]
       [El "div" [("role", Some "row")] (map (HeaderCell t) columns);
        El "div" [("tabIndex", Some "0"); ("role", Some "rowgroup"); ("data-testid", Some "case-table-scroll")]
         [El "div" [] rows]]).

(** ** The filter rail *)

Section group.
Context {T : Type} `{Countable T} (name : T → string).

Definition FilterOption (counts : gmap T Z) (selected : gset T) (option : T) : view :=
  El "label" [("key", Some (name option))]
   [El "span" []
     [El "input" [("type", Some "checkbox"); ("checked", flag_attr (bool_decide (option ∈ selected)))] [];
      El "span" [] [Txt (name option)]];
    El "span" [] [Txt (to_dec (shown counts option))]].

Definition FilterGroup (title : string) (options : list T) (counts : gmap T Z) (selected : gset T) : view :=
  El "div" [] (El "h3" [] [Txt title] :: map (FilterOption counts selected) options).

End group.

(** [Array.from(tenantCounts.keys()).sort()] *)
Definition rail_tenants (r : RailCounts) : list string := sort_by string_leb (map_to_list (rc_tenant r)).*1.

Definition FilterRail (cases : list Case) (filters : FilterState) : view :=
  let r := rail_counts cases in
  El "aside" []
   [FilterGroup severity_name "Severity" SEVERITIES (rc_severity r) (fl_severities filters);
    FilterGroup disposition_name "Disposition" DISPOSITIONS (rc_disposition r) (fl_dispositions filters);
    FilterGroup (fun t => t) "Tenant" (rail_tenants r) (rc_tenant r) (fl_tenants filters);
    FilterGroup tactic_name "ATT&CK tactic" TACTICS (rc_tactic r) (fl_tactics filters);
    El "label" []
     [El "span" []
       [El "input" [("type", Some "checkbox"); ("checked", flag_attr (fl_unassignedOnly filters))] [];
        Txt "Unassigned only"];
      El "span" [] [Txt (to_dec (rc_unassigned r))]]].

(** ** The dismiss dialog *)

Definition DismissDialog (caseTitle : string) (s : Surface) : list view :=
  when (bool_decide (is_Some (sf_dismissTarget s)))
   (El "DialogContent" []
     [El "DialogTitle" [] [Txt "Dismiss case"];
      El "DialogDescription" [] [Txt caseTitle];
      El "Label" [("htmlFor", Some "dismiss-reason")] [Txt "Reason"];
      El "Textarea" [("id", Some "dismiss-reason"); ("value", Some (sf_reason s));
                     ("placeholder", Some "Why is this dismissed?"); ("autoFocus", Some "")] [];
      El "DialogFooter" []
       [El "Button" [] [Txt "Cancel"];
        El "Button" [("disabled", flag_attr (dismiss_disabled s))] [Txt "Dismiss"]]]).

(** ** The page *)

(** [tiles] and [stream] are what the hooks hold, [rows] the rows of the stream,
    [table] what the libraries make of the rows given. *)
Definition WatchfloorClient (now : Z) (tiles : option (list StatTile)) (stream : CaseStreamState) (rows : list Case)
    (table : list Case → Table) (expandedId : option string) (s : Surface) : outcome view :=
  grid ← CaseTable now (table (filteredCases rows s)) (sf_selectedId s) expandedId;
  Ok (El "div" []
       ([StatStrip tiles;
         El "div" []
          [FilterRail (allCases rows (sf_overrides s)) (sf_filters s); grid;
           EventTicker (cs_detectorFires stream) (cs_ingestRatePerSec stream) (cs_connected stream)]] ++
        DismissDialog (match sf_dismissTarget s with Some c => case_title c | None => "" end) s)).

(** ** The grid *)

Lemma TacticChips_quiet m tactics max : m ∈ grid_marks → by_attr m.1 m.2 [TacticChips tactics max] = [].
Proof.
  intros Hm. unfold TacticChips. mark_cases Hm; look; rewrite select_app, select_map_nil by done; by destruct (_ <? _).
Qed.

Lemma cell_quiet m now k c : m ∈ grid_marks → by_attr m.1 m.2 [cell now k c] = [].
Proof. intros Hm. destruct k; try (by apply TacticChips_quiet); mark_cases Hm; reflexivity. Qed.

Lemma RowCell_marks now c k m : m ∈ grid_marks →
  by_attr m.1 m.2 [RowCell now c k] = if decide (m = ("role", "gridcell")) then [RowCell now c k] else [].
Proof.
  intros Hm. pose proof (cell_quiet m now k c Hm) as Hq. unfold RowCell. mark_cases Hm; look; by rewrite Hq.
Qed.

Lemma HeaderCell_marks t k m : m ∈ grid_marks →
  by_attr m.1 m.2 [HeaderCell t k] = if decide (m = ("role", "columnheader")) then [HeaderCell t k] else [].
Proof. intros Hm. unfold HeaderCell. destruct k; mark_cases Hm; by look. Qed.

(** The rows in the window, each with its index. *)
Lemma window_rows_Ok cases t now sel exp : TableLaws cases t →
  ∃ shown, window_rows now t sel exp = Ok (map (fun p => CaseRow now sel exp p.1 p.2) shown) ∧
    shown.*1 = tb_items t ∧ Forall (fun p => tb_rows t !! p.1 = Some p.2) shown.
Proof.
  intros [_ Hin _]. unfold window_rows. induction (tb_items t) as [|i items IH]; [by exists []|].
  apply Forall_cons_1 in Hin as [Hi Hin]. destruct (IH Hin) as (shown & Hr & Hf & Ha). cbn [mapM_out].
  destruct (lookup_lt_is_Some_2 _ _ Hi) as [c Hc]. rewrite Hc. cbn. rewrite Hr.
  exists ((i, c) :: shown). split; [done|]. split; [by csimpl; rewrite Hf|]. by constructor.
Qed.

Lemma marks_columns {A} (f : A → view) (l : list A) (m : string * string) (mine : bool) :
  (∀ k, by_attr m.1 m.2 [f k] = if mine then [f k] else []) →
  by_attr m.1 m.2 (map f l) = if mine then map f l else [].
Proof.
  intros H. unfold by_attr in *. destruct mine; [|by apply select_map_nil].
  rewrite (select_map _ _ (fun k => [f k])) by done. induction l; [done|]. simpl. by f_equal.
Qed.

(** The row of a case, as the marks find it. *)
Definition row_of (now : Z) (sel : option string) (c : Case) : view :=
  El "div" [("role", Some "row"); ("aria-selected", bool_attr (bool_decide (sel = Some (case_id c)))); ("tabIndex", Some "-1")]
    (map (RowCell now c) columns).

Lemma CaseRow_marks now sel exp i c m : m ∈ grid_marks →
  by_attr m.1 m.2 [CaseRow now sel exp i c] =
    if decide (m = ("role", "row")) then [row_of now sel c]
    else if decide (m = ("role", "gridcell")) then map (RowCell now c) columns
    else if decide (m = ("aria-selected", "true")) then
      (if bool_decide (sel = Some (case_id c)) then [row_of now sel c] else [])
    else [].
Proof.
  intros Hm. unfold CaseRow. cbv zeta. fold (row_of now sel c).
  assert (by_attr m.1 m.2 (map (RowCell now c) columns) =
          if bool_decide (m = ("role", "gridcell")) then map (RowCell now c) columns else []) as Hc.
  { apply marks_columns. intros k. rewrite RowCell_marks by done. case_decide; by case_bool_decide. }
  assert (by_attr m.1 m.2 (when (bool_decide (exp = Some (case_id c))) (El "div" [] [Txt (case_summary c)])) = []) as Hs.
  { destruct (bool_decide (exp = _)); [|done]. by mark_cases Hm. }
  mark_cases Hm; look; rewrite select_cons, Hs, app_nil_r; unfold row_of;
    try (destruct (bool_decide (sel = _)); cbn [bool_attr]); look; by rewrite Hc.
Qed.

Lemma row_of_cells now sel c : by_role "gridcell" [row_of now sel c] = map (RowCell now c) columns.
Proof.
  pose proof (CaseRow_marks now sel None 0 c ("role", "gridcell") ltac:(by apply mark_in)) as E.
  etransitivity; [|exact E]. unfold CaseRow. cbv zeta. fold (row_of now sel c). unfold by_role, by_attr. cbn [fst snd].
  look. by rewrite select_cons, app_nil_r.
Qed.

Definition grid_of (t : Table) (rows : list view) (n : Z) : view :=
  El "div" [("role", Some "grid"); ("aria-rowcount", Some (to_dec n)); ("aria-label", Some "Case queue")]
   [El "div" [("role", Some "row")] (map (HeaderCell t) columns);
    El "div" [("tabIndex", Some "0"); ("role", Some "rowgroup"); ("data-testid", Some "case-table-scroll")] [El "div" [] rows]].

Lemma grid_of_marks t rows n m : m ∈ grid_marks →
  by_attr m.1 m.2 [grid_of t rows n] =
    (if decide (m = ("role", "row")) then [El "div" [("role", Some "row")] (map (HeaderCell t) columns)]
     else if decide (m = ("role", "columnheader")) then map (HeaderCell t) columns else []) ++ by_attr m.1 m.2 rows.
Proof.
  intros Hm. unfold grid_of.
  assert (by_attr m.1 m.2 (map (HeaderCell t) columns) =
          if bool_decide (m = ("role", "columnheader")) then map (HeaderCell t) columns else []) as Hc.
  { apply marks_columns. intros k. rewrite HeaderCell_marks by done. case_decide; by case_bool_decide. }
  mark_cases Hm; look; rewrite select_cons; look; rewrite Hc; f_equal; look; look; done.
Qed.

(** At most one of the rows shown is the selected one. *)
Lemma selected_rows now sel (t : Table) (shown : list (nat * Case)) :
  NoDup shown.*1 → NoDup (case_id <$> tb_rows t) → Forall (fun p => tb_rows t !! p.1 = Some p.2) shown →
  length (mjoin (map (fun p => if bool_decide (sel = Some (case_id p.2)) then [row_of now sel p.2] else []) shown)) =
  if decide (Exists (fun p => sel = Some (case_id p.2)) shown) then 1%nat else 0%nat.
Proof.
  intros Hnd Hids. induction shown as [|[i c] shown IH]; intros Hall.
  { rewrite decide_False; [done|]. intros H. inversion H. }
  cbn [map]. rewrite mjoin_cons.
  rewrite length_app. cbn [snd].
  apply Forall_cons_1 in Hall as [Hi Hall]. rewrite fmap_cons, NoDup_cons in Hnd. destruct Hnd as [Hni Hnd]. cbn [fst snd] in *.
  specialize (IH Hnd Hall).
  case_bool_decide as Hs.
  - rewrite (decide_True (P := Exists _ _)) by by left. rewrite IH, decide_False; [done|].
    intros ((j & d) & Hin & Hd)%Exists_exists. cbn [snd] in Hd. rewrite Forall_forall in Hall.
    specialize (Hall _ Hin). cbn [fst snd] in Hall. apply Hni.
    assert (j = i) as <-; [|by apply (list_elem_of_fmap_2 fst) in Hin].
    apply (NoDup_lookup (case_id <$> tb_rows t) _ _ (case_id c)); [done|rewrite list_lookup_fmap, Hall|by rewrite list_lookup_fmap, Hi].
    simpl. congruence.
  - rewrite IH. simpl. apply decide_ext. split; [by right|]. by inversion 1.
Qed.

Lemma scroll_target_Some rows sel i :
  scroll_target rows sel = Some i → ∃ c, rows !! i = Some c ∧ sel = Some (case_id c).
Proof.
  unfold scroll_target, truthy. intros Hs.
  assert (∃ id, sel = Some id ∧ index_of id (case_id <$> rows) = Some i) as (id & -> & Hx)
    by (destruct sel as [[|a id]|]; [done|by eexists|done]).
  apply index_of_Some in Hx. rewrite list_lookup_fmap in Hx. destruct (rows !! i) as [c|]; [|done].
  exists c. split; [done|]. by injection Hx as ->.
Qed.

(** ** Properties *)

(** For any rows, sorting, window, selection and expansion the table is
    rendered, it is a well-formed grid (eight headers, eight cells in each row, at
    most one selected row), its row count is that of the queue, and a row is marked
    selected exactly when the selected case is in the window; the index scrolled to
    on a change of selection is that case's. *)
Theorem case_grid cases t now sel exp :
  TableLaws cases t → NoDup (case_id <$> cases) →
  ∃ v, CaseTable now t sel exp = Ok v ∧ grid_ok 8 v ∧
    attr "aria-rowcount" v = Some (to_dec (Z.of_nat (length cases))) ∧
    length (by_role "row" [v]) = S (length (tb_items t)) ∧
    (length (by_attr "aria-selected" "true" [v]) = 1%nat ↔
      ∃ i c, i ∈ tb_items t ∧ tb_rows t !! i = Some c ∧ sel = Some (case_id c)) ∧
    ∀ i, scroll_target (tb_rows t) sel = Some i → ∃ c, tb_rows t !! i = Some c ∧ sel = Some (case_id c).
Proof.
  intros Ht Hids. destruct (window_rows_Ok cases t now sel exp Ht) as (shown & Hr & Hi & Hall).
  destruct Ht as [Hperm _ Honce]. rewrite <- Hi in Honce |- *.
  assert (NoDup (case_id <$> tb_rows t)) as Hnd by by rewrite Hperm.
  unfold CaseTable. rewrite Hr. cbn [mbind outcome_bind]. eexists. split; [reflexivity|].
  set (rows := map (fun p => CaseRow now sel exp p.1 p.2) shown) in *.
  fold (grid_of t rows (Z.of_nat (length (tb_rows t)))). set (v := grid_of _ _ _).
  assert (∀ m, m ∈ grid_marks → by_attr m.1 m.2 rows = mjoin (map (fun p =>
    if decide (m = ("role", "row")) then [row_of now sel p.2]
    else if decide (m = ("role", "gridcell")) then map (RowCell now p.2) columns
    else if decide (m = ("aria-selected", "true")) then
      (if bool_decide (sel = Some (case_id p.2)) then [row_of now sel p.2] else [])
    else []) shown)) as Hrows by (intros m Hm; apply select_map; intros p _; by apply CaseRow_marks).
  assert (∀ m, m ∈ grid_marks → by_attr m.1 m.2 [v] = _) as Hv
    by (intros m Hm; unfold v; rewrite (grid_of_marks t), Hrows by done; reflexivity).
  clear Hrows. assert (by_role "row" [v] = El "div" [("role", Some "row")] (map (HeaderCell t) columns) :: map (fun p => row_of now sel p.2) shown) as Hrow.
  { etransitivity; [apply (Hv ("role", "row")); by apply mark_in|]. cbn. f_equal. clear. by induction shown as [|p l IH]; [|cbn; f_equal]. }
  assert (by_role "columnheader" [v] = map (HeaderCell t) columns) as Hhead.
  { etransitivity; [apply (Hv ("role", "columnheader")); by apply mark_in|]. cbn. clear. by induction shown. }
  assert (length (by_attr "aria-selected" "true" [v]) = if decide (Exists (fun p => sel = Some (case_id p.2)) shown) then 1%nat else 0%nat) as Hsel.
  { pose proof (Hv ("aria-selected", "true") ltac:(by apply mark_in)) as E. cbn [fst snd] in E. rewrite E.
    exact (selected_rows now sel t shown Honce Hnd Hall). }
  split; [|split; [|split; [|split]]].
  - split; [done|by rewrite Hhead| |rewrite Hsel; case_decide; lia].
    eexists _, _. split; [done|]. split.
    + change (length (by_role "columnheader" [El "div" [("role", Some "row")] (map (HeaderCell t) columns)]) = 8%nat). done.
    + apply Forall_fmap, Forall_true. intros p.
      change (length (by_role "gridcell" [row_of now sel p.2]) = 8%nat). by rewrite row_of_cells.
  - change (Some (to_dec (Z.of_nat (length (tb_rows t)))) = Some (to_dec (Z.of_nat (length cases)))).
    by rewrite (Permutation_length Hperm).
  - rewrite Hrow. simpl. by rewrite !length_map.
  - rewrite Hsel. setoid_rewrite list_elem_of_fmap. rewrite Forall_forall in Hall. split.
    + case_decide as Hd; [intros _|done]. apply Exists_exists in Hd as (p & Hin & Hp).
      exists p.1, p.2. split; [by exists p|]. by rewrite (Hall p Hin).
    + intros (i & c & (p & -> & Hin) & Hc & Hs). rewrite decide_True; [done|].
      apply Exists_exists. exists p. split; [done|]. rewrite (Hall p Hin) in Hc. congruence.
  - apply scroll_target_Some.
Qed.

(** Two rows, shown by descending risk, both in the window. *)
Definition walk_table : Table := mkTable [sample_case; low_case] (fun k => match k with col_riskScore => Some true | _ => None end) [0%nat; 1%nat].

Lemma case_grid_witness :
  TableLaws walk_rows walk_table ∧
  ∃ v, CaseTable 1757500000000 walk_table (Some "case-low") None = Ok v ∧ grid_ok 8 v ∧
    length (by_role "row" [v]) = 3%nat.
Proof.
  assert (TableLaws walk_rows walk_table) as H.
  { split; [apply perm_swap|repeat constructor; cbn; lia|apply (bool_decide_unpack _); vm_compute; exact I]. }
  split; [exact H|].
  destruct (case_grid walk_rows walk_table 1757500000000 (Some "case-low") None H
    ltac:(apply (bool_decide_unpack _); vm_compute; exact I)) as (v & Hv & Hg & _ & Hr & _).
  exists v. split; [exact Hv|]. split; [exact Hg|exact Hr].
Defined.
