(* ===== verification/Merkle.v ===== *)
(** * The client-side Merkle tree: web/src/lib/kernel/merkle.ts

    Tree construction, inclusion proofs and their verification, next to the Go
    ledger's tree (ledger/merkle.go) that the module says it reproduces.  A
    [Uint8Array] is a list of bytes; a string is a sequence of code units up to
    255, encoded in UTF-8 by [utf8].  BLAKE3 (the package @noble/hashes) is a
    parameter: a function to 32 bytes. *)

From S2P Require Import Prelude JsNum.
From Stdlib Require Import Ascii.
Open Scope Z_scope.

Notation bytes := (list Z).

Definition is_byte (b : Z) : Prop := 0 <= b < 256.

(** ** Text and bytes *)

(** [new TextEncoder().encode(s)] on code units below 256. *)
Fixpoint utf8 (s : string) : bytes :=
  match s with
  | EmptyString => []
  | String c s' =>
      let n := Z.of_N (N_of_ascii c) in
      if n <? 128 then n :: utf8 s'
      else Z.lor 192 (Z.shiftr n 6) :: Z.lor 128 (Z.land n 63) :: utf8 s'
  end.

Definition bytesToHex (b : bytes) : string :=
  String.concat EmptyString ((fun x => pad_start 2 "0"%char (to_radix 16 x)) <$> b).

(** The value of a hexadecimal digit, in either case. *)
Definition hex_value (c : ascii) : option Z :=
  let n := Z.of_N (N_of_ascii c) in
  if (48 <=? n) && (n <=? 57) then Some (n - 48)
  else if (65 <=? n) && (n <=? 70) then Some (n - 55)
  else if (97 <=? n) && (n <=? 102) then Some (n - 87)
  else None.

(** The longest prefix of hexadecimal digits, [None] (NaN) when there is none. *)
Fixpoint hex_prefix (acc : option Z) (s : string) : option Z :=
  match s with
  | EmptyString => acc
  | String c s' =>
      match hex_value c with
      | Some d => hex_prefix (Some (default 0 acc * 16 + d)) s'
      | None => acc
      end
  end.

Fixpoint skip_space (s : string) : string :=
  match s with
  | String c s' =>
      let n := N_of_ascii c in
      if ((9 <=? n) && (n <=? 13) || (n =? 32) || (n =? 160))%N then skip_space s' else s
  | EmptyString => EmptyString
  end.

(** [parseInt(s, 16)]: white space, a sign, an optional [0x], digits. *)
Definition parseInt16 (s : string) : option Z :=
  let s := skip_space s in
  let '(neg, s) := match s with
                   | String "-" s' => (true, s')
                   | String "+" s' => (false, s')
                   | _ => (false, s)
                   end in
  let s := match s with
           | String "0" (String "x" s') | String "0" (String "X" s') => s'
           | _ => s
           end in
  (fun v => if neg : bool then - v else v) <$> hex_prefix None s.

(** Two characters a byte; a stored [NaN] is 0, other values wrap. *)
Fixpoint hexToBytes (hex : string) : bytes :=
  match hex with
  | String a (String b rest) =>
      default 0 (parseInt16 (String a (String b EmptyString))) mod 256 :: hexToBytes rest
  | _ => []
  end.

Definition DOMAIN_LEAF : Z := 0.
Definition DOMAIN_INTERNAL : Z := 1.
Definition DOMAIN_PAD : Z := 2.

(** What is hashed for each kind of node. *)
Definition leaf_message (id : bytes) : bytes := DOMAIN_LEAF :: id.
Definition internal_message (left right : bytes) : bytes := DOMAIN_INTERNAL :: left ++ right.
(** [buf[1 + i] = (index >>> (56 - 8 * i)) & 0xff] *)
Definition pad_message (index : Z) : bytes :=
  DOMAIN_PAD :: ((fun i => js_and (js_ushr index (56 - 8 * i)) 255) <$> seqZ 0 8).

(** ledger/merkle.go: [byte(index >> (56 - 8*i))] on a uint64. *)
Definition go_pad_message (index : Z) : bytes :=
  DOMAIN_PAD :: ((fun i => Z.shiftr index (56 - 8 * i) mod 256) <$> seqZ 0 8).

(** [while (p < n) p *= 2]. *)
Fixpoint double_until (fuel : nat) (p n : nat) : nat :=
  match fuel with
  | O => p
  | S f => if (p <? n)%nat then double_until f (p * 2) n else p
  end.
Definition nextPowerOfTwo (n : nat) : nat := double_until n 1 n.

Record MerkleProofStep := mkStep { step_hash : string; step_isLeft : bool }.
Record InclusionProof := mkProof {
  pf_leafIndex : Z;
  pf_steps : list MerkleProofStep;
  pf_root : string;
}.
Record MerkleTree := mkTree { mt_root : string; mt_levels : list (list bytes) }.

Section merkle.
Context (blake3 : bytes → bytes).

Definition leafHash (evidenceId : string) : bytes := blake3 (leaf_message (utf8 evidenceId)).
Definition internalHash (left right : bytes) : bytes := blake3 (internal_message left right).
Definition padHash (index : Z) : bytes := blake3 (pad_message index).

(** The next level: [next[i] = internalHash(cur[2 * i], cur[2 * i + 1])]. *)
Fixpoint next_level (cur : list bytes) : list bytes :=
  match cur with
  | a :: b :: rest => internalHash a b :: next_level rest
  | _ => []
  end.

Fixpoint levels_from (fuel : nat) (cur : list bytes) : list (list bytes) :=
  match fuel with
  | O => [cur]
  | S f => if (1 <? length cur)%nat then cur :: levels_from f (next_level cur) else [cur]
  end.

Definition top_node (levels : list (list bytes)) : outcome bytes :=
  top ← or_throw TypeError (last levels); or_throw TypeError (top !! O).

(** The construction on given leaf and padding hashes. *)
Definition build_on (pad : Z → bytes) (leaves : list bytes) : outcome MerkleTree :=
  if (length leaves =? 0)%nat then Throw (JsError "buildMerkleTree: empty evidence set")
  else
    let n := nextPowerOfTwo (length leaves) in
    let level := leaves ++
      (pad <$> seqZ (Z.of_nat (length leaves)) (Z.of_nat (n - length leaves))) in
    let levels := levels_from n level in
    root ← top_node levels;
    Ok (mkTree (bytesToHex root) levels).

Definition buildMerkleTree (evidenceIds : list string) : outcome MerkleTree :=
  build_on padHash (leafHash <$> evidenceIds).

(** The loop of [proveInclusion] over all levels but the last; [nodes[j]] out of
    range makes [bytesToHex] throw. *)
Fixpoint prove_steps (levels : list (list bytes)) (idx : Z) : outcome (list MerkleProofStep) :=
  match levels with
  | [] | [_] => Ok []
  | nodes :: rest =>
      let isLeft := negb (Z.rem idx 2 =? 0) in
      sib ← or_throw TypeError (at_index nodes (if isLeft then idx - 1 else idx + 1));
      steps ← prove_steps rest (idx / 2);
      Ok (mkStep (bytesToHex sib) isLeft :: steps)
  end.

Definition proveInclusion (tree : MerkleTree) (leafIndex : Z) : outcome InclusionProof :=
  steps ← prove_steps (mt_levels tree) leafIndex;
  root ← top_node (mt_levels tree);
  Ok (mkProof leafIndex steps (bytesToHex root)).

Definition step_message (h : bytes) (step : MerkleProofStep) : bytes :=
  let sibling := hexToBytes (step_hash step) in
  if step_isLeft step then internal_message sibling h else internal_message h sibling.

Definition verify_step (h : bytes) (step : MerkleProofStep) : bytes :=
  blake3 (step_message h step).

Definition verifyInclusion (evidenceId : string) (proof : InclusionProof) : bool :=
  bool_decide (bytesToHex (foldl verify_step (leafHash evidenceId) (pf_steps proof)) = pf_root proof).

(** ledger/merkle.go's [BuildMerkleTree] on the same identifiers. *)
Definition goBuildMerkleTree (ids : list bytes) : outcome MerkleTree :=
  build_on (fun i => blake3 (go_pad_message i)) ((fun id => blake3 (leaf_message id)) <$> ids).

(** ** The messages hashed by a tree and by a verification *)

Fixpoint pair_messages (cur : list bytes) : list bytes :=
  match cur with
  | a :: b :: rest => internal_message a b :: pair_messages rest
  | _ => []
  end.

Fixpoint level_messages (d : nat) (cur : list bytes) : list bytes :=
  match d with
  | O => []
  | S d' => pair_messages cur ++ level_messages d' (next_level cur)
  end.

(** The messages at the leaves of the padded tree over [ids]. *)
Definition leaf_messages (pad : Z → bytes) (ids : list bytes) : list bytes :=
  (leaf_message <$> ids) ++
  (pad <$> seqZ (Z.of_nat (length ids)) (Z.of_nat (nextPowerOfTwo (length ids) - length ids))).

Definition tree_messages (pad : Z → bytes) (ids : list bytes) : list bytes :=
  let leaves := leaf_messages pad ids in
  leaves ++ level_messages (Nat.log2 (length leaves)) (blake3 <$> leaves).

Fixpoint fold_messages (h : bytes) (steps : list MerkleProofStep) : list bytes :=
  match steps with
  | [] => []
  | s :: rest => step_message h s :: fold_messages (verify_step h s) rest
  end.

Definition verify_messages (evidenceId : string) (proof : InclusionProof) : list bytes :=
  leaf_message (utf8 evidenceId) :: fold_messages (leafHash evidenceId) (pf_steps proof).

(** No message of the first list collides with a different one of the second. *)
Definition no_collision (A B : list bytes) : Prop :=
  ∀ a b, a ∈ A → b ∈ B → blake3 a = blake3 b → a = b.

End merkle.

(** ** Hexadecimal text *)

Lemma hex_byte b :
  is_byte b → ∃ c d, pad_start 2 "0"%char (to_radix 16 b) = String c (String d EmptyString) ∧
    default 0 (parseInt16 (String c (String d EmptyString))) mod 256 = b.
Proof.
  intros Hb.
  assert (forallb (fun b => match pad_start 2 "0"%char (to_radix 16 b) with
    | String c (String d EmptyString) =>
        default 0 (parseInt16 (String c (String d EmptyString))) mod 256 =? b
    | _ => false end) (seqZ 0 256) = true) as Hall by (vm_compute; reflexivity).
  rewrite forallb_forall in Hall. specialize (Hall b).
  rewrite <- list_elem_of_In, elem_of_seqZ in Hall. specialize (Hall Hb).
  destruct (pad_start _ _ _) as [|c [|d [|]]]; try done.
  exists c, d. split; [done|]. by apply Z.eqb_eq.
Qed.

Lemma bytesToHex_cons x b : bytesToHex (x :: b) = pad_start 2 "0"%char (to_radix 16 x) +:+ bytesToHex b.
Proof.
  unfold bytesToHex. rewrite fmap_cons. destruct (_ <$> b) as [|s l] eqn:E; [|done].
  cbn [String.concat]. by rewrite append_empty_r.
Qed.

(** Encoding and decoding: what [proveInclusion] writes, [verifyInclusion] reads. *)
Lemma hexToBytes_bytesToHex b : Forall is_byte b → hexToBytes (bytesToHex b) = b.
Proof.
  induction 1 as [|x b Hx Hb IH]; [done|].
  rewrite bytesToHex_cons. destruct (hex_byte x Hx) as (c & d & -> & Hv).
  change (String c (String d EmptyString) +:+ bytesToHex b) with (String c (String d (bytesToHex b))).
  cbn [hexToBytes]. by rewrite Hv, IH.
Qed.

Lemma bytesToHex_inj b1 b2 :
  Forall is_byte b1 → Forall is_byte b2 → bytesToHex b1 = bytesToHex b2 → b1 = b2.
Proof.
  intros H1 H2 Heq. by rewrite <- (hexToBytes_bytesToHex b1), Heq, hexToBytes_bytesToHex.
Qed.

Lemma utf8_inj s t : utf8 s = utf8 t → s = t.
Proof.
  assert (∀ c, 0 <= Z.of_N (N_of_ascii c) < 256) as Hr.
  { intros c. pose proof (N_ascii_bounded c). lia. }
  assert (∀ n, 128 <= n < 256 → Z.lor 192 (Z.shiftr n 6) >= 192 ∧
     n = (Z.lor 192 (Z.shiftr n 6) - 192) * 64 + (Z.lor 128 (Z.land n 63) - 128)) as Hd.
  { intros n Hn. assert (forallb (fun n => (192 <=? Z.lor 192 (Z.shiftr n 6)) &&
      (n =? (Z.lor 192 (Z.shiftr n 6) - 192) * 64 + (Z.lor 128 (Z.land n 63) - 128))) (seqZ 128 128) = true)
      as Hall by (vm_compute; reflexivity).
    rewrite forallb_forall in Hall. specialize (Hall n).
    rewrite <- list_elem_of_In, elem_of_seqZ, andb_true_iff, Z.leb_le, Z.eqb_eq in Hall.
    destruct Hall; lia. }
  revert t; induction s as [|c s IH]; intros [|d t]; simpl; try done;
    try (by destruct (_ <? _)).
  pose proof (Hr c). pose proof (Hr d).
  assert (Z.of_N (N_of_ascii c) = Z.of_N (N_of_ascii d) → c = d) as Hcd.
  { intros Heq%N2Z.inj. by rewrite <- (ascii_N_embedding c), Heq, ascii_N_embedding. }
  destruct (Z.ltb_spec (Z.of_N (N_of_ascii c)) 128), (Z.ltb_spec (Z.of_N (N_of_ascii d)) 128);
    intros Heq; injection Heq; intros.
  - rewrite Hcd by done. f_equal. by apply IH.
  - pose proof (Hd (Z.of_N (N_of_ascii d)) ltac:(lia)). lia.
  - pose proof (Hd (Z.of_N (N_of_ascii c)) ltac:(lia)). lia.
  - pose proof (Hd (Z.of_N (N_of_ascii c)) ltac:(lia)).
    pose proof (Hd (Z.of_N (N_of_ascii d)) ltac:(lia)).
    rewrite Hcd by lia. f_equal. by apply IH.
Qed.

(** ** Shape of the tree *)

Lemma double_until_spec fuel p n k :
  p = (2 ^ k)%nat → (n <= p + fuel)%nat → (p < 2 * n ∨ p = 1)%nat →
  ∃ j, double_until fuel p n = (2 ^ j)%nat ∧ (n <= 2 ^ j)%nat ∧ (2 ^ j < 2 * n ∨ 2 ^ j = 1)%nat.
Proof.
  revert p k; induction fuel as [|f IH]; intros p k -> Hn Hlt; simpl; [exists k; split; [done|lia]|].
  destruct (Nat.ltb_spec (2 ^ k) n); [|exists k; split; [done|lia]].
  apply (IH _ (S k)); simpl; [lia| |lia].
  pose proof (Nat.pow_nonzero 2 k). lia.
Qed.

Lemma nextPowerOfTwo_spec n :
  (1 <= n)%nat → ∃ j, nextPowerOfTwo n = (2 ^ j)%nat ∧ (n <= 2 ^ j < 2 * n)%nat.
Proof.
  intros Hn. destruct (double_until_spec n 1 n 0) as (j & Heq & Hle & Hlt); [done|lia|lia|].
  exists j. split; [done|]. lia.
Qed.

Lemma nextPowerOfTwo_fix k : nextPowerOfTwo (2 ^ k) = (2 ^ k)%nat.
Proof.
  pose proof (Nat.pow_nonzero 2 k).
  destruct (nextPowerOfTwo_spec (2 ^ k)) as (j & -> & Hle & Hlt); [lia|].
  rewrite <- Nat.pow_succ_r' in Hlt. apply Nat.pow_lt_mono_r_iff in Hlt; [|lia].
  apply Nat.pow_le_mono_r_iff in Hle; [|lia]. f_equal. lia.
Qed.

Lemma pair_ind {A} (P : list A → Prop) :
  P [] → (∀ x, P [x]) → (∀ x y l, P l → P (x :: y :: l)) → ∀ l, P l.
Proof.
  intros H0 H1 H2. fix IH 1. intros [|x [|y l]]; [exact H0|apply H1|apply H2, IH].
Qed.

Section tree.
Context (blake3 : bytes → bytes).

Lemma length_next_level cur : length (next_level blake3 cur) = (length cur / 2)%nat.
Proof.
  induction cur as [|x|x y l IH] using pair_ind; [done..|].
  cbn [next_level length]. rewrite IH.
  replace (S (S (length l))) with (length l + 1 * 2)%nat by lia. rewrite Nat.div_add by lia. lia.
Qed.

Lemma next_level_pow d cur : length cur = (2 ^ S d)%nat → length (next_level blake3 cur) = (2 ^ d)%nat.
Proof.
  intros Hl. rewrite length_next_level, Hl, Nat.pow_succ_r', Nat.mul_comm. by apply Nat.div_mul.
Qed.

Lemma next_level_lookup cur i a b :
  cur !! (2 * i)%nat = Some a → cur !! (2 * i + 1)%nat = Some b →
  next_level blake3 cur !! i = Some (internalHash blake3 a b).
Proof.
  revert i; induction cur as [|x|x y l IH] using pair_ind; intros i Ha Hb; [done| |].
  { destruct i; simpl in *; [done|]. by replace (i + S (i + 0))%nat with (S (i + i)) in Ha by lia. }
  destruct i as [|i]; [by simplify_eq/=|]. cbn [next_level].
  replace (2 * S i)%nat with (S (S (2 * i))) in * by lia. apply IH; [exact Ha|].
  by replace (S (S (2 * i)) + 1)%nat with (S (S (2 * i + 1))) in Hb by lia.
Qed.

Lemma next_level_inv cur h :
  h ∈ next_level blake3 cur → ∃ a b, a ∈ cur ∧ b ∈ cur ∧ h = internalHash blake3 a b ∧
    internal_message a b ∈ pair_messages cur.
Proof.
  induction cur as [|x|x y l IH] using pair_ind; cbn [next_level pair_messages];
    [by intros ?%not_elem_of_nil..|].
  intros [->|Hin]%elem_of_cons; [exists x, y; set_solver|].
  destruct (IH Hin) as (a & b & ? & ? & ? & ?). exists a, b. set_solver.
Qed.

Lemma levels_from_one fuel cur : length cur = 1%nat → levels_from blake3 fuel cur = [cur].
Proof using. intros Hl. destruct fuel; simpl; [done|]. by rewrite Hl. Qed.

Lemma levels_from_S fuel d cur :
  length cur = (2 ^ S d)%nat →
  levels_from blake3 (S fuel) cur = cur :: levels_from blake3 fuel (next_level blake3 cur).
Proof.
  intros Hl. cbn [levels_from]. rewrite Hl.
  assert (1 < 2 ^ S d)%nat as Hlt by (pose proof (Nat.pow_nonzero 2 d); simpl; lia).
  by rewrite (proj2 (Nat.ltb_lt _ _) Hlt).
Qed.

(** The level [d] above [cur]. *)
Definition level_at (d : nat) (cur : list bytes) : list bytes := Nat.iter d (next_level blake3) cur.

Lemma level_at_S d cur : level_at (S d) cur = level_at d (next_level blake3 cur).
Proof using. unfold level_at. by rewrite Nat.iter_succ_r. Qed.

(** Fuel [d] is enough for [2 ^ d] leaves: the loop ends on a single node. *)
Lemma levels_last d fuel cur :
  length cur = (2 ^ d)%nat → (d <= fuel)%nat →
  ∃ r, level_at d cur = [r] ∧ top_node (levels_from blake3 fuel cur) = Ok r ∧
    length (levels_from blake3 fuel cur) = S d.
Proof.
  revert fuel cur; induction d as [|d IH]; intros fuel cur Hl Hf.
  { destruct cur as [|r [|]]; try done. exists r. rewrite levels_from_one by done. done. }
  destruct fuel as [|fuel]; [lia|].
  destruct (IH fuel (next_level blake3 cur)) as (r & Hr & Htop & Hlen); [by apply next_level_pow|lia|].
  exists r. rewrite level_at_S. split; [done|]. rewrite (levels_from_S fuel d) by done.
  split; [|by rewrite length_cons, Hlen]. unfold top_node in *.
  destruct (levels_from blake3 fuel (next_level blake3 cur)) as [|l ls] eqn:E; [done|].
  exact Htop.
Qed.

(** ** Completeness *)

Hypothesis blake3_bytes : ∀ m, Forall is_byte (blake3 m).

Lemma verify_step_hex h sib isLeft :
  Forall is_byte sib →
  verify_step blake3 h (mkStep (bytesToHex sib) isLeft) =
    if isLeft then internalHash blake3 sib h else internalHash blake3 h sib.
Proof.
  intros Hs. unfold verify_step, step_message. cbn [step_hash step_isLeft].
  rewrite hexToBytes_bytesToHex by done. by destruct isLeft.
Qed.

(** The sibling a proof takes at one level, and the parent it gives. *)
Lemma sibling_next d cur i h :
  length cur = (2 ^ S d)%nat → cur !! i = Some h →
  ∃ sib isLeft, isLeft = negb (Z.rem (Z.of_nat i) 2 =? 0) ∧
    at_index cur (if isLeft then Z.of_nat i - 1 else Z.of_nat i + 1) = Some sib ∧
    next_level blake3 cur !! (i / 2)%nat =
      Some (if isLeft then internalHash blake3 sib h else internalHash blake3 h sib).
Proof.
  intros Hl Hi. pose proof (lookup_lt_Some _ _ _ Hi) as Hlt.
  rewrite Hl in Hlt. simpl in Hlt. rewrite Z.rem_mod_nonneg by lia.
  assert (length cur = 2 * 2 ^ d)%nat as Hl2 by (rewrite Hl; simpl; lia).
  destruct (Nat.Even_or_Odd i) as [[k Hk]|[k Hk]].
  - destruct (lookup_lt_is_Some_2 cur (i + 1)) as [sib Hs]; [lia|].
    exists sib, false. replace (Z.of_nat i mod 2) with 0 by (subst i; dlia).
    split; [done|]. split.
    + unfold at_index. rewrite (proj2 (Z.ltb_ge _ 0)) by lia.
      by replace (Z.to_nat (Z.of_nat i + 1)) with (i + 1)%nat by lia.
    + assert (i / 2 = k)%nat as -> by (subst i; rewrite Nat.mul_comm; by apply Nat.div_mul).
      subst i. by apply next_level_lookup.
  - destruct (lookup_lt_is_Some_2 cur (2 * k)) as [sib Hs]; [lia|].
    exists sib, true. replace (Z.of_nat i mod 2) with 1 by (subst i; dlia).
    split; [done|]. split.
    + unfold at_index. rewrite (proj2 (Z.ltb_ge _ 0)) by lia.
      by replace (Z.to_nat (Z.of_nat i - 1)) with (2 * k)%nat by lia.
    + assert (i / 2 = k)%nat as -> by (symmetry; apply (Nat.div_unique _ 2 k 1); lia).
      subst i. by apply next_level_lookup.
Qed.

Lemma prove_steps_cons nodes rest idx sib :
  rest ≠ [] →
  let isLeft := negb (Z.rem idx 2 =? 0) in
  at_index nodes (if isLeft then idx - 1 else idx + 1) = Some sib →
  prove_steps (nodes :: rest) idx =
    (steps ← prove_steps rest (idx / 2); Ok (mkStep (bytesToHex sib) isLeft :: steps)).
Proof.
  intros Hne isLeft Hs. destruct rest as [|l ls]; [done|].
  change (prove_steps (nodes :: l :: ls) idx) with
    (sib ← or_throw TypeError (at_index nodes (if isLeft then idx - 1 else idx + 1));
     steps ← prove_steps (l :: ls) (idx / 2); Ok (mkStep (bytesToHex sib) isLeft :: steps)).
  by rewrite Hs.
Qed.

Lemma levels_from_nonempty fuel cur : levels_from blake3 fuel cur ≠ [].
Proof. destruct fuel; simpl; [done|]. by destruct (1 <? _)%nat. Qed.

Lemma prove_verify d fuel cur i h :
  length cur = (2 ^ d)%nat → (d <= fuel)%nat → Forall (Forall is_byte) cur →
  cur !! i = Some h →
  ∃ steps r, prove_steps (levels_from blake3 fuel cur) (Z.of_nat i) = Ok steps ∧
    level_at d cur = [r] ∧ foldl (verify_step blake3) h steps = r ∧ length steps = d.
Proof using blake3_bytes.
  revert fuel cur i h; induction d as [|d IH]; intros fuel cur i h Hl Hf Hb Hi.
  { destruct cur as [|r [|]]; try done. exists [], r. rewrite levels_from_one by done.
    apply list_lookup_singleton_Some in Hi as [-> <-]. done. }
  destruct fuel as [|fuel]; [lia|]. rewrite (levels_from_S fuel d) by done.
  pose proof (lookup_lt_Some _ _ _ Hi) as Hlt.
  set (j := (i / 2)%nat).
  destruct (sibling_next d cur i h Hl Hi) as (sib & isLeft & Hleft & Hsib & Hnext).
  assert (Forall (Forall is_byte) (next_level blake3 cur)) as Hb'.
  { apply Forall_forall. intros x Hx. apply next_level_inv in Hx as (a & b & _ & _ & -> & _).
    apply blake3_bytes. }
  destruct (IH fuel (next_level blake3 cur) j _ ltac:(by apply next_level_pow) ltac:(lia) Hb' Hnext)
    as (steps & r & Hp & Hr & Hfold & Hlen).
  exists (mkStep (bytesToHex sib) isLeft :: steps), r.
  rewrite level_at_S. split; [|split; [done|split; [|simpl; by rewrite Hlen]]].
  - rewrite (prove_steps_cons _ _ _ sib); [|apply levels_from_nonempty|by rewrite <- Hleft].
    rewrite <- Hleft. replace (Z.of_nat i / 2) with (Z.of_nat j) by (unfold j; by rewrite Nat2Z.inj_div).
    by rewrite Hp.
  - cbn [foldl]. rewrite verify_step_hex; [done|].
    rewrite Forall_forall in Hb. apply Hb. by eapply at_index_elem.
Qed.

End tree.

(** ** Soundness *)

Section soundness.
Context (blake3 : bytes → bytes).
Hypothesis blake3_length : ∀ m, length (blake3 m) = 32%nat.
Hypothesis blake3_bytes : ∀ m, Forall is_byte (blake3 m).

Lemma length_level_at d e cur :
  length cur = (2 ^ (d + e))%nat → length (level_at blake3 d cur) = (2 ^ e)%nat.
Proof using.
  revert cur; induction d as [|d IH]; intros cur Hl; [done|].
  rewrite level_at_S. apply IH. by apply next_level_pow.
Qed.

Lemma level_at_messages d cur h :
  h ∈ level_at blake3 (S d) cur →
  ∃ a b, a ∈ level_at blake3 d cur ∧ b ∈ level_at blake3 d cur ∧
    h = internalHash blake3 a b ∧ internal_message a b ∈ level_messages blake3 (S d) cur.
Proof using.
  revert cur h; induction d as [|d IH]; intros cur h Hh.
  - apply next_level_inv in Hh as (a & b & Ha & Hb & -> & Hm). exists a, b.
    split; [done|]. split; [done|]. split; [done|]. simpl. by rewrite app_nil_r.
  - rewrite level_at_S in Hh. destruct (IH _ _ Hh) as (a & b & Ha & Hb & -> & Hm).
    exists a, b. rewrite level_at_S. split; [done|]. split; [done|]. split; [done|].
    cbn [level_messages]. apply elem_of_app. by right.
Qed.

Lemma level_messages_mono d e cur m :
  (d <= e)%nat → m ∈ level_messages blake3 d cur → m ∈ level_messages blake3 e cur.
Proof using.
  revert e cur; induction d as [|d IH]; intros e cur Hle Hm; [by apply not_elem_of_nil in Hm|].
  destruct e as [|e]; [lia|]. cbn [level_messages] in *. apply elem_of_app in Hm as [Hm|Hm];
    apply elem_of_app; [by left|right; apply IH; [lia|done]].
Qed.

Lemma node_length d cur h :
  Forall (fun h => length h = 32%nat) cur → h ∈ level_at blake3 d cur → length h = 32%nat.
Proof using blake3_length.
  destruct d as [|d]; intros Hc Hh; [rewrite Forall_forall in Hc; by apply Hc|].
  apply level_at_messages in Hh as (a & b & _ & _ & -> & _). apply blake3_length.
Qed.

Lemma fold_messages_snoc h steps s :
  fold_messages blake3 h (steps ++ [s]) =
    fold_messages blake3 h steps ++ [step_message (foldl (verify_step blake3) h steps) s].
Proof using. revert h; induction steps as [|x l IH]; intros h; [done|]. simpl. by rewrite IH. Qed.

Lemma fold_length h steps :
  length h = 32%nat → length (foldl (verify_step blake3) h steps) = 32%nat.
Proof using blake3_length.
  revert h; induction steps as [|s l IH]; intros h Hh; [done|]. apply IH, blake3_length.
Qed.

(** A step's message tells its two children apart when they are hashes. *)
Lemma step_message_children h s a b :
  length h = 32%nat → length a = 32%nat → length b = 32%nat →
  step_message h s = internal_message a b → h = a ∨ h = b.
Proof using.
  intros Hh Ha Hb. unfold step_message, internal_message.
  destruct (step_isLeft s); intros Heq; injection Heq as Heq.
  - right. assert (length (hexToBytes (step_hash s)) = 32)%nat as Hl.
    { apply (f_equal length) in Heq. rewrite !length_app in Heq. lia. }
    apply app_inj_1 in Heq as [_ ?]; [done|lia].
  - left. apply app_inj_1 in Heq as [? _]; [done|lia].
Qed.

(** What a verification that ends on a node of the tree started from. *)
Lemma fold_from_leaf leaves steps m0 d cap h :
  (∀ m, m ∈ leaves → ∀ rest, m ≠ DOMAIN_INTERNAL :: rest) →
  (∀ rest, m0 ≠ DOMAIN_INTERNAL :: rest) → (d <= cap)%nat →
  no_collision blake3 (m0 :: fold_messages blake3 (blake3 m0) steps)
    (leaves ++ level_messages blake3 cap (blake3 <$> leaves)) →
  h ∈ level_at blake3 d (blake3 <$> leaves) →
  foldl (verify_step blake3) (blake3 m0) steps = h → m0 ∈ leaves.
Proof using blake3_length.
  intros Hleaves Hm0 Hcap. revert d h Hcap.
  induction steps as [|s steps IH] using rev_ind; intros d h Hcap Hnc Hh Hfold.
  - simpl in Hfold. destruct d as [|d].
    + apply list_elem_of_fmap in Hh as (m & -> & Hm).
      rewrite (Hnc m0 m); [done|by left|by apply elem_of_app; left|done].
    + apply level_at_messages in Hh as (a & b & _ & _ & -> & Hm). exfalso.
      apply (Hm0 (a ++ b)). apply (Hnc m0 (internal_message a b)); [by left| |done].
      apply elem_of_app. right. by apply (level_messages_mono (S d)).
  - rewrite foldl_app in Hfold. simpl in Hfold.
    rewrite fold_messages_snoc in Hnc. set (h' := foldl _ _ _) in *.
    assert (no_collision blake3 (m0 :: fold_messages blake3 (blake3 m0) steps)
      (leaves ++ level_messages blake3 cap (blake3 <$> leaves))) as Hnc'.
    { intros x y Hx. apply Hnc. rewrite app_comm_cons. apply elem_of_app. by left. }
    assert (step_message h' s ∈ (m0 :: fold_messages blake3 (blake3 m0) steps) ++ [step_message h' s])
      as Hs by (apply elem_of_app; right; by left).
    destruct d as [|d].
    + apply list_elem_of_fmap in Hh as (m & -> & Hm). exfalso.
      assert (step_message h' s = m) as Heq.
      { apply Hnc; [exact Hs|apply elem_of_app; by left|exact Hfold]. }
      apply (Hleaves m Hm (tail m)). rewrite <- Heq. unfold step_message, internal_message.
      by destruct (step_isLeft s).
    + apply level_at_messages in Hh as (a & b & Ha & Hb & -> & Hm).
      assert (step_message h' s = internal_message a b) as Heq.
      { apply Hnc; [exact Hs| |exact Hfold].
        apply elem_of_app; right. by apply (level_messages_mono (S d)). }
      assert (Forall (fun h => length h = 32%nat) (blake3 <$> leaves)) as Hlen
        by (apply Forall_fmap, Forall_true; intros; apply blake3_length).
      apply step_message_children in Heq;
        [|by apply fold_length, blake3_length|by eapply node_length..].
      destruct Heq as [Heq|Heq]; [apply (IH d a)|apply (IH d b)]; (lia || done).
Qed.

End soundness.

(** ** The construction *)

Section construction.
Context (blake3 : bytes → bytes).

Lemma build_spec (pad : Z → bytes) (ids : list bytes) :
  ids ≠ [] →
  ∃ d r, let level := blake3 <$> leaf_messages pad ids in
    build_on blake3 (fun i => blake3 (pad i)) ((fun id => blake3 (leaf_message id)) <$> ids)
      = Ok (mkTree (bytesToHex r) (levels_from blake3 (nextPowerOfTwo (length ids)) level)) ∧
    length level = (2 ^ d)%nat ∧ nextPowerOfTwo (length ids) = (2 ^ d)%nat ∧
    (d <= nextPowerOfTwo (length ids))%nat ∧ level_at blake3 d level = [r] ∧
    top_node (levels_from blake3 (nextPowerOfTwo (length ids)) level) = Ok r.
Proof.
  intros Hne. assert (1 <= length ids)%nat as Hlen by (destruct ids; simpl; [done|lia]).
  destruct (nextPowerOfTwo_spec (length ids) Hlen) as (d & Hd & Hle).
  set (level := blake3 <$> leaf_messages pad ids).
  assert (length level = 2 ^ d)%nat as Hl.
  { unfold level, leaf_messages. rewrite length_fmap, length_app, !length_fmap, length_seqZ, Hd. lia. }
  assert (d <= 2 ^ d)%nat as Hdd by (pose proof (Nat.pow_gt_lin_r 2 d); lia).
  destruct (levels_last blake3 d (nextPowerOfTwo (length ids)) level Hl) as (r & Hr & Htop & _); [lia|].
  exists d, r. split; [|split; [done|split; [done|split; [lia|split; [done|done]]]]].
  unfold build_on. rewrite length_fmap. rewrite (proj2 (Nat.eqb_neq _ _)) by lia.
  assert ((((fun id => blake3 (leaf_message id)) <$> ids) ++
    ((fun i => blake3 (pad i)) <$> seqZ (Z.of_nat (length ids))
       (Z.of_nat (nextPowerOfTwo (length ids) - length ids)))) = level) as ->.
  { unfold level, leaf_messages. by rewrite fmap_app, <- !list_fmap_compose. }
  by rewrite Htop.
Qed.

Lemma buildMerkleTree_bytes ids :
  buildMerkleTree blake3 ids =
    build_on blake3 (fun i => blake3 (pad_message i))
      ((fun id => blake3 (leaf_message id)) <$> (utf8 <$> ids)).
Proof. unfold buildMerkleTree. by rewrite <- list_fmap_compose. Qed.

Lemma leaf_messages_not_internal (pad : Z → bytes) ids m :
  (∀ i rest, pad i ≠ DOMAIN_INTERNAL :: rest) →
  m ∈ leaf_messages pad ids → ∀ rest, m ≠ DOMAIN_INTERNAL :: rest.
Proof.
  intros Hpad Hm rest. unfold leaf_messages in Hm. apply elem_of_app in Hm as [Hm|Hm];
    apply list_elem_of_fmap in Hm as (x & -> & _); [done|apply Hpad].
Qed.

Lemma leaf_in_messages id ids :
  leaf_message (utf8 id) ∈ leaf_messages pad_message (utf8 <$> ids) → id ∈ ids.
Proof.
  unfold leaf_messages. intros Hm. apply elem_of_app in Hm as [Hm|Hm];
    apply list_elem_of_fmap in Hm as (x & Hx & Hin); [|done].
  injection Hx as <-. apply list_elem_of_fmap in Hin as (j & ?%utf8_inj & ?). by subst.
Qed.

(** ** Two trees with one root *)

Hypothesis blake3_length : ∀ m, length (blake3 m) = 32%nat.

Lemma no_collision_mono A B A' B' :
  no_collision blake3 A B → A' ⊆ A → B' ⊆ B → no_collision blake3 A' B'.
Proof using. intros Hnc HA HB a b Ha Hb. apply Hnc; auto. Qed.

Lemma next_level_inj cur1 cur2 :
  length cur1 = length cur2 → Nat.Even (length cur1) →
  Forall (fun h => length h = 32%nat) cur1 → Forall (fun h => length h = 32%nat) cur2 →
  no_collision blake3 (pair_messages cur1) (pair_messages cur2) →
  next_level blake3 cur1 = next_level blake3 cur2 → cur1 = cur2.
Proof.
  revert cur2; induction cur1 as [|x|a b l IH] using pair_ind; intros cur2 Hl Hev H1 H2 Hnc Heq.
  - by destruct cur2.
  - destruct Hev as [k Hk]. simpl in Hk. lia.
  - destruct cur2 as [|a' [|b' l']]; [done..|]. cbn [next_level pair_messages] in *.
    injection Heq as Hab Hrest. inversion_clear H1 as [|? ? Ha Hb1]. inversion_clear Hb1.
    inversion_clear H2 as [|? ? Ha' Hb2]. inversion_clear Hb2.
    assert (internal_message a b = internal_message a' b') as Hm.
    { apply Hnc; [by left|by left|exact Hab]. }
    injection Hm as Hm. apply app_inj_1 in Hm as [-> ->]; [|congruence].
    f_equal. f_equal. apply IH; [simpl in Hl; lia| |done|done| |exact Hrest].
    + destruct Hev as [k Hk]. simpl in Hk. exists (k - 1)%nat. lia.
    + eapply no_collision_mono; [exact Hnc|set_solver..].
Qed.

Lemma level_at_inj d cur1 cur2 :
  length cur1 = (2 ^ d)%nat → length cur2 = (2 ^ d)%nat →
  Forall (fun h => length h = 32%nat) cur1 → Forall (fun h => length h = 32%nat) cur2 →
  no_collision blake3 (level_messages blake3 d cur1) (level_messages blake3 d cur2) →
  level_at blake3 d cur1 = level_at blake3 d cur2 → cur1 = cur2.
Proof using blake3_length.
  revert cur1 cur2; induction d as [|d IH]; intros cur1 cur2 Hl1 Hl2 H1 H2 Hnc Heq; [done|].
  assert (∀ cur, Forall (fun h => length h = 32%nat) (next_level blake3 cur)) as Hnext.
  { intros cur. apply Forall_forall. intros x Hx.
    apply next_level_inv in Hx as (a & b & _ & _ & -> & _). apply blake3_length. }
  rewrite !level_at_S in Heq. cbn [level_messages] in Hnc.
  apply next_level_inj; [congruence| |done|done| |].
  - exists (2 ^ d)%nat. rewrite Hl1. simpl. lia.
  - eapply no_collision_mono; [exact Hnc|intros x; rewrite elem_of_app; tauto..].
  - apply IH; [by apply next_level_pow..|apply Hnext|apply Hnext| |done].
    eapply no_collision_mono; [exact Hnc|intros x; rewrite elem_of_app; tauto..].
Qed.

End construction.

Lemma log2_leaf_messages pad ids d :
  length ids ≠ 0%nat → nextPowerOfTwo (length ids) = (2 ^ d)%nat →
  Nat.log2 (length (leaf_messages pad ids)) = d.
Proof.
  intros Hne Hd. destruct (nextPowerOfTwo_spec (length ids)) as (j & Hj & Hle); [lia|].
  unfold leaf_messages. rewrite length_app, !length_fmap, length_seqZ.
  replace (length ids + _)%nat with (2 ^ d)%nat by lia. by rewrite Nat.log2_pow2 by lia.
Qed.

Lemma fmap_pointwise {A B} (f g : A → B) (l : list A) x : f <$> l = g <$> l → x ∈ l → f x = g x.
Proof.
  induction l as [|y l IH]; [by intros _ ?%not_elem_of_nil|]. rewrite !fmap_cons.
  intros [= Hy Hl] [->|Hx]%elem_of_cons; auto.
Qed.

(** The padding leaf of the module is not the Go ledger's. *)
Lemma pad_messages_differ i : 1 <= i < 2 ^ 32 → pad_message i ≠ go_pad_message i.
Proof.
  intros Hi Heq. unfold pad_message, go_pad_message in Heq. apply (f_equal tail) in Heq. cbn [tail] in Heq.
  assert (∀ k, 0 <= k <= 3 → js_and (js_ushr i (8 * k)) 255 = Z.shiftr i (8 * k) mod 256) as Hlow.
  { intros k Hk. assert (js_ushr i (8 * k) = Z.shiftr i (8 * k)) as ->.
    { unfold js_ushr, uint32. rewrite !Z.mod_small by lia. done. }
    assert (0 <= Z.shiftr i (8 * k) < 2 ^ 32).
    { rewrite Z.shiftr_div_pow2 by lia. assert (0 < 2 ^ (8 * k)) by (apply Z.pow_pos_nonneg; lia).
      split; [apply Z.div_pos; lia|]. apply Z.div_lt_upper_bound; nia. }
    set (v := Z.shiftr i (8 * k)) in *. clearbody v.
    unfold js_and. rewrite (int32_small 255) by lia.
    assert (Z.land (int32 v) 255 = v mod 256) as ->.
    { rewrite (Z.land_ones _ 8) by lia. change (2 ^ 8) with 256.
      unfold int32. rewrite (Z.mod_small v (2 ^ 32)) by lia.
      destruct (v <? 2 ^ 31); [done|]. change (2 ^ 32) with (16777216 * 256).
      replace (v - 16777216 * 256) with (v + (-16777216) * 256) by lia. by rewrite Z.mod_add. }
    apply int32_small. pose proof (Z.mod_pos_bound v 256 ltac:(lia)). lia. }
  assert (∀ k, 0 <= k <= 3 → js_ushr i (8 * k + 32) = js_ushr i (8 * k)) as Hwrap.
  { intros k Hk. unfold js_ushr. replace ((8 * k + 32) mod 32) with (8 * k) by dlia.
    by rewrite (Z.mod_small (8 * k)) by lia. }
  assert (∀ k, 0 <= k <= 3 → (i / 2 ^ (8 * k)) mod 256 = 0) as Hzero.
  { intros k Hk. pose proof (fmap_pointwise _ _ _ (3 - k) Heq) as H. cbv beta in H.
    replace (56 - 8 * (3 - k)) with (8 * k + 32) in H by lia.
    rewrite Hwrap, Hlow, !Z.shiftr_div_pow2, (Z.div_small i (2 ^ (8 * k + 32))) in H;
      [apply H, elem_of_seqZ; lia|try lia..].
    split; [lia|]. apply Z.lt_le_trans with (2 ^ 32); [lia|]. apply Z.pow_le_mono_r; lia. }
  pose proof (Hzero 0 ltac:(lia)) as H0. pose proof (Hzero 1 ltac:(lia)) as H1.
  pose proof (Hzero 2 ltac:(lia)) as H2. pose proof (Hzero 3 ltac:(lia)) as H3.
  simpl in H0, H1, H2, H3. rewrite Z.div_1_r in H0. change (2 ^ 32) with 4294967296 in Hi.
  clear - H0 H1 H2 H3 Hi. change (Z.pow_pos 2 8) with 256 in *.
  change (Z.pow_pos 2 16) with 65536 in *. change (Z.pow_pos 2 24) with 16777216 in *. dlia.
Qed.

(** Trees with the same root have the same leaf hashes. *)
Lemma roots_leaves (blake3 : bytes → bytes) d ms1 ms2 r1 r2 :
  (∀ m, length (blake3 m) = 32%nat) → (∀ m, Forall is_byte (blake3 m)) →
  length (blake3 <$> ms1) = (2 ^ d)%nat → length (blake3 <$> ms2) = (2 ^ d)%nat →
  no_collision blake3 (level_messages blake3 d (blake3 <$> ms1)) (level_messages blake3 d (blake3 <$> ms2)) →
  level_at blake3 d (blake3 <$> ms1) = [r1] → level_at blake3 d (blake3 <$> ms2) = [r2] →
  bytesToHex r1 = bytesToHex r2 → blake3 <$> ms1 = blake3 <$> ms2.
Proof.
  intros Hlen Hb Hl1 Hl2 Hnc Hr1 Hr2 Hroot.
  assert (∀ l h, [h] = level_at blake3 d (blake3 <$> l) → Forall is_byte h) as Hnb.
  { intros l h Hh. assert (h ∈ level_at blake3 d (blake3 <$> l)) as Hin by (rewrite <- Hh; by left).
    destruct d as [|e].
    - apply list_elem_of_fmap in Hin as (m & -> & _). apply Hb.
    - apply level_at_messages in Hin as (a & b & _ & _ & -> & _). apply Hb. }
  assert (∀ l, Forall (fun h => length h = 32%nat) (blake3 <$> l)) as Hll
    by (intros l; apply Forall_fmap, Forall_true; intros; apply Hlen).
  apply bytesToHex_inj in Hroot; [|by apply (Hnb ms1)|by apply (Hnb ms2)].
  apply (level_at_inj blake3 Hlen d); [done|done|done|done|done|congruence].
Qed.

(** Padded trees over the same identifiers differ at their first padding leaf. *)
Lemma padded_leaves_differ (blake3 : bytes → bytes) ids :
  (length ids < nextPowerOfTwo (length ids))%nat → 1 <= Z.of_nat (length ids) < 2 ^ 32 →
  no_collision blake3 (leaf_messages pad_message ids) (leaf_messages go_pad_message ids) →
  blake3 <$> leaf_messages pad_message ids ≠ blake3 <$> leaf_messages go_pad_message ids.
Proof.
  intros Hlt Hn Hnc Hleaves. unfold leaf_messages in Hleaves. rewrite !fmap_app in Hleaves.
  apply app_inj_1 in Hleaves as [_ Hpads]; [|done]. rewrite <- !list_fmap_compose in Hpads.
  set (i := Z.of_nat (length ids)) in *.
  assert (i ∈ seqZ i (Z.of_nat (nextPowerOfTwo (length ids) - length ids))) as Hin
    by (apply elem_of_seqZ; lia).
  pose proof (fmap_pointwise _ _ _ _ Hpads Hin) as Heq. simpl in Heq.
  apply (pad_messages_differ i); [done|]. apply Hnc; [| |exact Heq];
    unfold leaf_messages; apply elem_of_app; right; apply list_elem_of_fmap; by exists i.
Qed.

(** Completeness: every member of a tree has a proof that verifies. *)
Lemma inclusion_complete (blake3 : bytes → bytes) evidenceIds tree i id :
  (∀ m, Forall is_byte (blake3 m)) →
  buildMerkleTree blake3 evidenceIds = Ok tree → evidenceIds !! i = Some id →
  ∃ proof, proveInclusion tree (Z.of_nat i) = Ok proof ∧
    pf_root proof = mt_root tree ∧ verifyInclusion blake3 id proof = true ∧
    (2 ^ length (pf_steps proof))%nat = nextPowerOfTwo (length evidenceIds).
Proof.
  intros Hb Htree Hi.
  assert (utf8 <$> evidenceIds ≠ []) as Hne by by destruct evidenceIds.
  destruct (build_spec blake3 pad_message _ Hne) as (d & r & Hbuild & Hl & Hn & Hd & Hr & Htop).
  set (level := blake3 <$> leaf_messages pad_message (utf8 <$> evidenceIds)) in *.
  assert (level !! i = Some (leafHash blake3 id)) as Hleaf.
  { unfold level, leaf_messages. rewrite list_lookup_fmap, lookup_app_l.
    - by rewrite !list_lookup_fmap, Hi.
    - rewrite !length_fmap. by eapply lookup_lt_Some. }
  assert (Forall (Forall is_byte) level) as Hbytes by (apply Forall_fmap, Forall_true; intros; apply Hb).
  destruct (prove_verify blake3 Hb d (nextPowerOfTwo (length (utf8 <$> evidenceIds))) level i _
    Hl Hd Hbytes Hleaf)
    as (steps & r' & Hp & Hr' & Hfold & Hlen).
  assert (r' = r) as -> by (rewrite Hr in Hr'; by injection Hr'). rewrite length_fmap in *.
  rewrite buildMerkleTree_bytes, Hbuild in Htree. injection Htree as <-.
  eexists. unfold proveInclusion. cbn [mt_levels mt_root]. rewrite Hp. cbn [mbind outcome_bind].
  unfold mbind, outcome_bind. rewrite Htop. split; [reflexivity|]. cbn [pf_root pf_steps].
  split; [done|]. split; [|by rewrite Hlen, Hn].
  unfold verifyInclusion. apply bool_decide_eq_true. cbn [pf_steps pf_root]. by rewrite Hfold.
Qed.

Lemma build_total (blake3 : bytes → bytes) evidenceIds :
  evidenceIds ≠ [] → ∃ tree, buildMerkleTree blake3 evidenceIds = Ok tree.
Proof.
  intros Hne. destruct (build_spec blake3 pad_message (utf8 <$> evidenceIds)) as (d & r & Hb & _).
  - by destruct evidenceIds.
  - rewrite buildMerkleTree_bytes. by eexists.
Qed.

(** ** Properties *)

(** C2: every non-empty list of evidence builds a tree, and the proof of every
    member has the tree's root, one step per level, and verifies. *)
Theorem proofs_verify (blake3 : bytes → bytes) evidenceIds i id :
  (∀ m, Forall is_byte (blake3 m)) →
  evidenceIds !! i = Some id →
  ∃ tree proof, buildMerkleTree blake3 evidenceIds = Ok tree ∧
    proveInclusion tree (Z.of_nat i) = Ok proof ∧
    pf_root proof = mt_root tree ∧ verifyInclusion blake3 id proof = true ∧
    (2 ^ length (pf_steps proof))%nat = nextPowerOfTwo (length evidenceIds).
Proof.
  intros Hb Hi. destruct (build_total blake3 evidenceIds) as (tree & Htree); [by destruct evidenceIds|].
  destruct (inclusion_complete blake3 evidenceIds tree i id Hb Htree Hi) as (proof & H).
  by exists tree, proof.
Qed.

(** A stand-in for the hash: 32 bytes that repeat a 32-bit polynomial of the message. *)
Definition toy_hash (m : bytes) : bytes :=
  let v := foldl (fun acc x => Z.land (acc * 31 + x + 7) 4294967295) 0 m in
  let w := [Z.land v 255; Z.land (Z.shiftr v 8) 255; Z.land (Z.shiftr v 16) 255; Z.land (Z.shiftr v 24) 255] in
  w ++ w ++ w ++ w ++ w ++ w ++ w ++ w.

Lemma toy_hash_bytes m : Forall is_byte (toy_hash m).
Proof.
  assert (∀ z, is_byte (Z.land z 255)) as H.
  { intros z. change 255 with (Z.ones 8). rewrite Z.land_ones by lia. apply Z.mod_pos_bound. lia. }
  unfold toy_hash. repeat (apply Forall_app; split); repeat constructor; apply H.
Qed.

Lemma toy_hash_length m : length (toy_hash m) = 32%nat.
Proof. done. Qed.

Definition sample_evidence : list string := ["00a1"; "17c2"; "9fd3"].

Lemma proofs_verify_witness :
  ∃ tree proof, buildMerkleTree toy_hash sample_evidence = Ok tree ∧
    proveInclusion tree 2 = Ok proof ∧ verifyInclusion toy_hash "9fd3" proof = true.
Proof.
  destruct (proofs_verify toy_hash sample_evidence 2 "9fd3" toy_hash_bytes eq_refl)
    as (tree & proof & Hb & Hp & _ & Hv & _).
  exists tree, proof. split; [exact Hb|]. split; [exact Hp|exact Hv].
Defined.

(** C1: against the root of a tree, an evidence id with any proof (of any
    length, with any sibling text) verifies only if it is in the tree, as long
    as no message hashed by the verification collides with a different message
    hashed by the tree: leaves, inner nodes and padding cannot stand for each
    other. *)
Theorem verified_id_in_tree (blake3 : bytes → bytes) evidenceIds tree id proof :
  (∀ m, Forall is_byte (blake3 m)) → (∀ m, length (blake3 m) = 32%nat) →
  buildMerkleTree blake3 evidenceIds = Ok tree →
  no_collision blake3 (verify_messages blake3 id proof)
    (tree_messages blake3 pad_message (utf8 <$> evidenceIds)) →
  pf_root proof = mt_root tree → verifyInclusion blake3 id proof = true → id ∈ evidenceIds.
Proof.
  intros Hb Hlen Hbuild Hnc Hroot Hv.
  assert (utf8 <$> evidenceIds ≠ []) as Hne by (by destruct evidenceIds).
  destruct (build_spec blake3 pad_message _ Hne) as (d & r & Hbuild' & Hl & Hn & _ & Hr & _).
  rewrite buildMerkleTree_bytes, Hbuild' in Hbuild. injection Hbuild as <-.
  unfold verifyInclusion in Hv. apply bool_decide_eq_true in Hv. rewrite Hroot in Hv. cbn [mt_root] in Hv.
  assert (∀ steps h, Forall is_byte h → Forall is_byte (foldl (verify_step blake3) h steps)) as Hfb.
  { intros steps. induction steps as [|s l IH]; intros h Hh; [done|]. apply IH, Hb. }
  assert (r ∈ level_at blake3 d (blake3 <$> leaf_messages pad_message (utf8 <$> evidenceIds))) as Hin
    by (rewrite Hr; by left).
  assert (Forall is_byte r) as Hrb.
  { destruct d as [|d].
    - apply list_elem_of_fmap in Hin as (m & -> & _). apply Hb.
    - apply level_at_messages in Hin as (a & b & _ & _ & -> & _). apply Hb. }
  apply bytesToHex_inj in Hv; [|by apply Hfb, Hb|done].
  apply leaf_in_messages.
  apply (fold_from_leaf blake3 Hlen _ (pf_steps proof) _ d d r); [| |done| |exact Hin|exact Hv].
  - intros m. by apply leaf_messages_not_internal.
  - done.
  - unfold tree_messages in Hnc. rewrite (log2_leaf_messages _ _ d) in Hnc; [exact Hnc| |done].
    by destruct evidenceIds.
Qed.

(** [no_collision] evaluated. *)
Definition check_no_collision (blake3 : bytes → bytes) (A B : list bytes) : bool :=
  let hashed := (fun b => (blake3 b, b)) <$> B in
  forallb (fun a => let h := blake3 a in
    forallb (fun p => negb (bool_decide (h = p.1)) || bool_decide (a = p.2)) hashed) A.

Lemma check_no_collision_ok blake3 A B : check_no_collision blake3 A B = true → no_collision blake3 A B.
Proof.
  unfold check_no_collision. rewrite forallb_forall. intros H a b Ha Hb Heq.
  specialize (H a (proj1 (list_elem_of_In _ _) Ha)). rewrite forallb_forall in H.
  specialize (H (blake3 b, b) (proj1 (list_elem_of_In _ _) (list_elem_of_fmap_2 _ _ _ Hb))).
  cbn [fst snd] in H. rewrite bool_decide_true in H by done. by apply bool_decide_eq_true in H.
Qed.

Definition sample_tree : MerkleTree :=
  match buildMerkleTree toy_hash sample_evidence with Ok t => t | Throw _ => mkTree EmptyString [] end.
Definition sample_proof : InclusionProof :=
  match proveInclusion sample_tree 1 with Ok p => p | Throw _ => mkProof 0 [] EmptyString end.

Lemma verified_id_in_tree_witness :
  verifyInclusion toy_hash "17c2" sample_proof = true ∧ "17c2" ∈ sample_evidence.
Proof.
  assert (verifyInclusion toy_hash "17c2" sample_proof = true) as Hv by (vm_compute; reflexivity).
  split; [exact Hv|].
  apply (verified_id_in_tree toy_hash sample_evidence sample_tree "17c2" sample_proof
    toy_hash_bytes toy_hash_length); [vm_compute; reflexivity| |vm_compute; reflexivity|exact Hv].
  apply check_no_collision_ok. vm_compute. reflexivity.
Defined.

(** The root a proof is checked against is the one it brings: a proof with
    no steps whose root is the leaf's own hash verifies for every evidence id,
    whatever tree was sealed. *)
Theorem self_signed_proof (blake3 : bytes → bytes) id leafIndex :
  verifyInclusion blake3 id (mkProof leafIndex [] (bytesToHex (leafHash blake3 id))) = true.
Proof. by apply bool_decide_eq_true. Qed.

(** C9: the tree agrees with the Go ledger's on the same identifiers exactly
    when no padding is needed.  [padHash] shifts by [>>>], whose count is taken
    modulo 32, so the padding leaf of index [i] repeats the low word where the
    ledger has zeros. *)
Theorem go_root_iff_full (blake3 : bytes → bytes) evidenceIds tree go_tree :
  (∀ m, Forall is_byte (blake3 m)) → (∀ m, length (blake3 m) = 32%nat) →
  Z.of_nat (length evidenceIds) <= 2 ^ 31 →
  no_collision blake3 (tree_messages blake3 pad_message (utf8 <$> evidenceIds))
    (tree_messages blake3 go_pad_message (utf8 <$> evidenceIds)) →
  buildMerkleTree blake3 evidenceIds = Ok tree →
  goBuildMerkleTree blake3 (utf8 <$> evidenceIds) = Ok go_tree →
  mt_root tree = mt_root go_tree ↔ nextPowerOfTwo (length evidenceIds) = length evidenceIds.
Proof.
  intros Hb Hlen Hsize Hnc Ht Hg.
  assert (utf8 <$> evidenceIds ≠ []) as Hne by (by destruct evidenceIds).
  destruct (build_spec blake3 pad_message _ Hne) as (d & r & Hbt & Hl1 & Hn & _ & Hr1 & _).
  destruct (build_spec blake3 go_pad_message _ Hne) as (d' & r' & Hbg & Hl2 & Hn' & _ & Hr2 & _).
  rewrite buildMerkleTree_bytes, Hbt in Ht. injection Ht as <-.
  unfold goBuildMerkleTree in Hg. rewrite Hbg in Hg. injection Hg as <-. cbn [mt_root].
  assert (d' = d) as -> by (apply (Nat.pow_inj_r 2); [lia|congruence]).
  assert (length evidenceIds ≠ 0)%nat as Hnz by (by destruct evidenceIds).
  unfold tree_messages in Hnc.
  rewrite !(log2_leaf_messages _ _ d) in Hnc by (first [done|by rewrite length_fmap]).
  assert (length (utf8 <$> evidenceIds) = length evidenceIds) as Hlf by apply length_fmap.
  set (n := length evidenceIds) in *.
  destruct (nextPowerOfTwo_spec n ltac:(lia)) as (j & Hj & Hle).
  split.
  - intros Hroot. destruct (decide (nextPowerOfTwo n = n)) as [|Hpad]; [done|exfalso].
    assert (blake3 <$> leaf_messages pad_message (utf8 <$> evidenceIds) =
            blake3 <$> leaf_messages go_pad_message (utf8 <$> evidenceIds)) as Hleaves.
    { apply (roots_leaves blake3 d _ _ r r' Hlen Hb); [done|done| |done|done|done].
      eapply no_collision_mono; [exact Hnc|intros x; rewrite elem_of_app; tauto..]. }
    revert Hleaves. apply padded_leaves_differ; [rewrite Hlf; lia|rewrite Hlf; lia|].
    eapply no_collision_mono; [exact Hnc|intros x; rewrite elem_of_app; tauto..].
  - intros Hfull.
    assert (leaf_messages pad_message (utf8 <$> evidenceIds) =
            leaf_messages go_pad_message (utf8 <$> evidenceIds)) as Heq.
    { unfold leaf_messages. rewrite Hlf, Hfull, Nat.sub_diag. done. }
    rewrite Heq, Hr2 in Hr1. injection Hr1 as ->. done.
Qed.

Definition go_sample_tree : MerkleTree :=
  match goBuildMerkleTree toy_hash (utf8 <$> sample_evidence) with
  | Ok t => t | Throw _ => mkTree EmptyString []
  end.

Lemma go_root_iff_full_witness :
  nextPowerOfTwo (length sample_evidence) = 4%nat ∧ mt_root sample_tree ≠ mt_root go_sample_tree.
Proof.
  split; [vm_compute; reflexivity|]. intros Hroot.
  assert (nextPowerOfTwo (length sample_evidence) = length sample_evidence) as H.
  { apply (go_root_iff_full toy_hash sample_evidence sample_tree go_sample_tree toy_hash_bytes toy_hash_length);
      [simpl; lia| |vm_compute; reflexivity|vm_compute; reflexivity|exact Hroot].
    apply check_no_collision_ok. vm_compute. reflexivity. }
  vm_compute in H. discriminate H.
Defined.
