(* ===== verification/Graph.v ===== *)
(** * The evidence graph: web/src/lib/data/graph.ts and its API routes

    The synthetic graph of a case, the cache of built graphs with their Merkle
    trees, and what the two routes under api/graph/[caseId] serve.  [js_pow] is
    [Math.pow], whose result the language leaves to the engine; BLAKE3 is a
    parameter, as in Merkle. *)

From S2P Require Import Prelude JsNum Doubles Json Text Rng Types Seed Merkle.
From Stdlib Require Import Ascii QArith Qround Lqa.
Import Xorshift32.
Open Scope Z_scope.

Definition ENTITY_TYPES : list EntityType := [host; user; process; ip; file; session].

Definition ENTITY_PREFIX (t : EntityType) : string :=
  match t with
  | host => "host" | user => "user" | process => "proc" | ip => "ip" | file => "file" | session => "sess"
  end.

(** [h = (Math.imul(h, 31) + s.charCodeAt(i)) | 0] over the text. *)
Fixpoint hash_from (h : Z) (s : string) : Z :=
  match s with
  | EmptyString => h
  | String c s' => hash_from (int32 (js_imul h 31 + code c)) s'
  end.
Definition hashSeed (s : string) : Z := hash_from 0 s.

Record Graph := mkGraph {
  gr_caseId : string;
  gr_nodes : list GraphNode;
  gr_edges : list GraphEdge;
  gr_columnCount : Z;
}.

Definition spanMs : Z := 5 * 24 * 60 * 60 * 1000.

Definition entity_type (i : Z) : EntityType :=
  default host (ENTITY_TYPES !! Z.to_nat (Z.rem i (Z.of_nat (length ENTITY_TYPES)))).

Definition node_id (caseId : string) (i : Z) : string :=
  ENTITY_PREFIX (entity_type i) +:+ "-" +:+ caseId +:+ "-" +:+ to_dec i.

Section graph.
(** [js_pow q] is [q ** 1.6]. *)
Context (js_pow : Q → Q).

Definition make_node (caseId : string) (nowMs i : Z) : M Z GraphNode :=
  q ← next;
  prior ← int 0 6;
  mret (mkGraphNode (node_id caseId i) (entity_type i) (node_id caseId i)
          (nowMs - spanMs + js_floor (dmul (js_pow q) (inject_Z spanMs))) prior).

Definition draw_node (nodes : list GraphNode) : M Z (option GraphNode) :=
  i ← int 0 (Z.of_nat (length nodes) - 1); mret (at_index nodes i).

(** One turn of the edge loop: [None] is [continue]. *)
Definition make_edge (caseId : string) (nodes : list GraphNode) (i : Z) : M Z (option GraphEdge) :=
  f ← draw_node nodes;
  t ← draw_node nodes;
  fromNode ← lift (or_throw TypeError f);
  toNode ← lift (or_throw TypeError t);
  if bool_decide (gn_id fromNode = gn_id toNode) then mret None
  else
    tactic ← pick TACTICS;
    let predicates := PREDICATES_BY_TACTIC tactic in
    let intervalStartMs := Z.max (gn_firstSeenMs fromNode) (gn_firstSeenMs toNode) in
    evidenceCount ← int 1 3;
    evidenceIds ← repeatM (Z.to_nat evidenceCount) (h ← hex_digits 16; mret ("blake3:" +:+ h));
    h ← hex_digits 8;
    predicate ← pick predicates;
    supporting ← bool_ (9 # 10);
    dt ← int 1 4000;
    extractor ← pick predicates;
    confidence ← int 1000 9500;
    grouped ← bool_ (15 # 100);
    group ← (if grouped : bool then n ← int 1 3; mret (Some ("hyp-" +:+ to_dec n)) else mret None);
    mret (Some (mkGraphEdge (caseId +:+ "-claim-" +:+ to_dec i +:+ "-" +:+ h) (gn_id fromNode) (gn_id toNode)
      predicate (if supporting : bool then supports else refutes) intervalStartMs (intervalStartMs + dt)
      "rule" ("cdl." +:+ tactic_name tactic +:+ "." +:+ lower extractor) "1" confidence evidenceIds group)).

(** [for (let i = 0; i < n; i++) { ... }], keeping what each turn pushes. *)
Fixpoint for_from {A} (n : nat) (i : Z) (f : Z → M Z A) : M Z (list A) :=
  match n with
  | O => mret []
  | S n' => a ← f i; l ← for_from n' (i + 1) f; mret (a :: l)
  end.

(** The node count of the request: [NaN] ends both loops at once. *)
Inductive NodeCount := Count (n : Z) | NotANumber.

Definition auto_count (seed : Z) : Z := Z.min 10000 (Z.max 300 (Z.rem (Z.abs seed) 12000)).

Definition node_turns (override : option NodeCount) (seed : Z) : Z :=
  match override with Some (Count n) => n | Some NotANumber => 0 | None => auto_count seed end.

Definition edge_turns (n : Z) : Z := js_round (dmul (inject_Z n) (fl (13 # 10))).

Definition graph_run (caseId : string) (n nowMs : Z) : M Z (list GraphNode * list GraphEdge) :=
  nodes ← for_from (Z.to_nat n) 0 (make_node caseId nowMs);
  edges ← for_from (Z.to_nat (edge_turns n)) 0 (make_edge caseId nodes);
  mret (nodes, omap id edges).

Definition generateGraph (caseId : string) (override : option NodeCount) (nowMs : Z) : outcome Graph :=
  let seed := hashSeed caseId in
  r ← (graph_run caseId (node_turns override seed) nowMs (create seed)).2;
  Ok (mkGraph caseId r.1 r.2 40).

(** ** The cache *)

Record GraphCacheEntry := mkEntry {
  en_graph : Graph;
  en_tree : MerkleTree;
  en_evidenceIds : list string;
}.

Definition cache_key (caseId : string) (override : option NodeCount) : string :=
  caseId +:+ ":" +:+ match override with Some (Count n) => to_dec n | Some NotANumber => "NaN" | None => "auto" end.

Context (blake3 : bytes → bytes).

Definition graph_evidence (edges : list GraphEdge) : list string := uniq (mjoin (map ge_evidenceIds edges)).

Definition getOrBuildGraph (caseId : string) (override : option NodeCount) (nowMs : Z)
    : M (gmap string GraphCacheEntry) GraphCacheEntry := fun cache =>
  match cache !! cache_key caseId override with
  | Some entry => (cache, Ok entry)
  | None =>
      match generateGraph caseId override nowMs with
      | Throw e => (cache, Throw e)
      | Ok graph =>
          let evidenceIds := sort_by string_leb (graph_evidence (gr_edges graph)) in
          match buildMerkleTree blake3 evidenceIds with
          | Throw e => (cache, Throw e)
          | Ok tree =>
              let entry := mkEntry graph tree evidenceIds in
              (<[cache_key caseId override := entry]> cache, Ok entry)
          end
      end
  end.

Definition proveGraphEvidenceInclusion (caseId : string) (override : option NodeCount) (evidenceId : string) (nowMs : Z)
    : M (gmap string GraphCacheEntry) (option InclusionProof) :=
  entry ← getOrBuildGraph caseId override nowMs;
  match index_of evidenceId (en_evidenceIds entry) with
  | None => mret None
  | Some index => p ← lift (proveInclusion (en_tree entry) (Z.of_nat index)); mret (Some p)
  end.

(** ** The routes *)

(** [nodesParam ? Number(nodesParam) : undefined].  A text of digits is its
    value; every other is taken for [NaN] (signs, fractions, exponents, prefixes
    and [Infinity] are outside the model). *)
Fixpoint digits_value (acc : Z) (s : string) : option Z :=
  match s with
  | EmptyString => Some acc
  | String c s' => if is_digit c then digits_value (acc * 10 + (code c - 48)) s' else None
  end.

Definition node_override (nodesParam : option string) : option NodeCount :=
  match nodesParam with
  | None | Some EmptyString => None
  | Some s => Some (match digits_value 0 s with Some n => Count n | None => NotANumber end)
  end.

Definition GET_graph (caseId : string) (nodesParam : option string) (nowMs : Z)
    : M (gmap string GraphCacheEntry) (list GraphNode * list GraphEdge * Z * list string) :=
  entry ← getOrBuildGraph caseId (node_override nodesParam) nowMs;
  mret (gr_nodes (en_graph entry), gr_edges (en_graph entry), gr_columnCount (en_graph entry), en_evidenceIds entry).

(** [None] is the 404 answer. *)
Definition GET_graph_proof (caseId evidenceId : string) (nodesParam : option string) (nowMs : Z)
    : M (gmap string GraphCacheEntry) (option InclusionProof) :=
  proveGraphEvidenceInclusion caseId (node_override nodesParam) evidenceId nowMs.

End graph.

(** ** What a generated graph promises *)

(** A node of the window, named by its number. *)
Record node_ok (caseId : string) (nowMs i : Z) (n : GraphNode) : Prop := {
  nk_id : gn_id n = node_id caseId i;
  nk_label : gn_label n = gn_id n;
  nk_type : gn_type n = entity_type i;
  nk_seen : nowMs - spanMs <= gn_firstSeenMs n <= nowMs;
  nk_prior : 0 <= gn_priorCaseCount n <= 6;
}.

(** A claim between two different nodes of the graph, not before either was seen. *)
Record edge_ok (nodes : list GraphNode) (e : GraphEdge) : Prop := {
  ek_ends : ∃ f t, f ∈ nodes ∧ t ∈ nodes ∧ ge_fromNodeId e = gn_id f ∧ ge_toNodeId e = gn_id t ∧
    gn_id f ≠ gn_id t ∧ ge_intervalStartMs e = Z.max (gn_firstSeenMs f) (gn_firstSeenMs t);
  ek_interval : ge_intervalStartMs e < ge_intervalEndMs e <= ge_intervalStartMs e + 4000;
  ek_predicate : ∃ t, ge_predicate e ∈ PREDICATES_BY_TACTIC t;
  ek_confidence : 1000 <= ge_confidence e <= 9500;
  ek_evidence : (1 <= length (ge_evidenceIds e) <= 3)%nat;
}.

Lemma append_inj_r (a b c : string) : a +:+ b = a +:+ c → b = c.
Proof. apply (inj (String.append a)). Qed.

Lemma node_id_inj caseId i j : 0 <= i → 0 <= j → node_id caseId i = node_id caseId j → i = j.
Proof.
  intros Hi Hj E. unfold node_id in E.
  assert (ENTITY_PREFIX (entity_type i) = ENTITY_PREFIX (entity_type j)) as Hp
    by (destruct (entity_type i), (entity_type j); try done; by injection E).
  rewrite Hp in E. do 2 apply append_inj_r in E. apply append_inj_r, append_inj_r in E.
  by eapply to_radix_inj in E; [|lia].
Qed.

Section generated.
Context (js_pow : Q → Q).
Hypothesis js_pow_unit : ∀ q, (0 <= q <= 1)%Q → (0 <= js_pow q <= 1)%Q.

Lemma draws_for {A} k (P : Z → A → Prop) n i (f : Z → M Z A) :
  (∀ j, i <= j → draws k (f j) (P j)) →
  draws (n * k) (for_from n i f) (fun l => length l = n ∧ ∀ j a, l !! j = Some a → P (i + Z.of_nat j) a).
Proof.
  revert i. induction n as [|n IH]; intros i Hf; [by apply draws_done|]. cbn [for_from].
  eapply (draws_step k); [apply Hf; lia|lia|]. intros a Ha. cbv beta in Ha.
  replace (S n * k - k)%nat with (n * k + 0)%nat by lia.
  eapply (draws_bind (n * k)); [apply IH; intros j Hj; apply Hf; lia|]. intros l [Hl Hall].
  apply draws_done. split; [simpl; by rewrite Hl|]. intros [|j] b Hb; simpl in Hb.
  - injection Hb as <-. by rewrite Z.add_0_r.
  - replace (i + Z.of_nat (S j)) with (i + 1 + Z.of_nat j) by lia. by apply Hall.
Qed.

Lemma seen_range q nowMs : (0 <= q <= unit_max)%Q →
  nowMs - spanMs <= nowMs - spanMs + js_floor (dmul (js_pow q) (inject_Z spanMs)) <= nowMs.
Proof using js_pow_unit.
  intros Hq. assert (0 <= js_pow q <= 1)%Q as Hp.
  { apply js_pow_unit. unfold unit_max in Hq. split; [lra|]. eapply Qle_trans; [apply Hq|]. lra. }
  assert (0 <= inject_Z spanMs)%Q as Hs by (by vm_compute).
  assert (0 <= js_floor (dmul (js_pow q) (inject_Z spanMs)) <= spanMs); [|lia].
  unfold js_floor. split.
  - change 0 with (Qfloor (inject_Z 0)). apply Qfloor_resp_le. apply dmul_nonneg; [lra|done].
  - rewrite <- (Qfloor_Z spanMs) at 2. apply Qfloor_resp_le, fl_le_Z; [done|]. nra.
Qed.

Lemma draws_node caseId nowMs i : draws 2 (make_node js_pow caseId nowMs i) (node_ok caseId nowMs i).
Proof using js_pow_unit.
  unfold make_node. eapply (draws_step 1); [apply draws_next|lia|]. intros q Hq. cbv beta in Hq.
  eapply (draws_step 1); [apply draws_int; lia|lia|]. intros p Hp. cbv beta in Hp.
  apply draws_done. split; try done. by apply seen_range.
Qed.

Lemma draws_draw_node nodes : nodes ≠ [] → Z.of_nat (length nodes) < 2 ^ 53 →
  draws 1 (draw_node nodes) (fun o => ∃ n, o = Some n ∧ n ∈ nodes).
Proof.
  intros Hne Hl. assert (0 < length nodes)%nat by (destruct nodes; simpl; [done|lia]).
  unfold draw_node. eapply (draws_step 1); [apply draws_int; lia|lia|]. intros i Hi. cbv beta in Hi.
  apply draws_done. unfold at_index. rewrite (proj2 (Z.ltb_ge _ _)) by lia.
  destruct (lookup_lt_is_Some_2 nodes (Z.to_nat i)) as [n Hn]; [lia|]. exists n. split; [done|].
  by eapply list_elem_of_lookup_2.
Qed.

Lemma draws_evidence n :
  draws (n * 16) (repeatM n (h ← hex_digits 16; mret ("blake3:" +:+ h))) (fun l => length l = n).
Proof.
  eapply draws_weaken; [apply (draws_repeat 16 n _ (fun _ => True))|by intros l [H _]].
  eapply (draws_step 16); [apply draws_hex_digits|lia|]. intros h _. by apply draws_done.
Qed.

Lemma draws_edge caseId nodes i : nodes ≠ [] → Z.of_nat (length nodes) < 2 ^ 53 →
  draws 67 (make_edge caseId nodes i) (fun o => match o with Some e => edge_ok nodes e | None => True end).
Proof.
  intros Hne Hl. unfold make_edge.
  eapply (draws_step 1); [by apply draws_draw_node|lia|]. intros ? (f & -> & Hf).
  eapply (draws_step 1); [by apply draws_draw_node|lia|]. intros ? (t & -> & Ht).
  eapply (draws_step 0); [by apply (draws_lift _ f (eq f))|lia|]. intros ? <-.
  eapply (draws_step 0); [by apply (draws_lift _ t (eq t))|lia|]. intros ? <-.
  case_bool_decide as Hft; [by apply draws_done|].
  eapply (draws_step 1); [apply draws_pick; done|lia|]. intros tac _.
  eapply (draws_step 1); [apply draws_int; lia|lia|]. intros n Hn. cbv beta in Hn.
  eapply (draws_step 48); [eapply (draws_mono (Z.to_nat n * 16)); [apply draws_evidence|lia|intros a Ha; exact Ha]|lia|].
  intros ev Hev. cbv beta in Hev.
  eapply (draws_step 8); [apply draws_hex_digits|lia|]. intros h _.
  eapply (draws_step 1); [apply draws_predicate|lia|]. intros p Hp. cbv beta in Hp.
  eapply (draws_step 1); [apply draws_bool|lia|]. intros b _.
  eapply (draws_step 1); [apply draws_int; lia|lia|]. intros dt Hdt. cbv beta in Hdt.
  eapply (draws_step 1); [apply draws_predicate|lia|]. intros x _.
  eapply (draws_step 1); [apply draws_int; lia|lia|]. intros c Hc. cbv beta in Hc.
  eapply (draws_step 1); [apply draws_bool|lia|]. intros g _.
  eapply (draws_step 1 _ _ _ (fun _ => True)); [|lia|].
  { destruct g; [|by apply draws_done]. eapply (draws_step 1); [apply draws_int; lia|lia|]. intros k _. by apply draws_done. }
  intros grp _. apply draws_done. split; cbn.
  - by exists f, t.
  - lia.
  - by exists tac.
  - lia.
  - lia.
Qed.

(** The two loops, on a generator that avoids the exceptional word. *)
Lemma graph_run_ok caseId n nowMs s :
  0 <= n < 2 ^ 52 → clean (Z.to_nat n * 2 + Z.to_nat (edge_turns n) * 67) s = true →
  ∃ s' nodes edges, graph_run js_pow caseId n nowMs s = (s', Ok (nodes, edges)) ∧
    Z.of_nat (length nodes) = n ∧ (∀ j a, nodes !! j = Some a → node_ok caseId nowMs (Z.of_nat j) a) ∧
    Forall (edge_ok nodes) edges ∧ Z.of_nat (length edges) <= Z.max 0 (edge_turns n).
Proof using js_pow_unit.
  intros Hn Hc.
  assert (draws (Z.to_nat n * 2 + Z.to_nat (edge_turns n) * 67) (graph_run js_pow caseId n nowMs) (fun r =>
    Z.of_nat (length r.1) = n ∧ (∀ j a, r.1 !! j = Some a → node_ok caseId nowMs (Z.of_nat j) a) ∧
    Forall (edge_ok r.1) r.2 ∧ Z.of_nat (length r.2) <= Z.max 0 (edge_turns n))) as H.
  { unfold graph_run. eapply draws_bind; [apply (draws_for 2 (node_ok caseId nowMs)); intros j _; apply draws_node|].
    intros nodes [Hl Hok]. replace (Z.to_nat (edge_turns n) * 67)%nat with (Z.to_nat (edge_turns n) * 67 + 0)%nat by lia.
    eapply (draws_bind _ 0 _ _ (fun l => length l = Z.to_nat (edge_turns n) ∧ ∀ (j : nat) o, l !! j = Some o → match o with Some e => edge_ok nodes e | None => True end)).
    - destruct (decide (n = 0)) as [->|Hne].
      { change (edge_turns 0) with 0. apply draws_done. done. }
      apply (draws_for 67 (fun _ o => match o with Some e => edge_ok nodes e | None => True end)).
      intros j _. apply draws_edge; [intros ->; simpl in Hl; lia|lia].
    - intros l [Hll Hall]. apply draws_done. cbn [fst snd]. split; [lia|]. split; [intros j a Hj; by apply Hok|]. split.
      + apply Forall_forall. intros e (o & Ho & Heq)%list_elem_of_omap. unfold id in Heq. subst o.
        apply list_elem_of_lookup in Ho as [j Hj]. apply (Hall j _ Hj).
      + assert (∀ l : list (option GraphEdge), (length (omap id l) <= length l)%nat) as H.
        { clear. intros l. induction l as [|[e|] l IH]; [done| |].
          - change (S (length (omap id l)) <= S (length l))%nat. lia.
          - change (length (omap id l) <= S (length l))%nat. lia. }
        specialize (H l). lia. }
  destruct (H s Hc) as (k & [nodes edges] & _ & Heq & Hr). exists (Nat.iter k advance s), nodes, edges. done.
Qed.
End generated.

(** ** The cache *)

Section cache.
Context (js_pow : Q → Q) (blake3 : bytes → bytes).

Definition entry_ok (e : GraphCacheEntry) : Prop :=
  en_evidenceIds e = sort_by string_leb (graph_evidence (gr_edges (en_graph e))) ∧
  buildMerkleTree blake3 (en_evidenceIds e) = Ok (en_tree e).

(** The caches a server goes through: empty at the start, then one request after another. *)
Inductive cache_reachable : gmap string GraphCacheEntry → Prop :=
| cr_init : cache_reachable ∅
| cr_build cache caseId override nowMs :
    cache_reachable cache → cache_reachable (getOrBuildGraph js_pow blake3 caseId override nowMs cache).1.

Lemma getOrBuildGraph_Ok caseId override nowMs cache cache' e :
  map_Forall (fun _ => entry_ok) cache →
  getOrBuildGraph js_pow blake3 caseId override nowMs cache = (cache', Ok e) →
  entry_ok e ∧ cache' !! cache_key caseId override = Some e ∧ map_Forall (fun _ => entry_ok) cache'.
Proof.
  intros Hc. unfold getOrBuildGraph. destruct (cache !! cache_key caseId override) as [e0|] eqn:Hk.
  { intros [= <- <-]. split; [by apply (Hc _ _ Hk)|done]. }
  destruct (generateGraph _ _ _ _) as [g|x]; [|done].
  destruct (buildMerkleTree _ _) as [t|x] eqn:Ht; [|done]. intros [= <- <-].
  assert (entry_ok (mkEntry g t (sort_by string_leb (graph_evidence (gr_edges g))))) as He by done.
  split; [done|]. split; [by rewrite lookup_insert_eq|]. by apply map_Forall_insert_2.
Qed.

Lemma reachable_ok cache : cache_reachable cache → map_Forall (fun _ => entry_ok) cache.
Proof.
  induction 1 as [|cache caseId override nowMs _ IH]; [apply map_Forall_empty|].
  destruct (getOrBuildGraph _ _ caseId override nowMs cache) as [cache' [e|x]] eqn:E.
  - by destruct (getOrBuildGraph_Ok _ _ _ _ _ _ IH E) as (_ & _ & ?).
  - unfold getOrBuildGraph in E. repeat case_match; by simplify_eq.
Qed.

Lemma getOrBuildGraph_hit caseId override nowMs cache e :
  cache !! cache_key caseId override = Some e →
  getOrBuildGraph js_pow blake3 caseId override nowMs cache = (cache, Ok e).
Proof. intros H. unfold getOrBuildGraph. by rewrite H. Qed.

Lemma elem_of_graph_evidence id edges : id ∈ graph_evidence edges ↔ ∃ e, e ∈ edges ∧ id ∈ ge_evidenceIds e.
Proof.
  unfold graph_evidence. rewrite elem_of_uniq, list_elem_of_join. split.
  - intros (l & Hid & Hl). apply list_elem_of_In, in_map_iff in Hl as (e & <- & He). exists e. by rewrite list_elem_of_In.
  - intros (e & He & Hid). exists (ge_evidenceIds e). split; [done|]. apply list_elem_of_In, in_map_iff. exists e. by rewrite <- list_elem_of_In.
Qed.

End cache.

(** ** Properties *)

Lemma auto_count_range seed : 300 <= auto_count seed <= 10000.
Proof. unfold auto_count. lia. Qed.

(** C14: with the automatic count (between 300 and 10000) or any smaller one asked
    for, and a generator that avoids the exceptional word, the graph is built and
    is well formed: the nodes are numbered, with distinct ids and inside the
    five-day window; a claim joins two different nodes of the graph, starts when
    the later of them was first seen and has one to three pieces of evidence.
    Serving it then succeeds exactly when there is a claim at all: a request for
    one node, or for a count that is not a number, fails. *)
Theorem graph_well_formed (js_pow : Q → Q) (blake3 : bytes → bytes) caseId override nowMs :
  (∀ q, (0 <= q <= 1)%Q → (0 <= js_pow q <= 1)%Q) →
  let n := node_turns override (hashSeed caseId) in
  0 <= n < 2 ^ 52 → clean (Z.to_nat n * 2 + Z.to_nat (edge_turns n) * 67) (create (hashSeed caseId)) = true →
  ∃ g, generateGraph js_pow caseId override nowMs = Ok g ∧
    Z.of_nat (length (gr_nodes g)) = n ∧ NoDup (gn_id <$> gr_nodes g) ∧
    (∀ i a, gr_nodes g !! i = Some a → node_ok caseId nowMs (Z.of_nat i) a) ∧
    Forall (edge_ok (gr_nodes g)) (gr_edges g) ∧
    (is_Some (match (getOrBuildGraph js_pow blake3 caseId override nowMs ∅).2 with Ok e => Some e | Throw _ => None end)
       ↔ gr_edges g ≠ []) ∧
    (n <= 1 → (getOrBuildGraph js_pow blake3 caseId override nowMs ∅).2 = Throw (JsError "buildMerkleTree: empty evidence set")).
Proof.
  intros Hpow n Hn Hc. destruct (graph_run_ok js_pow Hpow caseId n nowMs _ Hn Hc) as (s' & nodes & edges & Hrun & Hl & Hok & He & Hle).
  assert (generateGraph js_pow caseId override nowMs = Ok (mkGraph caseId nodes edges 40)) as Hg
    by (unfold generateGraph; fold n; by rewrite Hrun).
  exists (mkGraph caseId nodes edges 40). split; [done|]. cbn [gr_nodes gr_edges]. split; [done|].
  assert (NoDup (gn_id <$> nodes)) as Hnd.
  { apply NoDup_alt. intros i j x Hi Hj. rewrite list_lookup_fmap in Hi, Hj.
    destruct (nodes !! i) as [a|] eqn:Ha, (nodes !! j) as [b|] eqn:Hb; try done. simpl in Hi, Hj.
    assert (node_id caseId (Z.of_nat i) = node_id caseId (Z.of_nat j)) as E
      by (rewrite <- (nk_id _ _ _ _ (Hok _ _ Ha)), <- (nk_id _ _ _ _ (Hok _ _ Hb)); congruence).
    apply node_id_inj in E; lia. }
  split; [done|]. split; [done|]. split; [done|].
  assert ((getOrBuildGraph js_pow blake3 caseId override nowMs ∅).2 =
    match buildMerkleTree blake3 (sort_by string_leb (graph_evidence edges)) with
    | Ok t => Ok (mkEntry (mkGraph caseId nodes edges 40) t (sort_by string_leb (graph_evidence edges))) | Throw e => Throw e end) as Hb.
  { unfold getOrBuildGraph. rewrite lookup_empty, Hg. cbn [gr_edges]. by destruct (buildMerkleTree _ _). }
  rewrite Hb. split.
  - destruct edges as [|e es]; [split; [by intros []|done]|]. split; [done|]. intros _.
    destruct (build_total blake3 (sort_by string_leb (graph_evidence (e :: es)))) as (t & ->); [|by eexists].
    apply Forall_cons_1 in He as [He _]. destruct (ek_evidence _ _ He) as [H1 _].
    destruct (ge_evidenceIds e) as [|id ids] eqn:Eid; [simpl in H1; lia|].
    assert (id ∈ sort_by string_leb (graph_evidence (e :: es))) as Hin.
    { rewrite elem_of_sort_by, elem_of_graph_evidence. exists e. split; [by left|rewrite Eid; by left]. }
    intros E. rewrite E in Hin. by apply not_elem_of_nil in Hin.
  - intros Hn1. assert (edges = []) as ->; [|done].
    destruct edges as [|e es]; [done|]. apply Forall_cons_1 in He as [He _].
    destruct (ek_ends _ _ He) as (f & t & Hf & Ht & _ & _ & Hne & _).
    destruct nodes as [|x [|y l]]; simpl in Hl; [by apply not_elem_of_nil in Hf| |lia].
    apply list_elem_of_singleton in Hf, Ht. congruence.
Qed.

Lemma graph_well_formed_witness :
  clean (24 + 16 * 67) (create (hashSeed "case-0")) = true ∧
  ∃ g, generateGraph (fun q => q) "case-0" (Some (Count 12)) 1757500000000 = Ok g ∧ length (gr_nodes g) = 12%nat ∧ NoDup (gn_id <$> gr_nodes g).
Proof.
  assert (clean (24 + 16 * 67) (create (hashSeed "case-0")) = true) as Hc by (vm_compute; reflexivity).
  split; [exact Hc|].
  destruct (graph_well_formed (fun q => q) toy_hash "case-0" (Some (Count 12)) 1757500000000 (fun q H => H)) as (g & Hg & Hl & Hnd & _).
  - cbn. lia.
  - exact Hc.
  - exists g. split; [exact Hg|]. split; [cbn in Hl; lia|exact Hnd].
Defined.

(** The proof route on a graph that was served. *)
Lemma served_proof (js_pow : Q → Q) (blake3 : bytes → bytes) cache cache' caseId nodesParam now1 now2 nodes edges columns ids id :
  (∀ m, Forall is_byte (blake3 m)) → cache_reachable js_pow blake3 cache →
  GET_graph js_pow blake3 caseId nodesParam now1 cache = (cache', Ok (nodes, edges, columns, ids)) →
  (∃ e, e ∈ edges ∧ id ∈ ge_evidenceIds e) →
  ∃ p, GET_graph_proof js_pow blake3 caseId id nodesParam now2 cache' = (cache', Ok (Some p)) ∧ verifyInclusion blake3 id p = true.
Proof.
  intros Hb Hreach Hget Hid. unfold GET_graph in Hget. apply bind_inv in Hget as [(c1 & e & Hbuild & Hr)|(c1 & x & _ & [=])].
  cbn in Hr. injection Hr as <- <- <- <- <-.
  destruct (getOrBuildGraph_Ok js_pow blake3 _ _ _ _ _ _ (reachable_ok _ _ _ Hreach) Hbuild) as ([Hids Htree] & Hkey & _).
  pose proof (getOrBuildGraph_hit js_pow blake3 caseId (node_override nodesParam) now2 _ _ Hkey) as Hhit.
  unfold GET_graph_proof, proveGraphEvidenceInclusion.
  assert (id ∈ en_evidenceIds e) as Hin by (by rewrite Hids, elem_of_sort_by, elem_of_graph_evidence).
  apply index_of_elem in Hin as [i Hi].
  destruct (inclusion_complete blake3 _ _ i id Hb Htree (index_of_Some _ _ _ Hi)) as (p & Hp & _ & Hv & _).
  exists p. split; [|done]. rewrite (bind_Ok _ _ _ _ _ Hhit), Hi, (bind_Ok _ _ _ c1 p); [done|]. by rewrite Hp.
Qed.

(** C3: whatever was asked of the server before, after a graph is served every
    piece of evidence of every claim in it has a proof that the browser verifies,
    at any later time, and nothing else has one; the same graph is served again. *)
Theorem served_evidence_verifies (js_pow : Q → Q) (blake3 : bytes → bytes) cache cache' caseId nodesParam now1 now2 nodes edges columns ids :
  (∀ m, Forall is_byte (blake3 m)) → cache_reachable js_pow blake3 cache →
  GET_graph js_pow blake3 caseId nodesParam now1 cache = (cache', Ok (nodes, edges, columns, ids)) →
  (∀ id, (∃ e, e ∈ edges ∧ id ∈ ge_evidenceIds e) →
     ∃ p, GET_graph_proof js_pow blake3 caseId id nodesParam now2 cache' = (cache', Ok (Some p)) ∧ verifyInclusion blake3 id p = true) ∧
  (∀ id, (¬ ∃ e, e ∈ edges ∧ id ∈ ge_evidenceIds e) →
     GET_graph_proof js_pow blake3 caseId id nodesParam now2 cache' = (cache', Ok None)) ∧
  GET_graph js_pow blake3 caseId nodesParam now2 cache' = (cache', Ok (nodes, edges, columns, ids)).
Proof.
  intros Hb Hreach Hget. split; [intros id; by apply (served_proof js_pow blake3 cache cache' caseId nodesParam now1 now2 nodes edges columns ids)|].
  unfold GET_graph in Hget. apply bind_inv in Hget as [(c1 & e & Hbuild & Hr)|(c1 & x & _ & [=])].
  cbn in Hr. injection Hr as <- <- <- <- <-.
  destruct (getOrBuildGraph_Ok js_pow blake3 _ _ _ _ _ _ (reachable_ok _ _ _ Hreach) Hbuild) as ([Hids Htree] & Hkey & _).
  pose proof (getOrBuildGraph_hit js_pow blake3 caseId (node_override nodesParam) now2 _ _ Hkey) as Hhit.
  unfold GET_graph_proof, proveGraphEvidenceInclusion, GET_graph.
  assert (∀ id, id ∈ en_evidenceIds e ↔ ∃ ed, ed ∈ gr_edges (en_graph e) ∧ id ∈ ge_evidenceIds ed) as Hin
    by (intros id; by rewrite Hids, elem_of_sort_by, elem_of_graph_evidence).
  split.
  - intros id Hid. rewrite <- Hin in Hid. apply index_of_None in Hid. by rewrite (bind_Ok _ _ _ _ _ Hhit), Hid.
  - by rewrite (bind_Ok _ _ _ _ _ Hhit).
Qed.

Lemma served_evidence_verifies_witness :
  ∃ cache nodes edges columns ids e id p,
    GET_graph (fun q => q) toy_hash "case-0" (Some "12") 1757500000000 ∅ = (cache, Ok (nodes, edges, columns, ids)) ∧
    e ∈ edges ∧ id ∈ ge_evidenceIds e ∧
    GET_graph_proof (fun q => q) toy_hash "case-0" id (Some "12") 1757500009999 cache = (cache, Ok (Some p)) ∧
    verifyInclusion toy_hash id p = true.
Proof.
  destruct (GET_graph (fun q => q) toy_hash "case-0" (Some "12") 1757500000000 ∅) as [cache r] eqn:E.
  assert (match r with Ok (_, e :: _, _, _) => negb (length (ge_evidenceIds e) =? 0)%nat | _ => false end = true) as H.
  { change r with (cache, r).2. rewrite <- E. vm_compute. reflexivity. }
  destruct r as [[[[nodes edges] columns] ids]|x]; [|discriminate H]. destruct edges as [|e es]; [discriminate H|].
  destruct (ge_evidenceIds e) as [|id rest] eqn:Eid; [discriminate H|].
  destruct (served_evidence_verifies (fun q => q) toy_hash ∅ cache "case-0" (Some "12") 1757500000000 1757500009999
    nodes (e :: es) columns ids toy_hash_bytes (cr_init _ _) E) as (Hall & _).
  destruct (Hall id) as (p & Hp & Hv).
  { exists e. split; [left|rewrite Eid; left]. }
  exists cache, nodes, (e :: es), columns, ids, e, id, p.
  split; [exact eq_refl|]. split; [left|]. split; [rewrite Eid; left|]. split; [exact Hp|exact Hv].
Defined.
