(* ===== verification/Layout.v ===== *)
(** * The layout of the evidence graph: web/src/components/investigation-canvas/layout.ts

    Nodes in columns by the time they were first seen, and in each column one
    below the other in the order of their ids. *)

From S2P Require Import Prelude JsNum Doubles Types Widgets.
From Stdlib Require Import QArith Qround Lqa.
Open Scope Z_scope.

Definition COLUMN_WIDTH : Z := 160.
Definition ROW_HEIGHT : Z := 28.

Record LaidOutNode := mkLaidOut {
  lo_node : GraphNode;
  lo_column : Z;
  lo_x : Z;
  lo_y : Z;
}.

(** [byColumn], in the order in which columns are first met. *)
Definition columns_map : Type := list (Z * list GraphNode).

Fixpoint push_column (column : Z) (n : GraphNode) (m : columns_map) : columns_map :=
  match m with
  | [] => [(column, [n])]
  | (k, l) :: m' => if k =? column then (k, l ++ [n]) :: m' else (k, l) :: push_column column n m'
  end.

Definition column_of (minMs span columnCount ms : Z) : Z :=
  Z.min (columnCount - 1) (js_floor (dmul (ddiv (inject_Z (ms - minMs)) (inject_Z span)) (inject_Z columnCount))).

Definition id_leb (a b : GraphNode) : bool := string_leb (gn_id a) (gn_id b).

Definition lay_column (c : Z * list GraphNode) : list LaidOutNode :=
  imap (fun row n => mkLaidOut n c.1 (c.1 * COLUMN_WIDTH) (Z.of_nat row * ROW_HEIGHT)) (sort_by id_leb c.2).

Definition node_column (nodes : list GraphNode) (columnCount : Z) (n : GraphNode) : Z :=
  let minMs := zmin_list (gn_firstSeenMs <$> nodes) in
  let maxMs := zmax_list (gn_firstSeenMs <$> nodes) in
  column_of minMs (Z.max 1 (maxMs - minMs)) columnCount (gn_firstSeenMs n).

Definition by_column (column : GraphNode → Z) (nodes : list GraphNode) : columns_map :=
  foldl (fun m n => push_column (column n) n m) [] nodes.

Definition layoutNodes (nodes : list GraphNode) (columnCount : Z) : list LaidOutNode :=
  if (length nodes =? 0)%nat then []
  else mjoin (map lay_column (by_column (node_column nodes columnCount) nodes)).

(** ** Columns *)

Lemma column_of_mono minMs span columnCount a b :
  0 < span → 0 <= columnCount → a <= b → column_of minMs span columnCount a <= column_of minMs span columnCount b.
Proof.
  intros Hs Hc Hab. unfold column_of. apply Z.min_le_compat_l, Qfloor_resp_le, dmul_mono_l.
  - apply ddiv_mono_l; [rewrite <- Zle_Qle; lia|]. change 0%Q with (inject_Z 0). by rewrite <- Zlt_Qlt.
  - change 0%Q with (inject_Z 0). by rewrite <- Zle_Qle.
Qed.

Lemma column_of_min minMs span columnCount : 0 < span → 0 < columnCount → column_of minMs span columnCount minMs = 0.
Proof.
  intros Hs Hc. unfold column_of. rewrite Z.sub_diag.
  assert (ddiv (inject_Z 0) (inject_Z span) == 0)%Q as E by (unfold ddiv, Qdiv; by rewrite (fl_proper _ _ (Qmult_0_l _))).
  assert (dmul (ddiv (inject_Z 0) (inject_Z span)) (inject_Z columnCount) == 0)%Q as E2
    by (unfold dmul; rewrite (fl_proper _ 0%Q); [done|rewrite E; ring]).
  unfold js_floor. rewrite (Qfloor_comp _ _ E2). change (Qfloor 0%Q) with 0. lia.
Qed.

Lemma node_column_range nodes columnCount n :
  n ∈ nodes → 0 < columnCount → 0 <= node_column nodes columnCount n < columnCount.
Proof.
  intros Hn Hc. unfold node_column. set (mn := zmin_list _). set (mx := zmax_list _).
  pose proof (min_max_list (gn_firstSeenMs <$> nodes) (gn_firstSeenMs n) ltac:(by apply list_elem_of_fmap_2)) as Hb.
  fold mn mx in Hb. split; [|unfold column_of; lia].
  rewrite <- (column_of_min mn (Z.max 1 (mx - mn)) columnCount) by lia. apply column_of_mono; lia.
Qed.

(** ** The grouping *)

Lemma push_column_perm c n m : mjoin (map snd (push_column c n m)) ≡ₚ n :: mjoin (map snd m).
Proof.
  induction m as [|[k l] m IH]; [done|]. cbn [push_column]. destruct (k =? c); cbn [map snd]; rewrite !mjoin_cons.
  - rewrite <- app_assoc. symmetry. apply Permutation_middle.
  - by rewrite IH, Permutation_middle.
Qed.

Lemma push_column_keys c n m : NoDup m.*1 → NoDup (push_column c n m).*1 ∧ ∀ k, k ∈ (push_column c n m).*1 ↔ k = c ∨ k ∈ m.*1.
Proof.
  induction m as [|[k l] m IH]; intros Hnd; cbn [push_column].
  { split; [apply NoDup_singleton|]. intros k. csimpl. set_solver. }
  csimpl in *. apply NoDup_cons in Hnd as [Hk Hnd]. destruct (IH Hnd) as [IH1 IH2].
  destruct (Z.eqb_spec k c) as [->|Hne]; csimpl.
  - split; [by apply NoDup_cons|]. set_solver.
  - split; [apply NoDup_cons; split; [rewrite IH2; naive_solver|done]|]. intros k'. rewrite !elem_of_cons, IH2. naive_solver.
Qed.

Lemma push_column_group c n m (P : Z → GraphNode → Prop) :
  P c n → Forall (fun g => Forall (P g.1) g.2) m → Forall (fun g => Forall (P g.1) g.2) (push_column c n m).
Proof.
  intros Hn. induction 1 as [|[k l] m Hg Hm IH]; cbn [push_column]; [by repeat constructor|].
  destruct (Z.eqb_spec k c) as [->|Hne]; constructor; try done. apply Forall_app. split; [done|by constructor].
Qed.

Lemma by_column_spec column nodes :
  mjoin (map snd (by_column column nodes)) ≡ₚ nodes ∧ NoDup (by_column column nodes).*1 ∧
  Forall (fun g => Forall (fun n => column n = g.1) g.2) (by_column column nodes).
Proof.
  unfold by_column. assert (∀ m, NoDup m.*1 → Forall (fun g => Forall (fun n => column n = g.1) g.2) m →
    let m' := foldl (fun m n => push_column (column n) n m) m nodes in
    mjoin (map snd m') ≡ₚ nodes ++ mjoin (map snd m) ∧ NoDup m'.*1 ∧ Forall (fun g => Forall (fun n => column n = g.1) g.2) m') as H.
  { induction nodes as [|n nodes IH]; intros m Hnd Hg; [done|]. cbn [foldl].
    destruct (IH (push_column (column n) n m)) as (H1 & H2 & H3).
    - by apply push_column_keys.
    - by apply (push_column_group _ _ _ (fun k n => column n = k)).
    - split; [|done]. rewrite H1, push_column_perm. by rewrite <- Permutation_middle. }
  destruct (H []) as (H1 & H2 & H3); [constructor|constructor|]. rewrite app_nil_r in H1. done.
Qed.

Lemma lay_column_nodes c : lo_node <$> lay_column c ≡ₚ c.2.
Proof.
  unfold lay_column. rewrite <- (sort_by_perm id_leb c.2) at 2. rewrite fmap_imap. apply reflexive_eq, list_eq.
  intros i. rewrite list_lookup_imap. by destruct (_ !! i).
Qed.

Lemma lay_column_lookup c i a : lay_column c !! i = Some a ↔
  ∃ n, sort_by id_leb c.2 !! i = Some n ∧ a = mkLaidOut n c.1 (c.1 * COLUMN_WIDTH) (Z.of_nat i * ROW_HEIGHT).
Proof.
  unfold lay_column. rewrite list_lookup_imap. destruct (sort_by id_leb c.2 !! i) as [n|]; simpl.
  - split; [intros [= <-]; by exists n|intros (m & [= <-] & ->); done].
  - split; [done|by intros (m & ? & _)].
Qed.

(** Two groups with the same key are one. *)
Lemma NoDup_fst_eq {A B} (l : list (A * B)) c d : NoDup l.*1 → c ∈ l → d ∈ l → c.1 = d.1 → c = d.
Proof.
  intros Hnd (i & Hi)%list_elem_of_lookup (j & Hj)%list_elem_of_lookup E.
  assert (i = j) as ->; [|congruence].
  eapply NoDup_lookup; [exact Hnd|rewrite list_lookup_fmap, Hi; done|rewrite list_lookup_fmap, Hj; simpl; congruence].
Qed.

Lemma positions_distinct cols :
  NoDup cols.*1 → NoDup ((fun a => (lo_x a, lo_y a)) <$> mjoin (map lay_column cols)).
Proof.
  induction cols as [|c cols IH]; intros Hnd; [constructor|]. csimpl in Hnd. apply NoDup_cons in Hnd as [Hc Hnd].
  cbn [map]. rewrite mjoin_cons, fmap_app. apply NoDup_app. split; [|split; [|by apply IH]].
  - apply NoDup_alt. intros i j p Hi Hj. rewrite list_lookup_fmap in Hi, Hj.
    destruct (lay_column c !! i) as [a|] eqn:Ha, (lay_column c !! j) as [b|] eqn:Hb; try done.
    apply lay_column_lookup in Ha as (n & _ & ->), Hb as (m & _ & ->). simpl in Hi, Hj.
    unfold ROW_HEIGHT in *. simplify_eq. lia.
  - intros p (a & -> & (i & Ha)%list_elem_of_lookup)%list_elem_of_fmap (b & E & Hb)%list_elem_of_fmap.
    apply lay_column_lookup in Ha as (n & _ & ->).
    apply list_elem_of_join in Hb as (lc & Hb & (d & -> & Hd)%list_elem_of_fmap).
    apply list_elem_of_lookup in Hb as [j (m & _ & ->)%lay_column_lookup]. cbn in E. injection E as Ex _.
    apply Hc. unfold COLUMN_WIDTH in Ex. assert (c.1 = d.1) as -> by lia. by apply list_elem_of_fmap_2.
Qed.

Lemma StronglySorted_lookup {A} (R : A → A → Prop) l i j a b :
  StronglySorted R l → (i < j)%nat → l !! i = Some a → l !! j = Some b → R a b.
Proof.
  intros Hs. revert i j. induction Hs as [|x l Hs IH Hx]; intros [|i] [|j] Hij Ha Hb; try done; try lia.
  - simpl in Ha, Hb. injection Ha as <-. rewrite Forall_forall in Hx. apply Hx. by eapply list_elem_of_lookup_2.
  - simpl in Ha, Hb. apply (IH i j); [lia|done..].
Qed.

(** ** Properties *)

Definition by_id (a b : LaidOutNode) : Prop := string_leb (gn_id (lo_node a)) (gn_id (lo_node b)) = true.

(** Where each node of a layout comes from: its group and its rank there. *)
Lemma layout_elem nodes columnCount a : a ∈ layoutNodes nodes columnCount →
  ∃ c i n, c ∈ by_column (node_column nodes columnCount) nodes ∧ sort_by id_leb c.2 !! i = Some n ∧
    a = mkLaidOut n c.1 (c.1 * COLUMN_WIDTH) (Z.of_nat i * ROW_HEIGHT) ∧
    node_column nodes columnCount n = c.1 ∧ n ∈ nodes ∧ (i < length nodes)%nat.
Proof.
  unfold layoutNodes. destruct (Nat.eqb_spec (length nodes) 0) as [_|_]; [by intros ?%not_elem_of_nil|].
  destruct (by_column_spec (node_column nodes columnCount) nodes) as (Hperm & Hkeys & Hgroup).
  set (cols := by_column _ _) in *. rewrite Forall_forall in Hgroup. intros Ha.
  apply list_elem_of_join in Ha as (lc & Ha & (c & -> & Hcin)%list_elem_of_fmap).
  apply list_elem_of_lookup in Ha as [i (n & Hi & ->)%lay_column_lookup]. exists c, i, n.
  assert (n ∈ c.2) as Hn by (apply list_elem_of_lookup_2 in Hi; by rewrite elem_of_sort_by in Hi).
  assert (c.2 ∈ map snd cols) as Hc2 by by apply list_elem_of_fmap_2.
  repeat split; try done.
  - specialize (Hgroup c Hcin). rewrite Forall_forall in Hgroup. by apply Hgroup.
  - rewrite <- Hperm. apply list_elem_of_join. by exists c.2.
  - apply lookup_lt_Some in Hi. rewrite length_sort_by in Hi. apply Nat.lt_le_trans with (length c.2); [done|].
    rewrite <- Hperm. apply list_elem_of_lookup in Hc2 as [k Hk]. rewrite <- (take_drop_middle _ _ _ Hk), join_app, length_app, mjoin_cons, length_app. lia.
Qed.

Lemma layout_positions nodes columnCount : NoDup ((fun a => (lo_x a, lo_y a)) <$> layoutNodes nodes columnCount).
Proof.
  unfold layoutNodes. destruct (Nat.eqb_spec (length nodes) 0) as [_|_]; [constructor|].
  destruct (by_column_spec (node_column nodes columnCount) nodes) as (_ & Hkeys & _). by apply positions_distinct.
Qed.

(** The layout places every node exactly once, in the column of its time bin:
    columns are in range, the earliest node is in the first one and a node seen
    later is never further left; no two nodes share a position, and in each column
    rows follow the order of the ids. *)
Theorem layout_ok nodes columnCount :
  nodes ≠ [] → 0 < columnCount →
  let l := layoutNodes nodes columnCount in
  lo_node <$> l ≡ₚ nodes ∧ NoDup ((fun a => (lo_x a, lo_y a)) <$> l) ∧
  (∀ a, a ∈ l → 0 <= lo_column a < columnCount ∧ lo_x a = lo_column a * COLUMN_WIDTH ∧ 0 <= lo_y a ∧
     (gn_firstSeenMs (lo_node a) = zmin_list (gn_firstSeenMs <$> nodes) → lo_column a = 0)) ∧
  (∀ a b, a ∈ l → b ∈ l → gn_firstSeenMs (lo_node a) <= gn_firstSeenMs (lo_node b) → lo_column a <= lo_column b) ∧
  (∀ a b, a ∈ l → b ∈ l → lo_column a = lo_column b → lo_y a < lo_y b → by_id a b).
Proof.
  intros Hne Hc l. pose proof (layout_positions nodes columnCount) as Hpos. unfold l in *. unfold layoutNodes in *. revert Hpos. rewrite (proj2 (Nat.eqb_neq _ 0)) by (by destruct nodes).
  destruct (by_column_spec (node_column nodes columnCount) nodes) as (Hperm & Hkeys & _).
  set (cols := by_column _ _) in *. intros Hpos.
  assert (lo_node <$> mjoin (map lay_column cols) ≡ₚ nodes) as Hp.
  { rewrite <- Hperm. clear. induction cols as [|c cols IH]; [done|]. cbn [map]. by rewrite !mjoin_cons, fmap_app, IH, lay_column_nodes. }
  assert (∀ a, a ∈ mjoin (map lay_column cols) → ∃ c i n, c ∈ cols ∧ sort_by id_leb c.2 !! i = Some n ∧
    a = mkLaidOut n c.1 (c.1 * COLUMN_WIDTH) (Z.of_nat i * ROW_HEIGHT) ∧ node_column nodes columnCount n = c.1 ∧ n ∈ nodes) as Hin.
  { intros a Ha. destruct (layout_elem nodes columnCount a) as (c & i & n & ? & ? & ? & ? & ? & _); [|by exists c, i, n].
    unfold layoutNodes. by rewrite (proj2 (Nat.eqb_neq _ 0)) by (by destruct nodes). }
  split; [done|]. split; [|split; [|split]].
  - done.
  - intros a (c & i & n & Hcin & Hi & -> & Hcol & Hn)%Hin. cbn. rewrite <- Hcol.
    split; [by apply node_column_range|]. split; [done|]. split; [unfold ROW_HEIGHT; lia|].
    intros Hmin. unfold node_column. rewrite Hmin. apply column_of_min; lia.
  - intros a b (c & i & n & _ & _ & -> & <- & _)%Hin (d & j & m & _ & _ & -> & <- & _)%Hin. cbn. intros Hseen.
    apply column_of_mono; lia.
  - intros a b (c & i & n & Hcin & Hi & -> & _ & _)%Hin (d & j & m & Hdin & Hj & -> & _ & _)%Hin. cbn. intros Hcd Hy.
    assert (c = d) as <- by by apply (NoDup_fst_eq cols).
    assert (i < j)%nat as Hij by (unfold ROW_HEIGHT in Hy; lia).
    unfold by_id. cbn. apply (StronglySorted_lookup (fun a b => id_leb a b = true) (sort_by id_leb c.2) i j); [|done..].
    apply sort_by_strongly_sorted; [intros x y; apply string_leb_total|intros x y z; apply string_leb_trans].
Qed.

Definition early_node : GraphNode := mkGraphNode "user-c-1" user "user-c-1" 1757000000000 2.
Definition late_node : GraphNode := mkGraphNode "host-c-0" host "host-c-0" 1757400000000 0.

Lemma layout_ok_witness :
  layoutNodes [late_node; early_node] 40 = [mkLaidOut late_node 39 6240 0; mkLaidOut early_node 0 0 0] ∧
  NoDup ((fun a => (lo_x a, lo_y a)) <$> layoutNodes [late_node; early_node] 40).
Proof.
  split; [vm_compute; reflexivity|].
  apply (layout_ok [late_node; early_node] 40); [discriminate|lia].
Defined.
