(* ===== verification/Quadtree.v ===== *)
(** * The point quadtree: web/src/components/investigation-canvas/quadtree.ts

    Insertion with subdivision, range queries and the nearest point.  Coordinates
    are doubles.  A node of depth [d] subdivides only below [MAX_DEPTH], so that
    [MAX_DEPTH + 1 - d] levels of recursion are enough for an insertion. *)

From S2P Require Import Prelude JsNum Doubles.
From Stdlib Require Import QArith Qround Lqa.
Open Scope Z_scope.

Record QuadPoint := mkPoint { qp_id : string; qp_x : Q; qp_y : Q }.
Record Bounds := mkBounds { bd_x : Q; bd_y : Q; bd_w : Q; bd_h : Q }.

Definition MAX_POINTS_PER_NODE : nat := 8.
Definition MAX_DEPTH : nat := 12.

Definition contains (b : Bounds) (p : QuadPoint) : bool :=
  Qle_bool (bd_x b) (qp_x p) && Qltb (qp_x p) (dadd (bd_x b) (bd_w b)) &&
  Qle_bool (bd_y b) (qp_y p) && Qltb (qp_y p) (dadd (bd_y b) (bd_h b)).

Definition intersects (a b : Bounds) : bool :=
  Qltb (bd_x a) (dadd (bd_x b) (bd_w b)) && Qltb (bd_x b) (dadd (bd_x a) (bd_w a)) &&
  Qltb (bd_y a) (dadd (bd_y b) (bd_h b)) && Qltb (bd_y b) (dadd (bd_y a) (bd_h a)).

Inductive QuadNode :=
| Leaf (bounds : Bounds) (depth : nat) (points : list QuadPoint)
| Split (bounds : Bounds) (depth : nat) (c0 c1 c2 c3 : QuadNode).

Definition nd_bounds (t : QuadNode) : Bounds := match t with Leaf b _ _ | Split b _ _ _ _ _ => b end.

(** The four quarters of [subdivide]. *)
Definition quarter (i : nat) (b : Bounds) : Bounds :=
  let hw := ddiv (bd_w b) 2 in
  let hh := ddiv (bd_h b) 2 in
  match i with
  | 0%nat => mkBounds (bd_x b) (bd_y b) hw hh
  | 1%nat => mkBounds (dadd (bd_x b) hw) (bd_y b) hw hh
  | 2%nat => mkBounds (bd_x b) (dadd (bd_y b) hh) hw hh
  | _ => mkBounds (dadd (bd_x b) hw) (dadd (bd_y b) hh) hw hh
  end.

Definition Children : Type := QuadNode * QuadNode * QuadNode * QuadNode.

Definition fresh_children (b : Bounds) (d : nat) : Children :=
  (Leaf (quarter 0 b) (S d) [], Leaf (quarter 1 b) (S d) [], Leaf (quarter 2 b) (S d) [], Leaf (quarter 3 b) (S d) []).

(** The first child whose bounds contain the point; a point that no child
    contains is dropped. *)
Definition insertIntoChildren (insert : QuadPoint → QuadNode → QuadNode) (p : QuadPoint) (cs : Children) : Children :=
  let '(c0, c1, c2, c3) := cs in
  if contains (nd_bounds c0) p then (insert p c0, c1, c2, c3)
  else if contains (nd_bounds c1) p then (c0, insert p c1, c2, c3)
  else if contains (nd_bounds c2) p then (c0, c1, insert p c2, c3)
  else if contains (nd_bounds c3) p then (c0, c1, c2, insert p c3)
  else cs.

Definition split_of (b : Bounds) (d : nat) (cs : Children) : QuadNode :=
  let '(c0, c1, c2, c3) := cs in Split b d c0 c1 c2 c3.

Fixpoint insert (fuel : nat) (p : QuadPoint) (t : QuadNode) : QuadNode :=
  match fuel with
  | O => t
  | S f =>
      if negb (contains (nd_bounds t) p) then t
      else match t with
      | Split b d c0 c1 c2 c3 => split_of b d (insertIntoChildren (insert f) p (c0, c1, c2, c3))
      | Leaf b d points =>
          let points := points ++ [p] in
          if (MAX_POINTS_PER_NODE <? length points)%nat && (d <? MAX_DEPTH)%nat then
            split_of b d (foldl (fun cs q => insertIntoChildren (insert f) q cs) (fresh_children b d) points)
          else Leaf b d points
      end
  end.

Definition in_rect (b : Bounds) (p : QuadPoint) : bool :=
  Qle_bool (bd_x b) (qp_x p) && Qle_bool (qp_x p) (dadd (bd_x b) (bd_w b)) &&
  Qle_bool (bd_y b) (qp_y p) && Qle_bool (qp_y p) (dadd (bd_y b) (bd_h b)).

(** What [queryRange] pushes onto [out]. *)
Fixpoint queryRange (bounds : Bounds) (t : QuadNode) : list QuadPoint :=
  if negb (intersects (nd_bounds t) bounds) then []
  else match t with
  | Split _ _ c0 c1 c2 c3 =>
      queryRange bounds c0 ++ queryRange bounds c1 ++ queryRange bounds c2 ++ queryRange bounds c3
  | Leaf _ _ points => List.filter (in_rect bounds) points
  end.

(** The constructor of [Quadtree]. *)
Definition Quadtree (bounds : Bounds) (points : list QuadPoint) : QuadNode :=
  foldl (fun t p => insert (S MAX_DEPTH) p t) (Leaf bounds 0 []) points.

Definition dist_sq (x y : Q) (p : QuadPoint) : Q :=
  let dx := dsub (qp_x p) x in let dy := dsub (qp_y p) y in dadd (dmul dx dx) (dmul dy dy).

(** The square searched around a point. *)
Definition search_square (x y radius : Q) : Bounds :=
  mkBounds (dsub x radius) (dsub y radius) (dmul radius 2) (dmul radius 2).

Definition nearer (x y : Q) (best : option QuadPoint * Q) (p : QuadPoint) : option QuadPoint * Q :=
  if Qle_bool (dist_sq x y p) best.2 then (Some p, dist_sq x y p) else best.

Definition nearest (t : QuadNode) (x y radius : Q) : option QuadPoint :=
  (foldl (nearer x y) (None, dmul radius radius) (queryRange (search_square x y radius) t)).1.

Definition inRange (t : QuadNode) (bounds : Bounds) : list QuadPoint := queryRange bounds t.

Lemma Qltb_iff a b : Qltb a b = true ↔ (a < b)%Q.
Proof.
  unfold Qltb. rewrite negb_true_iff, <- not_true_iff_false, Qle_bool_iff. split; [apply Qnot_le_lt|apply Qlt_not_le].
Qed.

Lemma contains_spec c q : contains c q = true ↔
  (bd_x c <= qp_x q ∧ qp_x q < dadd (bd_x c) (bd_w c) ∧ bd_y c <= qp_y q ∧ qp_y q < dadd (bd_y c) (bd_h c))%Q.
Proof. unfold contains. rewrite !andb_true_iff, !Qltb_iff, !Qle_bool_iff. tauto. Qed.

Lemma intersects_spec a b : intersects a b = true ↔
  (bd_x a < dadd (bd_x b) (bd_w b) ∧ bd_x b < dadd (bd_x a) (bd_w a) ∧
   bd_y a < dadd (bd_y b) (bd_h b) ∧ bd_y b < dadd (bd_y a) (bd_h a))%Q.
Proof. unfold intersects. rewrite !andb_true_iff, !Qltb_iff. tauto. Qed.

Lemma in_rect_spec b p : in_rect b p = true ↔
  (bd_x b <= qp_x p ∧ qp_x p <= dadd (bd_x b) (bd_w b) ∧ bd_y b <= qp_y p ∧ qp_y p <= dadd (bd_y b) (bd_h b))%Q.
Proof. unfold in_rect. rewrite !andb_true_iff, !Qle_bool_iff. tauto. Qed.

(** ** Exact bounds

    From integer bounds up to [2 ^ 39], every bound down to the last level is a
    multiple of [2 ^ -12] and its arithmetic is exact. *)

Definition on_grid (d : nat) (q : Q) : Prop := ∃ m, (q == inject_Z m * pow2 (- Z.of_nat d))%Q.

Record exact (d : nat) (b : Bounds) : Prop := {
  ex_grid : on_grid d (bd_x b) ∧ on_grid d (bd_y b) ∧ on_grid d (bd_w b) ∧ on_grid d (bd_h b);
  ex_size : (0 <= bd_w b ∧ 0 <= bd_h b)%Q;
  ex_low : (- inject_Z (2 ^ 40) <= bd_x b ∧ - inject_Z (2 ^ 40) <= bd_y b)%Q;
  ex_high : (bd_x b + bd_w b <= inject_Z (2 ^ 40) ∧ bd_y b + bd_h b <= inject_Z (2 ^ 40))%Q;
}.

Lemma on_grid_add d a b : on_grid d a → on_grid d b → on_grid d (a + b)%Q.
Proof. intros [m Hm] [n Hn]. exists (m + n). rewrite Hm, Hn, inject_Z_plus. ring. Qed.

Lemma pow2_half d : (pow2 (- Z.of_nat d) == 2 * pow2 (- Z.of_nat (S d)))%Q.
Proof.
  replace (- Z.of_nat d) with (1 + - Z.of_nat (S d)) by lia. rewrite pow2_add. reflexivity.
Qed.

Lemma on_grid_finer d q : on_grid d q → on_grid (S d) q.
Proof. intros [m Hm]. exists (2 * m). rewrite Hm, pow2_half, inject_Z_mult. change (inject_Z 2) with 2%Q. ring. Qed.

Lemma on_grid_half d q : on_grid d q → on_grid (S d) (q / 2)%Q.
Proof. intros [m Hm]. exists m. rewrite Hm, pow2_half. field. Qed.

Lemma on_grid_exact d q : (d <= 12)%nat → on_grid d q → (- inject_Z (2 ^ 40) <= q <= inject_Z (2 ^ 40))%Q → (fl q == q)%Q.
Proof.
  intros Hd [m Hm] [Hl Hh]. rewrite (fl_proper _ _ Hm), Hm. apply fl_exact.
  assert (pow2 (Z.of_nat d) * pow2 (- Z.of_nat d) == 1)%Q as E by (rewrite <- pow2_add, Z.add_opp_diag_r; reflexivity).
  assert (inject_Z m == q * pow2 (Z.of_nat d))%Q as Em by (rewrite Hm; rewrite <- Qmult_assoc, (Qmult_comm (pow2 _)), E; ring).
  assert (0 < pow2 (Z.of_nat d) <= inject_Z (2 ^ 12))%Q as [P1 P2].
  { split; [apply pow2_pos|]. rewrite (pow2_Z 12) by lia. apply pow2_le. lia. }
  assert (- inject_Z (2 ^ 52) <= inject_Z m <= inject_Z (2 ^ 52))%Q as [B1 B2].
  { rewrite Em. change (2 ^ 52) with (2 ^ 40 * 2 ^ 12). rewrite inject_Z_mult.
    assert (0 <= inject_Z (2 ^ 40))%Q by done. split; nra. }
  rewrite <- inject_Z_opp in B1. rewrite <- Zle_Qle in B1, B2. lia.
Qed.

Lemma half_exact d q : (d < 12)%nat → on_grid d q → (0 <= q <= inject_Z (2 ^ 41))%Q → (ddiv q 2 == q / 2)%Q.
Proof.
  intros Hd Hg Hq. unfold ddiv. apply (on_grid_exact (S d)); [lia|by apply on_grid_half|].
  change (2 ^ 41) with (2 * 2 ^ 40) in Hq. rewrite inject_Z_mult in Hq. change (inject_Z 2) with 2%Q in Hq.
  assert (0 <= inject_Z (2 ^ 40))%Q by done. assert (q / 2 == q * (1 # 2))%Q as E by field. rewrite E. split; lra.
Qed.

Section quarters.
Context (b : Bounds) (d : nat) (Hd : (d < 12)%nat) (Hex : exact d b).

Lemma half_w : (ddiv (bd_w b) 2 == bd_w b / 2)%Q ∧ (ddiv (bd_h b) 2 == bd_h b / 2)%Q.
Proof using Hd Hex.
  destruct Hex as [(_ & _ & Gw & Gh) [Sw Sh] [Lx Ly] [Hx Hy]].
  assert (inject_Z (2 ^ 41) == 2 * inject_Z (2 ^ 40))%Q as E by reflexivity.
  split; apply (half_exact d); try done; rewrite E; lra.
Qed.

Lemma half_div q : (q / 2 == q * (1 # 2))%Q.
Proof. field. Qed.

(** The far edges and the middle lines are exact. *)
Lemma edges_exact : (dadd (bd_x b) (bd_w b) == bd_x b + bd_w b)%Q ∧ (dadd (bd_y b) (bd_h b) == bd_y b + bd_h b)%Q.
Proof using Hd Hex.
  destruct Hex as [(Gx & Gy & Gw & Gh) [Sw Sh] [Lx Ly] [Hx Hy]].
  split; apply (on_grid_exact d); try lia; try (by apply on_grid_add); lra.
Qed.

Lemma middle_exact :
  (dadd (bd_x b) (ddiv (bd_w b) 2) == bd_x b + bd_w b * (1 # 2))%Q ∧
  (dadd (bd_y b) (ddiv (bd_h b) 2) == bd_y b + bd_h b * (1 # 2))%Q.
Proof using Hd Hex.
  destruct half_w as [Ew Eh]. destruct Hex as [(Gx & Gy & Gw & Gh) [Sw Sh] [Lx Ly] [Hx Hy]].
  unfold dadd. rewrite <- !half_div, (fl_proper _ (bd_x b + bd_w b / 2)%Q), (fl_proper (bd_y b + _)%Q (bd_y b + bd_h b / 2)%Q) by (by rewrite ?Ew, ?Eh).
  split; apply (on_grid_exact (S d)); try lia; try (apply on_grid_add; [by apply on_grid_finer|by apply on_grid_half]);
    rewrite half_div; lra.
Qed.

Lemma quarter_exact i : exact (S d) (quarter i b).
Proof using Hd Hex.
  destruct half_w as [Ew Eh], middle_exact as [Mx My]. rewrite half_div in Ew, Eh.
  destruct Hex as [(Gx & Gy & Gw & Gh) [Sw Sh] [Lx Ly] [Hx Hy]].
  assert (∀ q r, (q == r)%Q → on_grid (S d) r → on_grid (S d) q) as Hg by (intros q r E [m Hm]; exists m; by rewrite E).
  assert (on_grid (S d) (bd_x b) ∧ on_grid (S d) (bd_y b)) as [G1 G2] by (split; by apply on_grid_finer).
  assert (on_grid (S d) (bd_w b * (1 # 2)) ∧ on_grid (S d) (bd_h b * (1 # 2))) as [G3 G4]
    by (split; (eapply Hg; [symmetry; apply half_div|by apply on_grid_half])).
  destruct i as [|[|[|i]]]; (split; cbn [quarter bd_x bd_y bd_w bd_h];
    [repeat split; try done; (eapply Hg; [eassumption|try done; by apply on_grid_add])|..]);
    rewrite ?Mx, ?My, ?Ew, ?Eh; split; lra.
Qed.

(** The quarters cover the node, each point in exactly one of them. *)
Lemma quarters_cover p : contains b p = true ↔
  contains (quarter 0 b) p = true ∨ contains (quarter 1 b) p = true ∨
  contains (quarter 2 b) p = true ∨ contains (quarter 3 b) p = true.
Proof using Hd Hex.
  destruct half_w as [Ew Eh], middle_exact as [Mx My], edges_exact as [Ex Ey]. rewrite half_div in Ew, Eh.
  assert (∀ i, (dadd (bd_x (quarter i b)) (bd_w (quarter i b)) == bd_x (quarter i b) + bd_w (quarter i b))%Q ∧
               (dadd (bd_y (quarter i b)) (bd_h (quarter i b)) == bd_y (quarter i b) + bd_h (quarter i b))%Q) as Hq.
  { intros i. destruct (quarter_exact i) as [(Gx & Gy & Gw & Gh) [Sw Sh] [Lx Ly] [Hx Hy]].
    split; apply (on_grid_exact (S d)); try lia; try (by apply on_grid_add); lra. }
  assert (∀ c q, contains c q = true ↔ (bd_x c <= qp_x q ∧ qp_x q < dadd (bd_x c) (bd_w c) ∧ bd_y c <= qp_y q ∧ qp_y q < dadd (bd_y c) (bd_h c))%Q) as Hc
    by apply contains_spec.
  rewrite !Hc. destruct (Hq 0%nat) as [A0 B0], (Hq 1%nat) as [A1 B1], (Hq 2%nat) as [A2 B2], (Hq 3%nat) as [A3 B3].
  rewrite A0, A1, A2, A3, B0, B1, B2, B3, Ex, Ey. cbn [quarter bd_x bd_y bd_w bd_h]. rewrite Mx, My, Ew, Eh.
  destruct Hex as [_ [Sw Sh] _ _].
  destruct (Qlt_le_dec (qp_x p) (bd_x b + bd_w b * (1 # 2))), (Qlt_le_dec (qp_y p) (bd_y b + bd_h b * (1 # 2)));
    (split; [intros (H1 & H2 & H3 & H4)|intros [H|[H|[H|H]]]; destruct H as (H1 & H2 & H3 & H4); repeat split; lra]).
  - left. repeat split; lra.
  - right; right; left. repeat split; lra.
  - right; left. repeat split; lra.
  - right; right; right. repeat split; lra.
Qed.

End quarters.

(** ** Trees *)

Fixpoint points_of (t : QuadNode) : list QuadPoint :=
  match t with
  | Leaf _ _ points => points
  | Split _ _ c0 c1 c2 c3 => points_of c0 ++ points_of c1 ++ points_of c2 ++ points_of c3
  end.

(** The bounds of each node are the quarter of its parent's, its points are inside
    them, and a leaf below the last level has at most [MAX_POINTS_PER_NODE]. *)
Inductive wf : nat → Bounds → QuadNode → Prop :=
| wf_leaf d b points :
    Forall (fun p => contains b p = true) points →
    (length points <= MAX_POINTS_PER_NODE ∨ d = MAX_DEPTH)%nat → wf d b (Leaf b d points)
| wf_split d b c0 c1 c2 c3 :
    (d < MAX_DEPTH)%nat → wf (S d) (quarter 0 b) c0 → wf (S d) (quarter 1 b) c1 →
    wf (S d) (quarter 2 b) c2 → wf (S d) (quarter 3 b) c3 → wf d b (Split b d c0 c1 c2 c3).

Lemma wf_bounds d b t : wf d b t → nd_bounds t = b.
Proof. by destruct 1. Qed.

Definition wf_children (d : nat) (b : Bounds) (cs : Children) : Prop :=
  let '(c0, c1, c2, c3) := cs in
  wf (S d) (quarter 0 b) c0 ∧ wf (S d) (quarter 1 b) c1 ∧ wf (S d) (quarter 2 b) c2 ∧ wf (S d) (quarter 3 b) c3.

Definition points_children (cs : Children) : list QuadPoint :=
  let '(c0, c1, c2, c3) := cs in points_of c0 ++ points_of c1 ++ points_of c2 ++ points_of c3.

(** An insertion that keeps the invariant one level down, and adds its point. *)
Definition inserts (d : nat) (ins : QuadPoint → QuadNode → QuadNode) : Prop :=
  ∀ b t p, exact d b → wf d b t → contains b p = true →
    wf d b (ins p t) ∧ points_of (ins p t) ≡ₚ p :: points_of t.

Lemma insertIntoChildren_ok d b ins p cs :
  (d < 12)%nat → exact d b → inserts (S d) ins → wf_children d b cs → contains b p = true →
  wf_children d b (insertIntoChildren ins p cs) ∧ points_children (insertIntoChildren ins p cs) ≡ₚ p :: points_children cs.
Proof.
  intros Hd Hex Hins. destruct cs as [[[c0 c1] c2] c3]. intros (W0 & W1 & W2 & W3) Hp.
  unfold insertIntoChildren. rewrite (wf_bounds _ _ _ W0), (wf_bounds _ _ _ W1), (wf_bounds _ _ _ W2), (wf_bounds _ _ _ W3).
  apply (quarters_cover b d Hd Hex) in Hp.
  pose proof (quarter_exact b d Hd Hex) as Hq.
  destruct (contains (quarter 0 b) p) eqn:E0; [|destruct (contains (quarter 1 b) p) eqn:E1;
    [|destruct (contains (quarter 2 b) p) eqn:E2; [|destruct (contains (quarter 3 b) p) eqn:E3]]].
  - destruct (Hins _ c0 p (Hq 0%nat) W0 E0) as [H1 H2]. split; [done|]. cbn. by rewrite H2.
  - destruct (Hins _ c1 p (Hq 1%nat) W1 E1) as [H1 H2]. split; [done|]. cbn. rewrite H2. cbn [app]. by rewrite <- !Permutation_middle.
  - destruct (Hins _ c2 p (Hq 2%nat) W2 E2) as [H1 H2]. split; [done|]. cbn. rewrite H2. cbn [app]. by rewrite <- !Permutation_middle.
  - destruct (Hins _ c3 p (Hq 3%nat) W3 E3) as [H1 H2]. split; [done|]. cbn. rewrite H2. cbn [app]. by rewrite <- !Permutation_middle.
  - exfalso. by destruct Hp as [?|[?|[?|?]]].
Qed.

Lemma insert_all_ok d b ins pts cs :
  (d < 12)%nat → exact d b → inserts (S d) ins → wf_children d b cs → Forall (fun p => contains b p = true) pts →
  let cs' := foldl (fun cs q => insertIntoChildren ins q cs) cs pts in
  wf_children d b cs' ∧ points_children cs' ≡ₚ pts ++ points_children cs.
Proof.
  intros Hd Hex Hins. revert cs. induction pts as [|p pts IH]; intros cs Hcs Hall; [done|].
  apply Forall_cons_1 in Hall as [Hp Hall].
  destruct (insertIntoChildren_ok d b ins p cs) as [H1 H2]; [done..|].
  destruct (IH _ H1 Hall) as [H3 H4]. split; [done|]. cbn [foldl]. rewrite H4, H2. by rewrite <- Permutation_middle.
Qed.

Lemma fresh_ok d b : (d < 12)%nat → wf_children d b (fresh_children b d).
Proof. intros Hd. repeat split; constructor; try constructor; unfold MAX_POINTS_PER_NODE; simpl; lia. Qed.

Lemma split_wf d b cs : (d < 12)%nat → wf_children d b cs → wf d b (split_of b d cs) ∧ points_of (split_of b d cs) = points_children cs.
Proof. intros Hd. destruct cs as [[[c0 c1] c2] c3]. intros (? & ? & ? & ?). split; [by constructor|done]. Qed.

(** Enough fuel for the levels below: the point is stored, exactly once. *)
Lemma insert_ok fuel d : (13 <= fuel + d)%nat → (d <= 12)%nat → inserts d (insert fuel).
Proof.
  revert d. induction fuel as [|f IH]; intros d Hf Hd b t p Hex Hwf Hp; [lia|].
  cbn [insert]. rewrite (wf_bounds _ _ _ Hwf), Hp. cbn [negb].
  assert ((d < 12)%nat → inserts (S d) (insert f)) as IH' by (intros; apply IH; lia).
  destruct Hwf as [d b points Hin Hlen|d b c0 c1 c2 c3 Hlt W0 W1 W2 W3].
  - assert (Forall (fun p => contains b p = true) (points ++ [p])) as Hin' by (apply Forall_app; split; [done|by constructor]).
    destruct (MAX_POINTS_PER_NODE <? length (points ++ [p]))%nat eqn:El; [destruct (Nat.ltb_spec d MAX_DEPTH) as [Hlt|Hge]|]; cbn [andb].
    + destruct (insert_all_ok d b (insert f) (points ++ [p]) (fresh_children b d)) as [H1 H2]; try done; [by apply IH'|by apply fresh_ok|].
      destruct (split_wf d b _ Hlt H1) as [H3 H4]. split; [exact H3|]. rewrite H4, H2. cbn. rewrite app_nil_r.
      symmetry. apply Permutation_cons_append.
    + split; [constructor; [done|right; unfold MAX_DEPTH in *; lia]|]. cbn. symmetry. apply Permutation_cons_append.
    + split; [constructor; [done|left; by apply Nat.ltb_ge]|]. cbn. symmetry. apply Permutation_cons_append.
  - destruct (insertIntoChildren_ok d b (insert f) p (c0, c1, c2, c3)) as [H1 H2]; try done; [by apply IH'|].
    destruct (split_wf d b _ Hlt H1) as [H3 H4]. split; [exact H3|]. by rewrite H4, H2.
Qed.

(** Bounds with integer corners. *)
Definition integer_bounds (b : Bounds) : Prop :=
  ∃ x y w h, b = mkBounds (inject_Z x) (inject_Z y) (inject_Z w) (inject_Z h) ∧
    Z.abs x <= 2 ^ 39 ∧ Z.abs y <= 2 ^ 39 ∧ 0 <= w <= 2 ^ 39 ∧ 0 <= h <= 2 ^ 39.

Lemma integer_exact b : integer_bounds b → exact 0 b.
Proof.
  intros (x & y & w & h & -> & Hx & Hy & Hw & Hh).
  assert (∀ z, on_grid 0 (inject_Z z)) as Hg by (intros z; exists z; unfold pow2; simpl; ring).
  split; cbn [bd_x bd_y bd_w bd_h]; [done|..]; rewrite <- ?inject_Z_opp, <- ?inject_Z_plus; change 0%Q with (inject_Z 0);
    rewrite <- !Zle_Qle; lia.
Qed.

Lemma Quadtree_ok b pts :
  integer_bounds b → Forall (fun p => contains b p = true) pts →
  wf 0 b (Quadtree b pts) ∧ points_of (Quadtree b pts) ≡ₚ pts.
Proof.
  intros Hb%integer_exact. unfold Quadtree.
  assert (∀ t, wf 0 b t → Forall (fun p => contains b p = true) pts →
    let t' := foldl (fun t p => insert (S MAX_DEPTH) p t) t pts in wf 0 b t' ∧ points_of t' ≡ₚ pts ++ points_of t) as H.
  { induction pts as [|p pts IH]; intros t Ht Hall; [done|]. apply Forall_cons_1 in Hall as [Hp Hall]. cbn [foldl].
    destruct (insert_ok (S MAX_DEPTH) 0) with (b := b) (t := t) (p := p) as [H1 H2]; try done; [unfold MAX_DEPTH; lia..|].
    destruct (IH _ H1 Hall) as [H3 H4]. split; [done|]. rewrite H4, H2. by rewrite <- Permutation_middle. }
  intros Hall. destruct (H (Leaf b 0 [])) as [H1 H2]; [constructor; [constructor|simpl; unfold MAX_POINTS_PER_NODE; lia]|done|].
  split; [done|]. by rewrite H2, app_nil_r.
Qed.

(** ** Queries *)

Lemma queryRange_sound q t p : p ∈ queryRange q t → in_rect q p = true.
Proof.
  induction t as [b d pts|b d c0 IH0 c1 IH1 c2 IH2 c3 IH3]; cbn [queryRange]; (destruct (negb _); [by intros ?%not_elem_of_nil|]).
  - by intros [_ H]%list_elem_of_In%List.filter_In.
  - rewrite !elem_of_app. tauto.
Qed.

Lemma queryRange_submseteq q t : queryRange q t ⊆+ points_of t.
Proof.
  induction t as [b d pts|b d c0 IH0 c1 IH1 c2 IH2 c3 IH3]; cbn [queryRange points_of]; (destruct (negb _); [apply submseteq_nil_l|]).
  - induction pts as [|p pts IH]; [done|]. cbn [List.filter]. destruct (in_rect q p); [by apply submseteq_skip|by apply submseteq_cons].
  - by repeat apply submseteq_app.
Qed.

Lemma wf_contains d b t p : (d <= 12)%nat → exact d b → wf d b t → p ∈ points_of t → contains b p = true.
Proof.
  intros Hd Hex Hwf. revert Hd Hex. induction Hwf as [d b pts Hin _|d b c0 c1 c2 c3 Hlt W0 IH0 W1 IH1 W2 IH2 W3 IH3]; intros Hd Hex; cbn [points_of].
  - rewrite Forall_forall in Hin. apply Hin.
  - assert (d < 12)%nat as Hd' by done. rewrite !elem_of_app. intros Hp. apply (quarters_cover b d Hd' Hex).
    destruct Hp as [Hp|[Hp|[Hp|Hp]]]; [left; apply IH0|right; left; apply IH1|right; right; left; apply IH2|right; right; right; apply IH3];
      (done || lia || by apply (quarter_exact b d)).
Qed.

Lemma filter_submseteq_bool {A} (f : A → bool) l k : l ⊆+ k → List.filter f l ⊆+ List.filter f k.
Proof.
  induction 1 as [|x l k _ IH|x y l|x l k _ IH|l1 l2 l3 _ IH1 _ IH2]; cbn [List.filter]; [done| | | |by etrans].
  - destruct (f x); [by apply submseteq_skip|done].
  - destruct (f x), (f y); by constructor || done.
  - destruct (f x); [by apply submseteq_cons|done].
Qed.
Lemma filter_all_bool {A} (f : A → bool) l : (∀ x, x ∈ l → f x = true) → List.filter f l = l.
Proof.
  induction l as [|x l IH]; intros H; [done|]. cbn [List.filter]. rewrite (H x) by by left. f_equal. apply IH. intros y Hy. apply H. by right.
Qed.
Lemma filter_none_bool {A} (f : A → bool) l : (∀ x, x ∈ l → f x = false) → List.filter f l = [].
Proof.
  induction l as [|x l IH]; intros H; [done|]. cbn [List.filter]. rewrite (H x) by by left. apply IH. intros y Hy. apply H. by right.
Qed.

(** On the right or the bottom edge of the rectangle. *)
Definition far_edge (q : Bounds) (p : QuadPoint) : bool :=
  Qeq_bool (qp_x p) (dadd (bd_x q) (bd_w q)) || Qeq_bool (qp_y p) (dadd (bd_y q) (bd_h q)).

(** In the rectangle and not on its far edges. *)
Definition inside (q : Bounds) (p : QuadPoint) : Prop :=
  (bd_x q <= qp_x p ∧ qp_x p < dadd (bd_x q) (bd_w q) ∧ bd_y q <= qp_y p ∧ qp_y p < dadd (bd_y q) (bd_h q))%Q.

Lemma inside_not_far q p : in_rect q p && negb (far_edge q p) = true ↔ inside q p.
Proof.
  unfold far_edge, inside. rewrite andb_true_iff, in_rect_spec, negb_true_iff, <- not_true_iff_false, orb_true_iff, !Qeq_bool_iff. split.
  - intros [(? & Hx & ? & Hy) Hne]. apply Qle_lteq in Hx as [?|?]; [|naive_solver]. apply Qle_lteq in Hy as [?|?]; [by repeat split|naive_solver].
  - intros (? & ? & ? & ?). split; [repeat split; lra|]. intros [?|?]; lra.
Qed.

Lemma contains_intersects b q p : contains b p = true → inside q p → intersects b q = true.
Proof. rewrite contains_spec, intersects_spec. unfold inside. intros (? & ? & ? & ?) (? & ? & ? & ?). repeat split; lra. Qed.

Lemma queryRange_complete q d b t p :
  (d <= 12)%nat → exact d b → wf d b t → p ∈ points_of t → inside q p → p ∈ queryRange q t.
Proof.
  intros Hd Hex Hwf Hp Hin. revert Hd Hex Hp. induction Hwf as [d b pts Hall Hlen|d b c0 c1 c2 c3 Hlt W0 IH0 W1 IH1 W2 IH2 W3 IH3];
    intros Hd Hex Hp; cbn [queryRange nd_bounds].
  - rewrite (contains_intersects b q p); [|by apply (wf_contains d b (Leaf b d pts)); [..|constructor|]|done]. cbn [negb].
    apply list_elem_of_In, List.filter_In. split; [by apply list_elem_of_In|]. apply in_rect_spec. unfold inside in Hin. repeat split; lra.
  - rewrite (contains_intersects b q p); [|by apply (wf_contains d b (Split b d c0 c1 c2 c3)); [..|constructor|]|done]. cbn [negb].
    assert (∀ i, exact (S d) (quarter i b)) as Hq by by apply quarter_exact.
    cbn [points_of] in Hp. rewrite !elem_of_app in Hp |- *.
    destruct Hp as [Hp|[Hp|[Hp|Hp]]]; [left; apply IH0|right; left; apply IH1|right; right; left; apply IH2|right; right; right; apply IH3];
      try done; unfold MAX_DEPTH in Hlt; lia.
Qed.

(** With multiplicity: a query returns what a scan would, but for points on the far
    edges, of which it may miss some. *)
Lemma queryRange_scan_above q t : queryRange q t ⊆+ List.filter (in_rect q) (points_of t).
Proof.
  rewrite <- (filter_all_bool (in_rect q) (queryRange q t)) by apply queryRange_sound.
  apply filter_submseteq_bool, queryRange_submseteq.
Qed.

Lemma queryRange_scan_below q d b t : (d <= 12)%nat → exact d b → wf d b t →
  List.filter (fun p => in_rect q p && negb (far_edge q p)) (points_of t) ⊆+ queryRange q t.
Proof.
  intros Hd Hex Hwf. revert Hd Hex. induction Hwf as [d b pts Hall Hlen|d b c0 c1 c2 c3 Hlt W0 IH0 W1 IH1 W2 IH2 W3 IH3]; intros Hd Hex.
  - cbn [queryRange nd_bounds points_of]. destruct (intersects b q) eqn:E; cbn [negb].
    + clear. induction pts as [|p pts IH]; [done|]. cbn [List.filter]. destruct (in_rect q p); cbn [andb]; [|done].
      destruct (negb _); [by apply submseteq_skip|by apply submseteq_cons].
    + rewrite filter_none_bool; [apply submseteq_nil_l|]. intros p Hp. apply not_true_is_false. intros Hin%inside_not_far.
      rewrite Forall_forall in Hall. by rewrite (contains_intersects b q p (Hall p Hp) Hin) in E.
  - pose proof (wf_split d b c0 c1 c2 c3 Hlt W0 W1 W2 W3) as W. cbn [queryRange nd_bounds]. destruct (intersects b q) eqn:E; cbn [negb].
    + cbn [points_of]. rewrite !List.filter_app. assert (∀ i, exact (S d) (quarter i b)) as Hq by by apply quarter_exact.
      unfold MAX_DEPTH in Hlt. repeat apply submseteq_app; [apply IH0|apply IH1|apply IH2|apply IH3]; done || lia.
    + rewrite filter_none_bool; [apply submseteq_nil_l|]. intros p Hp. apply not_true_is_false. intros Hin%inside_not_far.
      by rewrite (contains_intersects b q p (wf_contains d b (Split b d c0 c1 c2 c3) p Hd Hex W Hp) Hin) in E.
Qed.

Lemma nearer_spec x y l best d0 :
  let r := foldl (nearer x y) (best, d0) l in
  (r.2 <= d0)%Q ∧ (∀ q, q ∈ l → (r.2 <= dist_sq x y q)%Q) ∧
  match r.1 with
  | Some p => r = (best, d0) ∨ (p ∈ l ∧ r.2 = dist_sq x y p)
  | None => r = (best, d0) ∧ ∀ q, q ∈ l → (d0 < dist_sq x y q)%Q
  end.
Proof.
  revert best d0. induction l as [|p l IH]; intros best d0.
  { cbn. split; [lra|]. split; [by intros q ?%not_elem_of_nil|]. destruct best; [by left|]. split; [done|by intros q ?%not_elem_of_nil]. }
  cbn [foldl].
  assert (nearer x y (best, d0) p = if Qle_bool (dist_sq x y p) d0 then (Some p, dist_sq x y p) else (best, d0)) as -> by done.
  destruct (Qle_bool (dist_sq x y p) d0) eqn:E.
  - apply Qle_bool_iff in E. destruct (IH (Some p) (dist_sq x y p)) as (H1 & H2 & H3). cbv zeta in *.
    set (r := foldl _ _ _) in *. split; [lra|]. split.
    { intros q [->|Hq]%elem_of_cons; [done|by apply H2]. }
    destruct (r.1) as [b|] eqn:Eb.
    + right. destruct H3 as [H3|[H3 H4]]; [|split; [by right|done]]. rewrite H3 in Eb |- *. injection Eb as ->. split; [by left|done].
    + destruct H3 as [H3 _]. rewrite H3 in Eb. done.
  - assert (d0 < dist_sq x y p)%Q as Hd by (apply Qnot_le_lt; intros H; apply Qle_bool_iff in H; congruence).
    destruct (IH best d0) as (H1 & H2 & H3). cbv zeta in *. set (r := foldl _ _ _) in *. split; [done|]. split.
    { intros q [->|Hq]%elem_of_cons; [lra|by apply H2]. }
    destruct (r.1) as [b|].
    + destruct H3 as [H3|[H3 H4]]; [by left|right; split; [by right|done]].
    + destruct H3 as [H3 H4]. split; [done|]. intros q [->|Hq]%elem_of_cons; [done|by apply H4].
Qed.

Lemma scan_inside b pts q p :
  integer_bounds b → Forall (fun p => contains b p = true) pts → p ∈ pts → inside q p → p ∈ queryRange q (Quadtree b pts).
Proof.
  intros Hb Hall Hp Hin. destruct (Quadtree_ok b pts Hb Hall) as [Hwf Hperm].
  apply (queryRange_complete q 0 b); [lia|by apply integer_exact|done|by rewrite Hperm|done].
Qed.

Lemma scan_nearest b pts x y r :
  integer_bounds b → Forall (fun p => contains b p = true) pts →
  match nearest (Quadtree b pts) x y r with
  | Some p => p ∈ pts ∧ (dist_sq x y p <= dmul r r)%Q ∧
              ∀ q, q ∈ pts → inside (search_square x y r) q → (dist_sq x y p <= dist_sq x y q)%Q
  | None => ∀ q, q ∈ pts → inside (search_square x y r) q → (dmul r r < dist_sq x y q)%Q
  end.
Proof.
  intros Hb Hall. destruct (Quadtree_ok b pts Hb Hall) as [Hwf Hperm]. unfold nearest.
  destruct (nearer_spec x y (queryRange (search_square x y r) (Quadtree b pts)) None (dmul r r)) as (H1 & H2 & H3). cbv zeta in *.
  set (res := foldl _ _ _) in *. destruct (res.1) as [p|] eqn:Ep.
  - destruct H3 as [H3|[H3 H4]]; [by rewrite H3 in Ep|]. rewrite H4 in H1, H2.
    split; [|split; [done|intros q Hq Hin; apply H2; by apply scan_inside]].
    rewrite <- Hperm. eapply elem_of_submseteq; [exact H3|apply queryRange_submseteq].
  - destruct H3 as [_ H3]. intros q Hq Hin. apply H3. by apply scan_inside.
Qed.

(** ** Properties *)

(** C8: over bounds with integer corners up to [2 ^ 39] that contain every point:
    nothing is lost or doubled by the subdivisions; a range query returns, with
    multiplicity, no more than a scan with the closed rectangle and no less than a
    scan without its right and bottom edges, so that it is the scan of the closed
    rectangle when no point is on those two edges (a point that is can be missed);
    the nearest point is within the radius, and no point in the searched square, but
    for its right and bottom edges, is nearer (when none is found, none there is
    within the radius). *)
Theorem quadtree_scan b pts :
  integer_bounds b → Forall (fun p => contains b p = true) pts →
  let t := Quadtree b pts in
  points_of t ≡ₚ pts ∧
  (∀ q, List.filter (fun p => in_rect q p && negb (far_edge q p)) pts ⊆+ inRange t q ∧
        inRange t q ⊆+ List.filter (in_rect q) pts ∧
        (Forall (fun p => far_edge q p = false) pts → inRange t q ≡ₚ List.filter (in_rect q) pts)) ∧
  ∀ x y r, match nearest t x y r with
    | Some p => p ∈ pts ∧ (dist_sq x y p <= dmul r r)%Q ∧
                ∀ q, q ∈ pts → inside (search_square x y r) q → (dist_sq x y p <= dist_sq x y q)%Q
    | None => ∀ q, q ∈ pts → inside (search_square x y r) q → (dmul r r < dist_sq x y q)%Q
    end.
Proof.
  intros Hb Hall t. destruct (Quadtree_ok b pts Hb Hall) as [Hwf Hperm]. fold t in Hwf, Hperm. split; [done|].
  split; [|intros x y r; by apply scan_nearest]. intros q.
  assert (List.filter (fun p => in_rect q p && negb (far_edge q p)) pts ⊆+ inRange t q) as Hlo.
  { etrans; [apply filter_submseteq_bool; by rewrite <- Hperm|]. apply (queryRange_scan_below q 0 b); [lia|by apply integer_exact|done]. }
  assert (inRange t q ⊆+ List.filter (in_rect q) pts) as Hhi.
  { etrans; [apply queryRange_scan_above|]. apply filter_submseteq_bool. by rewrite Hperm. }
  split; [done|]. split; [done|]. intros Hfar. apply (anti_symm submseteq); [done|]. etrans; [|exact Hlo].
  rewrite (List.filter_ext_in (in_rect q) (fun p => in_rect q p && negb (far_edge q p))); [done|].
  intros p Hp%list_elem_of_In. rewrite Forall_forall in Hfar. by rewrite (Hfar p Hp), andb_true_r.
Qed.

(** Twelve points in a row, over bounds they make subdivide. *)
Definition row_points : list QuadPoint :=
  (fun i => mkPoint ("host-" +:+ to_dec i) (inject_Z (160 * i)) 0) <$> seqZ 0 12.
Definition row_bounds : Bounds := mkBounds (inject_Z (-160)) (inject_Z (-28)) (inject_Z 2080) (inject_Z 56).

Lemma row_integer : integer_bounds row_bounds.
Proof. exists (-160), (-28), 2080, 56. split; [done|]. lia. Qed.

Lemma row_contained : Forall (fun p => contains row_bounds p = true) row_points.
Proof.
  apply Forall_forall. intros p Hp.
  assert (forallb (contains row_bounds) row_points = true) as H by by vm_compute.
  rewrite forallb_forall in H. by apply H, list_elem_of_In.
Qed.

Lemma quadtree_scan_witness :
  points_of (Quadtree row_bounds row_points) ≡ₚ row_points ∧
  inRange (Quadtree row_bounds row_points) (mkBounds 100 0 600 10) ≡ₚ List.filter (in_rect (mkBounds 100 0 600 10)) row_points ∧
  qp_id <$> inRange (Quadtree row_bounds row_points) (mkBounds 100 0 600 10) = ["host-1"; "host-2"; "host-3"; "host-4"] ∧
  qp_id <$> nearest (Quadtree row_bounds row_points) 642 3 10 = Some "host-4".
Proof.
  destruct (quadtree_scan row_bounds row_points row_integer row_contained) as (H & Hq & _).
  split; [exact H|]. split; [apply Hq|split; vm_compute; reflexivity].
  apply Forall_forall. intros p Hp. apply negb_true_iff.
  assert (forallb (fun p => negb (far_edge (mkBounds 100 0 600 10) p)) row_points = true) as Hf by (vm_compute; reflexivity).
  rewrite forallb_forall in Hf. by apply Hf, list_elem_of_In.
Defined.

(** A closed rectangle loses a point on its right edge when a cell begins there. *)
Lemma far_edge_missed :
  let p := mkPoint "edge" (inject_Z 880) 0 in
  let b := mkBounds (inject_Z (-160)) (inject_Z (-28)) (inject_Z 2080) (inject_Z 56) in
  let q := mkBounds (inject_Z 800) (inject_Z (-5)) (inject_Z 80) (inject_Z 10) in
  in_rect q p = true ∧ inRange (Quadtree b [p]) q = [p] ∧
  inRange (Quadtree b (p :: row_points)) q = filter (fun p => qp_id p = "host-5") row_points.
Proof. by vm_compute. Qed.
