(* ===== verification/Canvas.v ===== *)
(** * The investigation canvas: web/src/components/investigation-canvas

    The viewport with its pan, zoom and resize, hit-testing of nodes and claims,
    the labels and the draw calls of a frame (graph-canvas.tsx), the two panels
    (claim-panel.tsx, entity-panel.tsx) and the page with its selection and replay
    (investigation-canvas-client.tsx).  What the GPU makes of a draw call is in
    Webgl; [Math.hypot], whose last digit the language leaves open, and the
    texts of dates are parameters. *)

From S2P Require Import Prelude JsNum Doubles Json View Types Widgets Merkle Layout Quadtree.
From Stdlib Require Import QArith Qround Lqa.
Open Scope Z_scope.

Definition HIT_RADIUS_PX : Q := 10.
Definition LABEL_ZOOM_THRESHOLD : Q := fl (14 # 10).
Definition MAX_LABELS : nat := 120.

(** ** The viewport *)

Record Viewport := mkViewport {
  vp_panX : Q;
  vp_panY : Q;
  vp_zoom : Q;
  vp_width : Q;
  vp_height : Q;
}.

Definition initial_viewport : Viewport := mkViewport 0 0 1 (inject_Z 800) (inject_Z 600).

(** The entries handed to the [Float32Array], column by column. *)
Definition computeViewProjection (v : Viewport) : list Q :=
  let sx := ddiv (dmul 2 (vp_zoom v)) (vp_width v) in
  let sy := ddiv (dmul (-2) (vp_zoom v)) (vp_height v) in
  [sx; 0; 0; 0; sy; 0; dmul (- vp_panX v) sx; dmul (- vp_panY v) sy; 1]%Q.

(** The extent of a layout, and the viewport fitted to it. *)
Definition lo_minX (l : list LaidOutNode) : Z := zmin_list (lo_x <$> l).
Definition lo_maxX (l : list LaidOutNode) : Z := zmax_list (lo_x <$> l).
Definition lo_minY (l : list LaidOutNode) : Z := zmin_list (lo_y <$> l).
Definition lo_maxY (l : list LaidOutNode) : Z := zmax_list (lo_y <$> l).

Definition graphKey (l : list LaidOutNode) : option string :=
  match l with
  | [] => None
  | _ => Some (to_dec (Z.of_nat (length l)) +:+ ":" +:+ to_dec (zmax_list (lo_column <$> l)))
  end.

Definition fit (l : list LaidOutNode) (v : Viewport) : Viewport :=
  let spanX := Z.max 1 (lo_maxX l - lo_minX l + COLUMN_WIDTH) in
  let spanY := Z.max 1 (lo_maxY l - lo_minY l + ROW_HEIGHT) in
  mkViewport (ddiv (inject_Z (lo_minX l + lo_maxX l)) 2) (ddiv (inject_Z (lo_minY l + lo_maxY l)) 2)
    (qmin (qmin 1 (ddiv (vp_width v) (inject_Z spanX))) (ddiv (vp_height v) (inject_Z spanY)))
    (vp_width v) (vp_height v).

(** The tree over the nodes, with a margin of one cell on every side. *)
Definition canvas_point (n : LaidOutNode) : QuadPoint :=
  mkPoint (gn_id (lo_node n)) (inject_Z (lo_x n)) (inject_Z (lo_y n)).

Definition canvas_bounds (l : list LaidOutNode) : Bounds :=
  let minX := lo_minX l - COLUMN_WIDTH in
  let minY := lo_minY l - ROW_HEIGHT in
  let maxX := lo_maxX l + COLUMN_WIDTH in
  let maxY := lo_maxY l + ROW_HEIGHT in
  mkBounds (inject_Z minX) (inject_Z minY) (inject_Z (maxX - minX)) (inject_Z (maxY - minY)).

Definition canvas_tree (l : list LaidOutNode) : option QuadNode :=
  match l with [] => None | _ => Some (Quadtree (canvas_bounds l) (canvas_point <$> l)) end.

(** ** Edges *)

Record EdgeGeom := mkGeom { eg_edge : GraphEdge; eg_x1 : Z; eg_y1 : Z; eg_x2 : Z; eg_y2 : Z }.

(** [nodeById]: a later node of the same id replaces an earlier one. *)
Definition nodeById (l : list LaidOutNode) : gmap string LaidOutNode :=
  foldl (fun m n => <[gn_id (lo_node n) := n]> m) ∅ l.

Definition edge_geom (m : gmap string LaidOutNode) (e : GraphEdge) : option EdgeGeom :=
  f ← m !! ge_fromNodeId e;
  t ← m !! ge_toNodeId e;
  Some (mkGeom e (lo_x f) (lo_y f) (lo_x t) (lo_y t)).

Definition edgeGeom (l : list LaidOutNode) (edges : list GraphEdge) : list EdgeGeom := omap (edge_geom (nodeById l)) edges.

Definition segment (g : EdgeGeom) : list Z := [eg_x1 g; eg_y1 g; eg_x2 g; eg_y2 g].
Definition segments (p : Polarity) (gs : list EdgeGeom) : list Z :=
  mjoin (map segment (List.filter (fun g => match p, ge_polarity (eg_edge g) with supports, supports | refutes, refutes => true | _, _ => false end) gs)).
Definition highlightSegments (highlighted : option (list string)) (gs : list EdgeGeom) : list Z :=
  match highlighted with
  | Some ids => mjoin (map segment (List.filter (fun g => bool_decide (ge_id (eg_edge g) ∈ ids)) gs))
  | None => []
  end.

(** ** Pointer and wheel *)

Record Drag := mkDrag { dr_startX : Q; dr_startY : Q; dr_panX : Q; dr_panY : Q; dr_dragged : bool }.

(** The canvas: the state, the ref that follows it after each render, the graph key
    fitted last and the drag under way. *)
Record Canvas := mkCanvas {
  cv_viewport : Viewport;
  cv_ref : Viewport;
  cv_fitted : option string;
  cv_drag : option Drag;
}.

Definition canvas_initial : Canvas := mkCanvas initial_viewport initial_viewport None None.

Definition set_viewport (v : Viewport) (c : Canvas) : Canvas := mkCanvas v (cv_ref c) (cv_fitted c) (cv_drag c).
Definition set_drag (d : option Drag) (c : Canvas) : Canvas := mkCanvas (cv_viewport c) (cv_ref c) (cv_fitted c) d.

(** A render, with the fit of a graph whose key is new, and the effect after it. *)
Definition render (l : list LaidOutNode) (c : Canvas) : Canvas :=
  let c' :=
    match graphKey l with
    | Some k => if decide (Some k = cv_fitted c) then c else mkCanvas (fit l (cv_viewport c)) (cv_ref c) (Some k) (cv_drag c)
    | None => c
    end in
  mkCanvas (cv_viewport c') (cv_viewport c') (cv_fitted c') (cv_drag c').

Section screen.
(** [devicePixelRatio] and the canvas's corner on the page. *)
Context (dpr left_ top_ : Q).

Definition resize (width height : Q) (c : Canvas) : Canvas :=
  if Qle_bool width 0 || Qle_bool height 0 then c
  else let v := cv_viewport c in
       set_viewport (mkViewport (vp_panX v) (vp_panY v) (vp_zoom v) (dmul width dpr) (dmul height dpr)) c.

Definition screenToWorld (v : Viewport) (clientX clientY : Q) : Q * Q :=
  let sx := dmul (dsub clientX left_) dpr in
  let sy := dmul (dsub clientY top_) dpr in
  (dadd (ddiv (dsub sx (ddiv (vp_width v) 2)) (vp_zoom v)) (vp_panX v),
   dadd (ddiv (dsub sy (ddiv (vp_height v) 2)) (vp_zoom v)) (vp_panY v)).

Definition onPointerDown (x y : Q) (c : Canvas) : Canvas :=
  set_drag (Some (mkDrag x y (vp_panX (cv_viewport c)) (vp_panY (cv_viewport c)) false)) c.

Definition onPointerMove (x y : Q) (c : Canvas) : Canvas :=
  match cv_drag c with
  | None => c
  | Some d =>
      let dx := dsub x (dr_startX d) in
      let dy := dsub y (dr_startY d) in
      let far := Qltb 2 (Qabs.Qabs dx) || Qltb 2 (Qabs.Qabs dy) in
      let v := cv_viewport c in
      mkCanvas (mkViewport (dsub (dr_panX d) (ddiv (dmul dx dpr) (vp_zoom v))) (dsub (dr_panY d) (ddiv (dmul dy dpr) (vp_zoom v)))
                  (vp_zoom v) (vp_width v) (vp_height v))
        (cv_ref c) (cv_fitted c) (Some (mkDrag (dr_startX d) (dr_startY d) (dr_panX d) (dr_panY d) (dr_dragged d || far)))
  end.

Definition nextZoom (zoom : Q) (up : bool) : Q :=
  qmax (fl (5 # 100)) (qmin 8 (dmul zoom (if up then fl (112 # 100) else ddiv 1 (fl (112 # 100))))).

(** [up] is [e.deltaY < 0]. *)
Definition handleWheel (x y : Q) (up : bool) (c : Canvas) : Canvas :=
  let world := screenToWorld (cv_ref c) x y in
  let v := cv_viewport c in
  let z := nextZoom (vp_zoom v) up in
  set_viewport (mkViewport (dsub world.1 (ddiv (dmul (dsub world.1 (vp_panX v)) (vp_zoom v)) z))
                  (dsub world.2 (ddiv (dmul (dsub world.2 (vp_panY v)) (vp_zoom v)) z)) z (vp_width v) (vp_height v)) c.

(** ** Hit-testing *)

Context (hypot : Q → Q → Q).

Definition pointToSegmentDistance (px py x1 y1 x2 y2 : Q) : Q :=
  let dx := dsub x2 x1 in
  let dy := dsub y2 y1 in
  let lenSq := dadd (dmul dx dx) (dmul dy dy) in
  let t := if Qeq_bool lenSq 0 then 0%Q
           else ddiv (dadd (dmul (dsub px x1) dx) (dmul (dsub py y1) dy)) lenSq in
  let t := qmax 0 (qmin 1 t) in
  hypot (dsub px (dadd x1 (dmul t dx))) (dsub py (dadd y1 (dmul t dy))).

Definition geom_distance (wx wy : Q) (g : EdgeGeom) : Q :=
  pointToSegmentDistance wx wy (inject_Z (eg_x1 g)) (inject_Z (eg_y1 g)) (inject_Z (eg_x2 g)) (inject_Z (eg_y2 g)).

(** The two [continue]s of the loop. *)
Definition off_box (wx wy tolerance : Q) (g : EdgeGeom) : bool :=
  Qltb wx (dsub (inject_Z (Z.min (eg_x1 g) (eg_x2 g))) tolerance) || Qltb (dadd (inject_Z (Z.max (eg_x1 g) (eg_x2 g))) tolerance) wx ||
  (Qltb wy (dsub (inject_Z (Z.min (eg_y1 g) (eg_y2 g))) tolerance) || Qltb (dadd (inject_Z (Z.max (eg_y1 g) (eg_y2 g))) tolerance) wy).

Definition closer_edge (wx wy tolerance : Q) (best : option GraphEdge * Q) (g : EdgeGeom) : option GraphEdge * Q :=
  if off_box wx wy tolerance g then best
  else let dist := geom_distance wx wy g in
       if Qltb dist best.2 then (Some (eg_edge g), dist) else best.

(** What a click selects. *)
Inductive Hit := HitNode (id : string) | HitEdge (e : GraphEdge) | HitNothing.

Definition hit_test (tree : option QuadNode) (gs : list EdgeGeom) (v : Viewport) (wx wy : Q) : Hit :=
  let hitRadius := ddiv HIT_RADIUS_PX (vp_zoom v) in
  match tree ≫= (fun t => nearest t wx wy hitRadius) with
  | Some p => HitNode (qp_id p)
  | None =>
      let tolerance := dmul hitRadius (15 # 10) in
      match (foldl (closer_edge wx wy tolerance) (None, tolerance) gs).1 with
      | Some e => HitEdge e
      | None => HitNothing
      end
  end.

Definition onPointerUp (tree : option QuadNode) (gs : list EdgeGeom) (x y : Q) (c : Canvas) : Canvas * option Hit :=
  (set_drag None c,
   match cv_drag c with
   | None => None
   | Some d =>
       if dr_dragged d then None
       else let w := screenToWorld (cv_ref c) x y in Some (hit_test tree gs (cv_viewport c) w.1 w.2)
   end).

(** ** Labels *)

Definition labels (tree : option QuadNode) (v : Viewport) : list QuadPoint :=
  match tree with
  | None => []
  | Some t =>
      if Qltb (vp_zoom v) LABEL_ZOOM_THRESHOLD then []
      else
        let halfW := ddiv (ddiv (vp_width v) 2) (vp_zoom v) in
        let halfH := ddiv (ddiv (vp_height v) 2) (vp_zoom v) in
        take MAX_LABELS (inRange t (mkBounds (dsub (vp_panX v) halfW) (dsub (vp_panY v) halfH) (dmul halfW 2) (dmul halfH 2)))
  end.

(** The position of a label, in CSS pixels. *)
Definition label_position (v : Viewport) (p : QuadPoint) : Q * Q :=
  (ddiv (dadd (dmul (dsub (qp_x p) (vp_panX v)) (vp_zoom v)) (ddiv (vp_width v) 2)) dpr,
   ddiv (dadd (dmul (dsub (qp_y p) (vp_panY v)) (vp_zoom v)) (ddiv (vp_height v) 2)) dpr).

Definition CanvasView (tree : option QuadNode) (c : Canvas) : view :=
  El "div" [("data-testid", Some "graph-canvas-container")]
   [El "canvas" [("data-testid", Some "graph-canvas")] [];
    El "div" [("aria-hidden", Some "true")]
     (map (fun p => El "div" [("key", Some (qp_id p))] [Txt (qp_id p)]) (labels tree (cv_viewport c)))].

End screen.

(** ** A frame *)

(** The times of the last thirty frames and of the last report. *)
Record FrameClock := mkClock { fc_times : list Q; fc_lastReport : Q }.
Definition clock_initial : FrameClock := mkClock [] 0.

(** The frame rate reported at time [t], if it is time for a report; two frames at
    the same instant, which would give infinity, do not happen. *)
Definition fps_sample (t : Q) (c : FrameClock) : FrameClock * option Q :=
  let pushed := fc_times c ++ [t] in
  let times := if (30 <? length pushed)%nat then tail pushed else pushed in
  if Qltb 500 (dsub t (fc_lastReport c)) && (1 <? length times)%nat then
    let first := default 0%Q (times !! 0%nat) in
    let last := default 0%Q (times !! (length times - 1)%nat) in
    let dt := ddiv (dsub last first) (inject_Z (Z.of_nat (length times) - 1)) in
    (mkClock times t, Some (ddiv 1000 dt))
  else (mkClock times (fc_lastReport c), None).

(** Colours: red, green, blue and opacity, for the dark theme and the light one. *)
Definition Colour : Type := list Q.
Definition q4 (r g b : Z) : Colour := [r # 10000; g # 10000; b # 10000; 1]%Q.
Definition NODE_COLOR (dark : bool) : Colour := if dark then q4 5410 5570 6000 else q4 3570 3730 4080.
Definition ACCENT (dark : bool) : Colour := if dark then q4 2980 5530 10000 else q4 2080 3760 7880.
Definition SUPPORTS_COLOR (dark : bool) : Colour := if dark then q4 3151 3257 3530 else q4 6324 6430 6654.
Definition REFUTES_COLOR (dark : bool) : Colour := if dark then q4 1796 1869 2047 else q4 7976 8050 8198.
(** [[...accentColor.slice(0, 3), 0.95]] *)
Definition highlight_colour (dark : bool) : Colour := take 3 (ACCENT dark) ++ [95 # 100]%Q.
Definition clear_colour (dark : bool) : Colour := if dark then q4 390 430 510 else q4 9690 9730 9800.
(** [resolvedTheme !== "light"] *)
Definition is_dark (resolvedTheme : option string) : bool := negb (bool_decide (resolvedTheme = Some "light")).

Inductive DrawCall :=
| Clear (colour : Colour)
| DrawLines (buf : list Z) (colour : Colour) (count : Z)
| DrawPoints (positions : list (Z * Z)) (colour : Colour) (size : Q)
| DrawSelected (position : Z * Z) (colour : Colour) (size : Q).

(** The calls of one frame, in order: the later ones cover the earlier ones.  Numbers
    are those handed to the buffers and uniforms, before they become 32-bit floats. *)
Definition frame_draws (resolvedTheme : option string) (l : list LaidOutNode) (edges : list GraphEdge)
    (selectedNodeId : option string) (highlighted : option (list string)) (v : Viewport) : list DrawCall :=
  let dark := is_dark resolvedTheme in
  let gs := edgeGeom l edges in
  let lines colour buf := if (0 <? length buf)%nat then [DrawLines buf colour (Z.of_nat (length buf) / 2)] else [] in
  [Clear (clear_colour dark)] ++
  lines (REFUTES_COLOR dark) (segments refutes gs) ++ lines (SUPPORTS_COLOR dark) (segments supports gs) ++
  lines (highlight_colour dark) (highlightSegments highlighted gs) ++
  [DrawPoints ((fun n => (lo_x n, lo_y n)) <$> l) (NODE_COLOR dark) (qmax 2 (qmin 6 (dmul 4 (vp_zoom v))))] ++
  match nodeById l !! default EmptyString selectedNodeId with
  | Some n => [DrawSelected (lo_x n, lo_y n) (ACCENT dark) (qmax 6 (qmin 14 (dmul 10 (vp_zoom v))))]
  | None => []
  end.

(** ** The page: selection and replay *)

Record CanvasPage := mkCanvasPage {
  cp_selectedNodeId : option string;
  cp_selectedEdge : option GraphEdge;
  cp_fps : option Q;
  cp_replayEdgeIds : option (list string);
  cp_replay : option (list GraphEdge * nat);
}.

Definition canvas_page_initial : CanvasPage := mkCanvasPage None None None None None.

(** [onSelectNode] and [onSelectEdge]; the empty id is falsy. *)
Definition onSelectNode (id : option string) (p : CanvasPage) : CanvasPage :=
  mkCanvasPage id (match id with Some (String _ _) => None | _ => cp_selectedEdge p end)
    (cp_fps p) (cp_replayEdgeIds p) (cp_replay p).
Definition onSelectEdge (e : option GraphEdge) (p : CanvasPage) : CanvasPage :=
  mkCanvasPage (match e with Some _ => None | None => cp_selectedNodeId p end) e
    (cp_fps p) (cp_replayEdgeIds p) (cp_replay p).

(** The calls [onPointerUp] makes for a hit. *)
Definition apply_hit (h : Hit) (p : CanvasPage) : CanvasPage :=
  match h with
  | HitNode id => onSelectEdge None (onSelectNode (Some id) p)
  | HitEdge e => onSelectNode None (onSelectEdge (Some e) p)
  | HitNothing => onSelectEdge None (onSelectNode None p)
  end.

Definition earlier_edge (a b : GraphEdge) : bool := ge_intervalStartMs a - ge_intervalStartMs b <=? 0.
Definition chronological (edges : list GraphEdge) : list GraphEdge := take 80 (sort_by earlier_edge edges).

(** [replayAttackPath]: a new replay replaces the running one. *)
Definition replayAttackPath (edges : list GraphEdge) (reducedMotion : bool) (p : CanvasPage) : CanvasPage :=
  if reducedMotion then
    mkCanvasPage (cp_selectedNodeId p) (cp_selectedEdge p) (cp_fps p) (Some (uniq (ge_id <$> chronological edges))) None
  else mkCanvasPage (cp_selectedNodeId p) (cp_selectedEdge p) (cp_fps p) (Some []) (Some (chronological edges, 0%nat)).

(** The interval's callback, every 60 ms while the timer is set. *)
Definition replay_tick (p : CanvasPage) : CanvasPage :=
  match cp_replay p with
  | None => p
  | Some (path, i) =>
      match path !! i with
      | None => mkCanvasPage (cp_selectedNodeId p) (cp_selectedEdge p) (cp_fps p) (cp_replayEdgeIds p) None
      | Some e =>
          mkCanvasPage (cp_selectedNodeId p) (cp_selectedEdge p) (cp_fps p)
            (Some (uniq (ge_id <$> take (S i) path))) (Some (path, S i))
      end
  end.

(** ** The panels *)

Inductive ProofState := pf_idle | pf_checking | pf_valid | pf_invalid | pf_error.

#[export] Instance ProofState_eq_dec : EqDecision ProofState.
Proof. solve_decision. Defined.

(** The states of a claim panel, by evidence id. *)
Definition ProofStates : Type := gmap string ProofState.

(** [verify]: the answer to the request is [None] for an error status, and a
    request that fails throws. *)
Definition verify (blake3 : bytes → bytes) (answer : outcome (option InclusionProof)) (evidenceId : string) (s : ProofStates) : ProofStates :=
  let s := <[evidenceId := pf_checking]> s in
  match answer with
  | Ok (Some proof) => <[evidenceId := if verifyInclusion blake3 evidenceId proof then pf_valid else pf_invalid]> s
  | Ok None | Throw _ => <[evidenceId := pf_error]> s
  end.

(** The addresses fetched: [nodesParam] is the page's own parameter, empty or absent
    alike.  [encodeURIComponent] leaves the letters, digits and dashes of the
    program's evidence ids as they are. *)
Definition nodes_query (nodesParam : option string) : string :=
  match nodesParam with Some (String _ _ as n) => "?nodes=" +:+ n | _ => EmptyString end.
Definition fetchGraph (caseId : string) (nodesParam : option string) : string :=
  "/api/graph/" +:+ caseId +:+ nodes_query nodesParam.
Definition proof_address (encodeURIComponent : string → string) (caseId : string) (nodesParam : option string) (evidenceId : string) : string :=
  "/api/graph/" +:+ caseId +:+ "/evidence/" +:+ encodeURIComponent evidenceId +:+ "/proof" +:+ nodes_query nodesParam.

(** [copy]: the mark appears at once and, 1200 ms later, goes if it is still this one's. *)
Definition copy (id : string) (copiedId : option string) : option string := Some id.
Definition copy_expired (id : string) (copiedId : option string) : option string :=
  if decide (copiedId = Some id) then None else copiedId.

Section panels.
Context (toLocaleTimeString toLocaleString : Z → string).

Definition EvidenceItem (s : ProofStates) (copiedId : option string) (id : string) : view :=
  let state := default pf_idle (s !! id) in
  El "li" [("key", Some id)]
   [El "div" []
     [El "span" [] [Txt id];
      El "button" [("type", Some "button"); ("aria-label", Some ("Copy evidence id " +:+ id))]
       [El (if bool_decide (copiedId = Some id) then "CheckCircle2" else "Copy") [("aria-hidden", Some "true")] []]];
    El "div" []
     (El "button" [("type", Some "button"); ("disabled", flag_attr (bool_decide (state = pf_checking)));
                   ("data-testid", Some "verify-inclusion-proof")]
       [Txt (if bool_decide (state = pf_checking) then "Verifying…" else "Verify inclusion proof")] ::
      match state with
      | pf_valid => [El "span" [("data-testid", Some "proof-valid")] [El "CheckCircle2" [("aria-hidden", Some "true")] []; Txt " Verified"]]
      | pf_invalid => [El "span" [("data-testid", Some "proof-invalid")] [El "XCircle" [("aria-hidden", Some "true")] []; Txt " Failed"]]
      | pf_error => [El "span" [] [El "ShieldQuestion" [("aria-hidden", Some "true")] []; Txt " Error"]]
      | pf_idle | pf_checking => []
      end)].

(** [(edge.confidence / 100).toFixed(0)] of an integer below [10 ^ 4]: halves away from zero. *)
Definition percent_text (confidence : Z) : string := to_dec (Qfloor (ddiv (inject_Z confidence) 100 + (1 # 2))).

Definition ClaimPanel (edge : GraphEdge) (s : ProofStates) (copiedId : option string) : view :=
  El "div" []
   [El "div" []
     [El "div" [] [Txt "Claim"]; El "div" [] [Txt (ge_predicate edge)];
      El "div" [] [Txt ((match ge_polarity edge with supports => "Supports" | refutes => "Refutes" end) +:+
                        " · confidence " +:+ percent_text (ge_confidence edge) +:+ "%")]];
    El "div" []
     [El "div" [] [El "div" [] [Txt "Interval"];
                   El "div" [] [Txt (toLocaleTimeString (ge_intervalStartMs edge) +:+ " – " +:+ toLocaleTimeString (ge_intervalEndMs edge))]];
      El "div" [] [El "div" [] [Txt "Extractor"]; El "div" [] [Txt (ge_extractorId edge +:+ "@" +:+ ge_extractorVersion edge)]]];
    El "div" []
     [El "div" [] [Txt ("Evidence (" +:+ to_dec (Z.of_nat (length (ge_evidenceIds edge))) +:+ ")")];
      El "ul" [] (map (EvidenceItem s copiedId) (ge_evidenceIds edge))]].

Definition connected (node : GraphNode) (edges : list GraphEdge) : list GraphEdge :=
  List.filter (fun e => bool_decide (ge_fromNodeId e = gn_id node) || bool_decide (ge_toNodeId e = gn_id node)) edges.

Definition entity_name (t : EntityType) : string :=
  match t with host => "host" | user => "user" | process => "process" | ip => "ip" | file => "file" | session => "session" end.

Definition EntityPanel (node : GraphNode) (edges : list GraphEdge) : view :=
  El "div" []
   [El "div" [] [El "div" [] [Txt "Entity"]; El "div" [] [Txt (gn_label node)]; El "div" [] [Txt (entity_name (gn_type node))]];
    El "div" []
     [El "div" [] [El "div" [] [Txt "First seen"]; El "div" [] [Txt (toLocaleString (gn_firstSeenMs node))]];
      El "div" [] [El "div" [] [Txt "Prior cases"]; El "div" [] [Txt (to_dec (gn_priorCaseCount node))]]];
    El "div" []
     [El "div" [] [Txt ("Claims (" +:+ to_dec (Z.of_nat (length (connected node edges))) +:+ ")")];
      El "ul" []
       (map (fun e => El "li" [("key", Some (ge_id e))]
          [El "button" [("type", Some "button")]
            [El "span" [] [Txt (ge_predicate e)];
             El "span" [] [Txt (if bool_decide (ge_fromNodeId e = gn_id node) then "→ " +:+ ge_toNodeId e else "← " +:+ ge_fromNodeId e)]]])
         (take 60 (connected node edges)))]].

(** [count.toLocaleString()] is the browser's, as dates are. *)
Context (count_text : Z → string).

Definition selected_node (nodes : list GraphNode) (p : CanvasPage) : option GraphNode :=
  List.find (fun n => bool_decide (Some (gn_id n) = cp_selectedNodeId p)) nodes.

(** [data] is the graph the query has; [canvas] what GraphCanvas shows. *)
Definition InvestigationCanvasClient (caseId : option string) (data : option (list GraphNode * list GraphEdge))
    (canvas : view) (s : ProofStates) (copiedId : option string) (p : CanvasPage) : view :=
  match caseId with
  | None | Some EmptyString =>
      EmptyState "No case selected"
        "Open a case from the Watchfloor (press i on a selected row) to explore its evidence graph."
        "Select a case to begin"
  | Some _ =>
      match data with
      | None => El "div" [] [Txt "Loading evidence graph…"]
      | Some (nodes, edges) =>
          El "div" []
           [El "div" []
             [El "div" []
               ([El "span" [("data-testid", Some "graph-node-count")] [Txt (count_text (Z.of_nat (length nodes)) +:+ " nodes")];
                 El "span" [] [Txt (count_text (Z.of_nat (length edges)) +:+ " claims")]] ++
                match cp_fps p with
                | Some fps => [El "span" [("data-testid", Some "graph-fps")] [Txt (to_dec (Qfloor (fps + (1 # 2))) +:+ "fps")]]
                | None => []
                end);
              El "Button" [("data-testid", Some "replay-attack-path")]
               [El "Play" [("aria-hidden", Some "true")] []; Txt "Replay attack path"]];
            El "div" []
             [El "div" [] [canvas];
              El "div" []
               (match selected_node nodes p with
                | Some n => [El "motion.div" [("key", Some ("node-" +:+ gn_id n))] [EntityPanel n edges]]
                | None => []
                end ++
                match cp_selectedEdge p with
                | Some e => [El "motion.div" [("key", Some ("edge-" +:+ ge_id e))] [ClaimPanel e s copiedId]]
                | None => []
                end ++
                match selected_node nodes p, cp_selectedEdge p with
                | None, None =>
                    [El "motion.div" [("key", Some "empty")]
                      [Txt "Click a node for its entity profile, or a claim (edge) for evidence and verification."]]
                | _, _ => []
                end)]]
      end
  end.

End panels.

(** ** The viewport stays usable *)

Definition sane (v : Viewport) : Prop := (0 < vp_zoom v ∧ vp_zoom v <= 8 ∧ 0 < vp_width v ∧ 0 < vp_height v)%Q.

Section steps.
Context (dpr left_ top_ : Q) (dpr_pos : (0 < dpr)%Q).

(** A render over any graph, a resize to any size, and the pointer and wheel events. *)
Inductive canvas_step (c : Canvas) : Canvas → Prop :=
| cs_render l : canvas_step c (render l c)
| cs_resize w h : canvas_step c (resize dpr w h c)
| cs_down x y : canvas_step c (onPointerDown x y c)
| cs_move x y : canvas_step c (onPointerMove dpr x y c)
| cs_up hypot tree gs x y : canvas_step c (onPointerUp dpr left_ top_ hypot tree gs x y c).1
| cs_wheel x y up : canvas_step c (handleWheel dpr left_ top_ x y up c).

Inductive canvas_reachable : Canvas → Prop :=
| cr_start : canvas_reachable canvas_initial
| cr_next c d : canvas_reachable c → canvas_step c d → canvas_reachable d.

Lemma qmin_pos a b : (0 < a → 0 < b → 0 < qmin a b)%Q.
Proof. intros. unfold qmin. by destruct (Qle_bool a b). Qed.

Lemma fit_sane l v : sane v → sane (fit l v).
Proof.
  intros (Hz & _ & Hw & Hh). unfold sane, fit. cbn.
  assert (∀ z, (0 < inject_Z (Z.max 1 z))%Q) as Hs by (intros z; change 0%Q with (inject_Z 0); rewrite <- Zlt_Qlt; lia).
  split; [apply qmin_pos; [apply qmin_pos; [done|]|]; by apply ddiv_pos|]. split; [|done].
  eapply Qle_trans; [apply qmin_l|]. eapply Qle_trans; [apply qmin_l|]. done.
Qed.

Lemma nextZoom_range z up : (0 < nextZoom z up)%Q ∧ (nextZoom z up <= 8)%Q.
Proof.
  unfold nextZoom. split.
  - eapply Qlt_le_trans; [|apply qmax_l]. by vm_compute.
  - unfold qmax. destruct (Qle_bool _ _); [apply qmin_l|]. by vm_compute.
Qed.

Lemma step_sane c d : canvas_step c d → sane (cv_viewport c) ∧ sane (cv_ref c) → sane (cv_viewport d) ∧ sane (cv_ref d).
Proof using dpr_pos.
  intros Hs [Hv Hr]. destruct Hs as [l|w h|x y|x y|hypot tree gs x y|x y up]; try done.
  - unfold render. assert (sane (cv_viewport (match graphKey l with
      | Some k => if decide (Some k = cv_fitted c) then c else mkCanvas (fit l (cv_viewport c)) (cv_ref c) (Some k) (cv_drag c)
      | None => c end))) as H; [|done].
    destruct (graphKey l); [|done]. case_decide; [done|]. by apply fit_sane.
  - unfold resize. destruct (Qle_bool w 0) eqn:Ew; [done|]. destruct (Qle_bool h 0) eqn:Eh; [done|]. cbn. split; [|done].
    assert (∀ q, Qle_bool q 0 = false → (0 < q)%Q) as Hpos
      by (intros q Hq; apply Qnot_le_lt; intros H; apply Qle_bool_iff in H; congruence).
    destruct Hv as (H1 & H2 & _ & _). unfold sane. cbn. repeat split; try done; apply dmul_pos; auto.
  - unfold onPointerMove. destruct (cv_drag c); done.
  - destruct Hv as (H1 & H2 & H3 & H4). destruct (nextZoom_range (vp_zoom (cv_viewport c)) up). split; [|done]. by repeat split.
Qed.

Lemma reachable_sane c : canvas_reachable c → sane (cv_viewport c) ∧ sane (cv_ref c).
Proof using dpr_pos.
  induction 1 as [|c d _ IH Hs]; [|by eapply step_sane]. assert (sane initial_viewport) by (repeat split; by vm_compute). done.
Qed.

End steps.

(** ** Hit-testing over a layout *)

Definition placed (l : list LaidOutNode) : Prop :=
  l ≠ [] ∧ Forall (fun n => 0 <= lo_x n <= 2 ^ 37 ∧ 0 <= lo_y n <= 2 ^ 37) l.

Lemma layout_placed nodes columnCount :
  nodes ≠ [] → Z.of_nat (length nodes) <= 2 ^ 20 → 0 < columnCount <= 2 ^ 20 → placed (layoutNodes nodes columnCount).
Proof.
  intros Hne Hl Hc. split.
  - destruct (by_column_spec (node_column nodes columnCount) nodes) as (Hperm & _ & _).
    unfold layoutNodes. rewrite (proj2 (Nat.eqb_neq _ 0)) by (by destruct nodes).
    intros E. apply Hne, Permutation_nil_r. rewrite <- Hperm.
    assert (∀ m, lo_node <$> mjoin (map lay_column m) ≡ₚ mjoin (map snd m)) as Hm.
    { induction m as [|c m IH]; [done|]. cbn [map]. by rewrite !mjoin_cons, fmap_app, IH, lay_column_nodes. }
    by rewrite <- Hm, E.
  - apply Forall_forall. intros a (c & i & n & _ & _ & -> & Hcol & Hn & Hi)%layout_elem. cbn.
    pose proof (node_column_range nodes columnCount n Hn ltac:(lia)) as Hr. rewrite Hcol in Hr.
    unfold COLUMN_WIDTH, ROW_HEIGHT. lia.
Qed.

Lemma dadd_Z a b : Z.abs (a + b) < 2 ^ 53 → (dadd (inject_Z a) (inject_Z b) == inject_Z (a + b))%Q.
Proof. intros H. etransitivity; [|exact (inject_is_double (a + b) H)]. apply fl_proper. by rewrite inject_Z_plus. Qed.

Lemma canvas_bounds_ok l : placed l →
  integer_bounds (canvas_bounds l) ∧ Forall (fun p => contains (canvas_bounds l) p = true) (canvas_point <$> l).
Proof.
  intros [Hne Hall]. rewrite Forall_forall in Hall.
  assert (∀ f : LaidOutNode → Z, (∀ n, n ∈ l → 0 <= f n <= 2 ^ 37) →
    0 <= zmin_list (f <$> l) <= zmax_list (f <$> l) ∧ zmax_list (f <$> l) <= 2 ^ 37) as Hext.
  { intros f Hf. destruct l as [|n l]; [done|].
    pose proof (min_max_list (f <$> n :: l) (f n) ltac:(rewrite fmap_cons; by left)).
    assert (0 <= zmin_list (f <$> n :: l)) as H0.
    { pose proof (foldl_min_in (f <$> l) (f n)) as Hin. apply elem_of_cons in Hin as [E|(m & E & Hm)%list_elem_of_fmap];
        change (zmin_list (f <$> n :: l)) with (foldl Z.min (f n) (f <$> l)); rewrite E; apply Hf; [by left|by right]. }
    assert (zmax_list (f <$> n :: l) <= 2 ^ 37) as H1.
    { pose proof (foldl_max_in (f <$> l) (f n)) as Hin. apply elem_of_cons in Hin as [E|(m & E & Hm)%list_elem_of_fmap];
        change (zmax_list (f <$> n :: l)) with (foldl Z.max (f n) (f <$> l)); rewrite E; apply Hf; [by left|by right]. }
    lia. }
  destruct (Hext lo_x) as [X1 X2]; [intros n Hn; apply (Hall n Hn)|]. destruct (Hext lo_y) as [Y1 Y2]; [intros n Hn; apply (Hall n Hn)|].
  unfold canvas_bounds, COLUMN_WIDTH, ROW_HEIGHT in *. fold (lo_minX l) (lo_maxX l) (lo_minY l) (lo_maxY l) in *. split.
  - eexists _, _, _, _. split; [reflexivity|]. lia.
  - apply Forall_forall. intros p (n & -> & Hn)%list_elem_of_fmap. apply contains_spec. cbn.
    pose proof (min_max_list (lo_x <$> l) (lo_x n) ltac:(by apply list_elem_of_fmap_2)) as Hx.
    pose proof (min_max_list (lo_y <$> l) (lo_y n) ltac:(by apply list_elem_of_fmap_2)) as Hy.
    fold (lo_minX l) (lo_maxX l) in Hx. fold (lo_minY l) (lo_maxY l) in Hy.
    rewrite !dadd_Z by lia. rewrite <- !Zle_Qle, <- !Zlt_Qlt. lia.
Qed.

Section hits.
Context (hypot : Q → Q → Q).

Lemma closer_edge_spec wx wy tol gs best d0 :
  let r := foldl (closer_edge hypot wx wy tol) (best, d0) gs in
  (r.2 <= d0)%Q ∧ (∀ g, g ∈ gs → off_box wx wy tol g = false → (r.2 <= geom_distance hypot wx wy g)%Q) ∧
  (r = (best, d0) ∨ ∃ g, g ∈ gs ∧ off_box wx wy tol g = false ∧ r = (Some (eg_edge g), geom_distance hypot wx wy g) ∧ (r.2 < d0)%Q).
Proof.
  revert best d0. induction gs as [|g gs IH]; intros best d0.
  { cbn. split; [lra|]. split; [by intros g ?%not_elem_of_nil|by left]. }
  cbn [foldl]. assert (closer_edge hypot wx wy tol (best, d0) g =
    if off_box wx wy tol g then (best, d0)
    else if Qltb (geom_distance hypot wx wy g) d0 then (Some (eg_edge g), geom_distance hypot wx wy g) else (best, d0)) as -> by done.
  destruct (off_box wx wy tol g) eqn:Eo; [|destruct (Qltb (geom_distance hypot wx wy g) d0) eqn:Ed].
  - destruct (IH best d0) as (H1 & H2 & H3). split; [done|]. split; [intros h [->|Hh]%elem_of_cons Ho; [congruence|by apply H2]|].
    destruct H3 as [H3|(h & Hh & H3)]; [by left|right; exists h; split; [by right|done]].
  - apply Qltb_iff in Ed. destruct (IH (Some (eg_edge g)) (geom_distance hypot wx wy g)) as (H1 & H2 & H3).
    cbv zeta in *. set (r := foldl _ _ _) in *. split; [lra|].
    split; [intros h [->|Hh]%elem_of_cons Ho; [done|by apply H2]|]. right.
    destruct H3 as [H3|(h & Hh & Ho & H3 & H4)]; [exists g; split; [by left|]|exists h; split; [by right|]].
    + split; [done|]. split; [done|]. rewrite H3. cbn. lra.
    + split; [done|]. split; [done|]. lra.
  - assert (d0 <= geom_distance hypot wx wy g)%Q as Ed'
      by (apply Qnot_lt_le; intros H; apply Qltb_iff in H; congruence).
    destruct (IH best d0) as (H1 & H2 & H3). cbv zeta in *. set (r := foldl _ _ _) in *. split; [done|].
    split; [intros h [->|Hh]%elem_of_cons Ho; [lra|by apply H2]|].
    destruct H3 as [H3|(h & Hh & H3)]; [by left|right; exists h; split; [by right|done]].
Qed.

(** What a hit means, by a scan over all nodes and all claims. *)
Definition hit_spec (l : list LaidOutNode) (gs : list EdgeGeom) (v : Viewport) (wx wy : Q) (h : Hit) : Prop :=
  let r := ddiv HIT_RADIUS_PX (vp_zoom v) in
  let tol := dmul r (15 # 10) in
  let near n := inside (search_square wx wy r) (canvas_point n) in
  let dist n := dist_sq wx wy (canvas_point n) in
  let no_node := ∀ n, n ∈ l → near n → (dmul r r < dist n)%Q in
  match h with
  | HitNode id => ∃ n, n ∈ l ∧ gn_id (lo_node n) = id ∧ (dist n <= dmul r r)%Q ∧ ∀ m, m ∈ l → near m → (dist n <= dist m)%Q
  | HitEdge e => no_node ∧ ∃ g, g ∈ gs ∧ eg_edge g = e ∧ (geom_distance hypot wx wy g < tol)%Q ∧
      ∀ g', g' ∈ gs → off_box wx wy tol g' = false → (geom_distance hypot wx wy g <= geom_distance hypot wx wy g')%Q
  | HitNothing => no_node ∧ ∀ g, g ∈ gs → off_box wx wy tol g = false → (tol <= geom_distance hypot wx wy g)%Q
  end.
End hits.

Lemma hit_test_spec hypot l edges v wx wy : placed l →
  hit_spec hypot l (edgeGeom l edges) v wx wy (hit_test hypot (canvas_tree l) (edgeGeom l edges) v wx wy).
Proof.
  intros Hl. destruct (canvas_bounds_ok l Hl) as [Hb Hin]. unfold hit_test.
  assert (canvas_tree l = Some (Quadtree (canvas_bounds l) (canvas_point <$> l))) as -> by (destruct Hl as [? _]; by destruct l).
  cbn [mbind option_bind]. set (r := ddiv HIT_RADIUS_PX (vp_zoom v)).
  pose proof (scan_nearest _ _ wx wy r Hb Hin) as Hn.
  destruct (nearest _ wx wy r) as [p|].
  - destruct Hn as ((n & -> & Hnl)%list_elem_of_fmap & Hd & Hmin). exists n. split; [done|]. split; [done|]. split; [done|].
    intros m Hm Hnear. apply Hmin; [by apply list_elem_of_fmap_2|done].
  - assert (∀ n, n ∈ l → inside (search_square wx wy r) (canvas_point n) → (dmul r r < dist_sq wx wy (canvas_point n))%Q) as Hno
      by (intros n Hnl; apply Hn; by apply list_elem_of_fmap_2).
    destruct (closer_edge_spec hypot wx wy (dmul r (15 # 10)) (edgeGeom l edges) None (dmul r (15 # 10))) as (H1 & H2 & H3).
    cbv zeta in *. set (res := foldl _ _ _) in *. destruct H3 as [H3|(g & Hg & Ho & H3 & H4)].
    + rewrite H3. cbn [fst]. split; [exact Hno|]. rewrite H3 in H2. exact H2.
    + rewrite H3 in H2, H4 |- *. cbn [fst snd] in *. split; [exact Hno|]. by exists g.
Qed.

(** ** Properties *)

(** C15: whatever the user does (any graphs shown, any sizes reported by the
    observer, drags, clicks and wheel turns, in any order), the zoom stays positive
    and at most 8 and the size positive, so that the projection divides by no zero:
    its scales are non-zero and keep their signs. *)
Theorem viewport_sane dpr left_ top_ c :
  (0 < dpr)%Q → canvas_reachable dpr left_ top_ c →
  sane (cv_viewport c) ∧
  ∃ sx sy, computeViewProjection (cv_viewport c) !! 0%nat = Some sx ∧ computeViewProjection (cv_viewport c) !! 4%nat = Some sy ∧
    (0 < sx)%Q ∧ (sy < 0)%Q.
Proof.
  intros Hdpr Hr. destruct (reachable_sane dpr left_ top_ Hdpr c Hr) as [(Hz & H8 & Hw & Hh) _]. split; [by repeat split|].
  do 2 eexists. split; [reflexivity|]. split; [reflexivity|]. split; [apply ddiv_pos; [apply dmul_pos; [done|done]|done]|].
  assert (0 < dmul 2 (vp_zoom (cv_viewport c)))%Q as H2 by by apply dmul_pos.
  pose proof (ddiv_pos _ _ H2 Hh) as Hq.
  assert (ddiv (dmul (-2) (vp_zoom (cv_viewport c))) (vp_height (cv_viewport c)) == - ddiv (dmul 2 (vp_zoom (cv_viewport c))) (vp_height (cv_viewport c)))%Q as E; [|rewrite E; lra].
  unfold ddiv, dmul. rewrite <- fl_opp. apply fl_proper.
  rewrite (fl_proper (-2 * _)%Q (- (2 * vp_zoom (cv_viewport c)))%Q) by ring. rewrite fl_opp. unfold Qdiv. ring.
Qed.

Definition zoomed_canvas : Canvas :=
  handleWheel 2 0 0 (inject_Z 300) (inject_Z 200) true
    (resize 2 0 0 (render [mkLaidOut late_node 39 6240 0; mkLaidOut early_node 0 0 0] canvas_initial)).

Lemma viewport_sane_witness : sane (cv_viewport zoomed_canvas) ∧ graphKey [] = None.
Proof.
  split; [|reflexivity]. apply (viewport_sane 2 0 0 zoomed_canvas); [reflexivity|].
  eapply cr_next; [eapply cr_next; [eapply cr_next; [apply cr_start|]|]|].
  - apply (cs_render 2 0 0 canvas_initial [mkLaidOut late_node 39 6240 0; mkLaidOut early_node 0 0 0]).
  - apply (cs_resize 2 0 0 _ 0 0).
  - apply cs_wheel.
Defined.



(** A replay goes through the (at most eighty) earliest claims in order of
    time: after [n] turns of the timer exactly the first [n] of them have lit up,
    and one turn after the last the timer is off for good, with the same claims lit
    as reduced motion shows at once. *)
Theorem replay_plays edges page n :
  let path := chronological edges in
  let p := Nat.iter n replay_tick (replayAttackPath edges false page) in
  StronglySorted (fun a b => ge_intervalStartMs a <= ge_intervalStartMs b) path ∧ (length path <= 80)%nat ∧
  cp_replayEdgeIds p = Some (uniq (ge_id <$> take n path)) ∧
  ((length path < n)%nat → cp_replay p = None ∧ cp_replayEdgeIds p = cp_replayEdgeIds (replayAttackPath edges true page)) ∧
  cp_selectedNodeId p = cp_selectedNodeId page ∧ cp_selectedEdge p = cp_selectedEdge page.
Proof.
  intros path p. split; [|split; [unfold path, chronological; rewrite length_take; lia|]].
  { unfold path, chronological. apply StronglySorted_take.
    eapply StronglySorted_weaken; [|apply sort_by_strongly_sorted]; unfold earlier_edge; intros *; rewrite ?Z.leb_le; lia. }
  assert (∀ n, let p := Nat.iter n replay_tick (replayAttackPath edges false page) in
    cp_replayEdgeIds p = Some (uniq (ge_id <$> take n path)) ∧
    cp_replay p = (if (n <=? length path)%nat then Some (path, n) else None) ∧
    cp_selectedNodeId p = cp_selectedNodeId page ∧ cp_selectedEdge p = cp_selectedEdge page) as H.
  { clear n p. intros n. induction n as [|n IH]; [done|]. cbv zeta in *. rewrite Nat.iter_succ.
    destruct IH as (H1 & H2 & H3 & H4). set (q := Nat.iter n _ _) in *. unfold replay_tick. rewrite H2.
    destruct (Nat.leb_spec n (length path)) as [Hle|Hgt].
    - destruct (path !! n) as [e|] eqn:He; cbn [cp_replayEdgeIds cp_replay cp_selectedNodeId cp_selectedEdge].
      + apply lookup_lt_Some in He. by rewrite (proj2 (Nat.leb_le (S n) _)) by lia.
      + apply lookup_ge_None in He. rewrite (proj2 (Nat.leb_gt (S n) _)) by lia. rewrite H1, !take_ge by lia. done.
    - rewrite (proj2 (Nat.leb_gt (S n) _)) by lia. rewrite H1, H2, !take_ge by lia. done. }
  destruct (H n) as (H1 & H2 & H3 & H4). fold p in H1, H2, H3, H4. split; [done|]. split; [|done].
  intros Hn. rewrite (proj2 (Nat.leb_gt _ _) Hn) in H2. split; [done|]. by rewrite H1, take_ge by lia.
Qed.
