(* ===== verification/Pointing.v ===== *)
(** * Pointing at what is drawn

    Where a node of the investigation canvas is on the screen, as the labels
    (graph-canvas.tsx) and the browser gate (eval/ui/investigation-canvas-flow.mjs)
    compute it, and that the way back from the screen ([screenToWorld]) ends at the
    node again: on either axis the ten roundings move a point by less than 1/256 of
    a world unit, while nodes are whole units apart. *)

From S2P Require Import Prelude JsNum Doubles Types Layout Quadtree Canvas.
From Stdlib Require Import QArith Qround Lqa.
Open Scope Z_scope.

(** ** There and back *)

(** [nodeWorldPos] of the debug hook. *)
Definition nodeWorldPos (l : list LaidOutNode) (id : string) : option (Z * Z) :=
  (fun n => (lo_x n, lo_y n)) <$> nodeById l !! id.

(** [nodeScreenPoint]: the point of the page a node is at, with the canvas's corner
    at [(left_, top_)]. *)
Definition nodeScreenPoint (dpr left_ top_ : Q) (l : list LaidOutNode) (v : Viewport) (id : string) : option (Q * Q) :=
  world ← nodeWorldPos l id;
  let sx := ddiv (dadd (dmul (dsub (inject_Z world.1) (vp_panX v)) (vp_zoom v)) (ddiv (vp_width v) 2)) dpr in
  let sy := ddiv (dadd (dmul (dsub (inject_Z world.2) (vp_panY v)) (vp_zoom v)) (ddiv (vp_height v) 2)) dpr in
  Some (dadd left_ sx, dadd top_ sy).

(** One axis of [nodeScreenPoint] and of [screenToWorld]. *)
Definition screen_coord (dpr z w pan x : Q) : Q := ddiv (dadd (dmul (dsub x pan) z) (ddiv w 2)) dpr.
Definition world_coord (dpr z w pan left_ c : Q) : Q := dadd (ddiv (dsub (dmul (dsub c left_) dpr) (ddiv w 2)) z) pan.

Lemma Qmult_bound a k B K : (- B <= a <= B → 0 <= k <= K → - (B * K) <= a * k <= B * K)%Q.
Proof. intros. split; nra. Qed.

Lemma Qdiv_bound a k B K : (- B <= a <= B → 0 < k → 1 <= K * k → - (B * K) <= a / k <= B * K)%Q.
Proof.
  intros Ha Hk HK. assert (0 <= / k)%Q by (by apply Qlt_le_weak, Qinv_lt_0_compat).
  assert (k * / k == 1)%Q as E by (apply Qmult_inv_r; lra).
  assert (/ k <= K)%Q by nra. apply Qmult_bound; [done|]. lra.
Qed.

(** What the way there hands to the way back: [t] is the position in device pixels,
    [s'] what the pointer event minus the corner gives. *)
Lemma screen_error dpr z h left_ d :
  ((1 # 64) <= z <= 8 → (1 # 8) <= dpr <= 8 → - 8193 <= h <= 8193 → - 16384 <= left_ <= 16384 →
   - 1048577 <= d <= 1048577 →
   let a := fl (d * z) in let t := fl (a + h) in let s' := fl (fl (left_ + fl (t / dpr)) - left_) in
   ∃ e g, t == d * z + h + e ∧ s' * dpr == t + g ∧
     - (1 # 268435456) <= e <= (1 # 268435456) ∧ - (1 # 2097152) <= g <= (1 # 2097152))%Q.
Proof.
  intros Hz Hdpr Hh Hl Hd a t s'.
  pose proof (Qmult_bound d z 1048577 8 Hd ltac:(lra)) as H2.
  destruct (fl_err 8388616 (d * z)) as (e2 & E2 & B2); [lra|]. fold a in E2.
  destruct (fl_err 8400000 (a + h)) as (e3 & E3 & B3); [lra|]. fold t in E3.
  pose proof (Qdiv_bound t dpr 8400001 8 ltac:(lra) ltac:(lra) ltac:(lra)) as H4.
  destruct (fl_err 67200008 (t / dpr)) as (e4 & E4 & B4); [lra|].
  assert (t / dpr * dpr == t)%Q as Et by (field; lra).
  destruct (fl_err 67300000 (left_ + fl (t / dpr))) as (e5 & E5 & B5); [lra|].
  destruct (fl_err 67400000 (fl (left_ + fl (t / dpr)) - left_)) as (e6 & E6 & B6); [lra|]. fold s' in E6.
  exists (e2 + e3)%Q, ((e4 + e5 + e6) * dpr)%Q. split; [lra|]. split.
  - rewrite E6, E5, E4. transitivity (t / dpr * dpr + (e4 + e5 + e6) * dpr)%Q; [ring|]. by rewrite Et.
  - split; [lra|]. pose proof (Qmult_bound (e4 + e5 + e6) dpr (1 # 16777216) 8 ltac:(lra) ltac:(lra)). lra.
Qed.

Lemma axis_round_trip dpr z w pan left_ x :
  ((1 # 64) <= z <= 8 → (1 # 8) <= dpr <= 8 → 0 <= w <= 16384 → - 16384 <= left_ <= 16384 →
   - 274877906944 <= pan <= 274877906944 → - 1048576 <= x - pan <= 1048576 →
   x - (1 # 256) <= world_coord dpr z w pan left_ (dadd left_ (screen_coord dpr z w pan x)) <= x + (1 # 256))%Q.
Proof.
  intros Hz Hdpr Hw Hl Hp Hx. unfold world_coord, screen_coord, dadd, dsub, dmul, ddiv.
  destruct (fl_err 8192 (w / 2)) as (eh & Eh & Bh); [unfold Qdiv; change (/ 2)%Q with (1 # 2)%Q; lra|].
  assert (- 8193 <= fl (w / 2) <= 8193)%Q as Hh by (rewrite Eh; unfold Qdiv; change (/ 2)%Q with (1 # 2)%Q; lra).
  clear Eh Bh. generalize dependent (fl (w / 2)). intros h Hh.
  destruct (fl_err 1048576 (x - pan)) as (e1 & E1 & B1); [lra|].
  generalize dependent (fl (x - pan)). intros d E1.
  destruct (screen_error dpr z h left_ d Hz Hdpr Hh Hl ltac:(lra)) as (e & g & Et & Es & Be & Bg).
  generalize dependent (fl (fl (d * z) + h)). intros t Et Es.
  generalize dependent (fl (fl (left_ + fl (t / dpr)) - left_)). intros s' Es.
  pose proof (Qmult_bound d z 1048577 8 ltac:(lra) ltac:(lra)) as H2.
  destruct (fl_err 8400000 (s' * dpr)) as (e7 & E7 & B7); [lra|].
  destruct (fl_err 8500000 (fl (s' * dpr) - h)) as (e8 & E8 & B8); [lra|].
  assert (- (1 # 1048576) <= e + g + e7 + e8 <= (1 # 1048576))%Q as Hk by lra.
  pose proof (Qdiv_bound _ z _ 64 Hk ltac:(lra) ltac:(lra)) as Hkz.
  assert (fl (fl (s' * dpr) - h) / z == d + (e + g + e7 + e8) / z)%Q as En by (rewrite E8, E7, Es, Et; field; lra).
  generalize dependent ((e + g + e7 + e8) / z)%Q. intros kz Hkz En.
  generalize dependent (fl (fl (s' * dpr) - h) / z)%Q. intros nz En.
  destruct (fl_err 1048600 nz) as (e9 & E9 & B9); [lra|].
  destruct (fl_err 274880000000 (fl nz + pan)) as (e10 & E10 & B10); [lra|]. lra.
Qed.

(** ** The nearest node *)

Definition near (x wx : Q) : Prop := (x - (1 # 256) <= wx <= x + (1 # 256))%Q.

Lemma radius_range z : ((1 # 64) <= z <= 8 → 1 <= ddiv HIT_RADIUS_PX z <= 640)%Q.
Proof.
  intros Hz. unfold ddiv, HIT_RADIUS_PX. assert (10 / z * z == 10)%Q as E by (field; lra).
  assert (0 < 10 / z)%Q by (apply Qlt_shift_div_l; lra). split.
  - apply (fl_ge_Z _ 1); [done|]. change (inject_Z 1) with 1%Q. nra.
  - apply (fl_le_Z _ 640); [done|]. change (inject_Z 640) with (640 # 1)%Q. nra.
Qed.

Lemma in_square x wx r : (- 137438953472 <= x <= 137438953472 → near x wx → 1 <= r <= 640 →
  dsub wx r <= x ∧ x < dadd (dsub wx r) (dmul r 2))%Q.
Proof.
  intros Hx Hw Hr. unfold near, dsub, dadd, dmul in *.
  destruct (fl_err 137438960000 (wx - r)) as (e & E & B); [lra|].
  destruct (fl_err 1280 (r * 2)) as (e' & E' & B'); [lra|].
  destruct (fl_err 137438970000 (fl (wx - r) + fl (r * 2))) as (e2 & E2 & B2); [lra|]. lra.
Qed.

Lemma square_small a B : (0 < B → - B <= a <= B → fl (a * a) <= fl (B * B))%Q.
Proof. intros. apply fl_mono. nra. Qed.
Lemma square_large a B : (0 < B → B <= a ∨ a <= - B → fl (B * B) <= fl (a * a))%Q.
Proof. intros ? []; apply fl_mono; nra. Qed.

Lemma gap_small x wx : (- 137438953472 <= x <= 137438953472 → near x wx → dmul (dsub x wx) (dsub x wx) <= (1 # 16384))%Q.
Proof.
  intros Hx Hw. unfold near, dsub, dmul in *. destruct (fl_err (1 # 256) (x - wx)) as (e & E & B); [lra|].
  eapply Qle_trans; [apply (square_small _ (1 # 128)); [done|lra]|]. by vm_compute.
Qed.

Lemma gap_large x wx y : near x wx → (- 137438953472 <= x <= 137438953472 → - 137438953472 <= y <= 137438953472 →
  x + 1 <= y ∨ y + 1 <= x → (1 # 8) <= dmul (dsub y wx) (dsub y wx))%Q.
Proof.
  intros Hw Hx Hy Hxy. unfold near, dsub, dmul in *. destruct (fl_err 274877906945 (y - wx)) as (e & E & B); [lra|].
  eapply Qle_trans; [|apply (square_large _ (1 # 2)); [done|destruct Hxy; [left|right]; lra]]. by vm_compute.
Qed.

Lemma coord_range z : 0 <= z <= 2 ^ 37 → (- 137438953472 <= inject_Z z <= 137438953472)%Q.
Proof.
  intros Hz. split; [change (inject_Z (- 2 ^ 37) <= inject_Z z)%Q|change (inject_Z z <= inject_Z (2 ^ 37))%Q];
    rewrite <- Zle_Qle; lia.
Qed.

Section pointed.
Context (n : LaidOutNode) (wx wy : Q).
Context (Hn : 0 <= lo_x n <= 2 ^ 37 ∧ 0 <= lo_y n <= 2 ^ 37).
Context (Hwx : near (inject_Z (lo_x n)) wx) (Hwy : near (inject_Z (lo_y n)) wy).

Lemma pointed_close : (dist_sq wx wy (canvas_point n) <= (1 # 8192))%Q.
Proof using Hn Hwx Hwy.
  unfold dist_sq, dadd. cbn [qp_x qp_y canvas_point].
  pose proof (gap_small _ _ (coord_range _ (proj1 Hn)) Hwx). pose proof (gap_small _ _ (coord_range _ (proj2 Hn)) Hwy).
  eapply Qle_trans; [apply (fl_mono _ (1 # 8192)); lra|]. by vm_compute.
Qed.

Lemma others_far m : 0 <= lo_x m <= 2 ^ 37 ∧ 0 <= lo_y m <= 2 ^ 37 → (lo_x m, lo_y m) ≠ (lo_x n, lo_y n) →
  ((1 # 8) <= dist_sq wx wy (canvas_point m))%Q.
Proof using Hn Hwx Hwy.
  intros Hm Hne. unfold dist_sq, dadd. cbn [qp_x qp_y canvas_point].
  assert (∀ z, (0 <= dmul z z)%Q) as Hsq by (intros z; unfold dmul; apply fl_nonneg; nra).
  assert (∀ a b, a ≠ b → (inject_Z a + 1 <= inject_Z b ∨ inject_Z b + 1 <= inject_Z a)%Q) as Hgap.
  { intros a b Hab. change 1%Q with (inject_Z 1). rewrite <- !inject_Z_plus, <- !Zle_Qle. lia. }
  eapply Qle_trans; [|apply (fl_mono (1 # 8))]; [by vm_compute|].
  pose proof (Hsq (dsub (inject_Z (lo_x m)) wx)). pose proof (Hsq (dsub (inject_Z (lo_y m)) wy)).
  destruct (decide (lo_x n = lo_x m)) as [Ex|Ex]; [destruct (decide (lo_y n = lo_y m)) as [Ey|Ey]; [congruence|]|].
  - pose proof (gap_large _ _ _ Hwy (coord_range _ (proj2 Hn)) (coord_range _ (proj2 Hm)) (Hgap _ _ Ey)). lra.
  - pose proof (gap_large _ _ _ Hwx (coord_range _ (proj1 Hn)) (coord_range _ (proj1 Hm)) (Hgap _ _ Ex)). lra.
Qed.

Lemma pointed_inside r : (1 <= r <= 640)%Q → inside (search_square wx wy r) (canvas_point n).
Proof using Hn Hwx Hwy.
  intros Hr. destruct (in_square _ _ r (coord_range _ (proj1 Hn)) Hwx Hr), (in_square _ _ r (coord_range _ (proj2 Hn)) Hwy Hr).
  by repeat split.
Qed.

Lemma pointed_hit hypot l gs v :
  placed l → NoDup ((fun a => (lo_x a, lo_y a)) <$> l) → n ∈ l → ((1 # 64) <= vp_zoom v <= 8)%Q →
  hit_test hypot (canvas_tree l) gs v wx wy = HitNode (gn_id (lo_node n)).
Proof using Hn Hwx Hwy.
  intros Hl Hnd Hin Hz. destruct (canvas_bounds_ok l Hl) as [Hb Hc]. unfold hit_test.
  assert (canvas_tree l = Some (Quadtree (canvas_bounds l) (canvas_point <$> l))) as -> by (destruct Hl as [? _]; by destruct l).
  cbn [mbind option_bind]. pose proof (radius_range _ Hz) as Hr. set (r := ddiv HIT_RADIUS_PX (vp_zoom v)) in *.
  pose proof (scan_nearest _ _ wx wy r Hb Hc) as Hscan. pose proof pointed_close as Hclose.
  assert (canvas_point n ∈ canvas_point <$> l) as Hpn by by apply list_elem_of_fmap_2.
  destruct (nearest _ wx wy r) as [p|].
  - destruct Hscan as ((m & -> & Hm)%list_elem_of_fmap & _ & Hmin).
    specialize (Hmin _ Hpn (pointed_inside r Hr)). destruct (decide ((lo_x m, lo_y m) = (lo_x n, lo_y n))) as [E|E].
    + apply list_elem_of_lookup in Hm as [i Hi], Hin as [j Hj].
      assert (i = j) as ->; [|cbn; congruence].
      eapply NoDup_lookup; [exact Hnd|by rewrite list_lookup_fmap, Hi|rewrite list_lookup_fmap, Hj; cbn; congruence].
    + destruct Hl as [_ Hall]. rewrite Forall_forall in Hall. pose proof (others_far m (Hall m Hm) E). lra.
  - specialize (Hscan _ Hpn (pointed_inside r Hr)).
    assert (1 <= dmul r r)%Q; [|lra]. unfold dmul. apply (fl_ge_Z _ 1); [done|]. change (inject_Z 1) with 1%Q. nra.
Qed.

End pointed.

Lemma nodeById_lookup l id n : nodeById l !! id = Some n → n ∈ l ∧ gn_id (lo_node n) = id.
Proof.
  unfold nodeById. assert (∀ m : gmap string LaidOutNode, foldl (fun m n => <[gn_id (lo_node n) := n]> m) m l !! id = Some n →
    m !! id = Some n ∨ n ∈ l ∧ gn_id (lo_node n) = id) as H; [|intros [?|?]%H; [by rewrite lookup_empty in *|done]].
  induction l as [|a l IH]; intros m; cbn [foldl]; [by left|]. intros [Ha|[? ?]]%IH; [|right; split; [by right|done]].
  apply lookup_insert_Some in Ha as [[? <-]|[_ ?]]; [right; split; [by left|done]|by left].
Qed.

(** A canvas on a page: zooms from 1/64 to 8, device pixel ratios from 1/8 to 8, a
    size and a corner of up to 16384 pixels, and a middle within [2 ^ 38]. *)
Record on_page (dpr left_ top_ : Q) (v : Viewport) : Prop := {
  pg_zoom : ((1 # 64) <= vp_zoom v <= 8)%Q;
  pg_dpr : ((1 # 8) <= dpr <= 8)%Q;
  pg_width : (0 <= vp_width v <= 16384)%Q;
  pg_height : (0 <= vp_height v <= 16384)%Q;
  pg_left : (- 16384 <= left_ <= 16384)%Q;
  pg_top : (- 16384 <= top_ <= 16384)%Q;
  pg_panX : (- 274877906944 <= vp_panX v <= 274877906944)%Q;
  pg_panY : (- 274877906944 <= vp_panY v <= 274877906944)%Q;
}.

(** Within 2^20 world units of the middle, on both axes. *)
Definition around_middle (v : Viewport) (x y : Q) : Prop :=
  (- 1048576 <= x - vp_panX v <= 1048576 ∧ - 1048576 <= y - vp_panY v <= 1048576)%Q.

(** What is returned for the window lies around its middle. *)
Lemma window_axis pan w z x : ((1 <= z <= 8) → 0 <= w <= 16384 → - 274877906944 <= pan <= 274877906944 →
  let half := ddiv (ddiv w 2) z in
  dsub pan half <= x → x <= dadd (dsub pan half) (dmul half 2) → - 1048576 <= x - pan <= 1048576)%Q.
Proof.
  intros Hz Hw Hp half. unfold dsub, dadd, dmul, half, ddiv.
  destruct (fl_err 8192 (w / 2)) as (e & E & B); [unfold Qdiv; change (/ 2)%Q with (1 # 2)%Q; lra|].
  assert (- 8193 <= fl (w / 2) <= 8193)%Q as Hh by (rewrite E; unfold Qdiv; change (/ 2)%Q with (1 # 2)%Q; lra).
  pose proof (Qdiv_bound _ z 8193 1 Hh ltac:(lra) ltac:(lra)) as Hd.
  destruct (fl_err 8193 (fl (w / 2) / z)) as (e1 & E1 & B1); [lra|].
  generalize dependent (fl (fl (w / 2) / z)). intros h E1.
  destruct (fl_err 274878000000 (pan - h)) as (e2 & E2 & B2); [lra|].
  destruct (fl_err 20000 (h * 2)) as (e3 & E3 & B3); [lra|].
  destruct (fl_err 274879000000 (fl (pan - h) + fl (h * 2))) as (e4 & E4 & B4); [lra|]. lra.
Qed.

Lemma label_visible l dpr left_ top_ v p : placed l → on_page dpr left_ top_ v → p ∈ labels (canvas_tree l) v →
  ∃ n, n ∈ l ∧ p = canvas_point n ∧ around_middle v (qp_x p) (qp_y p).
Proof.
  intros Hl [Hz _ Hw Hh _ _ HX HY] Hp. destruct (canvas_bounds_ok l Hl) as [Hb Hc].
  assert (canvas_tree l = Some (Quadtree (canvas_bounds l) (canvas_point <$> l))) as E by (destruct Hl as [? _]; by destruct l).
  rewrite E in Hp. cbn [labels] in Hp. destruct (Qltb (vp_zoom v) LABEL_ZOOM_THRESHOLD) eqn:Ez; [by apply not_elem_of_nil in Hp|].
  assert (1 <= vp_zoom v <= 8)%Q as Hz'.
  { split; [|lra]. apply (Qle_trans _ LABEL_ZOOM_THRESHOLD); [by vm_compute|]. apply Qnot_lt_le. intros Hlt%Qltb_iff. congruence. }
  apply elem_of_take in Hp as (i & Hp%list_elem_of_lookup_2 & _). unfold inRange in Hp.
  pose proof (queryRange_sound _ _ _ Hp) as Hin%in_rect_spec. cbn [bd_x bd_y bd_w bd_h] in Hin.
  destruct Hin as (X1 & X2 & Y1 & Y2).
  assert (p ∈ canvas_point <$> l) as (n & -> & Hn)%list_elem_of_fmap.
  { rewrite <- (proj2 (Quadtree_ok _ _ Hb Hc)). by apply (elem_of_submseteq _ _ _ Hp (queryRange_submseteq _ _)). }
  exists n. split; [done|]. split; [done|]. split.
  - apply (window_axis _ (vp_width v) (vp_zoom v)); assumption.
  - apply (window_axis _ (vp_height v) (vp_zoom v)); assumption.
Qed.

Lemma screenToWorld_coord dpr left_ top_ v x y : screenToWorld dpr left_ top_ v x y =
  (world_coord dpr (vp_zoom v) (vp_width v) (vp_panX v) left_ x, world_coord dpr (vp_zoom v) (vp_height v) (vp_panY v) top_ y).
Proof. reflexivity. Qed.

Section click.
Context (dpr left_ top_ : Q) (hypot : Q → Q → Q) (l : list LaidOutNode) (gs : list EdgeGeom).

(** A press and a release at the same point of the page. *)
Definition click_at (x y : Q) (c : Canvas) : option Hit :=
  (onPointerUp dpr left_ top_ hypot (canvas_tree l) gs x y (onPointerDown x y c)).2.

Lemma click_on_node c n :
  placed l → NoDup ((fun a => (lo_x a, lo_y a)) <$> l) → cv_ref c = cv_viewport c → n ∈ l →
  let v := cv_viewport c in
  on_page dpr left_ top_ v → around_middle v (inject_Z (lo_x n)) (inject_Z (lo_y n)) →
  click_at (dadd left_ (screen_coord dpr (vp_zoom v) (vp_width v) (vp_panX v) (inject_Z (lo_x n))))
    (dadd top_ (screen_coord dpr (vp_zoom v) (vp_height v) (vp_panY v) (inject_Z (lo_y n)))) c =
  Some (HitNode (gn_id (lo_node n))).
Proof.
  intros Hl Hnd Href Hin v [Hz Hd Hw Hh Hle Ht HX HY] [Ax Ay]. unfold click_at, onPointerUp, onPointerDown. cbn [cv_drag set_drag dr_dragged snd].
  f_equal. cbn [cv_ref set_drag cv_viewport]. rewrite Href. fold v. rewrite screenToWorld_coord. cbn [fst snd].
  apply (pointed_hit n).
  - destruct Hl as [_ Hall]. rewrite Forall_forall in Hall. exact (Hall n Hin).
  - exact (axis_round_trip _ _ _ _ _ _ Hz Hd Hw Hle HX Ax).
  - exact (axis_round_trip _ _ _ _ _ _ Hz Hd Hh Ht HY Ay).
  - exact Hl.
  - exact Hnd.
  - exact Hin.
  - exact Hz.
Qed.

End click.

(** ** Properties *)

(** Roundings and clicks are compared by their arguments. *)
#[local] Opaque dadd dsub dmul ddiv click_at.

(** C7: what is drawn can be clicked: on a page of any usual size, at any zoom from
    1/64 to 8, a click at the point a node is drawn at, which is where the gate
    clicks, selects that node and no other, and so does a click at a label; the
    ten roundings on the way to the screen and back never reach a neighbour. *)
Theorem drawn_node_clicked dpr left_ top_ hypot nodes edges columnCount c :
  nodes ≠ [] → Z.of_nat (length nodes) <= 2 ^ 20 → 0 < columnCount <= 2 ^ 20 → cv_ref c = cv_viewport c →
  let v := cv_viewport c in
  on_page dpr left_ top_ v →
  let l := layoutNodes nodes columnCount in
  let click := click_at dpr left_ top_ hypot l (edgeGeom l edges) in
  (∀ id n x y, nodeById l !! id = Some n → around_middle v (inject_Z (lo_x n)) (inject_Z (lo_y n)) →
     nodeScreenPoint dpr left_ top_ l v id = Some (x, y) → click x y c = Some (HitNode id)) ∧
  (∀ p, p ∈ labels (canvas_tree l) v →
     click (dadd left_ (label_position dpr v p).1) (dadd top_ (label_position dpr v p).2) c = Some (HitNode (qp_id p))).
Proof.
  intros Hne Hlen Hcc Href v Hpage l click.
  assert (placed l) as Hl by by apply layout_placed. pose proof (layout_positions nodes columnCount) as Hnd. split.
  - intros id n x y Hid Hmid Hpt. unfold nodeScreenPoint, nodeWorldPos in Hpt. rewrite Hid in Hpt. cbn in Hpt. injection Hpt as <- <-.
    apply nodeById_lookup in Hid as [Hin <-]. apply click_on_node; assumption.
  - intros p Hp. destruct (label_visible l dpr left_ top_ v p Hl Hpage Hp) as (n & Hin & -> & Hmid).
    apply (click_on_node dpr left_ top_ hypot l (edgeGeom l edges)); assumption.
Qed.

#[local] Transparent dadd dsub dmul ddiv click_at.

(** The second node of a zoomed canvas, on a screen of two device pixels each. *)
Definition close_up : Canvas :=
  let v := mkViewport (inject_Z 6200) (inject_Z 10) 2 (inject_Z 1600) (inject_Z 1200) in mkCanvas v v None None.

Lemma drawn_node_clicked_witness :
  ∃ x y, nodeScreenPoint 2 (inject_Z 240) (inject_Z 96) (layoutNodes [late_node; early_node] 40) (cv_viewport close_up) "host-c-0" = Some (x, y) ∧
    click_at 2 (inject_Z 240) (inject_Z 96) (fun a b => qmax a b) (layoutNodes [late_node; early_node] 40) [] x y close_up = Some (HitNode "host-c-0") ∧
    length (labels (canvas_tree (layoutNodes [late_node; early_node] 40)) (cv_viewport close_up)) = 1%nat.
Proof.
  do 2 eexists. split; [vm_compute; reflexivity|]. split; [|vm_compute; reflexivity].
  refine (proj1 (drawn_node_clicked 2 (inject_Z 240) (inject_Z 96) (fun a b => qmax a b) [late_node; early_node] [] 40 close_up
    _ _ _ _ _) "host-c-0" (mkLaidOut late_node 39 6240 0) _ _ _ _ _).
  - discriminate.
  - vm_compute. discriminate.
  - by vm_compute.
  - reflexivity.
  - by split; vm_compute.
  - vm_compute. reflexivity.
  - by split; vm_compute.
  - vm_compute. reflexivity.
Defined.
