(* ===== verification/Webgl.v ===== *)
(** * The GPU half of the canvas: graph-canvas.tsx, the effect with regl in it

    What the shaders make of the numbers a frame hands them, in which order the
    draw calls cover one another, and the life of the effect: its context, buffers
    and animation frame, set up again whenever one of its inputs changes.  A
    [Float32Array] rounds to 24 bits ([fround]); the shaders' own arithmetic is the
    GPU's and is exact here; which pixels a line covers is a parameter. *)

From S2P Require Import Prelude JsNum Doubles Json Types Layout Quadtree Canvas.
From Stdlib Require Import QArith Qabs Lqa.
Open Scope Z_scope.

(** ** Float32Array *)

Definition fround_pos (n d : Z) : Q :=
  let e := exponent_of n d - 23 in
  if 0 <=? e then scale (rdiv_even n (d * 2 ^ e)) e else scale (rdiv_even (n * 2 ^ (- e)) d) e.

(** The nearest number of 24 bits, its exponent unbounded as that of [fl]. *)
Definition fround (q : Q) : Q :=
  match Qnum q with
  | Z0 => 0%Q
  | Zpos n => fround_pos (Zpos n) (Zpos (Qden q))
  | Zneg n => Qopp (fround_pos (Zpos n) (Zpos (Qden q)))
  end.

(** ** The shaders *)

(** [viewProjection * vec3(position, 1.0)], the matrix column by column, and the
    first two coordinates of [gl_Position]. *)
Definition vertex (vp : list Q) (position : Q * Q) : Q * Q :=
  match vp with
  | [a; b; _; c; d; _; e; f; _] =>
      (a * position.1 + c * position.2 + e, b * position.1 + d * position.2 + f)%Q
  | _ => (0, 0)%Q
  end.

(** The fragment shader of the points: [discard] outside the disc. *)
Definition point_fragment (color : Colour) (gl_PointCoord : Q * Q) : option Colour :=
  let cx := (gl_PointCoord.1 - (1 # 2))%Q in
  let cy := (gl_PointCoord.2 - (1 # 2))%Q in
  if Qltb (1 # 4) (cx * cx + cy * cy) then None else Some color.

(** [blend]: source alpha over one minus source alpha, and one over one for alpha,
    which the frame buffer holds at one. *)
Definition blend (src dst : Colour) : Colour :=
  match src, dst with
  | [r; g; b; a], [r'; g'; b'; a'] =>
      [r * a + r' * (1 - a); g * a + g' * (1 - a); b * a + b' * (1 - a); qmin 1 (a + a')]%Q
  | _, _ => src
  end.

(** ** The picture *)

(** The device pixel a clip position is at, of a canvas of the viewport's size:
    the vertical axis of clip space points up. *)
Definition to_pixel (v : Viewport) (clip : Q * Q) : Q * Q :=
  ((clip.1 + 1) / 2 * vp_width v, (1 - clip.2) / 2 * vp_height v)%Q.

Definition uniform_vp (v : Viewport) : list Q := fround <$> computeViewProjection v.
Definition buffered (position : Z * Z) : Q * Q := (fround (inject_Z position.1), fround (inject_Z position.2)).

Definition drawn_at (v : Viewport) (position : Z * Z) : Q * Q := to_pixel v (vertex (uniform_vp v) (buffered position)).

(** [gl_PointCoord] of a pixel in a point of that size. *)
Definition point_coord (centre : Q * Q) (size : Q) (pixel : Q * Q) : Q * Q :=
  ((pixel.1 - centre.1) / size + (1 # 2), (pixel.2 - centre.2) / size + (1 # 2))%Q.

Definition point_colour (v : Viewport) (position : Z * Z) (color : Colour) (size : Q) (pixel : Q * Q) : option Colour :=
  point_fragment color (point_coord (drawn_at v position) (fround size) pixel).

Section picture.
(** Whether some segment of a buffer covers a pixel. *)
Context (line_covers : Viewport → list Z → Q * Q → bool).

Definition draw (v : Viewport) (pixel : Q * Q) (below : Colour) (call : DrawCall) : Colour :=
  match call with
  | Clear colour => colour
  | DrawLines buf colour _ => if line_covers v buf pixel then colour else below
  | DrawPoints positions colour size =>
      foldl (fun below p => match point_colour v p colour size pixel with Some c => blend c below | None => below end) below positions
  | DrawSelected p colour size => default below (point_colour v p colour size pixel)
  end.

(** The colour of a pixel after a frame. *)
Definition picture (v : Viewport) (calls : list DrawCall) (pixel : Q * Q) : Colour := foldl (draw v pixel) [] calls.

End picture.

(** ** The effect *)

(** A book kept about the effect's calls of regl, not regl itself: the buffers and
    the context made so far by number, and those of them not yet destroyed; [None]
    is a call that destroys one twice, which regl reports as an error. *)
Record Gl := mkGl { gl_live : gset nat; gl_next : nat }.
Definition gl_initial : Gl := mkGl ∅ 0.

Definition create_object (g : Gl) : Gl * nat := (mkGl ({[gl_next g]} ∪ gl_live g) (S (gl_next g)), gl_next g).
Definition destroy_object (id : nat) (g : Gl) : option Gl :=
  if decide (id ∈ gl_live g) then Some (mkGl (gl_live g ∖ {[id]}) (gl_next g)) else None.

(** What one run of the effect closes over. *)
Record Closure := mkClosure {
  ef_regl : nat;
  nodeBuffer : nat;
  supportsBuffer : nat;
  refutesBuffer : nat;
  highlightBuffer : option nat;
  selectedBuffer : option nat;
}.

(** Everything it made, in the order the cleanup destroys it. *)
Definition owned (c : Closure) : list nat :=
  [nodeBuffer c; supportsBuffer c; refutesBuffer c] ++ option_list (highlightBuffer c) ++ option_list (selectedBuffer c) ++ [ef_regl c].

(** The effect that is set up, if any, with its variable [raf]; the animation
    frames the browser has pending, by handle; and the objects used by the frames
    so far, each with whether it was live. *)
Record Gpu := mkGpu {
  gp_gl : Gl;
  gp_effect : option (Closure * nat);
  gp_pending : list (nat * Closure);
  gp_handle : nat;
  gp_used : list (nat * bool);
}.
Definition gpu_initial : Gpu := mkGpu gl_initial None [] 1 [].

Definition create_optional (wanted : bool) (g : Gl) : Gl * option nat :=
  if wanted then let r := create_object g in (r.1, Some r.2) else (g, None).

(** The effect's body: [context] is whether [createREGL] returns, the two others
    whether there is something highlighted and a node selected. *)
Definition setup (context highlighted selected : bool) (s : Gpu) : Gpu :=
  if context then
    let '(g, regl) := create_object (gp_gl s) in
    let '(g, node) := create_object g in
    let '(g, lines) := create_object g in
    let '(g, refuted) := create_object g in
    let '(g, highlight) := create_optional highlighted g in
    let '(g, select) := create_optional selected g in
    let c := mkClosure regl node lines refuted highlight select in
    let raf := gp_handle s in
    mkGpu g (Some (c, raf)) (gp_pending s ++ [(raf, c)]) (S raf) (gp_used s)
  else s.

(** The function the effect returns; without a context there is none. *)
Definition cleanup (s : Gpu) : option Gpu :=
  match gp_effect s with
  | None => Some s
  | Some (c, raf) =>
      let pending := List.filter (fun p => negb (p.1 =? raf)%nat) (gp_pending s) in
      g ← foldl (fun r id => r ≫= destroy_object id) (Some (gp_gl s)) (owned c);
      Some (mkGpu g None pending (gp_handle s) (gp_used s))
  end.

(** One animation frame callback: it draws with everything it closes over and asks
    for the next frame. *)
Definition run_frame (s : Gpu) (c : Closure) : Gpu :=
  let raf := gp_handle s in
  mkGpu (gp_gl s)
    (match gp_effect s with Some (c', r) => if decide (ef_regl c' = ef_regl c) then Some (c', raf) else Some (c', r) | None => None end)
    (gp_pending s ++ [(raf, c)]) (S raf)
    (gp_used s ++ ((fun id => (id, bool_decide (id ∈ gl_live (gp_gl s)))) <$> owned c)).

(** The browser's next frame runs the callbacks that were pending before it. *)
Definition animation_frame (s : Gpu) : Gpu :=
  foldl run_frame (mkGpu (gp_gl s) (gp_effect s) [] (gp_handle s) (gp_used s)) (gp_pending s).*2.

(** A dependency that changed: the old effect is cleaned up, the new one set up. *)
Inductive gpu_step : Gpu → Gpu → Prop :=
| gs_mount context highlighted selected s : gp_effect s = None → gpu_step s (setup context highlighted selected s)
| gs_change context highlighted selected s s' : cleanup s = Some s' → gpu_step s (setup context highlighted selected s')
| gs_unmount s s' : cleanup s = Some s' → gpu_step s s'
| gs_frame s : gpu_step s (animation_frame s).

Inductive gpu_reachable : Gpu → Prop :=
| gr_init : gpu_reachable gpu_initial
| gr_step s s' : gpu_reachable s → gpu_step s s' → gpu_reachable s'.

(** ** Accuracy of the projection *)

(** [r] is [q] with a relative error of at most [u]. *)
Definition relative (u q r : Q) : Prop := ∃ e, (- u <= e <= u)%Q ∧ (r == q * (1 + e))%Q.

Lemma relative_intro u q r : (0 <= u → 0 < q → q * (1 - u) <= r <= q * (1 + u) → relative u q r)%Q.
Proof.
  intros Hu Hq [H1 H2]. exists ((r - q) / q)%Q. split.
  - split; [apply Qle_shift_div_l|apply Qle_shift_div_r]; (done || lra).
  - field. lra.
Qed.

Lemma relative_opp u q r : relative u q r → relative u (- q) (- r).
Proof. intros (e & He & Er). exists e. split; [done|]. rewrite Er. ring. Qed.

Lemma relative_ext u q q' r r' : (q == q')%Q → (r == r')%Q → relative u q r → relative u q' r'.
Proof. intros Eq Er (e & He & E). exists e. split; [done|]. by rewrite <- Er, E, Eq. Qed.

Lemma relative_zero u q : (0 <= u → q == 0 → relative u q 0)%Q.
Proof. intros Hu Eq. exists 0%Q. split; [lra|]. rewrite Eq. ring. Qed.

(** Two roundings one after the other. *)
Lemma relative_trans u v w q r s : (0 <= u → u + v + u * v <= w → relative u q r → relative v r s → relative w q s)%Q.
Proof.
  intros Hu Hw (e & He & Er) (f & Hf & Es). exists (e + f + e * f)%Q. split; [|rewrite Es, Er; ring].
  assert (0 <= (u + e) * (v + f) ∧ 0 <= (u - e) * (v - f) ∧ 0 <= (u + e) * (v - f) ∧ 0 <= (u - e) * (v + f))%Q by (repeat split; apply Qmult_le_0_compat; lra).
  lra.
Qed.

Lemma relative_scale u q r k : relative u q r → relative u (k * q) (k * r).
Proof. intros (e & He & Er). exists e. split; [done|]. rewrite Er. ring. Qed.

Notation u53 := (1 # 9007199254740992)%Q.
Notation u24 := (1 # 16777216)%Q.

Lemma fl_relative q : relative u53 q (fl q).
Proof.
  destruct (Q_dec q 0) as [[Hneg|Hpos]|E].
  - apply (relative_ext _ (- - q) _ (- fl (- q))); [ring|by rewrite fl_opp, Qopp_involutive|]. apply relative_opp, relative_intro; [lra..|]. apply fl_rel. lra.
  - apply relative_intro; [lra..|]. apply fl_rel. lra.
  - apply (relative_ext _ q _ 0); [done| |apply relative_zero; [lra|done]]. rewrite E. by vm_compute.
Qed.

(** Rounding to 24 bits: half a unit of the last place. *)
Lemma fround_pos_rel n d : 0 < n → 0 < d → relative u24 (inject_Z n / inject_Z d) (fround_pos n d).
Proof.
  intros Hn Hd. unfold fround_pos. destruct (exponent_of_spec n d Hn Hd) as [Hk _]. set (k := exponent_of n d) in *.
  set (e := k - 23). set (r := if 0 <=? e then _ else _).
  assert (0 < inject_Z d)%Q as HdQ by (change 0%Q with (inject_Z 0); by rewrite <- Zlt_Qlt).
  assert (0 < inject_Z n)%Q as HnQ by (change 0%Q with (inject_Z 0); by rewrite <- Zlt_Qlt).
  assert (pow2 k == inject_Z (2 ^ 23) * pow2 e)%Q as Ek by (rewrite (pow2_Z 23) by lia; rewrite <- pow2_add; unfold e; by replace (23 + (k - 23)) with k by lia).
  assert (- (inject_Z d * pow2 e) <= 2 * (r * inject_Z d - inject_Z n) <= inject_Z d * pow2 e)%Q as Hr.
  { unfold r. destruct (Z.leb_spec 0 e) as [He|He]; rewrite scale_val.
    - pose proof (Z.pow_pos_nonneg 2 e ltac:(lia) He) as Hp. pose proof (rdiv_even_error n (d * 2 ^ e) ltac:(nia)) as Herr.
      set (m := rdiv_even n (d * 2 ^ e)) in *. rewrite <- (pow2_Z e He).
      assert (- (d * 2 ^ e) <= 2 * (m * (d * 2 ^ e) - n) <= d * 2 ^ e) as [H1 H2] by lia. rewrite Zle_Qle in H1, H2.
      revert H1 H2. rewrite ?inject_Z_opp, ?inject_Z_mult, ?inject_Z_plus. unfold Z.sub. rewrite ?inject_Z_plus, ?inject_Z_opp, ?inject_Z_mult.
      change (inject_Z 2) with 2%Q. intros H1 H2. split; lra.
    - pose proof (Z.pow_pos_nonneg 2 (- e) ltac:(lia) ltac:(lia)) as Hp. pose proof (rdiv_even_error (n * 2 ^ (- e)) d Hd) as Herr.
      set (m := rdiv_even (n * 2 ^ (- e)) d) in *. set (p := 2 ^ (- e)) in *.
      assert (pow2 e * inject_Z p == 1)%Q as Ep. { unfold p. rewrite pow2_Z by lia. rewrite <- pow2_add. by replace (e + - e) with 0 by lia. }
      assert (- d <= 2 * (m * d - n * p) <= d) as [H1 H2] by lia. rewrite Zle_Qle in H1, H2.
      revert H1 H2. unfold Z.sub. rewrite ?inject_Z_opp, ?inject_Z_mult, ?inject_Z_plus, ?inject_Z_opp, ?inject_Z_mult.
      change (inject_Z 2) with 2%Q. intros H1 H2. pose proof (pow2_pos e) as He'.
      assert (inject_Z n == inject_Z n * inject_Z p * pow2 e)%Q as En by (transitivity (inject_Z n * (pow2 e * inject_Z p))%Q; [rewrite Ep|]; ring).
      rewrite En. apply (Qmult_le_compat_r _ _ (pow2 e)) in H1, H2; [|lra..]. split; lra. }
  set (q := (inject_Z n / inject_Z d)%Q). assert (inject_Z n == q * inject_Z d)%Q as En by (unfold q; field; lra).
  assert (0 < q)%Q as Hq by (unfold q, Qdiv; pose proof (Qinv_lt_0_compat _ HdQ); nra).
  rewrite En in Hk, Hr. rewrite Ek in Hk. change (inject_Z (2 ^ 23)) with 8388608%Q in Hk.
  assert (8388608 * pow2 e <= q)%Q as He by (apply (Qmult_le_r _ _ (inject_Z d)); [done|lra]).
  apply relative_intro; [lra|done|]. split; apply (Qmult_le_r _ _ (inject_Z d)); try done; nra.
Qed.

Lemma fround_relative q : relative u24 q (fround q).
Proof.
  destruct q as [[|n|n] d]; unfold fround; cbn [Qnum Qden].
  - apply relative_zero; [lra|reflexivity].
  - apply (relative_ext _ (inject_Z (Z.pos n) / inject_Z (Z.pos d)) _ (fround_pos (Z.pos n) (Z.pos d))); [by rewrite (Qmake_Qdiv (Z.pos n))|reflexivity|].
    by apply fround_pos_rel.
  - apply (relative_ext _ (- (inject_Z (Z.pos n) / inject_Z (Z.pos d))) _ (- fround_pos (Z.pos n) (Z.pos d))); [|reflexivity|by apply relative_opp, fround_pos_rel].
    rewrite (Qmake_Qdiv (Z.neg n)). change (Z.neg n) with (- Z.pos n). rewrite inject_Z_opp. unfold Qdiv. ring.
Qed.

Lemma mult_bounds (u v a b : Q) : (- u <= a <= u → - v <= b <= v → - (u * v) <= a * b <= u * v)%Q.
Proof.
  intros Ha Hb. assert (0 <= (u + a) * (v + b) ∧ 0 <= (u - a) * (v - b) ∧ 0 <= (u + a) * (v - b) ∧ 0 <= (u - a) * (v + b))%Q as (H1 & H2 & H3 & H4)
    by (repeat split; apply Qmult_le_0_compat; lra). split; lra.
Qed.

(** One axis of the projection, of scale [k] over an extent [w]: what the shader and
    the rasteriser make of a rounded scale, a rounded offset and a rounded
    coordinate, and how far that is from the exact projection. *)
Lemma axis_relative pan w k x sx a e X : (0 < w → - (8) <= k <= 8 → - (8192) <= x <= 8192 → - (8192) <= pan <= 8192 →
  relative (1 # 4503599627370495) (2 * k / w) sx → relative u24 sx a → relative (1 # 16777215) (- pan * sx) e → relative u24 x X →
  - (1 # 64) <= (a * X + e) / 2 * w - k * (x - pan) <= 1 # 64)%Q.
Proof.
  intros Hw Hk Hx Hpan Hsx Ha He HX.
  destruct (relative_trans (1 # 4503599627370495) u24 (1 # 16700000) _ _ _ ltac:(lra) ltac:(vm_compute; discriminate) Hsx Ha) as (al & Hal & Ea).
  destruct Hsx as (be & Hbe & Es), He as (ga & Hga & Ee), HX as (xi & Hxi & EX). rewrite Es in Ee.
  assert ((a * X + e) / 2 * w - k * (x - pan) == k * (x * (al + xi + al * xi) - pan * (be + ga + be * ga)))%Q as -> by (rewrite Ea, Ee, EX; field; lra).
  pose proof (mult_bounds _ _ _ _ Hal Hxi). pose proof (mult_bounds _ _ _ _ Hbe Hga).
  assert (- (1 # 8300000) <= al + xi + al * xi <= 1 # 8300000)%Q as H1 by lra.
  assert (- (1 # 16700000) <= be + ga + be * ga <= 1 # 16700000)%Q as H2 by lra.
  pose proof (mult_bounds _ _ _ _ Hx H1). pose proof (mult_bounds _ _ _ _ Hpan H2).
  pose proof (mult_bounds 8 (1 # 600) k (x * (al + xi + al * xi) - pan * (be + ga + be * ga)) ltac:(lra) ltac:(lra)). lra.
Qed.

(** A scale of the matrix, and an offset. *)
Lemma scale_relative z w : relative (1 # 4503599627370495) (z / w) (ddiv (fl z) w).
Proof.
  apply (relative_trans u53 u53 _ _ (fl z / w)); [lra|vm_compute; discriminate| |apply fl_relative].
  apply (relative_ext _ (/ w * z) _ (/ w * fl z)); [unfold Qdiv; ring..|]. apply relative_scale, fl_relative.
Qed.
Lemma offset_relative pan s : relative (1 # 16777215) (pan * s) (fround (dmul pan s)).
Proof. apply (relative_trans u53 u24 _ _ (dmul pan s)); [lra|vm_compute; discriminate|apply fl_relative|apply fround_relative]. Qed.

Lemma Qle_le_eq (a b c d : Q) : (a <= b <= c → d == b → a <= d <= c)%Q.
Proof. by intros H ->. Qed.
Lemma Qle_le_opp (a b : Q) : (- a <= b <= a → - a <= - b <= a)%Q.
Proof. intros. lra. Qed.

(** On a canvas with an area, at every zoom the wheel can reach and coordinates up to
    8192: the centre of what the GPU draws for a node is within a 64th of a pixel of
    the projection whose inverse the pointer handlers compute, [Float32Array]s and
    all. *)
Theorem drawn_at_accurate v p : sane v → (- (8192) <= vp_panX v <= 8192 → - (8192) <= vp_panY v <= 8192 →
  - (8192) <= inject_Z p.1 <= 8192 → - (8192) <= inject_Z p.2 <= 8192 →
  - (1 # 64) <= (drawn_at v p).1 - (vp_zoom v * (inject_Z p.1 - vp_panX v) + vp_width v / 2) <= 1 # 64 ∧
  - (1 # 64) <= (drawn_at v p).2 - (vp_zoom v * (inject_Z p.2 - vp_panY v) + vp_height v / 2) <= 1 # 64)%Q.
Proof.
  intros (Hz0 & Hz & Hw & Hh) Hpx Hpy Hx Hy. unfold drawn_at, to_pixel, uniform_vp, computeViewProjection, buffered. cbn [fmap list_fmap vertex fst snd].
  change (fround 0) with 0%Q.
  pose proof (axis_relative _ _ (vp_zoom v) _ _ _ _ _ Hw ltac:(lra) Hx Hpx (scale_relative (2 * vp_zoom v) (vp_width v)) (fround_relative _) (offset_relative _ _) (fround_relative _)) as H1.
  assert (relative (1 # 4503599627370495) (2 * - vp_zoom v / vp_height v) (ddiv (fl (-2 * vp_zoom v)) (vp_height v))) as Hs
    by (apply (relative_ext _ (-2 * vp_zoom v / vp_height v) _ (ddiv (fl (-2 * vp_zoom v)) (vp_height v))); [unfold Qdiv; ring|reflexivity|apply scale_relative]).
  pose proof (axis_relative _ _ (- vp_zoom v) _ _ _ _ _ Hh ltac:(lra) Hy Hpy Hs (fround_relative _) (offset_relative _ _) (fround_relative _)) as H2.
  revert H1 H2. change (fl (2 * vp_zoom v)) with (dmul 2 (vp_zoom v)). change (fl (-2 * vp_zoom v)) with (dmul (-2) (vp_zoom v)).
  set (sx := ddiv _ (vp_width v)). set (sy := ddiv _ (vp_height v)). intros H1 H2.
  split; [apply (Qle_le_eq _ _ _ _ H1)|apply (Qle_le_eq _ _ _ _ (Qle_le_opp _ _ H2))]; field.
Qed.

(** ** What covers what *)

Section picture_lemmas.
Context (line_covers : Viewport → list Z → Q * Q → bool).

(** The frame buffer has no alpha channel ([alpha: false]): two pixels look the same
    when their red, green and blue are. *)
Definition same_colour (a b : Colour) : Prop := Forall2 Qeq (take 3 a) (take 3 b).

Definition covered (v : Viewport) (size : Q) (pixel : Q * Q) (p : Z * Z) : Prop := is_Some (point_colour v p [] size pixel).
#[export] Instance covered_dec v size pixel p : Decision (covered v size pixel p).
Proof. unfold covered. apply _. Defined.

Lemma point_colour_covered v p color size pixel :
  point_colour v p color size pixel = if decide (covered v size pixel p) then Some color else None.
Proof.
  destruct (decide _) as [H|H]; unfold covered, point_colour, point_fragment in *; destruct (Qltb _ _); [by destruct H|done|done|].
  by contradiction H.
Qed.

Lemma blend_opaque r g b below : same_colour (blend [r; g; b; 1]%Q below) [r; g; b; 1]%Q.
Proof.
  unfold same_colour, blend. destruct below as [|x [|y [|z [|a [|? ?]]]]]; repeat constructor; cbn; try reflexivity; ring.
Qed.

Lemma draw_points_covered v size pixel r g b ps below :
  Exists (covered v size pixel) ps → same_colour (draw line_covers v pixel below (DrawPoints ps [r; g; b; 1]%Q size)) [r; g; b; 1]%Q.
Proof.
  cbn [draw]. intros Hps. assert (same_colour below [r; g; b; 1]%Q ∨ Exists (covered v size pixel) ps) as H by by right.
  clear Hps. revert below H. induction ps as [|p ps IH]; intros below; cbn [foldl].
  { by intros [?|?%Exists_nil]. }
  rewrite point_colour_covered. intros H. apply IH. destruct (decide (covered v size pixel p)) as [Hc|Hc]; [left; apply blend_opaque|].
  destruct H as [?|[?|?]%Exists_cons]; [by left|done|by right].
Qed.

Lemma draw_points_uncovered v size pixel colour ps below :
  Forall (λ p, ¬ covered v size pixel p) ps → draw line_covers v pixel below (DrawPoints ps colour size) = below.
Proof.
  cbn [draw]. revert below. induction ps as [|p ps IH]; intros below Hps; cbn [foldl]; [done|]. apply Forall_cons in Hps as [Hp Hps].
  rewrite point_colour_covered, decide_False by done. by apply IH.
Qed.

End picture_lemmas.

Definition is_lines (call : DrawCall) : Prop := match call with DrawLines _ _ _ => True | _ => False end.

Lemma frame_draws_order resolvedTheme l edges selectedNodeId highlighted v : ∃ lines, Forall is_lines lines ∧
  frame_draws resolvedTheme l edges selectedNodeId highlighted v = [Clear (clear_colour (is_dark resolvedTheme))] ++ lines ++
    [DrawPoints ((fun n => (lo_x n, lo_y n)) <$> l) (NODE_COLOR (is_dark resolvedTheme)) (qmax 2 (qmin 6 (dmul 4 (vp_zoom v))))] ++
    match nodeById l !! default EmptyString selectedNodeId with
    | Some n => [DrawSelected (lo_x n, lo_y n) (ACCENT (is_dark resolvedTheme)) (qmax 6 (qmin 14 (dmul 10 (vp_zoom v))))]
    | None => []
    end.
Proof.
  unfold frame_draws. cbv zeta. rewrite (app_assoc (if _ : bool then _ else _)), (app_assoc (_ ++ _)). eexists. split; [|reflexivity].
  rewrite !Forall_app. by repeat split; case_match; repeat constructor.
Qed.

Section on_top.
Context (line_covers : Viewport → list Z → Q * Q → bool).
Context (resolvedTheme : option string) (l : list LaidOutNode) (edges : list GraphEdge).
Context (selectedNodeId : option string) (highlighted : option (list string)) (v : Viewport) (pixel : Q * Q).
Let dark := is_dark resolvedTheme.
Let node_size := qmax 2 (qmin 6 (dmul 4 (vp_zoom v))).
Let selected_size := qmax 6 (qmin 14 (dmul 10 (vp_zoom v))).
Let seen := picture line_covers v (frame_draws resolvedTheme l edges selectedNodeId highlighted v) pixel.
Let in_disc size n := covered v size pixel (lo_x n, lo_y n).

(** However the lines are rasterised and wherever they run: a pixel in the disc of
    the selected node has the accent colour; any other pixel in some node's disc has
    the nodes' colour, the same one however many nodes overlap there; and a pixel in
    no disc and on no line the canvas's own colour. *)
Theorem nodes_on_top :
  (∀ n, nodeById l !! default EmptyString selectedNodeId = Some n → in_disc selected_size n → seen = ACCENT dark) ∧
  ((∀ n, nodeById l !! default EmptyString selectedNodeId = Some n → ¬ in_disc selected_size n) →
   (Exists (in_disc node_size) l → same_colour seen (NODE_COLOR dark)) ∧
   (Forall (λ n, ¬ in_disc node_size n) l → (∀ buf, line_covers v buf pixel = false) → seen = clear_colour dark)).
Proof.
  unfold seen, picture. destruct (frame_draws_order resolvedTheme l edges selectedNodeId highlighted v) as (lines & Hl & ->).
  fold dark node_size selected_size. rewrite !foldl_app. cbn [foldl]. set (below := foldl _ _ lines).
  assert ((∀ buf, line_covers v buf pixel = false) → below = clear_colour dark) as Hclear.
  { intros Hno. unfold below. clear below. cbn [draw]. generalize (clear_colour dark) as below.
    induction Hl as [|[] lines Hc Hl IH]; intros below; try done. cbn [foldl draw]. rewrite Hno. apply IH. }
  split; [|intros Hsel].
  - intros n -> Hn. cbn [foldl draw]. by rewrite point_colour_covered, decide_True.
  - set (drawn := draw _ _ _ below _).
    assert (foldl (draw line_covers v pixel) drawn match nodeById l !! default EmptyString selectedNodeId with
              | Some n => [DrawSelected (lo_x n, lo_y n) (ACCENT dark) selected_size] | None => [] end = drawn) as ->.
    { destruct (nodeById l !! _) as [n|] eqn:E; cbn [foldl draw]; [|done]. by rewrite point_colour_covered, decide_False by by apply Hsel. }
    unfold drawn, NODE_COLOR. split.
    + intros Hn. destruct dark; apply draw_points_covered, Exists_fmap, Hn.
    + intros Hn Hno. rewrite draw_points_uncovered by by apply Forall_fmap. by apply Hclear.
Qed.

End on_top.

(** ** The life of the effect *)

Record gpu_ok (s : Gpu) : Prop := {
  go_used : Forall (fun u => u.2 = true) (gp_used s);
  go_state : match gp_effect s with
             | None => gp_pending s = [] ∧ gl_live (gp_gl s) = ∅
             | Some (c, raf) => gp_pending s = [(raf, c)] ∧ NoDup (owned c) ∧ gl_live (gp_gl s) = list_to_set (owned c)
             end;
}.

Lemma destroy_all l g : NoDup l → list_to_set l ⊆ gl_live g →
  foldl (fun r id => r ≫= destroy_object id) (Some g) l = Some (mkGl (gl_live g ∖ list_to_set l) (gl_next g)).
Proof.
  revert g. induction l as [|id l IH]; intros g Hnd Hl; cbn [foldl].
  { f_equal. destruct g. cbn. f_equal. set_solver. }
  apply NoDup_cons in Hnd as [Hni Hnd]. cbn [mbind option_bind]. unfold destroy_object at 2.
  rewrite decide_True by set_solver. rewrite IH; [|done|cbn; set_solver]. cbn [gl_live gl_next]. do 2 f_equal. set_solver.
Qed.

Lemma setup_ok context highlighted selected s : gp_effect s = None → gpu_ok s → gpu_ok (setup context highlighted selected s).
Proof.
  intros He [Hu Hs]. rewrite He in Hs. destruct Hs as [Hp Hl]. unfold setup. destruct context; [|by split; [|rewrite He]].
  set (n := gl_next (gp_gl s)). destruct highlighted, selected; cbn [create_object create_optional fst snd gl_live gl_next];
    (split; [done|]); cbn [gp_effect gp_pending gp_gl gl_live owned nodeBuffer supportsBuffer refutesBuffer highlightBuffer selectedBuffer ef_regl option_list app];
    (split; [by rewrite Hp|split; [|rewrite Hl; fold n; cbn [list_to_set]; set_solver]]);
    fold n; repeat (apply NoDup_cons; split; [rewrite ?not_elem_of_cons; set_solver by lia|]); constructor.
Qed.

Lemma cleanup_ok s : gpu_ok s → ∃ s', cleanup s = Some s' ∧ gp_effect s' = None ∧ gp_pending s' = [] ∧ gl_live (gp_gl s') = ∅ ∧ gpu_ok s'.
Proof.
  intros [Hu Hs]. unfold cleanup. destruct (gp_effect s) as [[c raf]|] eqn:E.
  - destruct Hs as (Hp & Hnd & Hl). rewrite destroy_all by (done || by rewrite Hl). cbn [mbind option_bind]. eexists. split; [done|].
    assert (gl_live (gp_gl s) ∖ list_to_set (owned c) = ∅) as Hempty by (rewrite Hl; set_solver).
    assert (List.filter (fun p => negb (p.1 =? raf)%nat) (gp_pending s) = []) as Hf by (rewrite Hp; cbn; by rewrite Nat.eqb_refl).
    cbn [gp_effect gp_pending gp_gl gl_live]. split; [done|]. split; [done|]. split; [done|]. by split.
  - destruct Hs as [Hp Hl]. exists s. split; [done|]. split; [done|]. split; [done|]. split; [done|]. split; [done|]. by rewrite E.
Qed.

Lemma animation_frame_ok s : gpu_ok s → gpu_ok (animation_frame s).
Proof.
  intros [Hu Hs]. unfold animation_frame. destruct (gp_effect s) as [[c raf]|] eqn:E.
  - destruct Hs as (Hp & Hnd & Hl). rewrite Hp. cbn [fmap list_fmap foldl snd]. unfold run_frame. cbn [gp_effect gp_gl gp_handle gp_pending gp_used].
    rewrite decide_True by done. split; cbn [gp_used gp_effect gp_pending gp_gl app]; [|done].
    apply Forall_app. split; [done|]. apply Forall_fmap, Forall_forall. intros id Hid. cbn. apply bool_decide_eq_true.
    rewrite Hl. by apply elem_of_list_to_set.
  - destruct Hs as [Hp Hl]. rewrite Hp. cbn [fmap list_fmap foldl]. by split.
Qed.

Lemma reachable_gpu_ok s : gpu_reachable s → gpu_ok s.
Proof.
  induction 1 as [|s s' _ IH Hs]; [by split|]. destruct Hs as [cx hi se s He|cx hi se s s' Hc|s s' Hc|s].
  - by apply setup_ok.
  - destruct (cleanup_ok s IH) as (s1 & Hc' & He & _ & _ & Hok). rewrite Hc in Hc'. injection Hc' as <-. by apply setup_ok.
  - destruct (cleanup_ok s IH) as (s1 & Hc' & _ & _ & _ & Hok). rewrite Hc in Hc'. by injection Hc' as <-.
  - by apply animation_frame_ok.
Qed.

(** Whatever graph, theme, selection and highlight changes, unmounts and frames
    come in whatever order: every frame draws only with objects that are live, one
    loop at most is running, the live objects are exactly those of the effect that
    is set up, and its cleanup destroys each of them once, without an error, and
    leaves no frame behind. *)
Theorem gpu_lifecycle s : gpu_reachable s →
  Forall (fun u => u.2 = true) (gp_used s) ∧ (length (gp_pending s) <= 1)%nat ∧
  gl_live (gp_gl s) = match gp_effect s with Some (c, _) => list_to_set (owned c) | None => ∅ end ∧
  ∃ s', cleanup s = Some s' ∧ gp_effect s' = None ∧ gp_pending s' = [] ∧ gl_live (gp_gl s') = ∅.
Proof.
  intros Hok%reachable_gpu_ok. destruct (cleanup_ok s Hok) as (s' & H1 & H2 & H3 & H4 & _). destruct Hok as [Hu Hs].
  split; [done|]. destruct (gp_effect s) as [[c raf]|].
  - destruct Hs as (Hp & _ & Hl). rewrite Hp. split; [done|]. split; [done|]. by exists s'.
  - destruct Hs as [Hp Hl]. rewrite Hp. split; [cbn; lia|]. split; [done|]. by exists s'.
Qed.
