(* ===== verification/Kernel.v ===== *)
(** * The adjudication kernel: kernel/src/{canon,claim,tactic,policy,verdict,lib}.rs and kernel/wasm_bridge

    The pure function the console runs twice, on the server to seal a verdict
    and in the browser to check it, with the request and response shapes of
    web/src/lib/kernel/kernel-wasm.ts.  An i64 is a [Z] with saturating
    arithmetic; the JSON text between the two languages is modelled by the value
    it carries, numbers included ([wire_int]). *)

From S2P Require Import Prelude JsNum Types Merkle.
From Stdlib Require Import Ascii QArith Qround.
Open Scope Z_scope.

(** ** Canonical encoding (canon.rs) *)

(** The low [n] bytes of an integer, most significant first. *)
Fixpoint be (n : nat) (v : Z) : bytes :=
  match n with
  | O => []
  | S n' => (v / 256 ^ Z.of_nat n') mod 256 :: be n' v
  end.

Definition write_len (n : nat) : bytes := be 4 (Z.of_nat n).
Definition write_str (s : string) : bytes := write_len (length (utf8 s)) ++ utf8 s.
Definition write_i64 (v : Z) : bytes := be 8 v.
Definition write_opt {A} (write : A → bytes) (o : option A) : bytes :=
  match o with Some a => 1 :: write a | None => [0] end.
Definition write_list {A} (write : A → bytes) (l : list A) : bytes :=
  write_len (length l) ++ mjoin (write <$> l).
Definition write_str_list : list string → bytes := write_list write_str.

(** ** Claims (claim.rs) *)

(** The enumeration tags, [as u8]. *)
Definition polarity_tag (p : Polarity) : Z := match p with supports => 0 | refutes => 1 end.

Definition claim_message (c : RawClaim) : bytes :=
  write_str (cl_predicate c) ++ write_str (cl_subject c) ++ write_opt write_str (cl_object c) ++
  write_i64 (cl_interval_start_ns c) ++ write_i64 (cl_interval_end_ns c) ++
  write_str_list (sort_by string_leb (cl_evidence c)) ++
  write_str (cl_extractor_kind c) ++ write_str (cl_extractor_id c) ++
  write_str (cl_extractor_version c) ++ write_opt write_i64 (cl_observed_value c) ++
  [polarity_tag (cl_polarity c)] ++ write_opt write_str (cl_hypothesis_ref c).

(** ** Tactics and policies (tactic.rs, policy.rs) *)

Definition is_adjacent (a b : Tactic) : bool := Z.abs (tactic_index a - tactic_index b) =? 1.

Record PredicateWeight := mkPW {
  pw_tactic : Tactic;
  pw_weight : Z;
  pw_techniques : list string;
}.

Record PolicyBundle := mkPolicy {
  pb_policy_version : string;
  pb_predicate_weights : gmap string PredicateWeight;
  pb_chain_multipliers : gmap (Tactic * Tactic) Z;
  pb_severity_thresholds : list (Z * Severity);
}.

Inductive kernel_error :=
| E_parse
| E_unknown_tactic
| E_unknown_severity
| E_thresholds_empty
| E_thresholds_order
| E_claim_evidence (i : nat).

(** [windows(2)]: strictly ascending thresholds. *)
Fixpoint ascending (l : list (Z * Severity)) : bool :=
  match l with
  | a :: ((b :: _) as l') => (a.1 <? b.1) && ascending l'
  | _ => true
  end.

Definition PolicyBundle_new (version : string) (weights : gmap string PredicateWeight)
    (chain : gmap (Tactic * Tactic) Z) (thresholds : list (Z * Severity))
    : kernel_error + PolicyBundle :=
  if (length thresholds =? 0)%nat then inl E_thresholds_empty
  else if negb (ascending thresholds) then inl E_thresholds_order
  else inr (mkPolicy version weights chain thresholds).

(** [classify]: the last threshold not above the score; the first severity when
    there is none. *)
Definition classify (p : PolicyBundle) (total_score : Z) : Severity :=
  foldl (fun result t => if t.1 <=? total_score then t.2 else result)
    (match pb_severity_thresholds p with t :: _ => t.2 | [] => info end)
    (pb_severity_thresholds p).

(** ** Verdicts (verdict.rs) *)

Definition severity_tag (s : Severity) : Z :=
  match s with info => 0 | low => 1 | medium => 2 | high => 3 | critical => 4 end.
Definition disposition_tag (d : Disposition) : Z :=
  match d with incomplete => 0 | benign => 1 | suspicious => 2 | malicious => 3 end.

Definition disposition_for (s : Severity) : Disposition :=
  match s with
  | info | low => benign
  | medium => suspicious
  | high | critical => malicious
  end.

Record ContributingClaim := mkContributing {
  cc_claim_id : bytes;
  cc_predicate : string;
  cc_attributed_weight : Z;
}.

Record Verdict := mkVerdict {
  vr_severity : Severity;
  vr_confidence : Z;
  vr_disposition : Disposition;
  vr_attack_techniques : list string;
  vr_contributing : list ContributingClaim;
  vr_policy_version : string;
  vr_kernel_version : string;
}.

Definition write_contributing (c : ContributingClaim) : bytes :=
  cc_claim_id c ++ write_str (cc_predicate c) ++ write_i64 (cc_attributed_weight c).

(** The message of [compute_verdict_hash]. *)
Definition verdict_message (v : Verdict) : bytes :=
  [severity_tag (vr_severity v)] ++ write_i64 (vr_confidence v) ++
  [disposition_tag (vr_disposition v)] ++ write_str_list (vr_attack_techniques v) ++
  write_list write_contributing (vr_contributing v) ++
  write_str (vr_policy_version v) ++ write_str (vr_kernel_version v).

(** ** Adjudication (lib.rs) *)

Definition sat (z : Z) : Z := Z.max (- 2 ^ 63) (Z.min (2 ^ 63 - 1) z).

(** Lexicographic order on 32-byte identifiers. *)
Fixpoint bytes_leb (a b : bytes) : bool :=
  match a, b with
  | [], _ => true
  | _ :: _, [] => false
  | x :: a', y :: b' => if x <? y then true else if y <? x then false else bytes_leb a' b'
  end.

Record Tally := mkTally {
  ta_scores : gmap Tactic Z;
  ta_contributing : list ContributingClaim;
  ta_techniques : list string;
  ta_usable : Z;
}.

Definition polarity_sign (p : Polarity) : Z := match p with supports => 1 | refutes => -1 end.

(** One turn of the loop over the ordered claims. *)
Definition tally_claim (p : PolicyBundle) (t : Tally) (claim : RawClaim * bytes) : Tally :=
  let '(c, id) := claim in
  if (length (cl_evidence c) =? 0)%nat then t
  else match pb_predicate_weights p !! cl_predicate c with
  | None => t
  | Some pw =>
      let contribution := sat (pw_weight pw * polarity_sign (cl_polarity c)) in
      mkTally
        (<[pw_tactic pw := sat (default 0 (ta_scores t !! pw_tactic pw) + contribution)]> (ta_scores t))
        (ta_contributing t ++ [mkContributing id (cl_predicate c) contribution])
        (ta_techniques t ++ pw_techniques pw)
        (ta_usable t + 1)
  end.

(** The keys of a [BTreeMap<Tactic, _>], in order. *)
Definition present_tactics (scores : gmap Tactic Z) : list Tactic :=
  filter (fun t => is_Some (scores !! t)) TACTICS.

Fixpoint chain_bonus (p : PolicyBundle) (present : list Tactic) (acc : Z) : Z :=
  match present with
  | a :: ((b :: _) as rest) =>
      chain_bonus p rest
        (if is_adjacent a b
         then match pb_chain_multipliers p !! (a, b) with Some mult => sat (acc + mult) | None => acc end
         else acc)
  | _ => acc
  end.

Definition id_leb (a b : RawClaim * bytes) : bool := bytes_leb a.2 b.2.
Definition contributing_leb (a b : ContributingClaim) : bool := bytes_leb (cc_claim_id a) (cc_claim_id b).

(** From the tally to the verdict. *)
Definition verdict_of (p : PolicyBundle) (kernel_version : string) (t : Tally) : Verdict :=
  if ta_usable t =? 0 then
    mkVerdict info 0 incomplete [] [] (pb_policy_version p) kernel_version
  else
    let present := present_tactics (ta_scores t) in
    let base_total :=
      foldl (fun acc tac => sat (acc + default 0 (ta_scores t !! tac))) 0 present in
    let total_score := sat (base_total + chain_bonus p present 0) in
    let severity := classify p total_score in
    mkVerdict severity (Z.max 0 (Z.min 10000 total_score)) (disposition_for severity)
      (sort_by string_leb (uniq (ta_techniques t)))
      (sort_by contributing_leb (ta_contributing t))
      (pb_policy_version p) kernel_version.

Definition tally_all (p : PolicyBundle) (ordered : list (RawClaim * bytes)) : Tally :=
  foldl (tally_claim p) (mkTally ∅ [] [] 0) ordered.

(** ** The request (kernel-wasm.ts) and the bridge (wasm_bridge/src/lib.rs) *)

Record PredicateWeightInput := mkPWInput {
  pwi_tactic : string;
  pwi_weight : Z;
  pwi_techniques : list string;
}.

Record ChainMultiplierInput := mkChain { cm_from : string; cm_to : string; cm_bonus : Z }.

Record KernelPolicy := mkKernelPolicy {
  kp_policy_version : string;
  kp_predicate_weights : gmap string PredicateWeightInput;
  kp_chain_multipliers : list ChainMultiplierInput;
  kp_severity_thresholds : list (Z * string);
}.

Record KernelRequest := mkRequest {
  kr_kernel_version : string;
  kr_policy : KernelPolicy;
  kr_claims : list RawClaim;
}.

Record KernelVerdict := mkKernelVerdict {
  kv_severity : Severity;
  kv_confidence : Z;
  kv_disposition : Disposition;
  kv_attack_techniques : list string;
  kv_contributing_claims : list AttributedClaim;
  kv_policy_version : string;
  kv_kernel_version : string;
  kv_verdict_hash : string;
  kv_submitted_claim_ids : list string;
}.

Definition tactic_from_name (s : string) : option Tactic := of_name TACTICS tactic_name s.
Definition severity_from_name (s : string) : option Severity := of_name SEVERITIES severity_name s.

Definition build_weight (pw : PredicateWeightInput) : option PredicateWeight :=
  t ← tactic_from_name (pwi_tactic pw); Some (mkPW t (pwi_weight pw) (pwi_techniques pw)).

Definition build_chain (cms : list ChainMultiplierInput) : option (gmap (Tactic * Tactic) Z) :=
  foldl (fun acc cm =>
    chain ← acc; from ← tactic_from_name (cm_from cm); to ← tactic_from_name (cm_to cm);
    Some (<[(from, to) := cm_bonus cm]> chain)) (Some ∅) cms.

Definition build_policy (input : KernelPolicy) : kernel_error + PolicyBundle :=
  if decide (map_Forall (fun _ pw => is_Some (build_weight pw)) (kp_predicate_weights input)) then
    match build_chain (kp_chain_multipliers input) with
    | None => inl E_unknown_tactic
    | Some chain =>
        match mapM (fun t => s ← severity_from_name t.2; Some (t.1, s)) (kp_severity_thresholds input) with
        | None => inl E_unknown_severity
        | Some thresholds =>
            PolicyBundle_new (kp_policy_version input)
              (omap build_weight (kp_predicate_weights input)) chain thresholds
        end
    end
  else inl E_unknown_tactic.

(** [build_claim] on each claim in turn: the first with no evidence ends the run. *)
Fixpoint first_without_evidence (i : nat) (claims : list RawClaim) : option nat :=
  match claims with
  | [] => None
  | c :: cs => if (length (cl_evidence c) =? 0)%nat then Some i else first_without_evidence (S i) cs
  end.

(** The integer that [JSON.stringify] prints for an integer-valued double: the
    fewest significant digits that read back as the same double. *)
Fixpoint wire_int_from (p : nat) (z : Z) : Z :=
  match p with
  | O => z
  | S p' =>
      let m := 10 ^ Z.of_nat p in
      let candidate := rdiv_even z m * m in
      if Qeq_bool (fl (inject_Z candidate)) (inject_Z z) then candidate else wire_int_from p' z
  end.
Definition wire_int (z : Z) : Z :=
  if Z.abs z <? 2 ^ 53 then z
  else if z <? 0 then - wire_int_from 20 (- z) else wire_int_from 20 z.

Definition wire_claim (c : RawClaim) : RawClaim :=
  mkRawClaim (cl_predicate c) (cl_subject c) (cl_object c) (wire_int (cl_interval_start_ns c))
    (wire_int (cl_interval_end_ns c)) (cl_evidence c) (cl_extractor_kind c) (cl_extractor_id c)
    (cl_extractor_version c) (wire_int <$> cl_observed_value c) (cl_polarity c) (cl_hypothesis_ref c).

(** What serde reads as an [i64]. *)
Definition fits_i64 (z : Z) : bool := (- 2 ^ 63 <=? z) && (z <? 2 ^ 63).

Definition claim_fits (c : RawClaim) : bool :=
  fits_i64 (cl_interval_start_ns c) && fits_i64 (cl_interval_end_ns c) &&
  match cl_observed_value c with Some v => fits_i64 v | None => true end.

Definition wire_policy (p : KernelPolicy) : KernelPolicy :=
  mkKernelPolicy (kp_policy_version p)
    ((fun pw => mkPWInput (pwi_tactic pw) (wire_int (pwi_weight pw)) (pwi_techniques pw)) <$>
       kp_predicate_weights p)
    ((fun cm => mkChain (cm_from cm) (cm_to cm) (wire_int (cm_bonus cm))) <$> kp_chain_multipliers p)
    ((fun t => (wire_int t.1, t.2)) <$> kp_severity_thresholds p).

Definition policy_fits (p : KernelPolicy) : bool :=
  bool_decide (map_Forall (fun _ pw => fits_i64 (pwi_weight pw) = true) (kp_predicate_weights p)) &&
  forallb (fun cm => fits_i64 (cm_bonus cm)) (kp_chain_multipliers p) &&
  forallb (fun t => fits_i64 t.1) (kp_severity_thresholds p).

(** The request as the bridge reads it. *)
Definition wire_request (r : KernelRequest) : KernelRequest :=
  mkRequest (kr_kernel_version r) (wire_policy (kr_policy r)) (wire_claim <$> kr_claims r).

Section adjudicate.
Context (blake3 : bytes → bytes).

Definition claim_id (c : RawClaim) : bytes := blake3 (claim_message c).

Definition ordered_claims (claims : list RawClaim) : list (RawClaim * bytes) :=
  sort_by id_leb ((fun c => (c, claim_id c)) <$> claims).

Definition adjudicate (claims : list RawClaim) (p : PolicyBundle) (kernel_version : string) : Verdict :=
  verdict_of p kernel_version (tally_all p (ordered_claims claims)).

Definition verdict_hash (v : Verdict) : bytes := blake3 (verdict_message v).

(** The response body. *)
Definition kernel_output (p : PolicyBundle) (claims : list RawClaim) (kernel_version : string) : KernelVerdict :=
  let v := adjudicate claims p kernel_version in
  mkKernelVerdict (vr_severity v) (vr_confidence v) (vr_disposition v)
    (vr_attack_techniques v)
    ((fun c => mkAttributed (bytesToHex (cc_claim_id c)) (cc_predicate c)
                 (cc_attributed_weight c)) <$> vr_contributing v)
    (vr_policy_version v) (vr_kernel_version v)
    (bytesToHex (verdict_hash v))
    ((fun c => bytesToHex (claim_id c)) <$> claims).

(** [adjudicate_json], from the parsed request to the response. *)
Definition adjudicate_request (r : KernelRequest) : kernel_error + KernelVerdict :=
  match build_policy (kr_policy r) with
  | inl e => inl e
  | inr p =>
      match first_without_evidence 0 (kr_claims r) with
      | Some i => inl (E_claim_evidence i)
      | None =>
          inr (kernel_output p (kr_claims r) (kr_kernel_version r))
      end
  end.

(** kernel-wasm.ts and kernel-wasm-server.ts, the same computation: the request
    goes over as JSON text. *)
Definition verifyClaimSet (request : KernelRequest) : kernel_error + KernelVerdict :=
  let r := wire_request request in
  if policy_fits (kr_policy r) && forallb claim_fits (kr_claims r) then adjudicate_request r
  else inl E_parse.

End adjudicate.

(** ** Encodings that can be read back

    [PrefixFree w P]: on values that satisfy [P] (lengths and integers in range)
    the writer [w] is injective even when more bytes follow, so that a message
    made of such fields determines every field. *)

Class PrefixFree {A} (w : A → bytes) (P : A → Prop) : Prop :=
  prefix_free : ∀ a b k k', P a → P b → w a ++ k = w b ++ k' → a = b ∧ k = k'.

Definition str_sized (s : string) : Prop := Z.of_nat (length (utf8 s)) < 2 ^ 32.
Definition is_i64 (v : Z) : Prop := - 2 ^ 63 <= v < 2 ^ 63.
Definition opt_ok {A} (P : A → Prop) (o : option A) : Prop := match o with Some a => P a | None => True end.
Definition list_sized {A} (P : A → Prop) (l : list A) : Prop :=
  Z.of_nat (length l) < 2 ^ 32 ∧ Forall P l.

Lemma length_be n v : length (be n v) = n.
Proof. induction n as [|n IH]; simpl; [done|by rewrite IH]. Qed.

Lemma be_mod_eq n a b : be n a = be n b → a mod 256 ^ Z.of_nat n = b mod 256 ^ Z.of_nat n.
Proof.
  induction n as [|n IH]; [by rewrite !Z.mod_1_r|].
  cbn [be]. intros [= Hhd Htl]. apply IH in Htl.
  rewrite Nat2Z.inj_succ, Z.pow_succ_r, (Z.mul_comm 256) by lia.
  pose proof (Z.pow_pos_nonneg 256 (Z.of_nat n) ltac:(lia) ltac:(lia)).
  rewrite !Z.rem_mul_r by lia. congruence.
Qed.

Lemma be_prefix n a b k k' :
  be n a ++ k = be n b ++ k' → a mod 256 ^ Z.of_nat n = b mod 256 ^ Z.of_nat n ∧ k = k'.
Proof.
  intros Heq. apply app_inj_1 in Heq as [Hb Hk]; [|by rewrite !length_be].
  split; [by apply be_mod_eq|done].
Qed.

#[export] Instance write_i64_free : PrefixFree write_i64 is_i64.
Proof.
  intros a b k k' Ha Hb Heq. apply be_prefix in Heq as [Heq ->]. split; [|done].
  unfold is_i64 in *. change (256 ^ Z.of_nat 8) with (2 ^ 64) in Heq. dlia.
Qed.

Lemma write_len_prefix n m k k' :
  Z.of_nat n < 2 ^ 32 → Z.of_nat m < 2 ^ 32 → write_len n ++ k = write_len m ++ k' → n = m ∧ k = k'.
Proof.
  intros Hn Hm Heq. apply be_prefix in Heq as [Heq ->]. split; [|done].
  change (256 ^ Z.of_nat 4) with (2 ^ 32) in Heq. rewrite !Z.mod_small in Heq by lia. lia.
Qed.

#[export] Instance write_str_free : PrefixFree write_str str_sized.
Proof.
  intros a b k k' Ha Hb Heq. unfold write_str in Heq. rewrite <- !app_assoc in Heq.
  apply write_len_prefix in Heq as [Hl Heq]; [|done..].
  apply app_inj_1 in Heq as [Hs ->]; [|done]. split; [by apply utf8_inj|done].
Qed.

#[export] Instance write_opt_free {A} (w : A → bytes) P :
  PrefixFree w P → PrefixFree (write_opt w) (opt_ok P).
Proof.
  intros Hw [a|] [b|] k k' Ha Hb Heq; simpl in *; try discriminate Heq;
    injection Heq as Heq; [|done].
  by apply Hw in Heq as [-> ->].
Qed.

#[export] Instance write_list_free {A} (w : A → bytes) P :
  PrefixFree w P → PrefixFree (write_list w) (list_sized P).
Proof.
  intros Hw l l' k k' [Hl HP] [Hl' HP'] Heq. unfold write_list in Heq. rewrite <- !app_assoc in Heq.
  apply write_len_prefix in Heq as [Hlen Heq]; [|done..]. clear Hl Hl'.
  revert l' Hlen HP' Heq. induction HP as [|a l Ha HP IH]; intros [|b l'] Hlen HP' Heq; simpl in *; try done.
  apply Forall_cons in HP' as [Hb HP']. rewrite <- !app_assoc in Heq.
  apply Hw in Heq as [-> Heq]; [|done..]. injection Hlen as Hlen.
  destruct (IH l' Hlen HP' Heq) as [-> ->]. done.
Qed.

(** Read one field off both sides of an equation between messages. *)
Ltac peel H :=
  match type of H with
  | ?w ?a ++ ?k = ?w ?b ++ ?k' =>
      let E := fresh "E" in
      eapply (@prefix_free _ w _ _ a b k k') in H; [destruct H as [E H]|..]
  end.

(** A claim whose fields fit the encoding. *)
Record claim_sized (c : RawClaim) : Prop := {
  cz_strings : str_sized (cl_predicate c) ∧ str_sized (cl_subject c) ∧
    opt_ok str_sized (cl_object c) ∧ str_sized (cl_extractor_kind c) ∧
    str_sized (cl_extractor_id c) ∧ str_sized (cl_extractor_version c) ∧
    opt_ok str_sized (cl_hypothesis_ref c);
  cz_ints : is_i64 (cl_interval_start_ns c) ∧ is_i64 (cl_interval_end_ns c) ∧
    opt_ok is_i64 (cl_observed_value c);
  cz_evidence : list_sized str_sized (cl_evidence c);
}.

(** The same, evaluated. *)
Definition str_sizedb (s : string) : bool := Z.of_nat (length (utf8 s)) <? 2 ^ 32.
Definition opt_b {A} (f : A → bool) (o : option A) : bool := match o with Some a => f a | None => true end.

Definition claim_sizedb (c : RawClaim) : bool :=
  str_sizedb (cl_predicate c) && str_sizedb (cl_subject c) && opt_b str_sizedb (cl_object c) &&
  str_sizedb (cl_extractor_kind c) && str_sizedb (cl_extractor_id c) &&
  str_sizedb (cl_extractor_version c) && opt_b str_sizedb (cl_hypothesis_ref c) && claim_fits c &&
  (Z.of_nat (length (cl_evidence c)) <? 2 ^ 32) && forallb str_sizedb (cl_evidence c).

Lemma opt_b_ok {A} (f : A → bool) (P : A → Prop) o :
  (∀ a, f a = true → P a) → opt_b f o = true → opt_ok P o.
Proof. intros H. destruct o; [apply H|done]. Qed.

Lemma claim_sizedb_ok c : claim_sizedb c = true → claim_sized c.
Proof.
  assert (∀ s, str_sizedb s = true → str_sized s) as Hs by (intros s H; by apply Z.ltb_lt).
  assert (∀ z, fits_i64 z = true → is_i64 z) as Hz.
  { intros z H. unfold fits_i64 in H. rewrite andb_true_iff, Z.leb_le, Z.ltb_lt in H. exact H. }
  unfold claim_sizedb, claim_fits. rewrite !andb_true_iff, Z.ltb_lt.
  intros (((((((((H1 & H2) & H3) & H4) & H5) & H6) & H7) & ((H8 & H9) & H10)) & H11) & H12).
  split; [|split; [by apply Hz|split; [by apply Hz|by apply (opt_b_ok fits_i64)]]|split; [done|]].
  - repeat split; first [by apply Hs|by apply (opt_b_ok str_sizedb)].
  - apply Forall_forall. intros s Hin. rewrite forallb_forall in H12.
    by apply Hs, H12, list_elem_of_In.
Qed.

Lemma list_sized_perm {A} (P : A → Prop) l k : l ≡ₚ k → list_sized P l → list_sized P k.
Proof. intros Hp [Hl HP]. split; by rewrite <- Hp. Qed.

(** Two claims that differ only in the order of their evidence. *)
Definition same_claim (a b : RawClaim) : Prop :=
  cl_predicate a = cl_predicate b ∧ cl_subject a = cl_subject b ∧ cl_object a = cl_object b ∧
  cl_interval_start_ns a = cl_interval_start_ns b ∧ cl_interval_end_ns a = cl_interval_end_ns b ∧
  cl_evidence a ≡ₚ cl_evidence b ∧ cl_extractor_kind a = cl_extractor_kind b ∧
  cl_extractor_id a = cl_extractor_id b ∧ cl_extractor_version a = cl_extractor_version b ∧
  cl_observed_value a = cl_observed_value b ∧ cl_polarity a = cl_polarity b ∧
  cl_hypothesis_ref a = cl_hypothesis_ref b.

Lemma claim_message_same a b :
  claim_sized a → claim_sized b → claim_message a = claim_message b → same_claim a b.
Proof.
  intros [(?&?&?&?&?&?&?) (?&?&?) Hea] [(?&?&?&?&?&?&?) (?&?&?) Heb] Heq.
  unfold claim_message in Heq.
  peel Heq; [|by eauto..]. peel Heq; [|by eauto..]. peel Heq; [|by eauto..].
  peel Heq; [|by eauto..]. peel Heq; [|by eauto..].
  peel Heq; [|eapply list_sized_perm; [symmetry; apply sort_by_perm|done]..].
  peel Heq; [|by eauto..]. peel Heq; [|by eauto..]. peel Heq; [|by eauto..]. peel Heq; [|by eauto..].
  injection Heq as Hpol Hhyp.
  assert (cl_hypothesis_ref a = cl_hypothesis_ref b) as Hh.
  { assert (write_opt write_str (cl_hypothesis_ref a) ++ [] = write_opt write_str (cl_hypothesis_ref b) ++ [])
      as Hn by by rewrite !app_nil_r.
    peel Hn; assumption. }
  assert (cl_evidence a ≡ₚ cl_evidence b) as Hev.
  { match goal with H : sort_by _ _ = sort_by _ _ |- _ => rename H into Hs end.
    etransitivity; [symmetry; apply (sort_by_perm string_leb)|]. rewrite Hs. apply sort_by_perm. }
  assert (cl_polarity a = cl_polarity b) as Hp by (by destruct (cl_polarity a), (cl_polarity b)).
  unfold same_claim. tauto.
Qed.

(** ** The order of claims does not matter *)

Lemma bytes_leb_total a b : bytes_leb a b = true ∨ bytes_leb b a = true.
Proof.
  revert b; induction a as [|x a IH]; intros [|y b]; simpl; auto.
  destruct (Z.ltb_spec x y), (Z.ltb_spec y x); auto; lia.
Qed.

Lemma bytes_leb_trans a b c : bytes_leb a b = true → bytes_leb b c = true → bytes_leb a c = true.
Proof.
  revert b c; induction a as [|x a IH]; intros [|y b] [|z c]; simpl; try done.
  destruct (Z.ltb_spec x y), (Z.ltb_spec y x), (Z.ltb_spec y z), (Z.ltb_spec z y),
    (Z.ltb_spec x z), (Z.ltb_spec z x); try done; try lia. apply IH.
Qed.

Lemma bytes_leb_antisym a b : bytes_leb a b = true → bytes_leb b a = true → a = b.
Proof.
  revert b; induction a as [|x a IH]; intros [|y b]; simpl; try done.
  destruct (Z.ltb_spec x y), (Z.ltb_spec y x); try done; try lia.
  intros H1 H2. assert (x = y) as -> by lia. f_equal. by apply IH.
Qed.

(** What adjudication reads of a claim. *)
Definition claim_view (x : RawClaim * bytes) : bool * string * Polarity * bytes :=
  ((length (cl_evidence x.1) =? 0)%nat, cl_predicate x.1, cl_polarity x.1, x.2).

Definition view_leb (a b : bool * string * Polarity * bytes) : bool := bytes_leb a.2 b.2.

Lemma tally_view p t x y : claim_view x = claim_view y → tally_claim p t x = tally_claim p t y.
Proof.
  destruct x as [c id], y as [d id']. unfold claim_view, tally_claim. simpl.
  intros [= -> -> -> ->]. done.
Qed.

Lemma tally_all_view p l k : claim_view <$> l = claim_view <$> k → tally_all p l = tally_all p k.
Proof.
  unfold tally_all. generalize (mkTally ∅ [] [] 0) as t.
  revert k; induction l as [|x l IH]; intros [|y k] t; try done. rewrite !fmap_cons.
  intros [= H1 H2]. simpl. rewrite (tally_view _ _ x y).
  - by apply IH.
  - unfold claim_view in *. simpl in *. congruence.
Qed.

Lemma sort_view l : claim_view <$> sort_by id_leb l = sort_by view_leb (claim_view <$> l).
Proof.
  assert (∀ x l, claim_view <$> insert_by id_leb x l = insert_by view_leb (claim_view x) (claim_view <$> l)) as Hins.
  { intros x k. induction k as [|y k IH]; [done|]. cbn [insert_by]. rewrite fmap_cons. cbn [insert_by].
    change (view_leb (claim_view x) (claim_view y)) with (id_leb x y).
    destruct (id_leb x y); [done|]. by rewrite fmap_cons, IH. }
  induction l as [|x l IH]; [done|]. rewrite fmap_cons. cbn [sort_by foldr].
  change (foldr (insert_by id_leb) [] l) with (sort_by id_leb l).
  change (foldr (insert_by view_leb) [] (claim_view <$> l)) with (sort_by view_leb (claim_view <$> l)).
  by rewrite Hins, IH.
Qed.

Section order.
Context (blake3 : bytes → bytes).

Lemma adjudicate_perm_view claims claims' p v :
  claims ≡ₚ claims' →
  (∀ a b, a ∈ claims → b ∈ claims → claim_id blake3 a = claim_id blake3 b →
     claim_view (a, claim_id blake3 a) = claim_view (b, claim_id blake3 b)) →
  adjudicate blake3 claims p v = adjudicate blake3 claims' p v.
Proof.
  intros Hp Hview. unfold adjudicate. f_equal. apply tally_all_view.
  unfold ordered_claims. rewrite !sort_view. apply sort_by_perm_eq.
  - intros x y. apply bytes_leb_total.
  - intros x y z. apply bytes_leb_trans.
  - intros x y Hx Hy H1 H2. rewrite <- list_fmap_compose in Hx, Hy.
    apply list_elem_of_fmap in Hx as (a & -> & Ha). apply list_elem_of_fmap in Hy as (b & -> & Hb).
    apply Hview; [done..|]. by apply bytes_leb_antisym.
  - by rewrite Hp.
Qed.

End order.

(** ** The score as a plain sum *)

(** What a claim adds, and to which tactic; [None] when it is not usable. *)
Definition contribution (p : PolicyBundle) (c : RawClaim) : option (Tactic * Z) :=
  if (length (cl_evidence c) =? 0)%nat then None
  else pw ← pb_predicate_weights p !! cl_predicate c;
       Some (pw_tactic pw, pw_weight pw * polarity_sign (cl_polarity c)).

Definition amount (p : PolicyBundle) (c : RawClaim) : Z :=
  match contribution p c with Some (_, w) => w | None => 0 end.
Definition amount_for (p : PolicyBundle) (t : Tactic) (c : RawClaim) : Z :=
  match contribution p c with Some (u, w) => if decide (u = t) then w else 0 | None => 0 end.
Definition touches (p : PolicyBundle) (t : Tactic) (c : RawClaim) : bool :=
  match contribution p c with Some (u, _) => bool_decide (u = t) | None => false end.

(** The tactics some claim touches, in kill-chain order. *)
Definition touched (p : PolicyBundle) (claims : list RawClaim) : list Tactic :=
  filter (fun t => existsb (touches p t) claims) TACTICS.

(** The bonus of two tactics that follow each other among those present. *)
Definition pair_bonus (p : PolicyBundle) (a b : Tactic) : Z :=
  if is_adjacent a b then default 0 (pb_chain_multipliers p !! (a, b)) else 0.
Fixpoint plain_bonus (p : PolicyBundle) (present : list Tactic) : Z :=
  match present with
  | a :: ((b :: _) as rest) => pair_bonus p a b + plain_bonus p rest
  | _ => 0
  end.

Definition plain_score (p : PolicyBundle) (claims : list RawClaim) : Z :=
  zsum (amount p) claims + plain_bonus p (touched p claims).

Lemma sat_id z : - 2 ^ 63 <= z < 2 ^ 63 → sat z = z.
Proof. unfold sat. lia. Qed.

Section scoring.
Context (p : PolicyBundle) (B : Z).
Hypothesis weights_bounded : ∀ k pw, pb_predicate_weights p !! k = Some pw → Z.abs (pw_weight pw) <= B.
Hypothesis bonuses_bounded : ∀ k m, pb_chain_multipliers p !! k = Some m → Z.abs m <= B.
Hypothesis B_nonneg : 0 <= B.

Lemma amount_bound c : Z.abs (amount p c) <= B.
Proof using weights_bounded B_nonneg.
  unfold amount, contribution. destruct (length (cl_evidence c) =? 0)%nat; [simpl; lia|].
  destruct (pb_predicate_weights p !! cl_predicate c) as [pw|] eqn:E; simpl; [|lia].
  apply weights_bounded in E. destruct (cl_polarity c); simpl; lia.
Qed.

Lemma amount_for_le t c : Z.abs (amount_for p t c) <= Z.abs (amount p c).
Proof using. unfold amount_for, amount. destruct (contribution p c) as [[u w]|]; [case_decide|]; lia. Qed.

Lemma amount_for_sum c : zsum (fun t => Z.abs (amount_for p t c)) TACTICS = Z.abs (amount p c).
Proof using.
  unfold amount_for, amount. destruct (contribution p c) as [[u w]|]; [|by rewrite zsum_zero].
  transitivity (zsum (fun t => if decide (u = t) then Z.abs w else 0) TACTICS).
  { apply zsum_ext. intros t _. by case_decide. }
  rewrite zsum_single by apply NoDup_TACTICS. by rewrite decide_True by apply elem_of_TACTICS.
Qed.

Lemma amount_sum cs : zsum (fun t => zsum (amount_for p t) cs) TACTICS = zsum (amount p) cs.
Proof using.
  rewrite (zsum_swap (fun t c => amount_for p t c)). apply zsum_ext. intros c _.
  unfold amount_for, amount. destruct (contribution p c) as [[u w]|]; [|by rewrite zsum_zero].
  rewrite zsum_single by apply NoDup_TACTICS. by rewrite decide_True by apply elem_of_TACTICS.
Qed.

Lemma partial_abs ts cs :
  NoDup ts → zsum (fun t => Z.abs (zsum (amount_for p t) cs)) ts <= Z.of_nat (length cs) * B.
Proof using weights_bounded B_nonneg.
  intros Hnd. transitivity (zsum (fun t => zsum (fun c => Z.abs (amount_for p t c)) cs) ts).
  { clear Hnd. induction ts as [|t ts IH]; [done|]. rewrite !zsum_cons.
    pose proof (zsum_abs (amount_for p t) cs). lia. }
  rewrite zsum_swap. transitivity (zsum (fun c => Z.abs (amount p c)) cs).
  - induction cs as [|c cs IH]; [done|]. rewrite !zsum_cons.
    assert (zsum (fun t => Z.abs (amount_for p t c)) ts <= Z.abs (amount p c)); [|lia].
    unfold amount_for, amount. destruct (contribution p c) as [[u w]|]; [|by rewrite zsum_zero].
    transitivity (zsum (fun t => if decide (u = t) then Z.abs w else 0) ts).
    { apply Z.eq_le_incl, zsum_ext. intros t _. by case_decide. }
    rewrite zsum_single by done. case_decide; lia.
  - apply zsum_bound. intros c _. apply amount_bound.
Qed.

Lemma zsum_untouched t cs : existsb (touches p t) cs = false → zsum (amount_for p t) cs = 0.
Proof using.
  intros He. rewrite <- (zsum_zero cs). apply zsum_ext. intros c Hc.
  assert (touches p t c = false) as Ht.
  { apply not_true_iff_false. intros Ht. apply not_true_iff_false in He. apply He.
    apply existsb_exists. exists c. split; [by apply list_elem_of_In|done]. }
  unfold touches, amount_for in *. destruct (contribution p c) as [[u w]|]; [|done].
  apply bool_decide_eq_false in Ht. by rewrite decide_False.
Qed.

(** What the tally of a list of claims is, when nothing saturates. *)
Definition tally_exact (t : Tally) (cs : list RawClaim) : Prop :=
  (∀ u, ta_scores t !! u =
    if existsb (touches p u) cs then Some (zsum (amount_for p u) cs) else None) ∧
  (ta_usable t = 0 ↔ Forall (fun c => contribution p c = None) cs) ∧ 0 <= ta_usable t.

Lemma existsb_snoc {A} (f : A → bool) l x : existsb f (l ++ [x]) = existsb f l || f x.
Proof using. by rewrite existsb_app; simpl; rewrite orb_false_r. Qed.

Lemma zsum_snoc {A} (f : A → Z) l x : zsum f (l ++ [x]) = zsum f l + f x.
Proof using. rewrite zsum_app. simpl. lia. Qed.

Lemma tally_unusable t cs c id :
  contribution p c = None → tally_exact t cs →
  tally_claim p t (c, id) = t ∧ tally_exact t (cs ++ [c]).
Proof using.
  intros E (Hs & Hu & Hu0). split; [|split; [|split]].
  - unfold contribution in E. unfold tally_claim.
    destruct (length (cl_evidence c) =? 0)%nat; [done|].
    by destruct (pb_predicate_weights p !! cl_predicate c).
  - intros u. rewrite existsb_snoc, zsum_snoc. unfold touches at 2, amount_for at 2.
    rewrite E, orb_false_r, Z.add_0_r. apply Hs.
  - rewrite Hu, Forall_app, Forall_singleton. tauto.
  - done.
Qed.

Lemma tally_usable t cs c id u w :
  contribution p c = Some (u, w) → Z.of_nat (S (length cs)) * B < 2 ^ 63 →
  tally_exact t cs → tally_exact (tally_claim p t (c, id)) (cs ++ [c]).
Proof using weights_bounded B_nonneg.
  intros E Hb (Hs & Hu & Hu0).
  assert (Z.abs w <= B) as Hw by (pose proof (amount_bound c) as H; unfold amount in H; by rewrite E in H).
  assert (∀ v, Z.abs (zsum (amount_for p v) cs) <= Z.of_nat (length cs) * B) as Hbnd.
  { intros v. pose proof (partial_abs [v] cs (NoDup_singleton v)) as H. simpl in H. lia. }
  pose proof E as E'. unfold contribution in E'. unfold tally_claim.
  destruct (length (cl_evidence c) =? 0)%nat; [done|].
  destruct (pb_predicate_weights p !! cl_predicate c) as [pw|]; [|done].
  injection E' as Eu Ew. rewrite Ew, Eu, (sat_id w) by lia. split; [|split; simpl; [|lia]].
  - intros v. rewrite existsb_snoc, zsum_snoc. unfold touches at 2, amount_for at 2. rewrite E. simpl.
    specialize (Hbnd v). destruct (decide (u = v)) as [->|Hne].
    + rewrite lookup_insert_eq, bool_decide_true, orb_true_r, Hs by done. f_equal.
      destruct (existsb _ cs) eqn:Ee; cbn [default]; [apply sat_id; simpl; lia|].
      rewrite zsum_untouched by done. apply sat_id. simpl. lia.
    + rewrite lookup_insert_ne, bool_decide_false, orb_false_r, Z.add_0_r by done. apply Hs.
  - split; [lia|]. rewrite Forall_app, Forall_singleton. intros [_ Hc]. congruence.
Qed.

Lemma tally_all_exact (l : list (RawClaim * bytes)) :
  Z.of_nat (length l) * B < 2 ^ 63 → tally_exact (tally_all p l) l.*1.
Proof using weights_bounded B_nonneg.
  induction l as [|[c id] l IH] using rev_ind; intros Hb.
  { split; [intros t; apply lookup_empty|]. split; [split; [constructor|done]|done]. }
  rewrite length_app in Hb. simpl in Hb.
  unfold tally_all in *. rewrite foldl_app, fmap_app. cbn [foldl].
  change ([(c, id)].*1) with [c].
  destruct (contribution p c) as [[u w]|] eqn:E.
  - apply (tally_usable _ _ _ _ u w); [done|rewrite length_fmap; lia|apply IH; lia].
  - destruct (tally_unusable (foldl (tally_claim p) (mkTally ∅ [] [] 0) l) l.*1 c id E) as [-> ?];
      [apply IH; lia|done].
Qed.

Lemma fold_sat (f : Tactic → Z) ts acc :
  Z.abs acc + zsum (fun t => Z.abs (f t)) ts < 2 ^ 63 →
  foldl (fun acc t => sat (acc + f t)) acc ts = acc + zsum f ts.
Proof using.
  revert acc; induction ts as [|t ts IH]; intros acc Hb; simpl; [lia|].
  rewrite zsum_cons in Hb.
  pose proof (zsum_nonneg (fun t => Z.abs (f t)) ts ltac:(intros; lia)).
  rewrite sat_id by lia. rewrite IH by lia. unfold zsum. lia.
Qed.

Lemma chain_bonus_plain ts acc :
  Z.abs acc + Z.of_nat (length ts) * B < 2 ^ 63 →
  chain_bonus p ts acc = acc + plain_bonus p ts ∧ Z.abs (plain_bonus p ts) <= Z.of_nat (length ts) * B.
Proof using bonuses_bounded B_nonneg.
  revert acc; induction ts as [|a [|b ts] IH]; intros acc Hb; [simpl; lia..|].
  assert (Z.abs (pair_bonus p a b) <= B) as Hpair.
  { unfold pair_bonus. destruct (is_adjacent a b); [|lia].
    destruct (pb_chain_multipliers p !! (a, b)) eqn:E; simpl; [by eapply bonuses_bounded|lia]. }
  cbn [length] in *.
  assert ((if is_adjacent a b
           then match pb_chain_multipliers p !! (a, b) with Some mult => sat (acc + mult) | None => acc end
           else acc) = acc + pair_bonus p a b) as Hacc.
  { unfold pair_bonus in *. destruct (is_adjacent a b); [|lia].
    destruct (pb_chain_multipliers p !! (a, b)); simpl in *; [|lia]. apply sat_id. lia. }
  change (chain_bonus p (a :: b :: ts) acc) with (chain_bonus p (b :: ts)
    (if is_adjacent a b
     then match pb_chain_multipliers p !! (a, b) with Some mult => sat (acc + mult) | None => acc end
     else acc)).
  change (plain_bonus p (a :: b :: ts)) with (pair_bonus p a b + plain_bonus p (b :: ts)).
  rewrite Hacc. destruct (IH (acc + pair_bonus p a b)) as [-> Hle]; lia.
Qed.

Lemma touched_perm cs cs' : cs ≡ₚ cs' → touched p cs = touched p cs'.
Proof using.
  intros Hp. unfold touched. apply list_filter_iff. intros t.
  rewrite !Is_true_true, !existsb_exists. setoid_rewrite <- list_elem_of_In. by setoid_rewrite Hp.
Qed.

Lemma present_touched t cs : tally_exact t cs → present_tactics (ta_scores t) = touched p cs.
Proof using.
  intros (Hs & _). unfold present_tactics, touched. apply list_filter_iff. intros u.
  rewrite Hs. by destruct (existsb (touches p u) cs).
Qed.

(** The verdict from an exact tally. *)
Lemma verdict_exact t cs v :
  (Z.of_nat (length cs) + 12) * B < 2 ^ 63 → tally_exact t cs →
  ¬ Forall (fun c => contribution p c = None) cs →
  let s := plain_score p cs in
  vr_severity (verdict_of p v t) = classify p s ∧
  vr_confidence (verdict_of p v t) = Z.max 0 (Z.min 10000 s) ∧
  vr_disposition (verdict_of p v t) = disposition_for (classify p s).
Proof using All.
  intros Hb Hex Hne s. pose proof Hex as (Hs & Hu & Hu0).
  unfold verdict_of. destruct (Z.eqb_spec (ta_usable t) 0) as [E|_]; [by apply Hu in E|]. cbv zeta.
  rewrite (present_touched t cs Hex).
  assert (NoDup (touched p cs)) as Hnd by apply NoDup_filter, NoDup_TACTICS.
  assert (length (touched p cs) <= 12)%nat as Hlen by (apply (length_filter _ TACTICS)).
  assert (∀ u, u ∈ touched p cs → default 0 (ta_scores t !! u) = zsum (amount_for p u) cs) as Hd.
  { intros u Hin. apply list_elem_of_filter in Hin as [Hin _]. rewrite Hs.
    apply Is_true_true in Hin. by rewrite Hin. }
  rewrite (fold_sat (fun u => default 0 (ta_scores t !! u))).
  2: { rewrite (zsum_ext _ (fun u => Z.abs (zsum (amount_for p u) cs))) by (intros u Hin; by rewrite Hd).
       pose proof (partial_abs (touched p cs) cs Hnd). simpl. lia. }
  rewrite (zsum_ext _ _ _ Hd).
  assert (zsum (fun u => zsum (amount_for p u) cs) (touched p cs) = zsum (amount p) cs) as Hsum.
  { rewrite <- amount_sum. unfold touched. apply zsum_filter_zero.
    intros u Hn. apply zsum_untouched. apply not_true_iff_false. by rewrite <- Is_true_true. }
  rewrite Hsum.
  destruct (chain_bonus_plain (touched p cs) 0) as [Hbonus Hble]; [simpl; nia|].
  pose proof (zsum_abs (amount p) cs) as Ha1.
  pose proof (zsum_bound (fun c => Z.abs (amount p c)) B cs (fun c _ => amount_bound c)) as Ha2.
  rewrite Hbonus, sat_id by nia. simpl.
  change (0 + zsum (amount p) cs + (0 + plain_bonus p (touched p cs))) with s || idtac.
  replace (0 + zsum (amount p) cs + (0 + plain_bonus p (touched p cs))) with s by (unfold s, plain_score; lia).
  done.
Qed.

End scoring.

(** ** Sorting strings *)

Lemma same_claim_message a b : same_claim a b → claim_message a = claim_message b.
Proof.
  intros (H1 & H2 & H3 & H4 & H5 & H6 & H7 & H8 & H9 & H10 & H11 & H12). unfold claim_message.
  by rewrite H1, H2, H3, H4, H5, (sort_strings_perm _ _ H6), H7, H8, H9, H10, H11, H12.
Qed.

(** ** Claims that do not count *)

Lemma filter_insert_by {A} (leb : A → A → bool) (P : A → Prop) `{∀ x, Decision (P x)} x l :
  (∀ a b c, leb a b = true → leb b c = true → leb a c = true) →
  StronglySorted (fun a b => leb a b = true) l →
  filter P (insert_by leb x l) = if decide (P x) then insert_by leb x (filter P l) else filter P l.
Proof.
  intros Htr. induction 1 as [|y l Hl IH Hy]; cbn [insert_by].
  { rewrite filter_cons. by case_decide. }
  destruct (leb x y) eqn:E.
  - rewrite (filter_cons P x). case_decide; [|done].
    assert (∀ z, z ∈ filter P (y :: l) → leb x z = true) as Hz.
    { intros z [_ Hz]%list_elem_of_filter. apply elem_of_cons in Hz as [->|Hz]; [done|].
      rewrite Forall_forall in Hy. by eapply Htr; [|apply Hy]. }
    destruct (filter P (y :: l)) as [|z k]; [done|]. cbn [insert_by].
    by rewrite (Hz z) by (by left).
  - rewrite !(filter_cons P y), IH. case_decide as Hx; case_decide; [|done..].
    cbn [insert_by]. by rewrite E.
Qed.

Lemma filter_sort_by {A} (leb : A → A → bool) (P : A → Prop) `{∀ x, Decision (P x)} l :
  (∀ x y, leb x y = true ∨ leb y x = true) →
  (∀ a b c, leb a b = true → leb b c = true → leb a c = true) →
  filter P (sort_by leb l) = sort_by leb (filter P l).
Proof.
  intros Htot Htr. induction l as [|x l IH]; [done|]. cbn [sort_by foldr].
  change (foldr (insert_by leb) [] l) with (sort_by leb l).
  rewrite filter_insert_by, IH by (done || by apply sort_by_strongly_sorted).
  rewrite filter_cons. by case_decide.
Qed.

Lemma tally_filter p (l : list (RawClaim * bytes)) t :
  foldl (tally_claim p) t l = foldl (tally_claim p) t (filter (fun x => is_Some (contribution p x.1)) l).
Proof.
  revert t; induction l as [|[c id] l IH]; intros t; [done|]. rewrite filter_cons. cbn [foldl].
  case_decide as Hc; [apply IH|]. rewrite <- IH. f_equal.
  unfold contribution in Hc. cbn [fst] in Hc. unfold tally_claim.
  destruct (length (cl_evidence c) =? 0)%nat; [done|].
  destruct (pb_predicate_weights p !! cl_predicate c); [|done]. exfalso. apply Hc. by eexists.
Qed.

Section usable.
Context (blake3 : bytes → bytes).

Lemma adjudicate_usable claims p v :
  adjudicate blake3 claims p v =
  adjudicate blake3 (filter (fun c => is_Some (contribution p c)) claims) p v.
Proof.
  unfold adjudicate, tally_all. f_equal. rewrite tally_filter. unfold ordered_claims.
  rewrite filter_sort_by;
    [|intros x y; apply bytes_leb_total|intros x y z; apply bytes_leb_trans].
  f_equal. f_equal. rewrite filter_fmap. done.
Qed.

Lemma ordered_perm claims : (ordered_claims blake3 claims).*1 ≡ₚ claims.
Proof.
  unfold ordered_claims. rewrite sort_by_perm, <- list_fmap_compose.
  rewrite (list_fmap_ext _ id); [by rewrite list_fmap_id|done].
Qed.

End usable.

Lemma plain_score_perm p cs cs' : cs ≡ₚ cs' → plain_score p cs = plain_score p cs'.
Proof.
  intros Hp. unfold plain_score. by rewrite (zsum_perm _ _ _ Hp), (touched_perm p _ _ Hp).
Qed.

(** ** What a request is answered *)

Lemma first_without_evidence_None i cs :
  first_without_evidence i cs = None ↔ Forall (fun c => cl_evidence c ≠ []) cs.
Proof.
  revert i. induction cs as [|c cs IH]; intros i; cbn [first_without_evidence].
  { by split; [constructor|]. }
  rewrite Forall_cons, <- (IH (S i)). destruct (cl_evidence c); cbn; naive_solver.
Qed.

Lemma verifyClaimSet_iff blake3 r v :
  verifyClaimSet blake3 r = inr v ↔
  let w := wire_request r in
  policy_fits (kr_policy w) = true ∧ forallb claim_fits (kr_claims w) = true ∧
  Forall (fun c => cl_evidence c ≠ []) (kr_claims w) ∧
  ∃ p, build_policy (kr_policy w) = inr p ∧ v = kernel_output blake3 p (kr_claims w) (kr_kernel_version w).
Proof.
  cbn zeta. rewrite <- (first_without_evidence_None 0). unfold verifyClaimSet, adjudicate_request.
  destruct (policy_fits _), (forallb _ _); cbn [andb]; [|naive_solver..].
  destruct (build_policy _) as [e|p]; [naive_solver|].
  destruct (first_without_evidence _ _); naive_solver.
Qed.

(** ** The verdict is unambiguously encoded *)

Definition contributing_ok (c : ContributingClaim) : Prop :=
  length (cc_claim_id c) = 32%nat ∧ str_sized (cc_predicate c) ∧ is_i64 (cc_attributed_weight c).

#[export] Instance write_contributing_free : PrefixFree write_contributing contributing_ok.
Proof.
  intros [ia pa wa] [ib pb wb] k k' (Ha & Hpa & Hwa) (Hb & Hpb & Hwb) Heq. cbn in Ha, Hb, Hpa, Hpb, Hwa, Hwb.
  unfold write_contributing in Heq. cbn [cc_claim_id cc_predicate cc_attributed_weight] in Heq.
  rewrite <- !app_assoc in Heq. apply app_inj_1 in Heq as [-> Heq]; [|lia].
  peel Heq; [|done..]. peel Heq; [|done..]. by subst.
Qed.

Record verdict_sized (v : Verdict) : Prop := {
  vz_confidence : is_i64 (vr_confidence v);
  vz_techniques : list_sized str_sized (vr_attack_techniques v);
  vz_contributing : list_sized contributing_ok (vr_contributing v);
}.

Lemma cons_split {A} (x y : A) l k : x :: l = y :: k → x = y ∧ l = k.
Proof. by intros [= -> ->]. Qed.

Lemma verdict_message_contributing v w :
  verdict_sized v → verdict_sized w → verdict_message v = verdict_message w →
  vr_severity v = vr_severity w ∧ vr_confidence v = vr_confidence w ∧
  vr_disposition v = vr_disposition w ∧ vr_attack_techniques v = vr_attack_techniques w ∧
  vr_contributing v = vr_contributing w.
Proof.
  intros [Hv1 Hv2 Hv3] [Hw1 Hw2 Hw3] Heq. unfold verdict_message in Heq. cbn [app] in Heq.
  apply cons_split in Heq as [Hsev Heq]. peel Heq; [|done..]. apply cons_split in Heq as [Hdisp Heq].
  peel Heq; [|done..]. peel Heq; [|done..].
  split; [by destruct (vr_severity v), (vr_severity w)|]. split; [done|].
  split; [by destruct (vr_disposition v), (vr_disposition w)|]. by split.
Qed.

(** The attribution of a tally: the usable claims, in order. *)
Definition attributed (p : PolicyBundle) (x : RawClaim * bytes) : option ContributingClaim :=
  '(_, w) ← contribution p x.1; Some (mkContributing x.2 (cl_predicate x.1) (sat w)).

Lemma tally_contributing p l t :
  ta_contributing (foldl (tally_claim p) t l) = ta_contributing t ++ omap (attributed p) l ∧
  ta_usable (foldl (tally_claim p) t l) = ta_usable t + Z.of_nat (length (omap (attributed p) l)).
Proof.
  revert t. induction l as [|[c id] l IH]; intros t; [cbn; rewrite app_nil_r; split; [done|lia]|].
  cbn [foldl]. destruct (IH (tally_claim p t (c, id))) as [-> ->].
  cbn [omap list_omap].
  assert (attributed p (c, id) = if (length (cl_evidence c) =? 0)%nat then None
    else match pb_predicate_weights p !! cl_predicate c with
         | Some pw => Some (mkContributing id (cl_predicate c) (sat (pw_weight pw * polarity_sign (cl_polarity c))))
         | None => None
         end) as ->.
  { unfold attributed, contribution. cbn [fst snd]. destruct (length (cl_evidence c) =? 0)%nat; [done|].
    by destruct (pb_predicate_weights p !! cl_predicate c). }
  unfold tally_claim. destruct (length (cl_evidence c) =? 0)%nat; [done|].
  destruct (pb_predicate_weights p !! cl_predicate c) as [pw|]; [|done].
  cbn [ta_contributing ta_usable length]. rewrite <- app_assoc. split; [done|lia].
Qed.

Lemma omap_perm {A B} (f : A → option B) l k : l ≡ₚ k → omap f l ≡ₚ omap f k.
Proof.
  induction 1 as [|x l k Hp IH|x y l|l k m H1 IH1 H2 IH2]; cbn [omap list_omap]; [done| | |by etransitivity].
  - destruct (f x); [by constructor|done].
  - destruct (f x), (f y); done || apply Permutation_swap.
Qed.

Lemma omap_length {A B} (f : A → option B) l : (length (omap f l) <= length l)%nat.
Proof. induction l as [|x l IH]; [done|]. cbn [omap list_omap]. destruct (f x); cbn [length]; unfold omap in *; lia. Qed.

Section attribution.
Context (blake3 : bytes → bytes).

Definition attribute (p : PolicyBundle) (c : RawClaim) : option ContributingClaim :=
  attributed p (c, claim_id blake3 c).

(** The contributing claims of a verdict are those of the usable claims. *)
Lemma verdict_contributing claims p v :
  vr_contributing (adjudicate blake3 claims p v) ≡ₚ omap (attribute p) claims.
Proof.
  assert (omap (attributed p) (ordered_claims blake3 claims) ≡ₚ omap (attribute p) claims) as Hp.
  { unfold ordered_claims. rewrite (omap_perm _ _ _ (sort_by_perm _ _)). clear.
    induction claims as [|c cs IH]; [done|]. rewrite fmap_cons. cbn [omap list_omap].
    change (attributed p (c, claim_id blake3 c)) with (attribute p c).
    destruct (attribute p c); [by constructor|done]. }
  unfold adjudicate, verdict_of, tally_all.
  destruct (tally_contributing p (ordered_claims blake3 claims) (mkTally ∅ [] [] 0)) as [Hc Hu].
  cbn [ta_contributing ta_usable app] in Hc, Hu. rewrite Hu.
  destruct (Z.eqb_spec (0 + Z.of_nat (length (omap (attributed p) (ordered_claims blake3 claims)))) 0) as [E|E].
  - cbn [vr_contributing]. rewrite <- Hp.
    destruct (omap (attributed p) (ordered_claims blake3 claims)); [done|simpl in E; lia].
  - cbn [vr_contributing]. by rewrite sort_by_perm, Hc.
Qed.

Lemma tally_techniques p l t :
  ta_techniques (foldl (tally_claim p) t l) =
  ta_techniques t ++ mjoin ((fun c => match contribution p c with
    | Some _ => match pb_predicate_weights p !! cl_predicate c with Some pw => pw_techniques pw | None => [] end
    | None => [] end) <$> l.*1).
Proof.
  revert t. induction l as [|[c id] l IH]; intros t; [cbn; by rewrite app_nil_r|].
  cbn [foldl]. rewrite IH, !fmap_cons. cbn [mjoin list_join]. unfold contribution, tally_claim. cbn [fst].
  destruct (length (cl_evidence c) =? 0)%nat; [done|].
  destruct (pb_predicate_weights p !! cl_predicate c) as [pw|]; [|done].
  cbn [mbind option_bind ta_techniques]. by rewrite <- app_assoc.
Qed.

(** Every verdict fits its encoding when the claims and the policy do. *)
Lemma adjudicate_sized claims p v K :
  (∀ m, length (blake3 m) = 32%nat) → Forall claim_sized claims →
  (∀ k pw, pb_predicate_weights p !! k = Some pw →
     (length (pw_techniques pw) <= K)%nat ∧ Forall str_sized (pw_techniques pw)) →
  Z.of_nat (length claims * S K) < 2 ^ 32 →
  verdict_sized (adjudicate blake3 claims p v).
Proof.
  intros Hlen Hcl Hp HK. split.
  - unfold adjudicate, verdict_of, is_i64. case_match; cbn [vr_confidence]; lia.
  - assert (∀ cs, Forall str_sized (ta_techniques (foldl (tally_claim p) (mkTally ∅ [] [] 0) cs)) ∧
      (length (ta_techniques (foldl (tally_claim p) (mkTally ∅ [] [] 0) cs)) <= length cs * K)%nat) as Ht.
    { intros cs. rewrite tally_techniques. cbn [ta_techniques app].
      induction cs as [|[c id] cs [IHf IHl]]; [split; [constructor|simpl; lia]|].
      rewrite !fmap_cons, mjoin_cons, length_app, Forall_app. cbn [fst].
      destruct (contribution p c); [|split; [by split|cbn [length]; lia]].
      destruct (pb_predicate_weights p !! cl_predicate c) as [pw|] eqn:E; [|split; [by split|cbn [length]; lia]].
      destruct (Hp _ _ E). split; [by split|]. cbn [length]. lia. }
    destruct (Ht (ordered_claims blake3 claims)) as [Hf Hl].
    assert (length (ordered_claims blake3 claims) = length claims) as Hoc
      by (unfold ordered_claims; by rewrite length_sort_by, length_fmap).
    rewrite Hoc in Hl. unfold adjudicate, verdict_of, tally_all.
    case_match; cbn [vr_attack_techniques]; [split; [simpl; lia|constructor]|].
    set (ts := ta_techniques _) in *.
    assert (length (uniq ts) <= length ts)%nat as Hu.
    { apply submseteq_length, NoDup_submseteq; [apply NoDup_uniq|]. intros x. by rewrite elem_of_uniq. }
    split; [rewrite length_sort_by; nia|]. apply Forall_forall. intros x Hx%elem_of_sort_by.
    rewrite elem_of_uniq in Hx. rewrite Forall_forall in Hf. by apply Hf.
  - eapply list_sized_perm; [symmetry; apply verdict_contributing|].
    assert (length (omap (attribute p) claims) <= length claims)%nat as Hl by apply omap_length.
    split; [nia|]. apply Forall_forall. intros x (c & Hc & Hx)%list_elem_of_omap.
    rewrite Forall_forall in Hcl. specialize (Hcl c Hc). destruct Hcl as [(Hpr & _) _ _].
    unfold attribute, attributed in Hx. cbn [fst snd] in Hx.
    destruct (contribution p c) as [[t w]|]; [|done]. cbn in Hx. injection Hx as <-.
    split; [apply Hlen|]. split; [done|]. cbn [cc_attributed_weight]. unfold is_i64, sat. lia.
Qed.

(** Replacing one usable claim by another with the same verdict: the same claim,
    barring collisions. *)
Lemma verdict_pins_claim c d rest p v :
  is_Some (contribution p c) → is_Some (contribution p d) →
  vr_contributing (adjudicate blake3 (c :: rest) p v) = vr_contributing (adjudicate blake3 (d :: rest) p v) →
  claim_id blake3 c = claim_id blake3 d.
Proof.
  intros [[t w] Hc] [[t' w'] Hd] Heq.
  assert (omap (attribute p) (c :: rest) ≡ₚ omap (attribute p) (d :: rest)) as Hp
    by (by rewrite <- !(verdict_contributing _ p v), Heq).
  assert (∀ x t w, contribution p x = Some (t, w) →
    attribute p x = Some (mkContributing (claim_id blake3 x) (cl_predicate x) (sat w))) as Ha.
  { intros x u z Hx. unfold attribute, attributed. cbn [fst snd]. by rewrite Hx. }
  cbn [omap list_omap] in Hp. rewrite (Ha c t w Hc), (Ha d t' w' Hd) in Hp.
  assert ([mkContributing (claim_id blake3 c) (cl_predicate c) (sat w)] ≡ₚ
          [mkContributing (claim_id blake3 d) (cl_predicate d) (sat w')]) as H1
    by (eapply Permutation_app_inv_r; exact Hp).
  apply Permutation_length_1 in H1. by injection H1.
Qed.

End attribution.

(** The verdict read off the plain score. *)
Lemma adjudicate_plain (blake3 : bytes → bytes) claims p kernel_version B :
  (∀ k pw, pb_predicate_weights p !! k = Some pw → Z.abs (pw_weight pw) <= B) →
  (∀ k m, pb_chain_multipliers p !! k = Some m → Z.abs m <= B) →
  0 <= B → (Z.of_nat (length claims) + 12) * B < 2 ^ 63 →
  let v := adjudicate blake3 claims p kernel_version in
  let score := plain_score p claims in
  if decide (Forall (fun c => contribution p c = None) claims)
  then vr_severity v = info ∧ vr_confidence v = 0 ∧ vr_disposition v = incomplete
  else vr_severity v = classify p score ∧ vr_confidence v = Z.max 0 (Z.min 10000 score) ∧
       vr_disposition v = disposition_for (classify p score).
Proof.
  intros Hw Hm HB Hb v score.
  pose proof (ordered_perm blake3 claims) as Hp.
  assert (length (ordered_claims blake3 claims) = length claims) as Hlen
    by (rewrite <- (Permutation_length Hp); by rewrite length_fmap).
  assert (tally_exact p (tally_all p (ordered_claims blake3 claims)) (ordered_claims blake3 claims).*1) as Hex
    by (apply (tally_all_exact p B); [done|done|rewrite Hlen; nia]).
  unfold v, adjudicate. case_decide as Hall.
  - destruct Hex as (_ & Hu & _). rewrite <- Hp in Hall. apply Hu in Hall.
    unfold verdict_of. by rewrite Hall.
  - unfold score. rewrite <- (plain_score_perm p _ _ Hp).
    apply (verdict_exact p B); [done|done|done| |done|by rewrite Hp].
    rewrite length_fmap, Hlen. exact Hb.
Qed.

(** ** Properties *)

(** C16: a claim's identifier identifies its content: claims whose fields fit the
    encoding, and whose encodings do not collide, have the same identifier
    exactly when they agree on every field, the evidence up to its order. *)
Theorem claim_id_identifies (blake3 : bytes → bytes) a b :
  claim_sized a → claim_sized b → no_collision blake3 [claim_message a] [claim_message b] →
  claim_id blake3 a = claim_id blake3 b ↔ same_claim a b.
Proof.
  intros Ha Hb Hnc. split.
  - intros Heq. apply claim_message_same; [done..|]. apply Hnc; [by left|by left|exact Heq].
  - intros Hs. unfold claim_id. by rewrite (same_claim_message _ _ Hs).
Qed.

(** C23: the verdict does not depend on the order in which the claims are
    submitted. *)
Theorem adjudicate_order_independent (blake3 : bytes → bytes) claims claims' p kernel_version :
  Forall claim_sized claims →
  no_collision blake3 (claim_message <$> claims) (claim_message <$> claims) →
  claims ≡ₚ claims' →
  adjudicate blake3 claims p kernel_version = adjudicate blake3 claims' p kernel_version.
Proof.
  intros Hsz Hnc Hp. apply adjudicate_perm_view; [done|]. intros a b Ha Hb Heq.
  rewrite Forall_forall in Hsz.
  assert (claim_message a = claim_message b) as Hm
    by (apply Hnc; [by apply list_elem_of_fmap_2..|done]).
  apply claim_message_same in Hm as (H1 & _ & _ & _ & _ & H6 & _ & _ & _ & _ & H11 & _); [|by apply Hsz..].
  unfold claim_view. simpl. apply Permutation_length in H6. by rewrite H1, H6, H11, Heq.
Qed.

(** C24: the verdict is the classification of a plain sum: the weights of the
    usable claims with the sign of their polarity, plus the bonus of every pair
    of consecutive tactics present that are adjacent in the kill chain, as long
    as no sum can leave the 64-bit range; without a usable claim it is
    incomplete. *)
Theorem adjudicate_score (blake3 : bytes → bytes) claims p kernel_version B :
  (∀ k pw, pb_predicate_weights p !! k = Some pw → Z.abs (pw_weight pw) <= B) →
  (∀ k m, pb_chain_multipliers p !! k = Some m → Z.abs m <= B) →
  0 <= B → (Z.of_nat (length claims) + 12) * B < 2 ^ 63 →
  let v := adjudicate blake3 claims p kernel_version in
  let score := plain_score p claims in
  if decide (Forall (fun c => contribution p c = None) claims)
  then vr_severity v = info ∧ vr_confidence v = 0 ∧ vr_disposition v = incomplete
  else vr_severity v = classify p score ∧ vr_confidence v = Z.max 0 (Z.min 10000 score) ∧
       vr_disposition v = disposition_for (classify p score).
Proof. intros. by apply (adjudicate_plain blake3 claims p kernel_version B). Qed.

(** Claims with no evidence, and claims whose predicate the policy does not
    price, change nothing in the verdict; every verdict has a confidence between
    0 and 10000 and a disposition that follows from its severity, or is the
    incomplete one. *)
Theorem adjudicate_sane (blake3 : bytes → bytes) claims p kernel_version :
  let v := adjudicate blake3 claims p kernel_version in
  v = adjudicate blake3 (filter (fun c => is_Some (contribution p c)) claims) p kernel_version ∧
  0 <= vr_confidence v <= 10000 ∧
  (vr_disposition v = disposition_for (vr_severity v) ∨
   vr_disposition v = incomplete ∧ vr_severity v = info ∧ vr_confidence v = 0 ∧ vr_contributing v = []).
Proof.
  intros v. split; [apply adjudicate_usable|]. unfold v, adjudicate, verdict_of.
  destruct (ta_usable _ =? 0); simpl; [split; [lia|by right]|split; [lia|by left]].
Qed.

(** A policy and claims for the witnesses. *)
Definition demo_policy : PolicyBundle :=
  mkPolicy "demo"
    (<["A" := mkPW execution 3000 ["T1"]]> (<["B" := mkPW persistence 2000 ["T2"]]> ∅))
    (<[(execution, persistence) := 400]> ∅)
    [(0, info); (1500, low); (3500, medium); (6000, high)].

Definition demo_claim (predicate evidence : string) : RawClaim :=
  mkRawClaim predicate "host-1" None 1 2 [evidence; "e0"] "rule" "x" "1" (Some 7) supports None.

Lemma demo_sized pr ev : str_sized pr → str_sized ev → claim_sized (demo_claim pr ev).
Proof.
  intros Hp He.
  assert (str_sized "host-1" ∧ str_sized "rule" ∧ str_sized "x" ∧ str_sized "1" ∧ str_sized "e0")
    as (H1 & H2 & H3 & H4 & H5) by (unfold str_sized; simpl; lia).
  split; unfold is_i64, list_sized, opt_ok; simpl.
  - tauto.
  - lia.
  - split; [lia|]. constructor; [done|]. constructor; [done|constructor].
Qed.

Lemma claim_id_identifies_witness :
  claim_id toy_hash (demo_claim "A" "e1") ≠ claim_id toy_hash (demo_claim "A" "e2").
Proof.
  intros Heq.
  assert (same_claim (demo_claim "A" "e1") (demo_claim "A" "e2")) as (_ & _ & _ & _ & _ & Hp & _).
  { apply (claim_id_identifies toy_hash); [by apply demo_sized..| |exact Heq].
    apply check_no_collision_ok. vm_compute. reflexivity. }
  simpl in Hp. assert ("e1" ∈ ["e2"; "e0"]) as Hin by (rewrite <- Hp; left).
  rewrite !elem_of_cons in Hin. destruct Hin as [Hin|[Hin|Hin]]; [discriminate Hin..|inversion Hin].
Defined.

Definition demo_claims : list RawClaim := [demo_claim "A" "e1"; demo_claim "B" "e2"; demo_claim "C" "e3"].

Lemma demo_claims_sized : Forall claim_sized demo_claims.
Proof. unfold demo_claims. do 3 (constructor; [by apply demo_sized|]). constructor. Qed.

Lemma adjudicate_order_independent_witness :
  adjudicate toy_hash demo_claims demo_policy "k" = adjudicate toy_hash (reverse demo_claims) demo_policy "k".
Proof.
  apply adjudicate_order_independent; [apply demo_claims_sized| |by rewrite reverse_Permutation].
  apply check_no_collision_ok. vm_compute. reflexivity.
Defined.

Lemma adjudicate_score_witness :
  plain_score demo_policy demo_claims = 5400 ∧
  vr_severity (adjudicate toy_hash demo_claims demo_policy "k") = medium.
Proof.
  split; [vm_compute; reflexivity|].
  assert (∀ k pw, pb_predicate_weights demo_policy !! k = Some pw → Z.abs (pw_weight pw) <= 3000) as Hw.
  { intros k pw Hk. simpl in Hk. apply lookup_insert_Some in Hk as [[_ <-]|[_ Hk]]; [simpl; lia|].
    apply lookup_insert_Some in Hk as [[_ <-]|[_ Hk]]; [simpl; lia|]. by rewrite lookup_empty in Hk. }
  assert (∀ k m, pb_chain_multipliers demo_policy !! k = Some m → Z.abs m <= 3000) as Hm.
  { intros k m Hk. simpl in Hk. apply lookup_insert_Some in Hk as [[_ <-]|[_ Hk]]; [lia|].
    by rewrite lookup_empty in Hk. }
  pose proof (adjudicate_score toy_hash demo_claims demo_policy "k" 3000 Hw Hm ltac:(lia) ltac:(simpl; lia)) as H.
  rewrite decide_False in H; [|intros HF; inversion HF as [|? ? Hc _]; vm_compute in Hc; discriminate Hc].
  destruct H as [Hs _]. rewrite Hs. vm_compute. reflexivity.
Defined.
