(* ===== verification/Policy.v ===== *)
(** * The synthetic policy: web/src/lib/data/policy.ts

    The one policy every manifest, drift row and canvas claim is adjudicated
    under, and how it sits with the kernel that reads it and with the corpus
    that imitates it. *)

From S2P Require Import Prelude JsNum Types Seed Kernel.
Open Scope Z_scope.

Definition POLICY_VERSION : string := "policy-2026.09.0".

Definition TECHNIQUE_BY_PREDICATE : list (string * list string) :=
  [("AUTH_FAILED_BURST", ["T1110"]); ("AUTH_FROM_NEW_ASN", ["T1078"]);
   ("INTERPRETER_SPAWNED_BY", ["T1059"]); ("ENCODED_COMMAND", ["T1027"; "T1059.001"]);
   ("PERSISTENCE_REGISTRY_RUN_KEY", ["T1547.001"]); ("PRIVILEGE_ESCALATION_ATTEMPT", ["T1068"]);
   ("DEFENSE_EVASION_ATTEMPT", ["T1562"]); ("AUTH_SUCCEEDED_AFTER_FAILURES", ["T1110"]);
   ("TOKEN_REPLAYED", ["T1550"]); ("RDP_INTERNAL_FIRST_TIME", ["T1021.001"]);
   ("LATERAL_MOVEMENT_DETECTED", ["T1021"]); ("DATA_STAGING_DETECTED", ["T1074"]);
   ("INTERPRETER_NETWORK_EGRESS", ["T1071"]); ("CONNECTED_TO_INDICATOR", ["T1071"]);
   ("DATA_EXFILTRATED", ["T1041"]); ("IMPACT_DETECTED", ["T1485"])].

Definition synthetic_weight (tactic : Tactic) (predicate : string) : PredicateWeightInput :=
  mkPWInput (tactic_name tactic) (1200 + (Z.of_nat (String.length predicate) mod 5) * 300)
    (default [] (omap_get predicate TECHNIQUE_BY_PREDICATE)).

(** The two nested loops: [predicate_weights[predicate] = ...]. *)
Definition synthetic_weights : gmap string PredicateWeightInput :=
  foldl (fun m tactic =>
    foldl (fun m predicate => <[predicate := synthetic_weight tactic predicate]> m)
      m (PREDICATES_BY_TACTIC tactic)) ∅ TACTICS.

Definition SYNTHETIC_CHAIN : list ChainMultiplierInput :=
  [mkChain "initial-access" "execution" 500; mkChain "execution" "persistence" 400;
   mkChain "credential-access" "lateral-movement" 600; mkChain "collection" "exfiltration" 700;
   mkChain "command-and-control" "exfiltration" 500].

Definition SYNTHETIC_THRESHOLDS : list (Z * string) :=
  [(0, "info"); (1500, "low"); (3500, "medium"); (6000, "high"); (8500, "critical")].

Definition buildSyntheticPolicy : KernelPolicy :=
  mkKernelPolicy POLICY_VERSION synthetic_weights SYNTHETIC_CHAIN SYNTHETIC_THRESHOLDS.

(** ** The policy the kernel makes of it *)

Definition bundle_of (chain : list ChainMultiplierInput) : PolicyBundle :=
  mkPolicy POLICY_VERSION (omap build_weight synthetic_weights) (default ∅ (build_chain chain))
    [(0, info); (1500, low); (3500, medium); (6000, high); (8500, critical)].

Definition synthetic_bundle : PolicyBundle := bundle_of SYNTHETIC_CHAIN.

Lemma is_some_true {A} (o : option A) : (if o then true else false) = true → is_Some o.
Proof. destruct o; [by eexists|done]. Qed.

Lemma synthetic_tactics_known : map_Forall (fun _ pw => is_Some (build_weight pw)) synthetic_weights.
Proof.
  assert (forallb (fun kv => match build_weight kv.2 with Some _ => true | None => false end)
    (map_to_list synthetic_weights) = true) as H by (vm_compute; reflexivity).
  revert H. generalize synthetic_weights. intros weights H k pw Hk.
  rewrite forallb_forall in H. specialize (H (k, pw)). cbn [snd] in H.
  destruct (build_weight pw); [by eexists|]. discriminate H.
  by apply list_elem_of_In, elem_of_map_to_list.
Qed.

(** The kernel takes the policy with any list of chain multipliers it can read. *)
Lemma bundle_accepted chain :
  is_Some (build_chain chain) →
  build_policy (mkKernelPolicy POLICY_VERSION synthetic_weights chain SYNTHETIC_THRESHOLDS) =
  inr (bundle_of chain).
Proof.
  pose proof synthetic_tactics_known as Hknown. revert Hknown.
  unfold build_policy, bundle_of.
  cbn [kp_policy_version kp_predicate_weights kp_chain_multipliers kp_severity_thresholds].
  generalize synthetic_weights. intros weights Hknown [m Hm].
  rewrite decide_True by exact Hknown. by rewrite Hm.
Qed.

Lemma synthetic_accepted : build_policy buildSyntheticPolicy = inr synthetic_bundle.
Proof. apply bundle_accepted, is_some_true. vm_compute. reflexivity. Qed.

Lemma synthetic_thresholds :
  pb_severity_thresholds synthetic_bundle = [(0, info); (1500, low); (3500, medium); (6000, high); (8500, critical)].
Proof. reflexivity. Qed.

(** The kernel classifies as the corpus does. *)
Lemma synthetic_classify score : classify synthetic_bundle score = severityForScore score.
Proof.
  unfold classify, severityForScore. rewrite synthetic_thresholds. cbn [foldl fst snd].
  repeat (match goal with |- context [?a <=? ?b] => destruct (Z.leb_spec a b) end); done || lia.
Qed.

(** The price of each predicate of the vocabulary. *)
Definition priced (p : PolicyBundle) (t : Tactic) (predicate : string) : Prop :=
  ∃ pw, pb_predicate_weights p !! predicate = Some pw ∧ pw_tactic pw = t ∧ 1200 <= pw_weight pw <= 2400.

Lemma vocabulary_priced t predicate :
  predicate ∈ PREDICATES_BY_TACTIC t → priced synthetic_bundle t predicate.
Proof.
  intros Hin.
  assert (forallb (fun t => forallb (fun q =>
    match pb_predicate_weights synthetic_bundle !! q with
    | Some pw => bool_decide (pw_tactic pw = t) && (1200 <=? pw_weight pw) && (pw_weight pw <=? 2400)
    | None => false
    end) (PREDICATES_BY_TACTIC t)) TACTICS = true) as H by (vm_compute; reflexivity).
  rewrite forallb_forall in H. specialize (H t (proj1 (list_elem_of_In _ _) (elem_of_TACTICS t))).
  rewrite forallb_forall in H. specialize (H predicate (proj1 (list_elem_of_In _ _) Hin)).
  unfold priced. destruct (pb_predicate_weights synthetic_bundle !! predicate) as [pw|]; [|done].
  exists pw. rewrite !andb_true_iff, bool_decide_eq_true, !Z.leb_le in H. tauto.
Qed.

Lemma weight_bounds k pw :
  pb_predicate_weights synthetic_bundle !! k = Some pw → Z.abs (pw_weight pw) <= 2400.
Proof.
  assert (map_Forall (fun _ pw => Z.abs (pw_weight pw) <= 2400) (pb_predicate_weights synthetic_bundle)) as H.
  { apply (bool_decide_unpack _). vm_compute. exact I. }
  intros Hk. by apply (H k).
Qed.

Lemma bonus_bounds k m : pb_chain_multipliers synthetic_bundle !! k = Some m → Z.abs m <= 2400.
Proof.
  assert (map_Forall (fun _ m => Z.abs m <= 2400) (pb_chain_multipliers synthetic_bundle)) as H.
  { apply (bool_decide_unpack _). vm_compute. exact I. }
  intros Hk. by apply (H k).
Qed.

Lemma techniques_bounds k pw :
  pb_predicate_weights synthetic_bundle !! k = Some pw →
  (length (pw_techniques pw) <= 2)%nat ∧ Forall str_sized (pw_techniques pw).
Proof.
  assert (forallb (fun kv => (length (pw_techniques kv.2) <=? 2)%nat && forallb str_sizedb (pw_techniques kv.2))
    (map_to_list (pb_predicate_weights synthetic_bundle)) = true) as H by (vm_compute; reflexivity).
  revert H. generalize (pb_predicate_weights synthetic_bundle). intros weights H Hk.
  rewrite forallb_forall in H. specialize (H (k, pw)). cbn [snd] in H.
  rewrite andb_true_iff, Nat.leb_le in H. destruct H as [Hl Hs].
  { by apply list_elem_of_In, elem_of_map_to_list. }
  split; [done|]. apply Forall_forall. intros s Hin. rewrite forallb_forall in Hs.
  apply Z.ltb_lt. by apply Hs, list_elem_of_In.
Qed.

(** On the way through JSON the policy stays as it is. *)
Lemma wire_int_small z : Z.abs z < 2 ^ 53 → wire_int z = z.
Proof. intros H. unfold wire_int. by rewrite (proj2 (Z.ltb_lt _ _) H). Qed.

Lemma wire_policy_small p :
  map_Forall (fun _ pw => Z.abs (pwi_weight pw) < 2 ^ 53) (kp_predicate_weights p) →
  Forall (fun cm => Z.abs (cm_bonus cm) < 2 ^ 53) (kp_chain_multipliers p) →
  Forall (fun t => Z.abs t.1 < 2 ^ 53) (kp_severity_thresholds p) →
  wire_policy p = p ∧ policy_fits p = true.
Proof.
  destruct p as [v ws cms ts]. cbn [kp_predicate_weights kp_chain_multipliers kp_severity_thresholds].
  intros Hw Hc Ht. assert (∀ z, Z.abs z < 2 ^ 53 → fits_i64 z = true) as Hfit.
  { intros z Hz. unfold fits_i64. apply andb_true_iff. rewrite Z.leb_le, Z.ltb_lt. lia. }
  unfold wire_policy, policy_fits.
  cbn [kp_policy_version kp_predicate_weights kp_chain_multipliers kp_severity_thresholds]. split.
  - f_equal.
    + rewrite <- (map_fmap_id ws) at 2. apply map_fmap_ext. intros k [a b c] Hk.
      cbn. rewrite wire_int_small; [done|]. by specialize (Hw k _ Hk).
    + rewrite <- (list_fmap_id cms) at 2. apply list_fmap_ext. intros i [a b c] Hi.
      cbn. rewrite wire_int_small; [done|]. by apply (Forall_lookup_1 _ _ _ _ Hc Hi).
    + rewrite <- (list_fmap_id ts) at 2. apply list_fmap_ext. intros i [a b] Hi.
      cbn. rewrite wire_int_small; [done|]. by apply (Forall_lookup_1 _ _ _ _ Ht Hi).
  - rewrite !andb_true_iff, bool_decide_eq_true, !forallb_forall. split; [split|].
    + intros k pw Hk. apply Hfit. by specialize (Hw k pw Hk).
    + intros cm Hin. apply Hfit. rewrite Forall_forall in Hc. by apply Hc, list_elem_of_In.
    + intros t Hin. apply Hfit. rewrite Forall_forall in Ht. by apply Ht, list_elem_of_In.
Qed.

Lemma synthetic_weights_small : map_Forall (fun _ pw => Z.abs (pwi_weight pw) <= 2400) synthetic_weights.
Proof.
  assert (forallb (fun kv => Z.abs (pwi_weight kv.2) <=? 2400) (map_to_list synthetic_weights) = true)
    as H by (vm_compute; reflexivity).
  revert H. generalize synthetic_weights. intros weights H k pw Hk.
  rewrite forallb_forall in H. specialize (H (k, pw)). cbn [snd] in H. rewrite Z.leb_le in H.
  by apply H, list_elem_of_In, elem_of_map_to_list.
Qed.

Lemma synthetic_wire :
  wire_policy buildSyntheticPolicy = buildSyntheticPolicy ∧ policy_fits buildSyntheticPolicy = true.
Proof.
  apply wire_policy_small.
  - eapply map_Forall_impl; [exact synthetic_weights_small|]. intros k pw H. cbn beta in *. lia.
  - repeat constructor.
  - repeat constructor.
Qed.

(** ** Chain multipliers between tactics that are not adjacent *)

(** Two policies that differ only in the multipliers the kernel does not read. *)
Lemma chain_bonus_adjacent p q ts acc :
  (∀ a b, is_adjacent a b = true → pb_chain_multipliers p !! (a, b) = pb_chain_multipliers q !! (a, b)) →
  chain_bonus p ts acc = chain_bonus q ts acc.
Proof.
  intros Hpq. revert acc. induction ts as [|a [|b ts] IH]; intros acc; try done.
  change (chain_bonus p (a :: b :: ts) acc) with (chain_bonus p (b :: ts)
    (if is_adjacent a b
     then match pb_chain_multipliers p !! (a, b) with Some mult => sat (acc + mult) | None => acc end
     else acc)).
  change (chain_bonus q (a :: b :: ts) acc) with (chain_bonus q (b :: ts)
    (if is_adjacent a b
     then match pb_chain_multipliers q !! (a, b) with Some mult => sat (acc + mult) | None => acc end
     else acc)).
  destruct (is_adjacent a b) eqn:E; [rewrite (Hpq a b E)|]; apply IH.
Qed.

Lemma adjudicate_adjacent blake3 claims p q v :
  pb_policy_version p = pb_policy_version q → pb_predicate_weights p = pb_predicate_weights q →
  pb_severity_thresholds p = pb_severity_thresholds q →
  (∀ a b, is_adjacent a b = true → pb_chain_multipliers p !! (a, b) = pb_chain_multipliers q !! (a, b)) →
  adjudicate blake3 claims p v = adjudicate blake3 claims q v.
Proof.
  intros Hv Hw Ht Hc. unfold adjudicate.
  assert (∀ l t, foldl (tally_claim p) t l = foldl (tally_claim q) t l) as Htally.
  { intros l. induction l as [|[c id] l IH]; intros t; [done|]. cbn [foldl]. rewrite IH.
    f_equal. unfold tally_claim. by rewrite Hw. }
  unfold tally_all. rewrite Htally. unfold verdict_of, classify.
  by rewrite Hv, Ht, (chain_bonus_adjacent p q _ _ Hc).
Qed.

(** The entries of the synthetic policy between neighbours of the kill chain. *)
Definition live_chain : list ChainMultiplierInput :=
  [mkChain "initial-access" "execution" 500; mkChain "execution" "persistence" 400;
   mkChain "command-and-control" "exfiltration" 500].

Definition pruned_policy : KernelPolicy :=
  mkKernelPolicy POLICY_VERSION synthetic_weights live_chain SYNTHETIC_THRESHOLDS.

Lemma pruned_same_neighbours a b :
  is_adjacent a b = true →
  pb_chain_multipliers synthetic_bundle !! (a, b) = pb_chain_multipliers (bundle_of live_chain) !! (a, b).
Proof. destruct a, b; intros Hab; first [discriminate Hab|vm_compute; reflexivity]. Qed.

(** ** Properties *)

(** The kernel accepts the synthetic policy; it classifies every score as
    the corpus does ([severityForScore]), its disposition is the corpus's, and
    every predicate of the vocabulary is priced under its own tactic. *)
Theorem policy_matches_corpus score t predicate :
  build_policy buildSyntheticPolicy = inr synthetic_bundle ∧
  classify synthetic_bundle score = severityForScore score ∧
  disposition_for (classify synthetic_bundle score) = dispositionFor (severityForScore score) false ∧
  (predicate ∈ PREDICATES_BY_TACTIC t → priced synthetic_bundle t predicate).
Proof.
  pose proof (synthetic_classify score) as Hc.
  split; [apply synthetic_accepted|]. split; [done|]. split; [|apply vocabulary_priced].
  rewrite Hc. by destruct (severityForScore score).
Qed.

Lemma policy_matches_corpus_witness :
  "TOKEN_REPLAYED" ∈ PREDICATES_BY_TACTIC credential_access ∧
  priced synthetic_bundle credential_access "TOKEN_REPLAYED".
Proof.
  assert ("TOKEN_REPLAYED" ∈ PREDICATES_BY_TACTIC credential_access) as H by (right; left).
  split; [exact H|]. apply (policy_matches_corpus 0 credential_access "TOKEN_REPLAYED"). exact H.
Defined.

(** Two of the five chain multipliers are dead: the kernel adds a bonus only
    between neighbours of the kill chain, and neither credential-access to
    lateral-movement nor collection to exfiltration are neighbours, so that no
    claim set has another verdict when both entries are removed. *)
Theorem dead_multipliers (blake3 : list Z → list Z) claims kernel_version :
  let request p := mkRequest kernel_version p claims in
  adjudicate_request blake3 (request buildSyntheticPolicy) = adjudicate_request blake3 (request pruned_policy) ∧
  ∃ q, build_policy pruned_policy = inr q ∧
    pb_chain_multipliers synthetic_bundle !! (credential_access, lateral_movement) = Some 600 ∧
    pb_chain_multipliers q !! (credential_access, lateral_movement) = None ∧
    pb_chain_multipliers synthetic_bundle !! (collection, exfiltration) = Some 700 ∧
    pb_chain_multipliers q !! (collection, exfiltration) = None.
Proof.
  assert (build_policy pruned_policy = inr (bundle_of live_chain)) as Hq.
  { apply bundle_accepted, is_some_true. vm_compute. reflexivity. }
  split.
  - unfold adjudicate_request, kernel_output. cbn [kr_policy kr_claims kr_kernel_version].
    rewrite synthetic_accepted, Hq,
      (adjudicate_adjacent blake3 claims synthetic_bundle (bundle_of live_chain) kernel_version
         eq_refl eq_refl eq_refl pruned_same_neighbours).
    exact eq_refl.
  - exists (bundle_of live_chain). split; [exact Hq|]. repeat split; vm_compute; reflexivity.
Qed.
