(* ===== verification/Ledger.v ===== *)
(** * The synthetic ledger: web/src/lib/data/ledger.ts and its API routes

    Sealed manifests chained by hash, the claims and evidence behind each, and
    what the routes under api/ledger serve.  Nanosecond timestamps are beyond
    [2 ^ 53], so that their sums are rounded ([js_add]).  BLAKE3 is a
    parameter, as in Merkle and Kernel. *)

From S2P Require Import Prelude JsNum Json Text Rng Types Seed Merkle Kernel Policy.
From Stdlib Require Import Ascii QArith.
Import Xorshift32.
Open Scope Z_scope.

Definition KERNEL_VERSION : string := "0.0.0-phase11".
Definition ZERO_HASH : string := pad_start 64 "0"%char EmptyString.
Definition MANIFESTS_PER_TENANT : nat := 14.
Definition TENANTS : list string := ["tenant-alpha"; "tenant-beta"; "tenant-gamma"].

(** The integer value of a double: the rounding of an integer. *)
Definition js_num (z : Z) : Z := js_floor (fl (inject_Z z)).
Definition js_add (a b : Z) : Z := js_num (a + b).

(** [s.slice(0, n)]. *)
Definition slice0 (n : nat) (s : string) : string := String.substring 0 n s.

(** ** JSON of the hashed values, fields in the order of the literals *)

Definition json_num (z : Z) : json := json_int (wire_int z).
Definition json_strs (l : list string) : json := JArr (JStr <$> l).

Definition inference_json (i : InferenceMeta) : json :=
  JObj [("provider", JStr (inf_provider i)); ("model_id", JStr (inf_model_id i));
        ("weights_digest", JStr (inf_weights_digest i));
        ("seed", match inf_seed i with Some z => json_num z | None => JNull end)].

Definition manifest_json (m : Manifest) : json :=
  JObj [("investigation_id", JStr (mf_investigation_id m)); ("tenant_id", JStr (mf_tenant_id m));
        ("case_id", JStr (mf_case_id m)); ("epoch_root", JStr (mf_epoch_root m));
        ("epoch_id", json_num (mf_epoch_id m));
        ("index_snapshot_hash", JStr (mf_index_snapshot_hash m));
        ("claim_set_hash", JStr (mf_claim_set_hash m)); ("claim_ids", json_strs (mf_claim_ids m));
        ("inference", inference_json (mf_inference m)); ("policy_version", JStr (mf_policy_version m));
        ("kernel_version", JStr (mf_kernel_version m));
        ("attack_model_version", JStr (mf_attack_model_version m));
        ("verdict_severity", JStr (severity_name (mf_verdict_severity m)));
        ("verdict_confidence", json_num (mf_verdict_confidence m));
        ("verdict_disposition", JStr (disposition_name (mf_verdict_disposition m)));
        ("verdict_hash", JStr (mf_verdict_hash m));
        ("budget_consumed", JObj [("tool_calls", json_num (mf_budget_tool_calls m));
                                  ("turns", json_num (mf_budget_turns m))]);
        ("started_at_ns", json_num (mf_started_at_ns m));
        ("completed_at_ns", json_num (mf_completed_at_ns m));
        ("prev_manifest_hash", JStr (mf_prev_manifest_hash m))].

(** ** Claims *)

Definition generateClaim (entity : string) (tactic : Tactic) (cursor : Z) : M Z (RawClaim * Z) :=
  predicate ← pick (PREDICATES_BY_TACTIC tactic);
  dt ← int 1 600;
  let cursorNs := js_add cursor (dt * 1000000000) in
  evidenceCount ← int 1 3;
  evidence ← repeatM (Z.to_nat evidenceCount) (h ← hex_digits 16; mret ("blake3:" +:+ h));
  has_object ← bool_ (4 # 10);
  object ← (if has_object : bool
            then o ← pick ["powershell.exe"; "cmd.exe"; "bash"; "203.0.113.7"]; mret (Some o)
            else mret None);
  span ← int 1 5000000000;
  has_value ← bool_ (6 # 10);
  observed ← (if has_value : bool then v ← int 1 200; mret (Some v) else mret None);
  supporting ← bool_ (92 # 100);
  mret (mkRawClaim predicate entity object cursorNs (js_add cursorNs span) evidence "rule"
          ("cdl." +:+ tactic_name tactic +:+ "." +:+ lower predicate) "1" observed
          (if supporting : bool then supports else refutes) None, cursorNs).

Definition generateClaims (entity : string) (baseNs : Z) : M Z (list RawClaim) :=
  n ← int 2 4;
  tactics ← pickN TACTICS n;
  r ← foldM (fun acc tactic =>
               cc ← generateClaim entity tactic acc.2;
               mret (acc.1 ++ [cc.1], cc.2)) ([], baseNs) tactics;
  mret r.1.

(** ** Manifests *)

Record LedgerCaseData := mkCaseData {
  cd_investigationId : string;
  cd_caseId : string;
  cd_claims : list LedgerClaim;
  cd_merkleRoot : string;
  cd_merkleTree : MerkleTree;
  cd_evidenceIds : list string;
}.

Record LedgerData := mkLedgerData {
  ld_manifests : list SealedManifest;
  ld_caseData : gmap string LedgerCaseData;
  ld_policy : KernelPolicy;
}.

Definition evidence_of (claims : list RawClaim) : list string := uniq (mjoin (cl_evidence <$> claims)).

Section ledger.
Context (blake3 : bytes → bytes).

Definition syntheticHash (value : json) : string := bytesToHex (blake3 (utf8 (stringify value))).

Definition attach_ids (claims : list RawClaim) (ids : list string) : list LedgerClaim :=
  zip_with mkLedgerClaim claims ids.

Definition broken_link (investigationId : string) : string :=
  syntheticHash (JObj [("broken", JStr investigationId)]).

Definition seal (tenantId : string) (manifest : Manifest) (makeBroken : bool) : SealedManifest :=
  let manifest_hash := syntheticHash (manifest_json manifest) in
  mkSealed manifest manifest_hash
    (slice0 96 (syntheticHash (JObj [("sig", JStr manifest_hash)])))
    (slice0 64 (syntheticHash (JObj [("pub", JStr tenantId)])))
    makeBroken.

(** [now] is what [Date.now()] answers in this call. *)
Definition buildManifest (tenantId caseId entity prevManifestHash : string) (policy : KernelPolicy)
    (makeBroken : bool) (now : Z) : M Z (SealedManifest * LedgerCaseData) :=
  suffix ← hex_digits 6;
  let investigationId := "inv-" +:+ caseId +:+ "-" +:+ suffix in
  days ← int 0 30;
  let baseNs := js_add (js_num (now * 1000000)) (- (days * 86400 * 1000000000)) in
  claimsRaw ← generateClaims entity baseNs;
  verdict ← lift (match verifyClaimSet blake3 (mkRequest KERNEL_VERSION policy claimsRaw) with
                  | inl _ => Throw (JsError "ledger.ts: synthetic claim set was rejected by the real kernel")
                  | inr v => Ok v
                  end);
  let claims := attach_ids claimsRaw (kv_submitted_claim_ids verdict) in
  let evidenceIds := sort_by string_leb (evidence_of claimsRaw) in
  merkleTree ← lift (buildMerkleTree blake3 evidenceIds);
  duration ← int 5 45;
  epoch_id ← int 1 400;
  provider ← pick ["vllm"; "anthropic"; "ollama"];
  model_id ← pick ["qwen2.5-32b-instruct"; "mistral-small-2506"; "phi-4"];
  seed ← int 1 2147483647;
  tool_calls ← int 3 22;
  turns ← int 1 8;
  let manifest :=
    mkManifest investigationId tenantId caseId (mt_root merkleTree) epoch_id
      (syntheticHash (JObj [("investigationId", JStr investigationId); ("snapshot", JStr "index")]))
      (syntheticHash (json_strs (sort_by string_leb (lc_claim_id <$> claims))))
      (kv_submitted_claim_ids verdict)
      (mkInferenceMeta provider model_id
         (slice0 32 (syntheticHash (JObj [("investigationId", JStr investigationId); ("part", JStr "weights")])))
         (Some seed))
      (kv_policy_version verdict) (kv_kernel_version verdict) "attack.v16.1"
      (kv_severity verdict) (kv_confidence verdict) (kv_disposition verdict) (kv_verdict_hash verdict)
      tool_calls turns baseNs (js_add baseNs (duration * 1000000000))
      (if makeBroken then broken_link investigationId else prevManifestHash) in
  mret (seal tenantId manifest makeBroken,
        mkCaseData investigationId caseId claims (mt_root merkleTree) merkleTree evidenceIds).

(** ** The ledger *)

Definition break_at (n : nat) (i : nat) : bool := (i =? n / 2)%nat && (3 <? n)%nat.

(** The loop variables: the manifests sealed so far, the map and [prevHash]. *)
Definition build_state : Type := list SealedManifest * gmap string LedgerCaseData * string.

Definition build_step (tenantId : string) (policy : KernelPolicy) (clock : nat → Z) (n : nat)
    (acc : build_state) (ic : nat * Case) : M Z build_state :=
  let '(manifests, caseData, prevHash) := acc in
  let '(i, c) := ic in
  r ← buildManifest tenantId (case_id c) (case_primaryEntity c) prevHash policy (break_at n i)
        (clock (length manifests));
  mret (manifests ++ [r.1], <[cd_investigationId r.2 := r.2]> caseData, sm_manifest_hash r.1).

Definition tenant_cases (cases : list Case) (tenantId : string) : list Case :=
  take MANIFESTS_PER_TENANT (filter (fun c => case_tenantId c = tenantId) cases).

Definition build_tenant (cases : list Case) (policy : KernelPolicy) (clock : nat → Z)
    (acc : list SealedManifest * gmap string LedgerCaseData) (tenantId : string)
    : M Z (list SealedManifest * gmap string LedgerCaseData) :=
  let tenantCases := tenant_cases cases tenantId in
  r ← foldM (build_step tenantId policy clock (length tenantCases)) (acc.1, acc.2, ZERO_HASH)
        (imap pair tenantCases);
  mret r.1.

Definition newest_first (a b : SealedManifest) : bool :=
  mf_completed_at_ns (sm_manifest b) - mf_completed_at_ns (sm_manifest a) <=? 0.

(** [clock k] is what [Date.now()] answers when the [k]-th manifest is built. *)
Definition buildLedger (cases : list Case) (clock : nat → Z) : outcome LedgerData :=
  let policy := buildSyntheticPolicy in
  r ← (foldM (build_tenant cases policy clock) ([], ∅) TENANTS (create 2022628)).2;
  Ok (mkLedgerData (sort_by newest_first r.1) r.2 policy).

(** The first call builds, and what it settles to, an error included, is kept. *)
Definition getLedgerData (cached : option (outcome LedgerData)) (cases : outcome (list Case))
    (clock : nat → Z) : outcome LedgerData :=
  match cached with
  | Some d => d
  | None => cs ← cases; buildLedger cs clock
  end.

End ledger.

Definition proveEvidenceInclusion (data : LedgerData) (investigationId evidenceId : string)
    : outcome (option InclusionProof) :=
  match ld_caseData data !! investigationId with
  | None => Ok None
  | Some c =>
      match index_of evidenceId (cd_evidenceIds c) with
      | None => Ok None
      | Some index => p ← proveInclusion (cd_merkleTree c) (Z.of_nat index); Ok (Some p)
      end
  end.

(** ** The routes under api/ledger/manifests *)

Definition GET_manifests (data : LedgerData) : list SealedManifest := ld_manifests data.

(** [None] is the 404 answer. *)
Definition GET_claims (data : LedgerData) (id : string)
    : option (list LedgerClaim * KernelPolicy * list string * string) :=
  c ← ld_caseData data !! id;
  Some (cd_claims c, ld_policy data, cd_evidenceIds c, cd_merkleRoot c).

Definition GET_proof (data : LedgerData) (id evidenceId : string) : outcome (option InclusionProof) :=
  proveEvidenceInclusion data id evidenceId.

(** ** What a run of the builder leaves *)

Definition generated_claim (t : Tactic) (c : RawClaim) : Prop :=
  cl_predicate c ∈ PREDICATES_BY_TACTIC t ∧ cl_evidence c ≠ [] ∧
  match cl_observed_value c with Some v => 1 <= v <= 201 | None => True end.

Lemma generateClaim_Ok entity t cursor s s' r :
  generateClaim entity t cursor s = (s', Ok r) → generated_claim t r.1.
Proof.
  unfold generateClaim. intros H.
  take_step H p Hp. apply pick_Ok in Hp. take_step H dt Hdt. take_step H n Hn.
  apply int_Ok in Hn; [|lia..]. take_step H ev Hev. take_step H b1 Hb1. take_step H o Ho.
  take_step H sp Hsp. take_step H b2 Hb2. take_step H v Hv. take_step H b3 Hb3.
  cbn in H. injection H as _ <-. split; [done|]. split; cbn [cl_evidence cl_observed_value fst].
  2: { destruct b2; [|cbn in Hv; injection Hv as _ <-; done].
       take_step Hv w Hw. cbn in Hv. injection Hv as _ <-. apply int_Ok in Hw; lia. }
  intros ->. destruct (Z.to_nat n) eqn:E; [lia|]. cbn [repeatM] in Hev.
  take_step Hev x Hx. take_step Hev xs Hxs. cbn in Hev. by injection Hev.
Qed.

(** Two tactics share no predicate. *)
Lemma PREDICATES_disjoint t u p : p ∈ PREDICATES_BY_TACTIC t → p ∈ PREDICATES_BY_TACTIC u → t = u.
Proof.
  intros Ht Hu.
  assert (forallb (fun t => forallb (fun u => forallb (fun p =>
    negb (bool_decide (p ∈ PREDICATES_BY_TACTIC u)) || bool_decide (t = u))
    (PREDICATES_BY_TACTIC t)) TACTICS) TACTICS = true) as H by (vm_compute; reflexivity).
  rewrite forallb_forall in H. specialize (H t (proj1 (list_elem_of_In _ _) (elem_of_TACTICS t))).
  rewrite forallb_forall in H. specialize (H u (proj1 (list_elem_of_In _ _) (elem_of_TACTICS u))).
  rewrite forallb_forall in H. specialize (H p (proj1 (list_elem_of_In _ _) Ht)).
  rewrite bool_decide_true in H by done. by apply bool_decide_eq_true in H.
Qed.

Definition generated (claims : list RawClaim) : Prop :=
  ∃ ts, NoDup ts ∧ Forall2 generated_claim ts claims.

Lemma generateClaims_Ok entity baseNs s s' claims :
  generateClaims entity baseNs s = (s', Ok claims) → generated claims ∧ claims ≠ [] ∧ (length claims <= 5)%nat.
Proof.
  unfold generateClaims. intros H. take_step H n Hn. apply int_Ok in Hn; [|lia..].
  take_step H ts Hts. apply pickN_Ok in Hts as (Hnd & _ & Hlen); [|apply NoDup_TACTICS].
  take_step H r Hr. cbn in H. injection H as _ <-.
  apply (foldM_prefix _ (fun done acc => Forall2 generated_claim done acc.1)) with (seen := []) in Hr;
    [|constructor|].
  - cbn [app] in Hr. pose proof (Forall2_length _ _ _ Hr) as Hl. rewrite Hlen in Hl.
    change (length TACTICS) with 12%nat in Hl. split; [by exists ts|].
    split; [intros E; rewrite E in Hl; simpl in Hl; lia|lia].
  - intros seen t rest acc s0 s1 acc' _ Hacc Hf. take_step Hf cc Hcc. cbn in Hf. injection Hf as _ <-.
    apply Forall2_app; [done|]. constructor; [|constructor]. by eapply generateClaim_Ok.
Qed.

Section sealed.
Context (blake3 : bytes → bytes).

(** How a sealed manifest and the data kept for it hang together. *)
Record sealed_ok (policy : KernelPolicy) (tenantId : string) (c : Case) (prev : string) (broken : bool)
    (sm : SealedManifest) (cd : LedgerCaseData) : Prop := {
  so_id : ∃ suffix, string_has "-" suffix = false ∧
    mf_investigation_id (sm_manifest sm) = "inv-" +:+ case_id c +:+ "-" +:+ suffix;
  so_cd_id : cd_investigationId cd = mf_investigation_id (sm_manifest sm);
  so_origin : mf_tenant_id (sm_manifest sm) = tenantId ∧ mf_case_id (sm_manifest sm) = case_id c;
  so_claims : generated (lc_raw <$> cd_claims cd) ∧ cd_claims cd ≠ [] ∧ (length (cd_claims cd) <= 5)%nat;
  so_verdict : ∃ v,
    verifyClaimSet blake3 (mkRequest KERNEL_VERSION policy (lc_raw <$> cd_claims cd)) = inr v ∧
    lc_claim_id <$> cd_claims cd = kv_submitted_claim_ids v ∧
    mf_claim_ids (sm_manifest sm) = kv_submitted_claim_ids v ∧
    mf_kernel_version (sm_manifest sm) = KERNEL_VERSION ∧
    mf_verdict_severity (sm_manifest sm) = kv_severity v ∧
    mf_verdict_confidence (sm_manifest sm) = kv_confidence v ∧
    mf_verdict_disposition (sm_manifest sm) = kv_disposition v ∧
    mf_verdict_hash (sm_manifest sm) = kv_verdict_hash v;
  so_evidence : cd_evidenceIds cd = sort_by string_leb (evidence_of (lc_raw <$> cd_claims cd));
  so_tree : buildMerkleTree blake3 (cd_evidenceIds cd) = Ok (cd_merkleTree cd) ∧
    mf_epoch_root (sm_manifest sm) = mt_root (cd_merkleTree cd) ∧ cd_merkleRoot cd = mt_root (cd_merkleTree cd);
  so_prev : mf_prev_manifest_hash (sm_manifest sm) =
    if broken then broken_link blake3 (mf_investigation_id (sm_manifest sm)) else prev;
  so_seal : sm = seal blake3 tenantId (sm_manifest sm) broken;
}.

Lemma verifyClaimSet_shape r v :
  verifyClaimSet blake3 r = inr v →
  kv_kernel_version v = kr_kernel_version r ∧ length (kv_submitted_claim_ids v) = length (kr_claims r).
Proof.
  intros (_ & _ & _ & p & _ & ->)%verifyClaimSet_iff. unfold kernel_output, wire_request.
  cbn [kv_kernel_version kv_submitted_claim_ids kr_claims kr_kernel_version]. rewrite !length_fmap.
  split; [|done]. unfold adjudicate, verdict_of. by case_match.
Qed.

Lemma attach_ids_raw claims ids : length ids = length claims →
  lc_raw <$> attach_ids claims ids = claims ∧ lc_claim_id <$> attach_ids claims ids = ids.
Proof.
  unfold attach_ids. revert ids; induction claims as [|c cs IH]; intros [|i ids] Hl; try done.
  cbn [zip_with]. rewrite !fmap_cons. destruct (IH ids) as [-> ->]; [by injection Hl|done].
Qed.

Lemma hex_digits_no_dash n s s' h : hex_digits n s = (s', Ok h) → string_has "-" h = false.
Proof.
  unfold hex_digits. intros H. take_step H ds Hds. cbn in H. injection H as _ <-.
  assert (Forall (fun d => 0 <= d) ds) as Hd.
  { clear -Hds. match type of Hds with repeatM _ _ ?s0 = (?s1, _) => revert s0 ds Hds; generalize s1 as s1' end.
    induction n as [|n IH]; intros s1 s0 ds Hds; cbn [repeatM] in Hds.
    - cbn in Hds. by injection Hds as _ <-.
    - take_step Hds x Hx. take_step Hds xs Hxs. cbn in Hds. injection Hds as _ <-.
      apply int_Ok in Hx; [|lia..]. constructor; [lia|]. by eapply IH. }
  assert (∀ l, Forall (fun x => string_has "-" x = false) l →
    string_has "-" (String.concat EmptyString l) = false) as Hc.
  { intros l. induction 1 as [|x l Hx Hl IH]; [done|]. cbn [String.concat].
    destruct l as [|y l]; [done|]. change (string_has "-" (x +:+ EmptyString +:+ String.concat EmptyString (y :: l)) = false).
    rewrite !string_has_app, Hx, IH. done. }
  apply Hc, Forall_fmap. eapply Forall_impl; [exact Hd|]. intros d Hd0. by apply to_radix_no_dash; [lia|].
Qed.

Lemma buildManifest_Ok tenantId c prev policy broken now s s' r :
  buildManifest blake3 tenantId (case_id c) (case_primaryEntity c) prev policy broken now s = (s', Ok r) →
  sealed_ok policy tenantId c prev broken r.1 r.2.
Proof.
  unfold buildManifest. intros H.
  take_step H sfx Hsuf. apply hex_digits_no_dash in Hsuf. take_step H days Hdays.
  take_step H claims Hcl. apply generateClaims_Ok in Hcl as (Hgen & Hne & Hlen).
  take_step H v Hv. apply lift_inv in Hv as [_ Hv].
  destruct (verifyClaimSet _ _) as [e|v0] eqn:Ev; [done|]. injection Hv as <-.
  pose proof (verifyClaimSet_shape _ _ Ev) as [Hkv Hids]. cbn [kr_claims kr_kernel_version] in Hkv, Hids.
  destruct (attach_ids_raw claims _ Hids) as [Hraw Hcid].
  take_step H tree Htree. apply lift_inv in Htree as [_ Htree].
  take_step H du Hdu. take_step H ep Hep. take_step H pr Hpr. take_step H mo Hmo. take_step H se Hse.
  take_step H n1 Hn1. take_step H n2 Hn2. cbn in H. injection H as _ <-.
  set (cls := attach_ids claims (kv_submitted_claim_ids v0)) in *.
  assert (length cls = length claims) as Hlc by (rewrite <- (length_fmap lc_raw cls); by rewrite Hraw).
  constructor; cbn [fst snd sm_manifest seal cd_claims cd_investigationId cd_evidenceIds cd_merkleTree
    cd_merkleRoot mf_investigation_id mf_tenant_id mf_case_id mf_claim_ids mf_kernel_version
    mf_verdict_severity mf_verdict_confidence mf_verdict_disposition mf_verdict_hash mf_epoch_root
    mf_prev_manifest_hash]; rewrite ?Hraw; try done.
  - by exists sfx.
  - split; [done|]. split; [|lia]. intros E. rewrite E in Hlc. by destruct claims.
  - exists v0. split; [exact Ev|]. by rewrite Hcid, Hkv.
Qed.

End sealed.

(** ** What the finished ledger holds *)

Notation sealed_pair := (SealedManifest * LedgerCaseData)%type.

Definition add_case (m : gmap string LedgerCaseData) (p : sealed_pair) : gmap string LedgerCaseData :=
  <[cd_investigationId p.2 := p.2]> m.

Section built.
Context (blake3 : bytes → bytes).

(** The manifests of one tenant, in the order in which they are sealed. *)
Fixpoint tenant_chain (policy : KernelPolicy) (tenantId : string) (n i : nat) (prev : string)
    (cs : list Case) (ps : list sealed_pair) : Prop :=
  match cs, ps with
  | [], [] => True
  | c :: cs', p :: ps' =>
      sealed_ok blake3 policy tenantId c prev (break_at n i) p.1 p.2 ∧
      tenant_chain policy tenantId n (S i) (sm_manifest_hash p.1) cs' ps'
  | _, _ => False
  end.

Lemma build_steps_Ok tenantId policy clock n cs k ms cd prev s s' acc :
  foldM (build_step blake3 tenantId policy clock n) (ms, cd, prev) (imap (fun j c => ((k + j)%nat, c)) cs) s
    = (s', Ok acc) →
  ∃ ps, tenant_chain policy tenantId n k prev cs ps ∧
    acc.1.1 = ms ++ ps.*1 ∧ acc.1.2 = foldl add_case cd ps.
Proof.
  revert k ms cd prev s. induction cs as [|c cs IH]; intros k ms cd prev s H.
  { cbn in H. injection H as _ <-. exists []. cbn. by rewrite app_nil_r. }
  cbn [imap foldM] in H. take_step H acc1 H1. unfold build_step in H1.
  take_step H1 r Hr. cbn in H1. injection H1 as _ <-. rewrite Nat.add_0_r in Hr.
  apply buildManifest_Ok in Hr.
  rewrite (imap_ext _ (fun j c => ((S k + j)%nat, c))) in H
    by (intros; cbn; f_equal; lia).
  apply IH in H as (ps & Hch & Hms & Hcd). exists (r :: ps). cbn [tenant_chain fmap list_fmap foldl].
  split; [done|]. split; [|done]. rewrite Hms, <- app_assoc. done.
Qed.

Definition ledger_of (policy : KernelPolicy) (cases : list Case) (pss : list (list sealed_pair))
    (ts : list string) : Prop :=
  Forall2 (fun t ps => tenant_chain policy t (length (tenant_cases cases t)) 0 ZERO_HASH
                         (tenant_cases cases t) ps) ts pss.

Lemma buildLedger_Ok cases clock data :
  buildLedger blake3 cases clock = Ok data →
  ∃ pss, ledger_of buildSyntheticPolicy cases pss TENANTS ∧
    ld_manifests data = sort_by newest_first (mjoin pss).*1 ∧
    ld_caseData data = foldl add_case ∅ (mjoin pss) ∧
    ld_policy data = buildSyntheticPolicy.
Proof.
  unfold buildLedger.
  destruct (foldM (build_tenant blake3 cases buildSyntheticPolicy clock) ([], ∅) TENANTS (create 2022628))
    as [s' [r|e]] eqn:E; [|done].
  intros [= <-].
  apply (foldM_prefix _ (fun seen acc => ∃ pss, ledger_of buildSyntheticPolicy cases pss seen ∧
    acc.1 = (mjoin pss).*1 ∧ acc.2 = foldl add_case ∅ (mjoin pss))) with (seen := []) in E.
  - destruct E as (pss & Hl & Hms & Hcd). exists pss. cbn [ld_manifests ld_caseData ld_policy].
    rewrite Hms. done.
  - exists []. split; [constructor|done].
  - intros seen t rest acc s0 s1 acc' _ (pss & Hl & Hms & Hcd) H.
    unfold build_tenant in H. take_step H x Hx. cbn in H. injection H as _ <-.
    change (imap pair (tenant_cases cases t)) with (imap (fun j c => ((0 + j)%nat, c)) (tenant_cases cases t)) in Hx.
    apply build_steps_Ok in Hx as (ps & Hch & Hms' & Hcd').
    exists (pss ++ [ps]). rewrite join_app. cbn [mjoin list_join]. rewrite app_nil_r.
    split; [apply Forall2_app; [done|by constructor]|].
    rewrite Hms', Hcd', Hms, Hcd, fmap_app, foldl_app. done.
Qed.

(** Each manifest comes from one case. *)
Definition sealed_from (policy : KernelPolicy) (c : Case) (p : sealed_pair) : Prop :=
  ∃ t prev b, sealed_ok blake3 policy t c prev b p.1 p.2.

Lemma tenant_chain_from policy t n i prev cs ps :
  tenant_chain policy t n i prev cs ps → Forall2 (sealed_from policy) cs ps.
Proof.
  revert i prev ps. induction cs as [|c cs IH]; intros i prev [|p ps] H; try done.
  destruct H as [Hp H]. constructor; [by exists t, prev, (break_at n i)|by eapply IH].
Qed.

Lemma ledger_from policy cases pss ts :
  ledger_of policy cases pss ts → Forall2 (sealed_from policy) (mjoin (tenant_cases cases <$> ts)) (mjoin pss).
Proof.
  induction 1 as [|t ps ts pss Ht Hts IH]; [constructor|]. rewrite fmap_cons. cbn [mjoin list_join].
  apply Forall2_app; [by eapply tenant_chain_from|done].
Qed.

Lemma last_dash_inj a b s t :
  string_has "-" s = false → string_has "-" t = false →
  a +:+ String "-" s = b +:+ String "-" t → a = b.
Proof.
  intros Hs Ht. revert b. induction a as [|c a IH]; intros [|d b] Heq.
  - done.
  - exfalso. injection Heq as _ Heq. change (s = b +:+ String "-" t) in Heq.
    rewrite Heq, string_has_app in Hs. apply orb_false_iff in Hs as [_ Hs]. by cbn in Hs.
  - exfalso. injection Heq as _ Heq. change (a +:+ String "-" s = t) in Heq.
    rewrite <- Heq, string_has_app in Ht. apply orb_false_iff in Ht as [_ Ht]. by cbn in Ht.
  - injection Heq as -> Heq. f_equal. by apply IH.
Qed.

Lemma same_investigation policy c d p q :
  sealed_from policy c p → sealed_from policy d q →
  cd_investigationId p.2 = cd_investigationId q.2 → case_id c = case_id d.
Proof.
  intros (t & prev & b & Hp) (t' & prev' & b' & Hq) Heq.
  destruct (so_id _ _ _ _ _ _ _ _ Hp) as (s1 & Hs1 & E1).
  destruct (so_id _ _ _ _ _ _ _ _ Hq) as (s2 & Hs2 & E2).
  rewrite (so_cd_id _ _ _ _ _ _ _ _ Hp), (so_cd_id _ _ _ _ _ _ _ _ Hq), E1, E2 in Heq.
  injection Heq as Heq. by apply (last_dash_inj _ _ s1 s2).
Qed.

Lemma tenant_cases_elem cases t c : c ∈ tenant_cases cases t → c ∈ cases ∧ case_tenantId c = t.
Proof.
  unfold tenant_cases. intros Hc. apply (elem_of_take) in Hc as (i & Hi & _).
  apply list_elem_of_lookup_2, list_elem_of_filter in Hi as [? ?]. done.
Qed.

Lemma picked_cases_NoDup cases :
  NoDup (case_id <$> cases) → NoDup (case_id <$> mjoin (tenant_cases cases <$> TENANTS)).
Proof.
  intros Hnd.
  assert (∀ x, x ∈ mjoin (tenant_cases cases <$> TENANTS) → x ∈ cases) as Hin.
  { intros x (l & Hx & (t & -> & _)%list_elem_of_fmap)%list_elem_of_join. by apply tenant_cases_elem in Hx as [? ?]. }
  apply NoDup_fmap_on.
  - intros x y Hx%Hin Hy%Hin. by apply NoDup_fmap_eq with (l := cases).
  - apply (NoDup_mjoin_map _ case_tenantId).
    + apply (bool_decide_unpack _). by vm_compute.
    + intros t. unfold tenant_cases. eapply sublist_NoDup; [|apply sublist_take].
      apply NoDup_filter. by apply NoDup_fmap_1 in Hnd.
    + intros t x Hx. by apply tenant_cases_elem in Hx as [? ?].
Qed.

Lemma investigations_NoDup policy cs ps :
  Forall2 (sealed_from policy) cs ps → NoDup (case_id <$> cs) →
  NoDup ((fun p : sealed_pair => cd_investigationId p.2) <$> ps).
Proof.
  induction 1 as [|c p cs ps Hp Hps IH]; [constructor|]. rewrite !fmap_cons.
  intros [Hc Hnd]%NoDup_cons. constructor; [|by apply IH].
  intros (q & Heq & Hq)%list_elem_of_fmap. apply Hc.
  apply list_elem_of_lookup in Hq as (i & Hi).
  destruct (Forall2_lookup_r _ _ _ _ _ Hps Hi) as (d & Hd & Hdq).
  rewrite (same_investigation policy c d p q) by done.
  apply list_elem_of_fmap. exists d. split; [done|by eapply list_elem_of_lookup_2].
Qed.

(** Every manifest of the ledger is found back, with the data it was sealed from. *)
Lemma built_manifest cases clock data sm :
  NoDup (case_id <$> cases) → buildLedger blake3 cases clock = Ok data → sm ∈ ld_manifests data →
  ∃ c cd, sealed_from buildSyntheticPolicy c (sm, cd) ∧
    ld_caseData data !! mf_investigation_id (sm_manifest sm) = Some cd ∧ ld_policy data = buildSyntheticPolicy.
Proof.
  intros Hnd Hb Hsm. apply buildLedger_Ok in Hb as (pss & Hl & Hms & Hcd & Hp).
  rewrite Hms in Hsm. apply elem_of_sort_by, list_elem_of_fmap in Hsm as ([sm' cd] & -> & Hin).
  pose proof (ledger_from _ _ _ _ Hl) as Hf.
  apply list_elem_of_lookup in Hin as (i & Hi).
  destruct (Forall2_lookup_r _ _ _ _ _ Hf Hi) as (c & Hc & Hs).
  exists c, cd. split; [exact Hs|]. split; [|done].
  destruct Hs as (t & prev & b & Hs). cbn [fst snd] in Hs |- *.
  rewrite <- (so_cd_id _ _ _ _ _ _ _ _ Hs), Hcd.
  apply (foldl_insert_lookup (fun p : sealed_pair => cd_investigationId p.2) snd _ ∅ (sm', cd)).
  - eapply investigations_NoDup; [exact Hf|]. by apply picked_cases_NoDup.
  - by eapply list_elem_of_lookup_2.
Qed.

End built.

(** ** The hash chain of a tenant *)

(** What the [i]-th manifest should name as its predecessor. *)
Definition hash_before (sms : list SealedManifest) (i : nat) : string :=
  match i with
  | O => ZERO_HASH
  | S i' => default ZERO_HASH (sm_manifest_hash <$> sms !! i')
  end.

Definition manifest_message (sm : SealedManifest) : bytes := utf8 (stringify (manifest_json (sm_manifest sm))).
Definition broken_message (sm : SealedManifest) : bytes :=
  utf8 (stringify (JObj [("broken", JStr (mf_investigation_id (sm_manifest sm)))])).

Lemma manifest_json_ok m : json_ok (manifest_json m).
Proof.
  assert (∀ l, foldr and True (map json_ok (JStr <$> l))) as Hs.
  { intros l. apply all_Forall, Forall_fmap, Forall_true. done. }
  cbn. destruct (inf_seed (mf_inference m)); repeat split; try apply Hs; try apply json_int_ok.
Qed.

Section chain.
Context (blake3 : bytes → bytes).

Lemma tenant_chain_lookup policy t n k prev cs ps i p :
  tenant_chain blake3 policy t n k prev cs ps → ps !! i = Some p →
  ∃ c, sealed_ok blake3 policy t c (match i with O => prev | S _ => hash_before ps.*1 i end)
         (break_at n (k + i)) p.1 p.2.
Proof.
  revert k prev cs i. induction ps as [|q ps IH]; intros k prev [|c cs] i H Hi; try done.
  destruct H as [Hq H]. destruct i as [|i].
  - cbn in Hi. injection Hi as <-. exists c. by rewrite Nat.add_0_r.
  - destruct (IH _ _ _ i H Hi) as (d & Hd). exists d.
    replace (k + S i)%nat with (S k + i)%nat by lia.
    destruct i as [|i]; exact Hd.
Qed.

Lemma tenant_chain_length policy t n k prev cs ps :
  tenant_chain blake3 policy t n k prev cs ps → length ps = length cs.
Proof. intros H. symmetry. by eapply Forall2_length, tenant_chain_from. Qed.

Lemma tenant_filter policy cases pss ts t :
  NoDup ts → ledger_of blake3 policy cases pss ts → t ∈ ts →
  ∃ ps, tenant_chain blake3 policy t (length (tenant_cases cases t)) 0 ZERO_HASH (tenant_cases cases t) ps ∧
    filter (fun sm => mf_tenant_id (sm_manifest sm) = t) (mjoin pss).*1 = ps.*1.
Proof.
  assert (∀ u ps, tenant_chain blake3 policy u (length (tenant_cases cases u)) 0 ZERO_HASH (tenant_cases cases u) ps →
    filter (fun sm => mf_tenant_id (sm_manifest sm) = t) ps.*1 = if decide (u = t) then ps.*1 else []) as Hone.
  { intros u ps Hch.
    assert (Forall (fun p : sealed_pair => mf_tenant_id (sm_manifest p.1) = u) ps) as Hu.
    { apply Forall_forall. intros p (i & Hi)%list_elem_of_lookup.
      destruct (tenant_chain_lookup _ _ _ _ _ _ _ _ _ Hch Hi) as (c & Hc).
      by destruct (so_origin _ _ _ _ _ _ _ _ Hc). }
    clear Hch. induction Hu as [|p ps Hp Hu IH]; [by case_decide|].
    rewrite fmap_cons, filter_cons, IH, Hp. by case_decide. }
  intros Hnd Hl. revert Hnd. induction Hl as [|u ps ts pss Hu Hts IH]; intros Hnd Hin.
  { by apply not_elem_of_nil in Hin. }
  apply NoDup_cons in Hnd as [Hut Hnd]. change (mjoin (ps :: pss)) with (ps ++ mjoin pss).
  rewrite fmap_app, filter_app, (Hone u ps Hu). apply elem_of_cons in Hin as [Heq|Hin].
  - subst u. exists ps. split; [exact Hu|]. rewrite decide_True by done.
    assert (filter (fun sm => mf_tenant_id (sm_manifest sm) = t) (mjoin pss).*1 = []) as ->;
      [|apply app_nil_r].
    clear IH Hu Hnd. induction Hts as [|v qs ts pss Hv Hts IH]; [done|].
    apply not_elem_of_cons in Hut as [Huv Hut]. change (mjoin (qs :: pss)) with (qs ++ mjoin pss).
    rewrite fmap_app, filter_app, (Hone v qs Hv), decide_False by done. by apply IH.
  - destruct (IH Hnd Hin) as (qs & Hqs & Hf). exists qs. split; [done|].
    rewrite Hf, decide_False; [done|by intros ->].
Qed.

(** The link of a manifest that is not its predecessor's hash, barring a collision. *)
Lemma broken_is_broken sm prev :
  (∀ m, Forall is_byte (blake3 m)) →
  no_collision blake3 [broken_message sm] [manifest_message prev] →
  broken_link blake3 (mf_investigation_id (sm_manifest sm)) ≠
  syntheticHash blake3 (manifest_json (sm_manifest prev)).
Proof.
  intros Hb Hnc Heq. apply bytesToHex_inj in Heq; [|apply Hb..].
  apply Hnc, utf8_inj, stringify_inj in Heq; [|done|apply manifest_json_ok|by left|by left].
  discriminate Heq.
Qed.

End chain.

(** ** The kernel run behind a manifest *)

Lemma wire_evidence c : cl_evidence (wire_claim c) = cl_evidence c.
Proof. done. Qed.

(** The kernel run behind a sealed manifest. *)
Lemma synthetic_run blake3 claims v :
  verifyClaimSet blake3 (mkRequest KERNEL_VERSION buildSyntheticPolicy claims) = inr v →
  forallb claim_fits (wire_claim <$> claims) = true ∧ Forall (fun c => cl_evidence c ≠ []) claims ∧
  v = kernel_output blake3 synthetic_bundle (wire_claim <$> claims) KERNEL_VERSION.
Proof.
  intros (_ & Hfit & Hev & p & Hp & ->)%verifyClaimSet_iff. unfold wire_request in *.
  cbn [kr_claims kr_policy kr_kernel_version] in *. split; [done|].
  destruct synthetic_wire as [Hw _]. rewrite Hw, synthetic_accepted in Hp. injection Hp as <-.
  split; [|done]. rewrite Forall_fmap in Hev. exact Hev.
Qed.

Lemma synthetic_runs blake3 claims :
  forallb claim_fits (wire_claim <$> claims) = true → Forall (fun c => cl_evidence c ≠ []) claims →
  verifyClaimSet blake3 (mkRequest KERNEL_VERSION buildSyntheticPolicy claims) =
  inr (kernel_output blake3 synthetic_bundle (wire_claim <$> claims) KERNEL_VERSION).
Proof.
  intros Hfit Hev. apply verifyClaimSet_iff. unfold wire_request. cbn [kr_claims kr_policy kr_kernel_version].
  destruct synthetic_wire as [-> Hpf]. split; [done|]. split; [done|].
  split; [by apply Forall_fmap|]. exists synthetic_bundle. split; [exact synthetic_accepted|done].
Qed.

Lemma generated_counts t c :
  generated_claim t c → is_Some (contribution synthetic_bundle (wire_claim c)).
Proof.
  intros (Hp & He & _). destruct (vocabulary_priced t _ Hp) as (pw & Hpw & _ & _).
  unfold contribution. rewrite wire_evidence. destruct (cl_evidence c); [done|]. cbn [length Nat.eqb].
  change (cl_predicate (wire_claim c)) with (cl_predicate c). rewrite Hpw. by eexists.
Qed.

(** ** Properties *)

(** C27: the manifests of a tenant, in the order they were sealed, carry the
    [chainBroken] flag exactly where the link to the predecessor does not hold:
    on the middle one when there are more than three, and nowhere otherwise. *)
Theorem chain_flags (blake3 : bytes → bytes) cases clock data t :
  (∀ m, Forall is_byte (blake3 m)) → buildLedger blake3 cases clock = Ok data → t ∈ TENANTS →
  no_collision blake3 (broken_message <$> ld_manifests data) (manifest_message <$> ld_manifests data) →
  ∃ sms, sms ≡ₚ filter (fun sm => mf_tenant_id (sm_manifest sm) = t) (ld_manifests data) ∧
    length sms = length (tenant_cases cases t) ∧
    ∀ i sm, sms !! i = Some sm →
      sm_chainBroken sm = break_at (length sms) i ∧
      (mf_prev_manifest_hash (sm_manifest sm) = hash_before sms i ↔ sm_chainBroken sm = false).
Proof.
  intros Hb Hbuild Ht Hnc. apply buildLedger_Ok in Hbuild as (pss & Hl & Hms & _ & _).
  assert (NoDup TENANTS) as Hnd by (by apply (bool_decide_unpack _); vm_compute).
  destruct (tenant_filter _ _ _ _ _ t Hnd Hl Ht)
    as (ps & Hch & Hf).
  pose proof (tenant_chain_length _ _ _ _ _ _ _ _ Hch) as Hlen.
  exists ps.*1. split; [by rewrite <- Hf, Hms, sort_by_perm|]. rewrite length_fmap. split; [done|].
  assert (∀ q, q ∈ ps.*1 → q ∈ ld_manifests data) as Hin.
  { intros q Hq. rewrite Hms, elem_of_sort_by. rewrite <- Hf in Hq.
    by apply list_elem_of_filter in Hq as [_ Hq]. }
  intros i sm Hi. rewrite list_lookup_fmap in Hi. destruct (ps !! i) as [p|] eqn:Ep; [|done].
  cbn in Hi. injection Hi as <-.
  destruct (tenant_chain_lookup _ _ _ _ _ _ _ _ _ _ Hch Ep) as (c & Hc). cbn [Nat.add] in Hc.
  rewrite <- Hlen in Hc.
  assert (sm_chainBroken p.1 = break_at (length ps) i) as Hflag by (by rewrite (so_seal _ _ _ _ _ _ _ _ Hc)).
  split; [done|]. rewrite (so_prev _ _ _ _ _ _ _ _ Hc), Hflag.
  assert (p.1 ∈ ps.*1) as Hp by (apply list_elem_of_fmap; exists p; split; [done|by eapply list_elem_of_lookup_2]).
  destruct (break_at (length ps) i) eqn:Eb.
  - split; [|done]. intros Heq. exfalso. unfold break_at in Eb.
    apply andb_true_iff in Eb as [E1%Nat.eqb_eq E2%Nat.ltb_lt].
    destruct i as [|i]; [pose proof (Nat.div_le_lower_bound (length ps) 2 1); lia|].
    apply lookup_lt_Some in Ep. destruct (lookup_lt_is_Some_2 ps i ltac:(lia)) as [q Hq].
    cbn [hash_before] in Heq. rewrite list_lookup_fmap, Hq in Heq. cbn [fmap option_fmap option_map default] in Heq.
    destruct (tenant_chain_lookup _ _ _ _ _ _ _ _ _ _ Hch Hq) as (d & Hd).
    assert (q.1 ∈ ps.*1) as Hq1 by (apply list_elem_of_fmap; exists q; split; [done|by eapply list_elem_of_lookup_2]).
    rewrite (so_seal _ _ _ _ _ _ _ _ Hd) in Heq. cbn [sm_manifest_hash seal] in Heq.
    revert Heq. apply broken_is_broken; [done|].
    eapply no_collision_mono; [exact Hnc|..]; intros m Hm; apply list_elem_of_singleton in Hm as ->;
      apply list_elem_of_fmap; eexists; (split; [reflexivity|by apply Hin]).
  - split; [done|]. intros _. by destruct i.
Qed.

(** A ledger over four cases of one tenant. *)
Definition ledger_case (id : string) : Case :=
  mkCase id "tenant-alpha" "t" "WIN-SRV-07" host high malicious 7000 [execution] 3 0 10 investigating None "s" None.

Definition ledger_on (ids : list string) : outcome LedgerData :=
  buildLedger toy_hash (ledger_case <$> ids) (fun _ => 1757462400123).

Definition chain_check (data : LedgerData) : bool :=
  (length (ld_manifests data) =? 4)%nat &&
  check_no_collision toy_hash (broken_message <$> ld_manifests data) (manifest_message <$> ld_manifests data).

Lemma chain_flags_witness :
  ∃ data sms, ledger_on ["c0"; "c1"; "c2"; "c3"] = Ok data ∧ length sms = 4%nat ∧
    sms ≡ₚ filter (fun sm => mf_tenant_id (sm_manifest sm) = "tenant-alpha") (ld_manifests data) ∧
    sm_chainBroken <$> sms = [false; false; true; false].
Proof.
  destruct (ledger_on ["c0"; "c1"; "c2"; "c3"]) as [data|e] eqn:E.
  - assert (match ledger_on ["c0"; "c1"; "c2"; "c3"] with Ok d => chain_check d | Throw _ => false end = true)
      as H by (vm_compute; reflexivity).
    rewrite E in H. unfold chain_check in H. apply andb_true_iff in H as [_ H].
    apply check_no_collision_ok in H.
    destruct (chain_flags toy_hash _ _ data "tenant-alpha" toy_hash_bytes E (list_elem_of_here _ _) H)
      as (sms & Hp & Hl & Hs).
    change (length sms = 4%nat) in Hl. exists data, sms. split; [exact eq_refl|]. split; [exact Hl|].
    split; [exact Hp|]. destruct sms as [|a [|b [|c [|d [|]]]]]; try discriminate Hl.
    rewrite !fmap_cons.
    by rewrite (proj1 (Hs 0%nat a eq_refl)), (proj1 (Hs 1%nat b eq_refl)), (proj1 (Hs 2%nat c eq_refl)),
      (proj1 (Hs 3%nat d eq_refl)).
  - exfalso. assert (match ledger_on ["c0"; "c1"; "c2"; "c3"] with Ok _ => true | Throw _ => false end = true)
      as H by (vm_compute; reflexivity).
    rewrite E in H. discriminate H.
Defined.

(** A ledger of one manifest. *)
Definition one_case : list Case := ledger_case <$> ["c0"].
Definition noon : nat → Z := fun _ => 1757462400123.

Lemma sample_ids : NoDup (case_id <$> one_case).
Proof. apply NoDup_singleton. Qed.

Lemma one_built : ∃ data sm, buildLedger toy_hash one_case noon = Ok data ∧ ld_manifests data !! 0%nat = Some sm.
Proof.
  assert (match buildLedger toy_hash one_case noon with
          | Ok d => (0 <? length (ld_manifests d))%nat | Throw _ => false end = true) as H by (vm_compute; reflexivity).
  destruct (buildLedger toy_hash one_case noon) as [data|e]; [|discriminate H].
  destruct (ld_manifests data) as [|sm sms] eqn:E; [discriminate H|]. exists data, sm. by rewrite E.
Qed.
