(* ===== verification/Wire.v ===== *)
(** * The JSON between the page and the kernel: kernel-wasm.ts and wasm_bridge/src/lib.rs

    What [JSON.stringify] makes of a request, how the bridge's input structs read it
    ([Deserialize]: members in any order, unknown ones ignored, a repeated or a
    missing one an error), and the response on its way back.  Each shape has a
    writer, a reader and a lemma that the reader gives what was written, with the
    numbers as a double prints them ([wire_int]) and refused when no [i64]. *)

From S2P Require Import Prelude JsNum Json Types Merkle Kernel Ledger.
From Stdlib Require Import Ascii.
Open Scope Z_scope.

(** ** Members *)

(** [Some None] is a member that is not there, [None] one that is there twice. *)
Definition member (key : string) (fs : list (string * json)) : option (option json) :=
  match List.filter (fun f => String.eqb f.1 key) fs with
  | [] => Some None
  | [f] => Some (Some f.2)
  | _ => None
  end.

Definition required {A} (key : string) (read : json → option A) (fs : list (string * json)) : option A :=
  m ← member key fs; v ← m; read v.

(** An [Option]: a missing member and a null are [None]. *)
Definition optional {A} (key : string) (read : json → option A) (fs : list (string * json)) : option (option A) :=
  m ← member key fs;
  match m with None | Some JNull => Some None | Some v => Some <$> read v end.

(** [#[serde(default)]] on a vector. *)
Definition defaulted {A} (key : string) (read : json → option (list A)) (fs : list (string * json)) : option (list A) :=
  m ← member key fs; match m with None => Some [] | Some v => read v end.

Definition read_object {A} (read : list (string * json) → option A) (v : json) : option A :=
  match v with JObj fs => read fs | _ => None end.
Definition read_str (v : json) : option string := match v with JStr s => Some s | _ => None end.
Definition read_list {A} (read : json → option A) (v : json) : option (list A) :=
  match v with JArr l => mapM read l | _ => None end.

(** An integer without sign, fraction or exponent but a leading minus; [-0] is a
    fraction's zero. *)
Definition integer_lexeme (n : string) : bool :=
  match n with
  | String "-" s => all_digits s && negb (String.eqb s "0")
  | _ => all_digits n
  end.
Definition read_i64 (v : json) : option Z :=
  match v with
  | JNum n => if integer_lexeme n && fits_i64 (of_radix 10 n) then Some (of_radix 10 n) else None
  | _ => None
  end.

(** ** The request *)

Record ClaimInput := mkClaimInput {
  ci_predicate : string;
  ci_subject : string;
  ci_object : option string;
  ci_interval_start_ns : Z;
  ci_interval_end_ns : Z;
  ci_evidence : list string;
  ci_extractor_kind : string;
  ci_extractor_id : string;
  ci_extractor_version : string;
  ci_observed_value : option Z;
  ci_polarity : string;
  ci_hypothesis_ref : option string;
}.

Record RequestInput := mkRequestInput {
  ri_kernel_version : string;
  ri_policy : KernelPolicy;
  ri_claims : list ClaimInput;
}.

Definition ClaimInput_read : json → option ClaimInput := read_object (fun fs =>
  predicate ← required "predicate" read_str fs;
  subject ← required "subject" read_str fs;
  object ← optional "object" read_str fs;
  interval_start_ns ← required "interval_start_ns" read_i64 fs;
  interval_end_ns ← required "interval_end_ns" read_i64 fs;
  evidence ← required "evidence" (read_list read_str) fs;
  extractor_kind ← required "extractor_kind" read_str fs;
  extractor_id ← required "extractor_id" read_str fs;
  extractor_version ← required "extractor_version" read_str fs;
  observed_value ← optional "observed_value" read_i64 fs;
  polarity ← required "polarity" read_str fs;
  hypothesis_ref ← optional "hypothesis_ref" read_str fs;
  Some (mkClaimInput predicate subject object interval_start_ns interval_end_ns evidence extractor_kind extractor_id
          extractor_version observed_value polarity hypothesis_ref)).

Definition PredicateWeightInput_read : json → option PredicateWeightInput := read_object (fun fs =>
  tactic ← required "tactic" read_str fs;
  weight ← required "weight" read_i64 fs;
  techniques ← defaulted "techniques" (read_list read_str) fs;
  Some (mkPWInput tactic weight techniques)).

Definition ChainMultiplierInput_read : json → option ChainMultiplierInput := read_object (fun fs =>
  from ← required "from" read_str fs;
  to ← required "to" read_str fs;
  bonus ← required "bonus" read_i64 fs;
  Some (mkChain from to bonus)).

(** A tuple struct is an array of its length. *)
Definition SeverityThresholdInput_read (v : json) : option (Z * string) :=
  match v with
  | JArr [score; name] => score ← read_i64 score; name ← read_str name; Some (score, name)
  | _ => None
  end.

(** A [BTreeMap]: the last of the members of one name. *)
Definition read_map {A} (read : json → option A) : json → option (gmap string A) := read_object (fun fs =>
  kvs ← mapM (fun f => v ← read f.2; Some (f.1, v)) fs;
  Some (list_to_map (reverse kvs))).

Definition PolicyInput_read : json → option KernelPolicy := read_object (fun fs =>
  policy_version ← required "policy_version" read_str fs;
  predicate_weights ← required "predicate_weights" (read_map PredicateWeightInput_read) fs;
  chain_multipliers ← defaulted "chain_multipliers" (read_list ChainMultiplierInput_read) fs;
  severity_thresholds ← required "severity_thresholds" (read_list SeverityThresholdInput_read) fs;
  Some (mkKernelPolicy policy_version predicate_weights chain_multipliers severity_thresholds)).

Definition RequestInput_read : json → option RequestInput := read_object (fun fs =>
  kernel_version ← required "kernel_version" read_str fs;
  policy ← required "policy" PolicyInput_read fs;
  claims ← required "claims" (read_list ClaimInput_read) fs;
  Some (mkRequestInput kernel_version policy claims)).

(** [JSON.stringify(request)]. *)
Definition json_opt {A} (write : A → json) (o : option A) : json := match o with Some a => write a | None => JNull end.

Definition claim_json (c : RawClaim) : json :=
  JObj [("predicate", JStr (cl_predicate c)); ("subject", JStr (cl_subject c)); ("object", json_opt JStr (cl_object c));
        ("interval_start_ns", json_num (cl_interval_start_ns c)); ("interval_end_ns", json_num (cl_interval_end_ns c));
        ("evidence", json_strs (cl_evidence c)); ("extractor_kind", JStr (cl_extractor_kind c));
        ("extractor_id", JStr (cl_extractor_id c)); ("extractor_version", JStr (cl_extractor_version c));
        ("observed_value", json_opt json_num (cl_observed_value c)); ("polarity", JStr (polarity_name (cl_polarity c)));
        ("hypothesis_ref", json_opt JStr (cl_hypothesis_ref c))].

Definition weight_json (pw : PredicateWeightInput) : json :=
  JObj [("tactic", JStr (pwi_tactic pw)); ("weight", json_num (pwi_weight pw)); ("techniques", json_strs (pwi_techniques pw))].
Definition chain_json (cm : ChainMultiplierInput) : json :=
  JObj [("from", JStr (cm_from cm)); ("to", JStr (cm_to cm)); ("bonus", json_num (cm_bonus cm))].
Definition threshold_json (t : Z * string) : json := JArr [json_num t.1; JStr t.2].

Section request.
(** The order of an object's keys, which the map of the model does not keep. *)
Context (keys : gmap string PredicateWeightInput → list (string * PredicateWeightInput)).

Definition policy_json (p : KernelPolicy) : json :=
  JObj [("policy_version", JStr (kp_policy_version p));
        ("predicate_weights", JObj ((fun kv => (kv.1, weight_json kv.2)) <$> keys (kp_predicate_weights p)));
        ("chain_multipliers", JArr (chain_json <$> kp_chain_multipliers p));
        ("severity_thresholds", JArr (threshold_json <$> kp_severity_thresholds p))].

Definition request_json (r : KernelRequest) : json :=
  JObj [("kernel_version", JStr (kr_kernel_version r)); ("policy", policy_json (kr_policy r));
        ("claims", JArr (claim_json <$> kr_claims r))].
End request.

(** ** The response *)

(** [serde_json::to_string] of the output: an i64 with all its digits. *)
Definition ContributingClaimOutput_json (c : AttributedClaim) : json :=
  JObj [("claim_id", JStr (ac_claim_id c)); ("predicate", JStr (ac_predicate c));
        ("attributed_weight", json_int (ac_attributed_weight c))].

Definition VerdictOutput_json (v : KernelVerdict) : json :=
  JObj [("severity", JStr (severity_name (kv_severity v))); ("confidence", json_int (kv_confidence v));
        ("disposition", JStr (disposition_name (kv_disposition v))); ("attack_techniques", json_strs (kv_attack_techniques v));
        ("contributing_claims", JArr (ContributingClaimOutput_json <$> kv_contributing_claims v));
        ("policy_version", JStr (kv_policy_version v)); ("kernel_version", JStr (kv_kernel_version v));
        ("verdict_hash", JStr (kv_verdict_hash v)); ("submitted_claim_ids", json_strs (kv_submitted_claim_ids v))].

Definition ErrorOutput_json (msg : string) : json := JObj [("error", JStr msg)].

(** The page's view of it.  A number is the nearest double; [None] is an object that is
    not of the type the cast gives it. *)
Definition read_double (v : json) : option Z :=
  match v with JNum n => if integer_lexeme n then Some (js_num (of_radix 10 n)) else None | _ => None end.
Definition field_of {A} (key : string) (read : json → option A) (v : json) : option A := json_field key v ≫= read.
Definition read_name {A} (named : string → option A) (v : json) : option A := read_str v ≫= named.

Definition KernelContributingClaim_view (v : json) : option AttributedClaim :=
  id ← field_of "claim_id" read_str v;
  predicate ← field_of "predicate" read_str v;
  weight ← field_of "attributed_weight" read_double v;
  Some (mkAttributed id predicate weight).

Definition KernelVerdict_view (v : json) : option KernelVerdict :=
  severity ← field_of "severity" (read_name severity_from_name) v;
  confidence ← field_of "confidence" read_double v;
  disposition ← field_of "disposition" (read_name (of_name DISPOSITIONS disposition_name)) v;
  attack_techniques ← field_of "attack_techniques" (read_list read_str) v;
  contributing_claims ← field_of "contributing_claims" (read_list KernelContributingClaim_view) v;
  policy_version ← field_of "policy_version" read_str v;
  kernel_version ← field_of "kernel_version" read_str v;
  verdict_hash ← field_of "verdict_hash" read_str v;
  submitted_claim_ids ← field_of "submitted_claim_ids" (read_list read_str) v;
  Some (mkKernelVerdict severity confidence disposition attack_techniques contributing_claims policy_version
          kernel_version verdict_hash submitted_claim_ids).

(** [{ ok: false, error }] and [{ ok: true, verdict }]. *)
Definition KernelResult : Type := string + KernelVerdict.

Definition result_of (parsed : json) : option KernelResult :=
  match json_field "error" parsed with
  | Some e => inl <$> read_str e
  | None => inr <$> KernelVerdict_view parsed
  end.

(** The verdict with its numbers as doubles. *)
Definition as_doubles (v : KernelVerdict) : KernelVerdict :=
  mkKernelVerdict (kv_severity v) (js_num (kv_confidence v)) (kv_disposition v) (kv_attack_techniques v)
    ((fun c => mkAttributed (ac_claim_id c) (ac_predicate c) (js_num (ac_attributed_weight c))) <$> kv_contributing_claims v)
    (kv_policy_version v) (kv_kernel_version v) (kv_verdict_hash v) (kv_submitted_claim_ids v).

(** ** Reading what was written *)

Lemma to_dec_shape z : integer_lexeme (to_dec z) = true.
Proof.
  unfold to_dec, to_radix. destruct (Z.ltb_spec z 0) as [Hz|Hz].
  - cbn [integer_lexeme]. rewrite radix_all_digits by done. cbn [andb]. apply negb_true_iff.
    destruct (String.eqb_spec (radix_digits (radix_fuel (- z)) 10 (- z) EmptyString) "0") as [E|]; [|done].
    assert (of_radix_from 10 0 (radix_digits (radix_fuel (- z)) 10 (- z) EmptyString) = - z) as H.
    { apply of_radix_digits; [done|]. split; [lia|]. apply radix_fuel_enough. lia. }
    rewrite E in H. change (0 = - z) in H. lia.
  - pose proof (radix_all_digits (radix_fuel z) z EmptyString eq_refl) as H. unfold integer_lexeme.
    destruct (radix_digits (radix_fuel z) 10 z EmptyString) as [|c s] eqn:E; [done|].
    destruct c as [[] [] [] [] [] [] [] []]; done.
Qed.

Lemma read_i64_int z : read_i64 (json_int z) = if fits_i64 z then Some z else None.
Proof. unfold read_i64, json_int. rewrite to_dec_shape. unfold to_dec. by rewrite of_to_radix. Qed.

Lemma read_double_int z : read_double (json_int z) = Some (js_num z).
Proof. unfold read_double, json_int. rewrite to_dec_shape. unfold to_dec. by rewrite of_to_radix. Qed.

(** A reader that refuses what is out of range. *)
Definition guarded {A} (ok : bool) (a : A) : option A := if ok then Some a else None.

Lemma guarded_bind {A B} ok (a : A) (f : A → option B) : guarded ok a ≫= f = if ok then f a else None.
Proof. by destruct ok. Qed.

Lemma mapM_guarded {A B C} (read : B → option C) (write : A → B) (ok : A → bool) (g : A → C) l :
  (∀ a, read (write a) = guarded (ok a) (g a)) → mapM read (write <$> l) = guarded (forallb ok l) (g <$> l).
Proof.
  intros H. induction l as [|a l IH]; [done|]. cbn [fmap list_fmap mapM forallb]. rewrite H.
  destruct (ok a); cbn [guarded mbind option_bind andb]; [|done].
  change (list_fmap _ _ write l) with (write <$> l). rewrite IH. by destruct (forallb ok l).
Qed.

Lemma forallb_fmap {A B} (g : A → B) (f : B → bool) l : forallb f (g <$> l) = forallb (fun a => f (g a)) l.
Proof. induction l as [|a l IH]; [done|]. cbn. by rewrite <- IH. Qed.

Lemma mapM_written {A B C} (read : B → option C) (write : A → B) (g : A → C) l :
  (∀ a, read (write a) = Some (g a)) → mapM read (write <$> l) = Some (g <$> l).
Proof.
  intros H. rewrite (mapM_guarded read write (fun _ => true) g) by done.
  assert (forallb (fun _ : A => true) l = true) as -> by by apply forallb_forall. done.
Qed.

Lemma read_strs l : read_list read_str (json_strs l) = Some l.
Proof.
  unfold read_list, json_strs. rewrite (mapM_written _ _ (fun s => s)) by done. f_equal. apply list_fmap_id.
Qed.

Definition input_of (c : RawClaim) : ClaimInput :=
  mkClaimInput (cl_predicate c) (cl_subject c) (cl_object c) (cl_interval_start_ns c) (cl_interval_end_ns c)
    (cl_evidence c) (cl_extractor_kind c) (cl_extractor_id c) (cl_extractor_version c) (cl_observed_value c)
    (polarity_name (cl_polarity c)) (cl_hypothesis_ref c).

Lemma read_num z : read_i64 (json_num z) = guarded (fits_i64 (wire_int z)) (wire_int z).
Proof. apply read_i64_int. Qed.

(** Looking a member up among members whose names are known. *)
Lemma required_hit {A} key (read : json → option A) fs v : member key fs = Some (Some v) → required key read fs = read v.
Proof. unfold required. by intros ->. Qed.
Lemma optional_opt {A B} key (read : json → option A) (write : B → json) (norm : B → option A) fs o :
  member key fs = Some (Some (json_opt write o)) → (∀ b, write b ≠ JNull) → (∀ b, read (write b) = norm b) →
  optional key read fs = match o with Some b => Some <$> norm b | None => Some None end.
Proof.
  unfold optional. intros -> Hn H. destruct o as [b|]; [|done]. cbn [json_opt mbind option_bind].
  destruct (write b) eqn:E; rewrite <- ?E, <- ?H in *; try done. by destruct (Hn b).
Qed.
Lemma defaulted_hit {A} key (read : json → option (list A)) fs v : member key fs = Some (Some v) → defaulted key read fs = read v.
Proof. unfold defaulted. by intros ->. Qed.

Ltac read_member := cbn [fst snd]; first
  [ erewrite required_hit by reflexivity
  | erewrite defaulted_hit by reflexivity
  | erewrite (optional_opt _ read_str JStr Some); [|reflexivity|done|done]
  | erewrite (optional_opt _ read_i64 json_num (fun z => guarded (fits_i64 (wire_int z)) (wire_int z)));
      [|reflexivity|intros ? ?; discriminate|intros ?; apply read_num] ].

Lemma claim_read c : ClaimInput_read (claim_json c) = guarded (claim_fits (wire_claim c)) (input_of (wire_claim c)).
Proof.
  unfold ClaimInput_read, claim_json, read_object. repeat read_member. cbn [fst snd]. rewrite read_strs, !read_num. cbn [read_str mbind option_bind].
  destruct c as [predicate subject object start end_ evidence kind id version observed polarity hypothesis].
  unfold claim_fits. cbn [wire_claim cl_interval_start_ns cl_interval_end_ns cl_observed_value cl_object cl_hypothesis_ref].
  destruct (fits_i64 (wire_int start)); [|by destruct object].
  destruct (fits_i64 (wire_int end_)); [|by destruct object].
  destruct object, hypothesis, observed as [v|]; cbn; try done; by destruct (fits_i64 (wire_int v)).
Qed.

Lemma weight_read pw : PredicateWeightInput_read (weight_json pw) =
  guarded (fits_i64 (wire_int (pwi_weight pw))) (mkPWInput (pwi_tactic pw) (wire_int (pwi_weight pw)) (pwi_techniques pw)).
Proof.
  unfold PredicateWeightInput_read, weight_json, read_object. repeat read_member. cbn [fst snd]. rewrite read_strs, read_num.
  cbn. by destruct (fits_i64 _).
Qed.

Lemma chain_read cm : ChainMultiplierInput_read (chain_json cm) =
  guarded (fits_i64 (wire_int (cm_bonus cm))) (mkChain (cm_from cm) (cm_to cm) (wire_int (cm_bonus cm))).
Proof.
  unfold ChainMultiplierInput_read, chain_json, read_object. repeat read_member. cbn [fst snd]. rewrite read_num. cbn. by destruct (fits_i64 _).
Qed.

Lemma threshold_read t : SeverityThresholdInput_read (threshold_json t) = guarded (fits_i64 (wire_int t.1)) (wire_int t.1, t.2).
Proof. cbn [threshold_json SeverityThresholdInput_read]. rewrite read_num. by destruct (fits_i64 _). Qed.

Section request_read.
Context (keys : gmap string PredicateWeightInput → list (string * PredicateWeightInput)).
Context (keys_perm : ∀ m, keys m ≡ₚ map_to_list m).

Lemma keys_map m : list_to_map (keys m) = m ∧ NoDup (keys m).*1.
Proof.
  assert (NoDup (keys m).*1) as Hnd by (rewrite keys_perm; apply NoDup_fst_map_to_list). split; [|done].
  rewrite (list_to_map_proper (keys m) (map_to_list m)) by done. apply list_to_map_to_list.
Qed.

Definition wire_weight (pw : PredicateWeightInput) : PredicateWeightInput :=
  mkPWInput (pwi_tactic pw) (wire_int (pwi_weight pw)) (pwi_techniques pw).

Lemma weights_read m :
  read_map PredicateWeightInput_read (JObj ((fun kv => (kv.1, weight_json kv.2)) <$> keys m)) =
  guarded (bool_decide (map_Forall (fun _ pw => fits_i64 (pwi_weight pw) = true) (wire_weight <$> m))) (wire_weight <$> m).
Proof.
  unfold read_map, read_object. destruct (keys_map m) as [Hm Hnd].
  rewrite (mapM_guarded _ _ (fun kv => fits_i64 (pwi_weight (wire_weight kv.2))) (fun kv => (kv.1, wire_weight kv.2))).
  2: { intros [k pw]. cbn [fst snd]. rewrite weight_read. by destruct (fits_i64 _) eqn:E; cbn; rewrite ?E. }
  assert (list_to_map (reverse ((fun kv : string * PredicateWeightInput => (kv.1, wire_weight kv.2)) <$> keys m)) = wire_weight <$> m) as E.
  { assert (((fun kv : string * PredicateWeightInput => (kv.1, wire_weight kv.2)) <$> keys m).*1 = (keys m).*1) as Efst
      by (rewrite <- list_fmap_compose; by apply list_fmap_ext).
    rewrite (list_to_map_proper _ ((fun kv => (kv.1, wire_weight kv.2)) <$> keys m)).
    - rewrite <- Hm at 2. by rewrite <- list_to_map_fmap.
    - rewrite reverse_Permutation, Efst. done.
    - apply reverse_Permutation. }
  assert (forallb (fun kv => fits_i64 (pwi_weight (wire_weight kv.2))) (keys m) =
    bool_decide (map_Forall (fun _ pw => fits_i64 (pwi_weight pw) = true) (wire_weight <$> m))) as ->.
  { apply eq_true_iff_eq. rewrite bool_decide_eq_true, map_Forall_fmap, map_Forall_to_list, <- (keys_perm m), forallb_forall, Forall_forall.
    setoid_rewrite <- list_elem_of_In. split; [intros H [k pw] Hk; exact (H _ Hk)|intros H [k pw] Hk; exact (H _ Hk)]. }
  destruct (bool_decide _); cbn [guarded mbind option_bind]; [by rewrite E|done].
Qed.

Lemma policy_read p : PolicyInput_read (policy_json keys p) = guarded (policy_fits (wire_policy p)) (wire_policy p).
Proof.
  unfold PolicyInput_read, policy_json, read_object. repeat read_member. cbn [fst snd]. rewrite weights_read. unfold read_list.
  rewrite (mapM_guarded _ _ _ _ _ chain_read), (mapM_guarded _ _ _ _ _ threshold_read). cbn [read_str mbind option_bind].
  unfold policy_fits. cbn [wire_policy kp_predicate_weights kp_chain_multipliers kp_severity_thresholds].
  change (fun pw : PredicateWeightInput => mkPWInput (pwi_tactic pw) (wire_int (pwi_weight pw)) (pwi_techniques pw)) with wire_weight.
  rewrite !forallb_fmap. unfold guarded.
  destruct (bool_decide _); cbn [andb mbind option_bind]; [|done].
  destruct (forallb _ (kp_chain_multipliers p)) eqn:E1; cbn [andb mbind option_bind]; [|done].
  destruct (forallb _ (kp_severity_thresholds p)) eqn:E2; cbn [andb mbind option_bind]; done.
Qed.

(** A request arrives as [wire_request] says, or is refused. *)
Lemma request_read r :
  RequestInput_read (request_json keys r) =
  let w := wire_request r in
  guarded (policy_fits (kr_policy w) && forallb claim_fits (kr_claims w))
    (mkRequestInput (kr_kernel_version w) (kr_policy w) (input_of <$> kr_claims w)).
Proof.
  unfold RequestInput_read, request_json, read_object. repeat read_member. cbn [fst snd]. rewrite policy_read. unfold read_list.
  rewrite (mapM_guarded _ _ _ _ _ claim_read). cbn [read_str mbind option_bind wire_request kr_policy kr_claims kr_kernel_version].
  rewrite forallb_fmap, <- list_fmap_compose. unfold guarded.
  destruct (policy_fits _); cbn [andb mbind option_bind]; [|done]. by destruct (forallb _ _).
Qed.
End request_read.

(** ** The response, and what is printed *)

Lemma named_disposition d : of_name DISPOSITIONS disposition_name (disposition_name d) = Some d.
Proof. by destruct d. Qed.

Lemma field_hit {A} key (read : json → option A) v w : json_field key v = Some w → field_of key read v = read w.
Proof. unfold field_of. by intros ->. Qed.

Ltac read_fields := repeat (erewrite field_hit by reflexivity; cbn [fst snd]).

Lemma contributing_view c : KernelContributingClaim_view (ContributingClaimOutput_json c) =
  Some (mkAttributed (ac_claim_id c) (ac_predicate c) (js_num (ac_attributed_weight c))).
Proof. unfold KernelContributingClaim_view. read_fields. by rewrite read_double_int. Qed.

Lemma verdict_view v : result_of (VerdictOutput_json v) = Some (inr (as_doubles v)).
Proof.
  unfold result_of. assert (json_field "error" (VerdictOutput_json v) = None) as -> by reflexivity.
  unfold KernelVerdict_view. read_fields. rewrite read_double_int, !read_strs. unfold read_list. rewrite (mapM_written _ _ _ _ contributing_view).
  cbn [read_name read_str mbind option_bind]. unfold read_name. cbn [read_str mbind option_bind].
  unfold severity_from_name. by rewrite of_name_severity, named_disposition.
Qed.

Lemma error_view msg : result_of (ErrorOutput_json msg) = Some (inl msg).
Proof. reflexivity. Qed.

(** What the two sides print is JSON. *)
Lemma json_ok_strs l : json_ok (json_strs l).
Proof. unfold json_strs. cbn. apply all_Forall, Forall_fmap, Forall_forall. done. Qed.
Lemma json_ok_opt {A} (write : A → json) o : (∀ a, json_ok (write a)) → json_ok (json_opt write o).
Proof. intros H. destruct o as [a|]; [apply H|exact I]. Qed.
Lemma json_ok_list {A} (write : A → json) l : (∀ a, json_ok (write a)) → json_ok (JArr (write <$> l)).
Proof. intros H. cbn. apply all_Forall, Forall_fmap, Forall_forall. intros a _. apply H. Qed.
Lemma json_ok_obj fs : Forall (fun f => json_ok f.2) fs → json_ok (JObj fs).
Proof. intros H. cbn. rewrite <- (map_map snd json_ok), all_Forall. by apply Forall_fmap. Qed.

#[local] Hint Resolve json_ok_strs json_ok_opt json_ok_list json_int_ok : wire.
#[local] Hint Extern 1 (json_ok (json_num _)) => apply json_int_ok : wire.
#[local] Hint Extern 1 (json_ok (JStr _)) => exact I : wire.

Ltac prints := intros; apply json_ok_obj; repeat first [apply List.Forall_cons | apply List.Forall_nil]; cbn [snd]; auto with wire.

Lemma claim_prints c : json_ok (claim_json c).
Proof. prints. Qed.
Lemma weight_prints pw : json_ok (weight_json pw).
Proof. prints. Qed.
Lemma chain_prints cm : json_ok (chain_json cm).
Proof. prints. Qed.
Lemma threshold_prints t : json_ok (threshold_json t).
Proof. cbn. split; [apply json_int_ok|done]. Qed.

#[local] Hint Resolve claim_prints chain_prints threshold_prints : wire.

Lemma request_prints keys r : json_ok (request_json keys r).
Proof.
  assert (json_ok (policy_json keys (kr_policy r))) as Hp.
  { prints. apply json_ok_obj, Forall_fmap, Forall_forall. intros [k pw] _. apply weight_prints. }
  prints.
Qed.

Lemma response_prints v : json_ok (VerdictOutput_json v).
Proof. prints. apply json_ok_list. prints. Qed.
