(* ===== verification/Bridge.v ===== *)
(** * The kernel behind its memory: kernel-wasm.ts, kernel-wasm-server.ts and wasm_bridge/src/lib.rs

    The loader with its cached instance, the four exported functions over the linear
    memory, and the call that takes a request through it: allocate, write, run,
    read the result, free.  Rust's allocator is a parameter ([Host]): where it puts
    a block, how much larger a growing buffer gets, and what is left in memory that
    nobody owns; it never places a block over one in use.  [None] is undefined
    behaviour: a pointer that does not own what it is used for. *)

From S2P Require Import Prelude JsNum Json Text Types Merkle Kernel Policy Ledger Wire.
From Stdlib Require Import Ascii.
Open Scope Z_scope.

(** [from_utf8] and [TextDecoder]: bytes that are no text with code points below 256
    have none in the model. *)
Fixpoint from_utf8 (l : bytes) : option string :=
  match l with
  | [] => Some EmptyString
  | b :: l' =>
      if (0 <=? b) && (b <? 128) then String (char_of b) <$> from_utf8 l'
      else match l' with
           | c :: l'' =>
               if ((b =? 194) || (b =? 195)) && (128 <=? c) && (c <? 192)
               then String (char_of ((b - 192) * 64 + (c - 128))) <$> from_utf8 l'' else None
           | [] => None
           end
  end.

(** ** The bridge on text *)

Inductive bridge_error := BE (e : kernel_error) | BE_polarity (i : nat).

Definition polarity_from_name : string → option Polarity := of_name [supports; refutes] polarity_name.

(** [build_claim] on each claim, up to the first error. *)
Fixpoint build_claims (i : nat) (claims : list ClaimInput) : bridge_error + list RawClaim :=
  match claims with
  | [] => inr []
  | c :: cs =>
      match polarity_from_name (ci_polarity c) with
      | None => inl (BE_polarity i)
      | Some polarity =>
          if (length (ci_evidence c) =? 0)%nat then inl (BE (E_claim_evidence i))
          else match build_claims (S i) cs with
               | inl e => inl e
               | inr built =>
                   inr (mkRawClaim (ci_predicate c) (ci_subject c) (ci_object c) (ci_interval_start_ns c) (ci_interval_end_ns c)
                          (ci_evidence c) (ci_extractor_kind c) (ci_extractor_id c) (ci_extractor_version c)
                          (ci_observed_value c) polarity (ci_hypothesis_ref c) :: built)
               end
      end
  end.

Section bridge.
Context (blake3 : bytes → bytes) (say : bridge_error → string).

Definition err_json (e : bridge_error) : string := stringify (ErrorOutput_json (say e)).

Definition adjudicate_json (request_json : string) : string :=
  match parse_json request_json ≫= RequestInput_read with
  | None => err_json (BE E_parse)
  | Some request =>
      match build_policy (ri_policy request) with
      | inl e => err_json (BE e)
      | inr policy =>
          match build_claims 0 (ri_claims request) with
          | inl e => err_json e
          | inr claims => stringify (VerdictOutput_json (kernel_output blake3 policy claims (ri_kernel_version request)))
          end
      end
  end.

(** ** Linear memory *)

Record Host := mkHost {
  place : nat → gmap Z nat → nat → Z;
  grow : nat → nat → nat;
  noise : nat → Z → Z;
}.

Record HostLaws (h : Host) : Prop := {
  place_positive : ∀ t live n, 0 < place h t live n;
  place_apart : ∀ t live n p m, (0 < n)%nat → live !! p = Some m →
    place h t live n + Z.of_nat n <= p ∨ p + Z.of_nat m <= place h t live n;
  grow_enough : ∀ t n, (n <= grow h t n)%nat;
}.

(** The blocks in use with their sizes, and RESULT: its address, length and capacity. *)
Record Linear := mkLinear {
  ln_mem : Z → Z;
  ln_live : gmap Z nat;
  ln_result : Z * nat * nat;
  ln_tick : nat;
}.

Definition owned (live : gmap Z nat) (a : Z) : Prop := map_Exists (fun p n => p <= a < p + Z.of_nat n) live.

#[export] Instance owned_dec live a : Decision (owned live a).
Proof. unfold owned. apply _. Defined.

Definition read_bytes (mem : Z → Z) (p : Z) (n : nat) : bytes := (fun i => mem (p + Z.of_nat i)) <$> seq 0 n.
Definition write_bytes (p : Z) (bs : bytes) (mem : Z → Z) : Z → Z := fun a =>
  if a <? p then mem a else default (mem a) (bs !! Z.to_nat (a - p)).

Context (h : Host).

(** What the allocator leaves of the memory nobody owns. *)
Definition disturb (l : Linear) : Linear :=
  mkLinear (fun a => if decide (owned (ln_live l) a) then ln_mem l a else noise h (ln_tick l) a)
    (ln_live l) (ln_result l) (S (ln_tick l)).

(** A [Vec] of a capacity: none allocates, and points at 1. *)
Definition alloc (n : nat) (l : Linear) : Z * Linear :=
  if (n =? 0)%nat then (1, l)
  else let p := place h (ln_tick l) (ln_live l) n in
       (p, disturb (mkLinear (ln_mem l) (<[p := n]> (ln_live l)) (ln_result l) (ln_tick l))).

Definition free (p : Z) (n : nat) (l : Linear) : option Linear :=
  if (n =? 0)%nat then Some l
  else if decide (ln_live l !! p = Some n)
       then Some (disturb (mkLinear (ln_mem l) (delete p (ln_live l)) (ln_result l) (ln_tick l)))
       else None.

Definition wasm_alloc (len : nat) (l : Linear) : Z * Linear := alloc len l.
Definition wasm_dealloc (ptr : Z) (len : nat) (l : Linear) : option Linear := if ptr =? 0 then Some l else free ptr len l.

(** [*r.borrow_mut() = response.into_bytes()]: the new buffer is there before the old
    one goes. *)
Definition store (response : string) (l : Linear) : option Linear :=
  let bs := utf8 response in
  let cap := grow h (ln_tick l) (length bs) in
  let '(q, l) := alloc cap l in
  let '(p, _, n) := ln_result l in
  free p n (mkLinear (write_bytes q bs (ln_mem l)) (ln_live l) (q, length bs, cap) (ln_tick l)).

Definition wasm_adjudicate (ptr : Z) (len : nat) (l : Linear) : option (Z * Linear) :=
  if decide (len = 0%nat ∨ ln_live l !! ptr = Some len) then
    match from_utf8 (read_bytes (ln_mem l) ptr len) with
    | None => l ← store (stringify (ErrorOutput_json "request bytes are not valid UTF-8")) l; Some (0, l)
    | Some request => l ← store (adjudicate_json request) l; Some (1, l)
    end
  else None.

Definition wasm_result_ptr (l : Linear) : Z := (ln_result l).1.1.
Definition wasm_result_len (l : Linear) : nat := (ln_result l).1.2.

(** ** The caller *)

(** The module's cached promise. *)
Inductive Instance := Unloaded | Rejected (e : js_error) | Ready (l : Linear).

Definition instantiated : Linear := mkLinear (noise h 0) ∅ (1, 0%nat, 0%nat) 1.

(** [load] is how fetching, or reading, and instantiating the file would end now. *)
Definition getInstance (load : outcome unit) (i : Instance) : Instance :=
  match i with
  | Unloaded => match load with Ok _ => Ready instantiated | Throw e => Rejected e end
  | _ => i
  end.

Context (keys : gmap string PredicateWeightInput → list (string * PredicateWeightInput)).

(** What the result's bytes are to the page: [TextDecoder] and [JSON.parse]. *)
Definition decoded (resultBytes : bytes) : outcome KernelResult :=
  or_throw (JsError "SyntaxError") (text ← from_utf8 resultBytes; parsed ← parse_json text; result_of parsed).

(** [verifyClaimSet] once the instance is there, and its [finally]. *)
Definition call (request : KernelRequest) (l : Linear) : option (Linear * outcome KernelResult) :=
  let requestBytes := utf8 (stringify (request_json keys request)) in
  let '(ptr, l) := wasm_alloc (length requestBytes) l in
  let l := mkLinear (write_bytes ptr requestBytes (ln_mem l)) (ln_live l) (ln_result l) (ln_tick l) in
  ran ← wasm_adjudicate ptr (length requestBytes) l;
  let '(ok, l) := ran in
  let answer :=
    if ok =? 1 then decoded (read_bytes (ln_mem l) (wasm_result_ptr l) (wasm_result_len l))
    else Throw (JsError "kernel-verify.wasm: request bytes were not valid UTF-8") in
  l ← wasm_dealloc ptr (length requestBytes) l;
  Some (l, answer).

Definition verifyClaimSet_wasm (load : outcome unit) (request : KernelRequest) (i : Instance)
    : option (Instance * outcome KernelResult) :=
  match getInstance load i with
  | Ready l => r ← call request l; Some (Ready r.1, r.2)
  | i => Some (i, match i with Rejected e => Throw e | _ => Throw TypeError end)
  end.

(** kernel-wasm-server.ts: an instance of its own, and [read] for the file on disk. *)
Definition getInstanceServer (read : outcome unit) (i : Instance) : Instance :=
  match i with
  | Unloaded => match read with Ok _ => Ready instantiated | Throw e => Rejected e end
  | _ => i
  end.

Definition verifyClaimSetServer (read : outcome unit) (request : KernelRequest) (i : Instance)
    : option (Instance * outcome KernelResult) :=
  match getInstanceServer read i with
  | Ready l => r ← call request l; Some (Ready r.1, r.2)
  | i => Some (i, match i with Rejected e => Throw e | _ => Throw TypeError end)
  end.

(** The calls of a session, each with what a load at its time would give. *)
Fixpoint session (calls : list (outcome unit * KernelRequest)) (i : Instance) : option (Instance * list (outcome KernelResult)) :=
  match calls with
  | [] => Some (i, [])
  | c :: cs => r ← verifyClaimSet_wasm c.1 c.2 i; rs ← session cs r.1; Some (rs.1, r.2 :: rs.2)
  end.
End bridge.

(** ** On text *)

Lemma from_utf8_utf8 s : from_utf8 (utf8 s) = Some s.
Proof.
  induction s as [|c s IH]; [done|]. cbn [utf8]. fold (code c). pose proof (code_range c) as Hc.
  destruct (Z.ltb_spec (code c) 128) as [Hlt|Hge].
  - cbn [from_utf8]. rewrite (proj2 (Z.leb_le 0 _)), (proj2 (Z.ltb_lt _ _)), IH by lia. cbn. by rewrite char_of_code.
  - assert (Z.lor 192 (Z.shiftr (code c) 6) = 192 + code c / 64 ∧ Z.lor 128 (Z.land (code c) 63) = 128 + code c mod 64) as [-> ->].
    { assert (Forall (fun n => Z.lor 192 (Z.shiftr n 6) = 192 + n / 64 ∧ Z.lor 128 (Z.land n 63) = 128 + n mod 64) (seqZ 128 128)) as Hall
        by (repeat (apply List.Forall_cons; [split; reflexivity|]); apply List.Forall_nil).
      rewrite Forall_forall in Hall. apply Hall, elem_of_seqZ. lia. }
    assert (2 <= code c / 64 <= 3) as Hhi by (split; [apply Z.div_le_lower_bound; lia|apply Z.lt_succ_r, Z.div_lt_upper_bound; lia]).
    pose proof (Z.mod_pos_bound (code c) 64 ltac:(lia)) as Hlo. cbn [from_utf8].
    rewrite (proj2 (Z.ltb_ge (192 + code c / 64) 128)), andb_false_r by lia.
    replace ((192 + code c / 64 =? 194) || (192 + code c / 64 =? 195)) with true by (symmetry; rewrite orb_true_iff, !Z.eqb_eq; lia).
    rewrite (proj2 (Z.leb_le 128 _)), (proj2 (Z.ltb_lt _ _)), IH by lia. cbn. do 2 f_equal.
    replace ((192 + code c / 64 - 192) * 64 + (128 + code c mod 64 - 128)) with (code c) by (pose proof (Z.div_mod (code c) 64); lia).
    apply char_of_code.
Qed.

Lemma build_claims_typed i cs :
  build_claims i (input_of <$> cs) = match first_without_evidence i cs with Some k => inl (BE (E_claim_evidence k)) | None => inr cs end.
Proof.
  revert i. induction cs as [|c cs IH]; intros i; [done|]. cbn [fmap list_fmap build_claims first_without_evidence input_of ci_polarity ci_evidence].
  assert (polarity_from_name (polarity_name (cl_polarity c)) = Some (cl_polarity c)) as -> by by destruct (cl_polarity c).
  destruct (length (cl_evidence c) =? 0)%nat; [done|]. change (list_fmap _ _ input_of cs) with (input_of <$> cs). rewrite IH.
  destruct (first_without_evidence (S i) cs); [done|]. by destruct c.
Qed.

Section bridge_text.
Context (blake3 : bytes → bytes) (say : bridge_error → string).

(** What the page makes of a verdict or an error. *)
Definition seen_by_page (r : kernel_error + KernelVerdict) : KernelResult :=
  match r with inl e => inl (say (BE e)) | inr v => inr (as_doubles v) end.

Lemma decoded_text text parsed r : parse_json text = Some parsed → result_of parsed = Some r → decoded (utf8 text) = Ok r.
Proof. intros Hp Hr. unfold decoded. rewrite from_utf8_utf8. cbn [mbind option_bind]. rewrite Hp. cbn [mbind option_bind]. by rewrite Hr. Qed.

Lemma err_decoded e : decoded (utf8 (err_json say e)) = Ok (inl (say e)).
Proof. exact (decoded_text _ _ _ (parse_stringify (ErrorOutput_json (say e)) (conj I I)) (error_view (say e))). Qed.

Lemma adjudicate_json_typed keys r : (∀ m, keys m ≡ₚ map_to_list m) →
  adjudicate_json blake3 say (stringify (request_json keys r)) =
  match verifyClaimSet blake3 r with inl e => err_json say (BE e) | inr v => stringify (VerdictOutput_json v) end.
Proof.
  intros Hkeys. unfold adjudicate_json, verifyClaimSet.
  assert (parse_json (stringify (request_json keys r)) = Some (request_json keys r)) as -> by apply parse_stringify, request_prints.
  cbn [mbind option_bind]. rewrite (request_read keys Hkeys). cbv zeta. set (w := wire_request r).
  destruct (policy_fits (kr_policy w) && forallb claim_fits (kr_claims w)); cbn [guarded]; [|reflexivity].
  unfold adjudicate_request. cbn [ri_policy ri_claims ri_kernel_version]. destruct (build_policy (kr_policy w)) as [e|p]; [reflexivity|].
  rewrite build_claims_typed. by destruct (first_without_evidence 0 (kr_claims w)).
Qed.

Lemma verdict_decoded v : decoded (utf8 (stringify (VerdictOutput_json v))) = Ok (inr (as_doubles v)).
Proof. exact (decoded_text _ _ _ (parse_stringify _ (response_prints v)) (verdict_view v)). Qed.

Lemma bridge_on_text keys r : (∀ m, keys m ≡ₚ map_to_list m) →
  decoded (utf8 (adjudicate_json blake3 say (stringify (request_json keys r)))) = Ok (seen_by_page (verifyClaimSet blake3 r)).
Proof.
  intros Hkeys. rewrite adjudicate_json_typed by done. destruct (verifyClaimSet blake3 r); [apply err_decoded|apply verdict_decoded].
Qed.
End bridge_text.

(** ** In memory *)

Lemma read_bytes_ext m m' p n : (∀ i, (i < n)%nat → m (p + Z.of_nat i) = m' (p + Z.of_nat i)) → read_bytes m p n = read_bytes m' p n.
Proof. intros H. unfold read_bytes. apply list_fmap_ext. intros i x [-> Hi]%lookup_seq. by apply H. Qed.

Lemma read_write p bs m : read_bytes (write_bytes p bs m) p (length bs) = bs.
Proof.
  apply list_eq. intros i. unfold read_bytes. rewrite list_lookup_fmap. destruct (decide (i < length bs)%nat) as [Hi|Hi].
  - rewrite lookup_seq_lt by done. cbn. unfold write_bytes. rewrite (proj2 (Z.ltb_ge _ _)) by lia.
    replace (Z.to_nat (p + Z.of_nat i - p)) with i by lia. destruct (lookup_lt_is_Some_2 _ _ Hi) as [b ->]. done.
  - rewrite lookup_seq_ge by lia. symmetry. apply lookup_ge_None_2. lia.
Qed.

Lemma owned_at live p n i : live !! p = Some n → (i < n)%nat → owned live (p + Z.of_nat i).
Proof. intros Hp Hi. exists p, n. split; [done|]. lia. Qed.

Section memory.
Context (h : Host) (Hh : HostLaws h).

(** No block is empty. *)
Definition solid (live : gmap Z nat) : Prop := map_Forall (fun _ n => (0 < n)%nat) live.

Lemma disturb_keeps l p n k : ln_live l !! p = Some n → (k <= n)%nat →
  read_bytes (ln_mem (disturb h l)) p k = read_bytes (ln_mem l) p k.
Proof.
  intros Hp Hk. apply read_bytes_ext. intros i Hi. cbn [disturb ln_mem]. rewrite decide_True; [done|].
  apply (owned_at _ _ n); [done|lia].
Qed.

Lemma place_fresh t live n : solid live → (0 < n)%nat → live !! place h t live n = None.
Proof.
  intros Hs Hn. destruct (live !! place h t live n) as [m|] eqn:E; [|done].
  pose proof (Hs _ _ E). pose proof (place_apart h Hh t live n _ _ Hn E). cbn in *. lia.
Qed.

Lemma solid_insert live p n : solid live → (0 < n)%nat → solid (<[p := n]> live).
Proof. intros Hs Hn. by apply map_Forall_insert_2. Qed.

Lemma solid_delete live p : solid live → solid (delete p live).
Proof. apply map_Forall_delete. Qed.

Lemma free_ok p n l : (n = 0%nat ∨ ln_live l !! p = Some n) →
  ∃ l', free h p n l = Some l' ∧ ln_live l' = (if decide (n = 0%nat) then ln_live l else delete p (ln_live l)) ∧
    ln_result l' = ln_result l ∧
    ∀ q m k, ln_live l' !! q = Some m → (k <= m)%nat → read_bytes (ln_mem l') q k = read_bytes (ln_mem l) q k.
Proof.
  intros Hp. unfold free. destruct (Nat.eqb_spec n 0) as [->|Hn]; [by exists l|].
  destruct Hp as [?|Hp]; [done|]. rewrite decide_True by done. eexists. split; [done|].
  rewrite (decide_False (P := n = 0%nat)) by done. split; [done|]. split; [done|].
  intros q m k Hq Hk. exact (disturb_keeps (mkLinear (ln_mem l) (delete p (ln_live l)) (ln_result l) (ln_tick l)) q m k Hq Hk).
Qed.

(** RESULT owns its buffer, and nothing else is in use but [live]. *)
Definition holds (live : gmap Z nat) (l : Linear) : Prop :=
  let '(p, len, cap) := ln_result l in
  solid (ln_live l) ∧ ln_live l = (if decide (cap = 0%nat) then live else <[p := cap]> live) ∧
  (cap ≠ 0%nat → live !! p = None) ∧ (len <= cap)%nat.

Lemma store_ok s live l : holds live l → (0 < length (utf8 s))%nat →
  ∃ l', store h s l = Some l' ∧ holds live l' ∧ (ln_result l').2 ≠ 0%nat ∧
    read_bytes (ln_mem l') (wasm_result_ptr l') (wasm_result_len l') = utf8 s.
Proof.
  unfold holds at 1. destruct (ln_result l) as [[p len] cap] eqn:Er. intros (Hs & Hlive & Hfresh & _) Hpos.
  unfold store. cbv zeta. pose proof (grow_enough h Hh (ln_tick l) (length (utf8 s))) as Hg.
  set (n := grow h (ln_tick l) (length (utf8 s))) in *. unfold alloc. destruct (Nat.eqb_spec n 0) as [|Hn]; [lia|].
  set (q := place h (ln_tick l) (ln_live l) n). cbn [disturb ln_result ln_mem ln_live ln_tick]. rewrite Er.
  assert (ln_live l !! q = None) as Hq by (apply place_fresh; [done|lia]).
  assert (live !! q = None ∧ (cap ≠ 0%nat → p ≠ q)) as [Hql Hpq].
  { rewrite Hlive in Hq. destruct (decide (cap = 0%nat)); [done|]. by apply lookup_insert_None in Hq as [? ?]. }
  match goal with |- ∃ l', free _ _ _ ?m = _ ∧ _ => set (m0 := m) end.
  assert (cap = 0%nat ∨ ln_live m0 !! p = Some cap) as Hown.
  { destruct (decide (cap = 0%nat)) as [|Hc]; [by left|]. right. cbn. rewrite lookup_insert_ne by (intros E; by apply Hpq).
    by rewrite Hlive, lookup_insert_eq. }
  destruct (free_ok p cap m0 Hown) as (l' & Hf & Hl' & Hr' & Hread). exists l'. split; [done|].
  assert (ln_live l' = <[q := n]> live) as El'.
  { rewrite Hl'. cbn [m0 ln_live]. destruct (decide (cap = 0%nat)) as [->|Hc]; [by rewrite Hlive|].
    rewrite Hlive, delete_insert_ne, delete_insert_id by (done || by apply Hfresh || (intros E; by apply (Hpq Hc))). done. }
  unfold holds, wasm_result_ptr, wasm_result_len. rewrite Hr'. cbn [m0 ln_result fst snd]. split; [|split; [done|]].
  - split; [|split; [by rewrite decide_False|split; [done|done]]].
    rewrite Hl'. destruct (decide (cap = 0%nat)); [|apply solid_delete]; (apply solid_insert; [done|lia]).
  - rewrite (Hread q n _) by (by rewrite ?El', ?lookup_insert_eq). apply read_write.
Qed.

Lemma holds_alloc n l : holds ∅ l → (0 < n)%nat → ∀ bs,
  let '(ptr, l1) := wasm_alloc h n l in
  let l2 := mkLinear (write_bytes ptr bs (ln_mem l1)) (ln_live l1) (ln_result l1) (ln_tick l1) in
  holds {[ptr := n]} l2 ∧ ln_live l2 !! ptr = Some n ∧ ptr ≠ 0 ∧ (length bs = n → read_bytes (ln_mem l2) ptr n = bs).
Proof.
  unfold holds at 1. destruct (ln_result l) as [[p len] cap] eqn:Er. intros (Hs & Hlive & _ & Hlen) Hn bs.
  unfold wasm_alloc, alloc. destruct (Nat.eqb_spec n 0) as [|_]; [lia|]. cbv zeta.
  set (ptr := place h (ln_tick l) (ln_live l) n). cbn [disturb ln_mem ln_live ln_result ln_tick].
  assert (ln_live l !! ptr = None) as Hp by (apply place_fresh; done).
  split; [|split; [apply lookup_insert_eq|split; [pose proof (place_positive h Hh (ln_tick l) (ln_live l) n); lia|]]].
  - unfold holds. cbn [ln_result ln_live]. rewrite Er. split; [by apply solid_insert|].
    rewrite Hlive in Hp |- *. destruct (decide (cap = 0%nat)) as [Hc|Hc]; [by rewrite insert_empty|].
    apply lookup_insert_None in Hp as [_ Hp]. split; [rewrite <- insert_empty; by apply insert_insert_ne|].
    split; [|done]. intros _. rewrite lookup_singleton_ne; done.
  - intros <-. apply read_write.
Qed.

Lemma holds_free n ptr l : holds {[ptr := n]} l → ptr ≠ 0 → (0 < n)%nat → ∃ l', wasm_dealloc h ptr n l = Some l' ∧ holds ∅ l' ∧ ln_result l' = ln_result l.
Proof.
  unfold holds at 1. destruct (ln_result l) as [[p len] cap] eqn:Er. intros (Hs & Hlive & Hfresh & Hlen) H0 Hn.
  assert (cap ≠ 0%nat → p ≠ ptr) as Hne by (intros Hc E; specialize (Hfresh Hc); by rewrite E, lookup_singleton_eq in Hfresh).
  assert (ln_live l !! ptr = Some n) as Hown.
  { rewrite Hlive. destruct (decide (cap = 0%nat)); [apply lookup_singleton_eq|]. rewrite lookup_insert_ne by auto. apply lookup_singleton_eq. }
  destruct (free_ok ptr n l (or_intror Hown)) as (l' & Hf & Hl' & Hr' & _). exists l'. unfold wasm_dealloc.
  rewrite (proj2 (Z.eqb_neq _ _)) by done. split; [done|]. split; [|by rewrite Hr']. unfold holds. rewrite Hr', Er, Hl', decide_False by lia.
  split; [by apply solid_delete|]. rewrite Hlive. destruct (decide (cap = 0%nat)).
  - split; [by rewrite delete_singleton_eq|]. done.
  - split; [|done]. by rewrite delete_insert_ne, delete_singleton_eq by naive_solver.
Qed.

Lemma text_not_empty v : json_ok v → (0 < length (utf8 (stringify v)))%nat.
Proof.
  intros Hv. destruct (stringify_head v EmptyString Hv) as (c & s & E & _). rewrite append_empty_r in E. rewrite E. cbn [utf8].
  destruct (_ <? 128); cbn; lia.
Qed.

Lemma adjudicate_json_not_empty blake3 say s : (0 < length (utf8 (adjudicate_json blake3 say s)))%nat.
Proof.
  assert (∀ e, (0 < length (utf8 (err_json say e)))%nat) as He by (intros e; exact (text_not_empty (ErrorOutput_json (say e)) (conj I I))).
  unfold adjudicate_json. destruct (_ ≫= _) as [r|]; [|apply He]. destruct (build_policy _) as [e|p]; [apply He|].
  destruct (build_claims _ _) as [e|cs]; [apply He|]. apply text_not_empty, response_prints.
Qed.

(** A call answers, and leaves its request's block free. *)
Lemma call_ok blake3 say keys request l : (∀ m, keys m ≡ₚ map_to_list m) → holds ∅ l →
  ∃ l', call blake3 say h keys request l = Some (l', Ok (seen_by_page say (verifyClaimSet blake3 request))) ∧ holds ∅ l' ∧
    (ln_result l').2 ≠ 0%nat.
Proof.
  intros Hkeys Hl. unfold call. cbv zeta. set (text := stringify (request_json keys request)). set (bs := utf8 text).
  assert (0 < length bs)%nat as Hn by apply text_not_empty, request_prints.
  pose proof (holds_alloc (length bs) l Hl Hn bs) as Ha. destruct (wasm_alloc h (length bs) l) as [ptr l1]. cbv zeta in Ha.
  set (l2 := mkLinear _ _ _ _) in *. destruct Ha as (Hh2 & Hown & Hptr & Hread). unfold wasm_adjudicate.
  rewrite decide_True by (by right). rewrite Hread by done. unfold bs at 2. rewrite from_utf8_utf8.
  destruct (store_ok (adjudicate_json blake3 say text) _ l2 Hh2 (adjudicate_json_not_empty _ _ _)) as (l3 & -> & Hh3 & Hcap & Hres).
  cbn [mbind option_bind]. rewrite Z.eqb_refl, Hres. unfold text. rewrite bridge_on_text by done.
  destruct (holds_free _ _ l3 Hh3 Hptr Hn) as (l4 & -> & Hh4 & Hr4). cbn [mbind option_bind].
  exists l4. by rewrite Hr4.
Qed.

Lemma session_ready blake3 say keys calls l : (∀ m, keys m ≡ₚ map_to_list m) → holds ∅ l →
  ∃ l', session blake3 say h keys calls (Ready l) =
      Some (Ready l', (fun c => Ok (seen_by_page say (verifyClaimSet blake3 c.2))) <$> calls) ∧
    holds ∅ l' ∧ (calls ≠ [] ∨ (ln_result l).2 ≠ 0%nat → (ln_result l').2 ≠ 0%nat).
Proof.
  intros Hkeys. revert l. induction calls as [|[load request] calls IH]; intros l Hl.
  { exists l. split; [done|]. split; [done|]. by intros [?|?]. }
  cbn [session]. unfold verifyClaimSet_wasm. cbn [getInstance fst snd].
  destruct (call_ok blake3 say keys request l Hkeys Hl) as (l1 & -> & Hl1 & Hc1). cbn [mbind option_bind fst snd].
  destruct (IH l1 Hl1) as (l2 & -> & Hl2 & Hc2). cbn [mbind option_bind fst snd]. exists l2. split; [done|]. split; [done|].
  intros _. apply Hc2. by right.
Qed.

Lemma session_rejected blake3 say keys calls e :
  session blake3 say h keys calls (Rejected e) = Some (Rejected e, (fun _ => Throw e) <$> calls).
Proof. induction calls as [|c calls IH]; [done|]. cbn [session verifyClaimSet_wasm getInstance mbind option_bind fst snd]. by rewrite IH. Qed.

Lemma holds_instantiated : holds ∅ (instantiated h).
Proof. by split. Qed.
End memory.

(** ** Properties *)

(** C25: the kernel through its memory.  In a session of any length, wherever the
    allocator puts its blocks and whatever it leaves in freed ones, no call reads or
    frees memory that is not its own; if the first load succeeds every answer is the
    kernel's on the request as its numbers print, with the verdict's numbers as
    doubles, and after each call only the result's buffer is still in use; if the
    first load fails every later call fails like it, even when the file could be
    loaded again, since the rejected promise is what is cached. *)
Theorem bridge_session blake3 say h keys load request calls :
  HostLaws h → (∀ m, keys m ≡ₚ map_to_list m) →
  ∃ i answers, session blake3 say h keys ((load, request) :: calls) Unloaded = Some (i, answers) ∧
    match load with
    | Ok _ => answers = (fun c => Ok (seen_by_page say (verifyClaimSet blake3 c.2))) <$> ((load, request) :: calls) ∧
        ∃ l p n, i = Ready l ∧ ln_live l = {[p := n]}
    | Throw e => i = Rejected e ∧ answers = (fun _ => Throw e) <$> ((load, request) :: calls)
    end.
Proof.
  intros Hh Hkeys. destruct load as [[]|e].
  - destruct (session_ready h Hh blake3 say keys ((Ok tt, request) :: calls) (instantiated h) Hkeys (holds_instantiated h))
      as (l & Hs & Hl & Hc).
    exists (Ready l), ((fun c => Ok (seen_by_page say (verifyClaimSet blake3 c.2))) <$> (Ok tt, request) :: calls).
    split; [exact Hs|]. split; [done|]. unfold holds in Hl. destruct (ln_result l) as [[p len] cap] eqn:Er.
    destruct Hl as (_ & Hlive & _). rewrite decide_False in Hlive by (apply Hc; by left). by exists l, p, cap.
  - exists (Rejected e), ((fun _ => Throw e) <$> (Throw e, request) :: calls). split; [|done].
    exact (session_rejected h blake3 say keys ((Throw e, request) :: calls) e).
Qed.

(** An allocator that puts every block behind the last, and a file that is missing once. *)
Definition bump_host : Host :=
  mkHost (fun _ live _ => 1 + foldr Z.max 0 ((fun b => b.1 + Z.of_nat b.2) <$> map_to_list live)) (fun _ n => (n + 7)%nat) (fun _ _ => 255).

Lemma bump_host_laws : HostLaws bump_host.
Proof.
  assert (∀ l : list Z, 0 <= foldr Z.max 0 l) as H0 by (induction l as [|x l IH]; cbn; lia).
  split.
  - intros t live n. cbn. pose proof (H0 ((fun b => b.1 + Z.of_nat b.2) <$> map_to_list live)). lia.
  - intros t live n p m _ Hp. right. cbn. apply elem_of_map_to_list in Hp.
    apply (list_elem_of_fmap_2 (fun b => b.1 + Z.of_nat b.2)) in Hp. cbn in Hp.
    induction Hp as [x l|x y l _ IH]; cbn; lia.
  - intros t n. cbn. lia.
Qed.

Definition lone_request : KernelRequest := mkRequest "k" buildSyntheticPolicy [demo_claim "A" "e1"].

Lemma bridge_session_witness :
  (∃ i answers, session (fun m => m) (fun _ => "refused") bump_host map_to_list [(Ok tt, lone_request); (Ok tt, lone_request)] Unloaded = Some (i, answers) ∧
     length answers = 2%nat) ∧
  ∃ i, session (fun m => m) (fun _ => "refused") bump_host map_to_list [(Throw TypeError, lone_request); (Ok tt, lone_request)] Unloaded =
    Some (i, [Throw TypeError; Throw TypeError]).
Proof.
  split.
  - destruct (bridge_session (fun m => m) (fun _ => "refused") bump_host map_to_list (Ok tt) lone_request [(Ok tt, lone_request)] bump_host_laws (fun _ => reflexivity _))
      as (i & answers & H & E & _). exists i, answers. split; [exact H|]. exact (f_equal length E).
  - destruct (bridge_session (fun m => m) (fun _ => "refused") bump_host map_to_list (Throw TypeError) lone_request [(Ok tt, lone_request)] bump_host_laws (fun _ => reflexivity _))
      as (i & answers & H & _ & E). exists i. rewrite E in H. exact H.
Defined.
