(* ===== verification/Verify.v ===== *)
(** * The verification panel: web/src/components/verdict-ledger

    The run behind the "Verify" and "Simulate tampered claim" buttons
    (verification-panel.tsx) and the manifest selection (verdict-ledger-client.tsx).
    The network is a [Net]: what each request of the panel is answered. *)

From S2P Require Import Prelude JsNum Json Rng Types Seed Merkle Kernel Policy Ledger.
From Stdlib Require Import Ascii QArith Qround.
Open Scope Z_scope.

Inductive StepStatus := pending | active | finished | failed.
Inductive Result := idle | matches | mismatch | error.

#[export] Instance StepStatus_eq_dec : EqDecision StepStatus.
Proof. solve_decision. Defined.
#[export] Instance Result_eq_dec : EqDecision Result.
Proof. solve_decision. Defined.

Inductive panel_error :=
| Msg (text : string)
| KernelMsg (e : kernel_error)
| Caught (e : js_error).

Record Panel := mkPanel {
  p_steps : list (string * StepStatus);
  p_result : Result;
  p_recomputedHash : option string;
  p_errorMsg : option panel_error;
  p_tampered : bool;
  p_running : bool;
}.

Definition INITIAL_STEPS : list (string * StepStatus) :=
  [("fetch", pending); ("evidence", pending); ("kernel", pending); ("compare", pending)].

Definition initial_panel : Panel := mkPanel INITIAL_STEPS idle None None false false.

Definition setStep (id : string) (status : StepStatus) : M Panel unit := fun p =>
  (mkPanel ((fun step => if decide (step.1 = id) then (step.1, status) else step) <$> p_steps p)
     (p_result p) (p_recomputedHash p) (p_errorMsg p) (p_tampered p) (p_running p), Ok tt).
Definition setResult (r : Result) : M Panel unit := fun p =>
  (mkPanel (p_steps p) r (p_recomputedHash p) (p_errorMsg p) (p_tampered p) (p_running p), Ok tt).
Definition setErrorMsg (e : panel_error) : M Panel unit := fun p =>
  (mkPanel (p_steps p) (p_result p) (p_recomputedHash p) (Some e) (p_tampered p) (p_running p), Ok tt).
Definition setRecomputedHash (h : string) : M Panel unit := fun p =>
  (mkPanel (p_steps p) (p_result p) (Some h) (p_errorMsg p) (p_tampered p) (p_running p), Ok tt).

(** The answers to the panel's requests: a body without claims ([None]) is the
    404's, a proof that is not served is [None], and the kernel's [.wasm] file
    loads or not.  A failed request throws. *)
Record Net := mkNet {
  net_claims : string → outcome (option (list LedgerClaim * KernelPolicy));
  net_proof : string → string → outcome (option InclusionProof);
  net_wasm : outcome unit;
}.

(** The console's own server over a ledger. *)
Definition served (data : LedgerData) : Net :=
  mkNet
    (fun id => Ok (match GET_claims data id with Some (cs, p, _, _) => Some (cs, p) | None => None end))
    (fun id evidenceId => Ok (match GET_proof data id evidenceId with Ok o => o | Throw _ => None end))
    (Ok tt).

(** [i === 0 ? { ...c, observed_value: (c.observed_value ?? 0) + 999999 } : c] *)
Definition tampered_claim (c : RawClaim) : RawClaim :=
  mkRawClaim (cl_predicate c) (cl_subject c) (cl_object c) (cl_interval_start_ns c)
    (cl_interval_end_ns c) (cl_evidence c) (cl_extractor_kind c) (cl_extractor_id c)
    (cl_extractor_version c) (Some (js_add (default 0 (cl_observed_value c)) 999999))
    (cl_polarity c) (cl_hypothesis_ref c).

Definition tamper (claims : list RawClaim) : list RawClaim :=
  match claims with c :: cs => tampered_claim c :: cs | [] => [] end.

Section panel.
Context (blake3 : bytes → bytes) (net : Net).

(** The loop over the evidence, which stops at the first that fails. *)
Fixpoint check_evidence (id : string) (evidenceIds : list string) : outcome bool :=
  match evidenceIds with
  | [] => Ok true
  | e :: es =>
      proof ← net_proof net id e;
      match proof with
      | None => Ok false
      | Some p => if verifyInclusion blake3 e p then check_evidence id es else Ok false
      end
  end.

(** The [try] block, with its early returns. *)
Definition verification (sealed : SealedManifest) (withTamper : bool) : M Panel unit :=
  let id := mf_investigation_id (sm_manifest sealed) in
  _ ← setStep "fetch" active;
  body ← lift (net_claims net id);
  cp ← lift (or_throw TypeError body);
  let claims := lc_raw <$> cp.1 in
  _ ← (if (length claims =? 0)%nat then throw (JsError "no claims returned for this investigation")
       else mret tt);
  _ ← setStep "fetch" finished;
  _ ← setStep "evidence" active;
  allValid ← lift (check_evidence id (evidence_of claims));
  if negb allValid then
    _ ← setStep "evidence" failed;
    _ ← setResult mismatch;
    setErrorMsg (Msg "An evidence hash failed inclusion verification against the epoch root.")
  else
    _ ← setStep "evidence" finished;
    _ ← setStep "kernel" active;
    let requestClaims := if withTamper then tamper claims else claims in
    _ ← lift (net_wasm net);
    match verifyClaimSet blake3 (mkRequest (mf_kernel_version (sm_manifest sealed)) cp.2 requestClaims) with
    | inl e =>
        _ ← setStep "kernel" failed;
        _ ← setResult error;
        setErrorMsg (KernelMsg e)
    | inr verdict =>
        _ ← setStep "kernel" finished;
        _ ← setStep "compare" active;
        _ ← setRecomputedHash (kv_verdict_hash verdict);
        let same := bool_decide (kv_verdict_hash verdict = mf_verdict_hash (sm_manifest sealed)) in
        _ ← setStep "compare" (if same then finished else failed);
        setResult (if same then matches else mismatch)
    end.

(** The state the panel ends in: [catch] and [finally] included. *)
Definition runVerification (sealed : SealedManifest) (withTamper : bool) : Panel :=
  let start := mkPanel INITIAL_STEPS idle None None withTamper true in
  let p := match verification sealed withTamper start with
           | (p, Ok _) => p
           | (p, Throw e) =>
               mkPanel (p_steps p) error (p_recomputedHash p) (Some (Caught e)) (p_tampered p) (p_running p)
           end in
  mkPanel (p_steps p) (p_result p) (p_recomputedHash p) (p_errorMsg p) (p_tampered p) false.

End panel.

(** What the panel shows below the steps. *)
Inductive Banner :=
| Seal (hash : option string)
| Broken (title : string) (stored_and_recomputed : option (string * string)) (msg : option panel_error)
| ErrorBox (msg : panel_error)
| Nothing.

Definition banner (sealed : SealedManifest) (p : Panel) : Banner :=
  match p_result p with
  | matches => Seal (p_recomputedHash p)
  | mismatch =>
      Broken (if p_tampered p then "Verification failed (expected -- claim set was tampered)"
              else "Verification failed")
        ((fun h => (mf_verdict_hash (sm_manifest sealed), h)) <$> p_recomputedHash p) (p_errorMsg p)
  | error => match p_errorMsg p with Some m => ErrorBox m | None => Nothing end
  | idle => Nothing
  end.

(** verdict-ledger-client.tsx: one render, [(selectedId, selected)]. *)
Definition select_manifest (manifests : list SealedManifest) (selectedId : option string)
    : option string * option SealedManifest :=
  let selectedId :=
    match selectedId, manifests with
    | (None | Some EmptyString), m :: _ => Some (mf_investigation_id (sm_manifest m))
    | _, _ => selectedId
    end in
  (selectedId,
   head (filter (fun m => Some (mf_investigation_id (sm_manifest m)) = selectedId) manifests)).

(** ** Runs *)

(** Go through the steps of a run up to the next test. *)
Ltac run_panel :=
  cbv beta iota zeta delta [mbind M_bind mret M_ret lift or_throw throw setStep setResult setErrorMsg
    setRecomputedHash fst snd negb p_steps p_result p_recomputedHash p_errorMsg p_tampered p_running].

Lemma check_evidence_true blake3 net id es :
  check_evidence blake3 net id es = Ok true ↔
  ∀ e, e ∈ es → ∃ p, net_proof net id e = Ok (Some p) ∧ verifyInclusion blake3 e p = true.
Proof.
  induction es as [|e es IH]; cbn [check_evidence].
  { split; [by intros _ e He%not_elem_of_nil|done]. }
  destruct (net_proof net id e) as [[p|]|x] eqn:Ep; cbn [mbind outcome_bind].
  - destruct (verifyInclusion blake3 e p) eqn:Ev.
    + rewrite IH. split.
      * intros H e' [->|He]%elem_of_cons; [by exists p|by apply H].
      * intros H e' He. apply H. by right.
    + split; [done|]. intros H. destruct (H e) as (q & Hq & Hv); [by left|]. congruence.
  - split; [done|]. intros H. destruct (H e) as (q & Hq & Hv); [by left|]. congruence.
  - split; [done|]. intros H. destruct (H e) as (q & Hq & Hv); [by left|]. congruence.
Qed.

Section runs.
Context (blake3 : bytes → bytes) (net : Net) (sealed : SealedManifest) (withTamper : bool).

Abbreviation id := (mf_investigation_id (sm_manifest sealed)).

(** What a run asks for, and the request it ends with. *)
Definition evidence_passes (claims : list LedgerClaim) : Prop :=
  ∀ e, e ∈ evidence_of (lc_raw <$> claims) →
    ∃ p, net_proof net id e = Ok (Some p) ∧ verifyInclusion blake3 e p = true.

Definition final_request (claims : list LedgerClaim) (policy : KernelPolicy) : KernelRequest :=
  mkRequest (mf_kernel_version (sm_manifest sealed)) policy
    (if withTamper then tamper (lc_raw <$> claims) else lc_raw <$> claims).

Lemma run_done claims policy v :
  net_claims net id = Ok (Some (claims, policy)) → claims ≠ [] → evidence_passes claims →
  net_wasm net = Ok tt → verifyClaimSet blake3 (final_request claims policy) = inr v →
  runVerification blake3 net sealed withTamper =
  let same := bool_decide (kv_verdict_hash v = mf_verdict_hash (sm_manifest sealed)) in
  mkPanel [("fetch", finished); ("evidence", finished); ("kernel", finished);
           ("compare", if same then finished else failed)]
    (if same then matches else mismatch) (Some (kv_verdict_hash v)) None withTamper false.
Proof.
  intros Hc Hne He Hw Hv. unfold runVerification, verification, final_request in *.
  apply check_evidence_true in He. rewrite Hc.
  run_panel. rewrite length_fmap.
  rewrite (proj2 (Nat.eqb_neq _ 0)) by (by destruct claims).
  run_panel. rewrite He.
  run_panel. rewrite Hw. run_panel.
  rewrite Hv. by destruct (bool_decide _).
Qed.

Lemma run_matches :
  p_result (runVerification blake3 net sealed withTamper) = matches ↔
  ∃ claims policy v, net_claims net id = Ok (Some (claims, policy)) ∧ claims ≠ [] ∧ evidence_passes claims ∧
    net_wasm net = Ok tt ∧ verifyClaimSet blake3 (final_request claims policy) = inr v ∧
    kv_verdict_hash v = mf_verdict_hash (sm_manifest sealed).
Proof.
  split.
  - unfold runVerification, verification, evidence_passes, final_request.
    destruct (net_claims net id) as [[[claims policy]|]|e] eqn:Ec; [|done..].
    run_panel. rewrite length_fmap.
    destruct (Nat.eqb_spec (length claims) 0) as [E|E]; [done|].
    run_panel.
    destruct (check_evidence blake3 net id (evidence_of (lc_raw <$> claims))) as [[]|e] eqn:Ee; [|done..].
    run_panel.
    destruct (net_wasm net) as [[]|e] eqn:Ew; [|done]. run_panel.
    destruct (verifyClaimSet _ _) as [e|v] eqn:Ev; [done|]. run_panel.
    case_bool_decide as Hh; [|done]. intros _. exists claims, policy, v.
    split; [done|]. split; [by intros ->|]. split; [by apply check_evidence_true|]. done.
  - intros (claims & policy & v & Hc & Hne & He & Hw & Hv & Hh).
    rewrite (run_done claims policy v) by done. cbn [p_result]. by rewrite bool_decide_true.
Qed.

End runs.

(** ** Honest and tampered runs over a ledger *)

Lemma js_num_small z : 0 <= z < 2 ^ 53 → js_num z = z.
Proof.
  intros Hz. unfold js_num, js_floor. rewrite (Qfloor_comp _ _ (fl_integer z Hz)). apply Qfloor_Z.
Qed.

Section honest.
Context (blake3 : bytes → bytes) (blake3_bytes : ∀ m, Forall is_byte (blake3 m)).
Context (data : LedgerData) (c : Case) (sm : SealedManifest) (cd : LedgerCaseData).
Context (Hfrom : sealed_from blake3 buildSyntheticPolicy c (sm, cd)).
Context (Hdata : ld_caseData data !! mf_investigation_id (sm_manifest sm) = Some cd).
Context (Hpolicy : ld_policy data = buildSyntheticPolicy).

Lemma served_claims :
  net_claims (served data) (mf_investigation_id (sm_manifest sm)) = Ok (Some (cd_claims cd, buildSyntheticPolicy)).
Proof using Hdata Hpolicy. cbn [served net_claims]. unfold GET_claims. rewrite Hdata. cbn. by rewrite Hpolicy. Qed.

Lemma served_evidence : evidence_passes blake3 (served data) sm (cd_claims cd).
Proof using Hfrom Hdata blake3_bytes.
  intros e He. destruct Hfrom as (t & prev & b & H). cbn [fst snd] in H.
  pose proof (so_evidence _ _ _ _ _ _ _ _ H) as Hev. destruct (so_tree _ _ _ _ _ _ _ _ H) as (Htree & _ & _).
  assert (e ∈ cd_evidenceIds cd) as He' by (by rewrite Hev, elem_of_sort_by).
  destruct (index_of_elem e (cd_evidenceIds cd) He') as [i Hi].
  destruct (inclusion_complete blake3 _ _ i e blake3_bytes Htree (index_of_Some _ _ _ Hi)) as (p & Hp & _ & Hv & _).
  exists p. split; [|done]. cbn [served net_proof]. unfold GET_proof, proveEvidenceInclusion.
  rewrite Hdata, Hi, Hp. done.
Qed.

Lemma sealed_run :
  cd_claims cd ≠ [] ∧ mf_kernel_version (sm_manifest sm) = KERNEL_VERSION ∧
  forallb claim_fits (wire_claim <$> (lc_raw <$> cd_claims cd)) = true ∧
  Forall (fun c => cl_evidence c ≠ []) (lc_raw <$> cd_claims cd) ∧
  mf_verdict_hash (sm_manifest sm) =
    kv_verdict_hash (kernel_output blake3 synthetic_bundle (wire_claim <$> (lc_raw <$> cd_claims cd)) KERNEL_VERSION).
Proof using Hfrom.
  destruct Hfrom as (t & prev & b & H). cbn [fst snd] in H.
  destruct (so_claims _ _ _ _ _ _ _ _ H) as (_ & Hne & _).
  destruct (so_verdict _ _ _ _ _ _ _ _ H) as (v & Hv & _ & _ & Hk & _ & _ & _ & Hh).
  apply synthetic_run in Hv as (Hfit & Hev & ->). done.
Qed.

End honest.

(** The claim the panel tampers with. *)
Lemma tampered_differs c :
  match cl_observed_value c with Some v => 1 <= v <= 201 | None => True end →
  cl_observed_value (wire_claim (tampered_claim c)) ≠ cl_observed_value (wire_claim c) ∧
  opt_ok is_i64 (cl_observed_value (wire_claim (tampered_claim c))) ∧
  opt_b fits_i64 (cl_observed_value (wire_claim (tampered_claim c))) = true.
Proof.
  intros Hv. unfold wire_claim, tampered_claim, js_add. cbn [cl_observed_value fmap option_fmap option_map].
  set (n := default 0 (cl_observed_value c) + 999999).
  assert (999999 <= n <= 1000200) as Hn by (unfold n; destruct (cl_observed_value c); simpl; lia).
  rewrite js_num_small, wire_int_small by lia. cbn [opt_ok opt_b]. split; [|split].
  - destruct (cl_observed_value c) as [v|]; [|done]. cbn. rewrite wire_int_small by lia. intros [= E]. lia.
  - unfold is_i64. lia.
  - unfold fits_i64. apply andb_true_iff. rewrite Z.leb_le, Z.ltb_lt. lia.
Qed.

Lemma tampered_sized c :
  match cl_observed_value c with Some v => 1 <= v <= 201 | None => True end →
  claim_sized (wire_claim c) → claim_sized (wire_claim (tampered_claim c)).
Proof.
  intros Hv [H1 (H2 & H3 & _) H4]. destruct (tampered_differs c Hv) as (_ & Hi & _).
  split; [exact H1|split; [exact H2|split; [exact H3|exact Hi]]|exact H4].
Qed.

Lemma tampered_fits c cs :
  match cl_observed_value c with Some v => 1 <= v <= 201 | None => True end →
  forallb claim_fits (wire_claim <$> c :: cs) = true →
  forallb claim_fits (wire_claim <$> tamper (c :: cs)) = true.
Proof.
  intros Hv. destruct (tampered_differs c Hv) as (_ & _ & Hf). rewrite !fmap_cons. cbn [forallb tamper].
  rewrite fmap_cons. cbn [forallb]. unfold claim_fits at 1 3. rewrite !andb_true_iff.
  intros ((H1 & _) & H2). split; [split; [exact H1|exact Hf]|exact H2].
Qed.

(** The messages whose collisions would hide the tampering. *)
Definition claim_messages (cd : LedgerCaseData) (withTamper : bool) : list bytes :=
  let claims := lc_raw <$> cd_claims cd in
  (fun c => claim_message (wire_claim c)) <$> (if withTamper then tamper claims else claims).

Definition verdict_messages (blake3 : bytes → bytes) (cd : LedgerCaseData) (withTamper : bool) : list bytes :=
  let claims := lc_raw <$> cd_claims cd in
  [verdict_message (adjudicate blake3 (wire_claim <$> (if withTamper then tamper claims else claims))
     synthetic_bundle KERNEL_VERSION)].

(** A replaced first claim changes the verdict's hash. *)
Lemma tamper_changes_hash blake3 t c cs cd :
  (∀ m, Forall is_byte (blake3 m)) → (∀ m, length (blake3 m) = 32%nat) →
  lc_raw <$> cd_claims cd = c :: cs → generated_claim t c → (length (c :: cs) <= 5)%nat →
  Forall (fun c => claim_sized (wire_claim c)) (c :: cs) →
  no_collision blake3 (claim_messages cd true) (claim_messages cd false) →
  no_collision blake3 (verdict_messages blake3 cd true) (verdict_messages blake3 cd false) →
  kv_verdict_hash (kernel_output blake3 synthetic_bundle (wire_claim <$> tamper (c :: cs)) KERNEL_VERSION) ≠
  kv_verdict_hash (kernel_output blake3 synthetic_bundle (wire_claim <$> c :: cs) KERNEL_VERSION).
Proof.
  intros Hb Hlen Hraw Hgen Hl Hsz Hcm Hvm Heq.
  unfold claim_messages, verdict_messages in Hcm, Hvm. rewrite Hraw in Hcm, Hvm.
  unfold kernel_output in Heq. cbn [kv_verdict_hash] in Heq.
  apply bytesToHex_inj in Heq; [|apply Hb..]. apply Hvm in Heq; [|by left..].
  pose proof Hgen as (_ & _ & Hv). apply Forall_cons in Hsz as [Hc Hcs].
  assert (∀ d ds, Forall (fun c => claim_sized (wire_claim c)) (d :: ds) → (length (d :: ds) <= 5)%nat →
    verdict_sized (adjudicate blake3 (wire_claim <$> d :: ds) synthetic_bundle KERNEL_VERSION)) as Hvs.
  { intros d ds Hd Hn. apply (adjudicate_sized _ _ _ _ 2); [done|by apply Forall_fmap|apply techniques_bounds|].
    rewrite length_fmap. lia. }
  assert (claim_sized (wire_claim (tampered_claim c))) as Hct by (by apply tampered_sized).
  pose proof (Hvs c cs (List.Forall_cons _ _ _ Hc Hcs) Hl) as Hv1.
  pose proof (Hvs (tampered_claim c) cs (List.Forall_cons _ _ _ Hct Hcs) Hl) as Hv2.
  apply verdict_message_contributing in Heq as (_ & _ & _ & _ & Heq); [|exact Hv2|exact Hv1].
  cbn [tamper] in Heq. rewrite !fmap_cons in Heq.
  apply verdict_pins_claim in Heq; [|exact (generated_counts t c Hgen)..].
  apply Hcm in Heq; [|by left|by left].
  apply claim_message_same in Heq; [|done..].
  destruct Heq as (_ & _ & _ & _ & _ & _ & _ & _ & _ & Ho & _). by apply tampered_differs in Ho.
Qed.

(** The two runs of the panel on a manifest of a built ledger. *)
Lemma honest_run (blake3 : bytes → bytes) cases clock data sm :
  (∀ m, Forall is_byte (blake3 m)) → NoDup (case_id <$> cases) →
  buildLedger blake3 cases clock = Ok data → sm ∈ GET_manifests data →
  let p := runVerification blake3 (served data) sm false in
  p = mkPanel [("fetch", finished); ("evidence", finished); ("kernel", finished); ("compare", finished)]
        matches (Some (mf_verdict_hash (sm_manifest sm))) None false false ∧
  banner sm p = Seal (Some (mf_verdict_hash (sm_manifest sm))).
Proof.
  intros Hb Hnd Hbuild Hsm. destruct (built_manifest blake3 _ _ _ _ Hnd Hbuild Hsm) as (c & cd & Hf & Hd & Hp).
  destruct (sealed_run blake3 c sm cd Hf) as (Hne & Hk & Hfit & Hev & Hh).
  cbn zeta. rewrite (run_done blake3 (served data) sm false (cd_claims cd) buildSyntheticPolicy
    (kernel_output blake3 synthetic_bundle (wire_claim <$> (lc_raw <$> cd_claims cd)) KERNEL_VERSION)).
  - cbn zeta. rewrite <- Hh, bool_decide_true by done. done.
  - by apply served_claims.
  - done.
  - by apply (served_evidence blake3 Hb data c sm cd).
  - done.
  - unfold final_request. rewrite Hk. by apply synthetic_runs.
Qed.

Lemma tamper_run (blake3 : bytes → bytes) cases clock data sm cd :
  (∀ m, Forall is_byte (blake3 m)) → (∀ m, length (blake3 m) = 32%nat) → NoDup (case_id <$> cases) →
  buildLedger blake3 cases clock = Ok data → sm ∈ GET_manifests data →
  ld_caseData data !! mf_investigation_id (sm_manifest sm) = Some cd →
  Forall (fun c => claim_sized (wire_claim c)) (lc_raw <$> cd_claims cd) →
  no_collision blake3 (claim_messages cd true) (claim_messages cd false) →
  no_collision blake3 (verdict_messages blake3 cd true) (verdict_messages blake3 cd false) →
  ∃ h, h ≠ mf_verdict_hash (sm_manifest sm) ∧
    runVerification blake3 (served data) sm true =
    mkPanel [("fetch", finished); ("evidence", finished); ("kernel", finished); ("compare", failed)]
      mismatch (Some h) None true false.
Proof.
  intros Hb Hlen Hnd Hbuild Hsm Hcd Hsz Hcm Hvm.
  destruct (built_manifest blake3 _ _ _ _ Hnd Hbuild Hsm) as (c & cd' & Hf & Hd & Hp).
  assert (cd' = cd) as -> by congruence.
  destruct (sealed_run blake3 c sm cd Hf) as (Hne & Hk & Hfit & Hev & Hh).
  pose proof Hf as (tn & prev & b & Hok). cbn [fst snd] in Hok.
  destruct (so_claims _ _ _ _ _ _ _ _ Hok) as ((ts & _ & Hgen) & _ & Hl).
  rewrite <- (length_fmap lc_raw) in Hl.
  destruct (lc_raw <$> cd_claims cd) as [|c0 cs] eqn:Eraw; [by destruct (cd_claims cd)|].
  destruct ts as [|t ts]; [by inversion Hgen|]. apply Forall2_cons in Hgen as [Hgen _].
  pose proof (tamper_changes_hash blake3 t c0 cs cd Hb Hlen Eraw Hgen Hl Hsz Hcm Hvm) as Hdiff.
  rewrite (run_done blake3 (served data) sm true (cd_claims cd) buildSyntheticPolicy
    (kernel_output blake3 synthetic_bundle (wire_claim <$> tamper (c0 :: cs)) KERNEL_VERSION)).
  - rewrite <- Hh in Hdiff. cbn zeta. rewrite bool_decide_false by done. by eexists.
  - by apply served_claims.
  - done.
  - by apply (served_evidence blake3 Hb data c sm cd).
  - done.
  - unfold final_request. rewrite Hk, Eraw. apply synthetic_runs.
    + apply tampered_fits; [by destruct Hgen as (_ & _ & ?)|done].
    + apply Forall_cons in Hev as [H1 H2]. by constructor.
Qed.

(** ** Properties *)

(** C28: over a ledger that the console built itself, the verification of every
    manifest ends with the seal: the evidence of every claim is proved, the
    kernel accepts the claims and the recomputed hash is the sealed one. *)
Theorem honest_manifest_verifies (blake3 : bytes → bytes) cases clock data sm :
  (∀ m, Forall is_byte (blake3 m)) → NoDup (case_id <$> cases) →
  buildLedger blake3 cases clock = Ok data → sm ∈ GET_manifests data →
  let p := runVerification blake3 (served data) sm false in
  p = mkPanel [("fetch", finished); ("evidence", finished); ("kernel", finished); ("compare", finished)]
        matches (Some (mf_verdict_hash (sm_manifest sm))) None false false ∧
  banner sm p = Seal (Some (mf_verdict_hash (sm_manifest sm))).
Proof. apply honest_run. Qed.

(** C29: "Simulate tampered claim" on any manifest of a built ledger is detected:
    the run ends in a mismatch with a hash that is not the sealed one, as long
    as no two of the messages hashed by the two kernel runs collide. *)
Theorem tamper_detected (blake3 : bytes → bytes) cases clock data sm cd :
  (∀ m, Forall is_byte (blake3 m)) → (∀ m, length (blake3 m) = 32%nat) → NoDup (case_id <$> cases) →
  buildLedger blake3 cases clock = Ok data → sm ∈ GET_manifests data →
  ld_caseData data !! mf_investigation_id (sm_manifest sm) = Some cd →
  Forall (fun c => claim_sized (wire_claim c)) (lc_raw <$> cd_claims cd) →
  no_collision blake3 (claim_messages cd true) (claim_messages cd false) →
  no_collision blake3 (verdict_messages blake3 cd true) (verdict_messages blake3 cd false) →
  ∃ h, h ≠ mf_verdict_hash (sm_manifest sm) ∧
    runVerification blake3 (served data) sm true =
    mkPanel [("fetch", finished); ("evidence", finished); ("kernel", finished); ("compare", failed)]
      mismatch (Some h) None true false.
Proof. apply tamper_run. Qed.

(** C32: the seal stands for one comparison: whatever the network answers, the
    run matches exactly when the claims it was handed are not empty, every piece
    of their evidence came with a proof that verifies against the root in that
    proof, and the kernel gives those claims the sealed verdict hash.  The
    sealed epoch root, severity, confidence, claim ids, signature and chain link
    are never read: two manifests that agree on the id, the kernel version and
    the verdict hash have the same run. *)
Theorem seal_means (blake3 : bytes → bytes) net sealed withTamper :
  (p_result (runVerification blake3 net sealed withTamper) = matches ↔
   ∃ claims policy v,
     net_claims net (mf_investigation_id (sm_manifest sealed)) = Ok (Some (claims, policy)) ∧ claims ≠ [] ∧
     evidence_passes blake3 net sealed claims ∧ net_wasm net = Ok tt ∧
     verifyClaimSet blake3 (final_request sealed withTamper claims policy) = inr v ∧
     kv_verdict_hash v = mf_verdict_hash (sm_manifest sealed)) ∧
  ∀ forged,
    mf_investigation_id (sm_manifest forged) = mf_investigation_id (sm_manifest sealed) →
    mf_kernel_version (sm_manifest forged) = mf_kernel_version (sm_manifest sealed) →
    mf_verdict_hash (sm_manifest forged) = mf_verdict_hash (sm_manifest sealed) →
    runVerification blake3 net forged withTamper = runVerification blake3 net sealed withTamper.
Proof.
  split; [apply run_matches|]. intros forged Hid Hk Hh.
  unfold runVerification, verification. by rewrite Hid, Hk, Hh.
Qed.

(** Evidence that was never in any tree passes: for claims with any evidence
    at all there are answers to the panel's proof requests (a proof without
    steps, whose root is the leaf's own hash) with which a manifest that carries
    the kernel's verdict hash of those claims is sealed, whatever its epoch root. *)
Theorem fabricated_evidence_verifies (blake3 : bytes → bytes) claims policy sealed v :
  claims ≠ [] →
  verifyClaimSet blake3 (mkRequest (mf_kernel_version (sm_manifest sealed)) policy (lc_raw <$> claims)) = inr v →
  mf_verdict_hash (sm_manifest sealed) = kv_verdict_hash v →
  let proof e := mkProof 0 [] (bytesToHex (leafHash blake3 e)) in
  let net := mkNet (fun _ => Ok (Some (claims, policy))) (fun _ e => Ok (Some (proof e))) (Ok tt) in
  banner sealed (runVerification blake3 net sealed false) = Seal (Some (kv_verdict_hash v)).
Proof.
  intros Hne Hv Hh proof net. rewrite (run_done blake3 net sealed false claims policy v); try done.
  - cbn zeta. rewrite bool_decide_true by done. done.
  - intros e _. exists (proof e). split; [done|].
    unfold verifyInclusion, proof. cbn [pf_steps pf_root foldl]. by apply bool_decide_true.
Qed.

(** One manifest, verified, tampered with and forged. *)
Definition tamper_check (data : LedgerData) : bool :=
  match ld_manifests data with
  | [sm] =>
      match ld_caseData data !! mf_investigation_id (sm_manifest sm) with
      | Some cd =>
          forallb (fun c => claim_sizedb (wire_claim c)) (lc_raw <$> cd_claims cd) &&
          check_no_collision toy_hash (claim_messages cd true) (claim_messages cd false) &&
          check_no_collision toy_hash (verdict_messages toy_hash cd true) (verdict_messages toy_hash cd false)
      | None => false
      end
  | _ => false
  end.

Lemma one_ledger : ∃ data sm cd, buildLedger toy_hash one_case noon = Ok data ∧ sm ∈ GET_manifests data ∧
  ld_caseData data !! mf_investigation_id (sm_manifest sm) = Some cd ∧
  Forall (fun c => claim_sized (wire_claim c)) (lc_raw <$> cd_claims cd) ∧
  no_collision toy_hash (claim_messages cd true) (claim_messages cd false) ∧
  no_collision toy_hash (verdict_messages toy_hash cd true) (verdict_messages toy_hash cd false).
Proof.
  assert (match buildLedger toy_hash one_case noon with Ok d => tamper_check d | Throw _ => false end = true) as H
    by (vm_compute; reflexivity).
  destruct (buildLedger toy_hash one_case noon) as [data|e]; [|discriminate H]. exists data.
  unfold tamper_check in H. destruct (ld_manifests data) as [|sm [|]] eqn:Em; try discriminate H.
  destruct (ld_caseData data !! mf_investigation_id (sm_manifest sm)) as [cd|] eqn:Ec; [|discriminate H].
  rewrite !andb_true_iff, forallb_forall in H. destruct H as ((H1 & H2) & H3).
  exists sm, cd. split; [done|]. split; [unfold GET_manifests; rewrite Em; by left|]. split; [done|].
  split; [|split; by apply check_no_collision_ok].
  apply Forall_forall. intros c Hc. by apply claim_sizedb_ok, H1, list_elem_of_In.
Qed.

Lemma honest_manifest_verifies_witness :
  ∃ data sm, buildLedger toy_hash one_case noon = Ok data ∧ sm ∈ GET_manifests data ∧
    banner sm (runVerification toy_hash (served data) sm false) = Seal (Some (mf_verdict_hash (sm_manifest sm))).
Proof.
  destruct one_ledger as (data & sm & cd & E & Hsm & _).
  exists data, sm. split; [exact E|]. split; [exact Hsm|].
  apply (honest_manifest_verifies toy_hash one_case noon data sm toy_hash_bytes sample_ids E Hsm).
Defined.

Lemma tamper_detected_witness :
  ∃ data sm, buildLedger toy_hash one_case noon = Ok data ∧ sm ∈ GET_manifests data ∧
    p_result (runVerification toy_hash (served data) sm true) = mismatch.
Proof.
  destruct one_ledger as (data & sm & cd & E & Hsm & Hcd & Hsz & Hc & Hv).
  exists data, sm. split; [exact E|]. split; [exact Hsm|].
  destruct (tamper_detected toy_hash one_case noon data sm cd toy_hash_bytes toy_hash_length sample_ids E Hsm Hcd Hsz Hc Hv)
    as (h & _ & Hr).
  rewrite Hr. exact eq_refl.
Defined.

(** A manifest with the verdict hash of one claim and nothing else of it. *)
Definition lone_claim : LedgerClaim := mkLedgerClaim (demo_claim "A" "never-collected") "00".

Definition lone_policy : KernelPolicy :=
  mkKernelPolicy "p" {[ "A" := mkPWInput "execution" 3000 [] ]} [] [(0, "info")].

Definition forged_manifest (root hash : string) : SealedManifest :=
  mkSealed (mkManifest "inv" "t" "c" root 1 "" "" [] (mkInferenceMeta "" "" "" None) "p" "k" "" critical 10000
    malicious hash 0 0 0 0 "") "" "" "" false.

Lemma lone_verdict : ∃ v, verifyClaimSet toy_hash (mkRequest "k" lone_policy [lc_raw lone_claim]) = inr v.
Proof.
  destruct (verifyClaimSet toy_hash (mkRequest "k" lone_policy [lc_raw lone_claim])) as [e|v] eqn:E; [|by exists v].
  assert (match verifyClaimSet toy_hash (mkRequest "k" lone_policy [lc_raw lone_claim]) with
          | inl _ => false | inr _ => true end = true) as H by (vm_compute; reflexivity).
  rewrite E in H. discriminate H.
Qed.

Lemma fabricated_evidence_verifies_witness :
  ∃ net h, banner (forged_manifest "no root at all" h)
    (runVerification toy_hash net (forged_manifest "no root at all" h) false) = Seal (Some h).
Proof.
  destruct lone_verdict as [v Hv]. eexists _, (kv_verdict_hash v).
  apply (fabricated_evidence_verifies toy_hash [lone_claim] lone_policy
    (forged_manifest "no root at all" (kv_verdict_hash v)) v); [discriminate|exact Hv|exact eq_refl].
Defined.

Lemma seal_means_witness :
  ∃ net sealed, p_result (runVerification toy_hash net sealed false) = matches ∧
    runVerification toy_hash net (forged_manifest "another" (mf_verdict_hash (sm_manifest sealed))) false =
    runVerification toy_hash net sealed false.
Proof.
  destruct lone_verdict as [v Hv].
  exists (mkNet (fun _ => Ok (Some ([lone_claim], lone_policy)))
    (fun _ e => Ok (Some (mkProof 0 [] (bytesToHex (leafHash toy_hash e))))) (Ok tt)),
    (forged_manifest "root" (kv_verdict_hash v)).
  split.
  - apply (seal_means toy_hash). exists [lone_claim], lone_policy, v.
    split; [exact eq_refl|]. split; [discriminate|]. split; [|split; [exact eq_refl|split; [exact Hv|exact eq_refl]]].
    intros e _. eexists. split; [exact eq_refl|]. unfold verifyInclusion. cbn [pf_steps pf_root foldl].
    by apply bool_decide_true.
  - apply (seal_means toy_hash); exact eq_refl.
Defined.
