(* ===== verification/LedgerView.v ===== *)
(** * What the verdict ledger shows: web/src/components/verdict-ledger

    The table of manifests (manifest-table.tsx), the chain badge (hash-chain.tsx),
    the verification panel and its export (verification-panel.tsx) and the page
    that ties a selection to a panel (verdict-ledger-client.tsx).  A panel is keyed
    by its manifest's id, so that React starts a new one on a change of selection;
    the page is a step relation over the manifests the server lists. *)

From S2P Require Import Prelude JsNum Json View Types Widgets Merkle Kernel Policy Ledger Verify.
From Stdlib Require Import Ascii QArith.
Open Scope Z_scope.

(** ** [JSON.stringify(value, null, 2)] *)

Definition newline : string := String "010" EmptyString.

Definition lines_of (open close ind : string) (items : list string) : string :=
  match items with
  | [] => open +:+ close
  | _ => open +:+ newline +:+ join_with ("," +:+ newline) (map (fun s => ind +:+ "  " +:+ s) items) +:+ newline +:+ ind +:+ close
  end.

Fixpoint pretty (ind : string) (v : json) : string :=
  match v with
  | JArr l => lines_of "[" "]" ind (map (pretty (ind +:+ "  ")) l)
  | JObj fs => lines_of "{" "}" ind (map (fun f => quoted f.1 +:+ ": " +:+ pretty (ind +:+ "  ") f.2) fs)
  | _ => stringify v
  end.

(** The file's name and its contents. *)
Definition exportBundle (sealed : SealedManifest) : string * string :=
  (mf_investigation_id (sm_manifest sealed) +:+ "-evidence-bundle.json",
   pretty "" (JObj
     [("manifest", manifest_json (sm_manifest sealed)); ("manifest_hash", JStr (sm_manifest_hash sealed));
      ("signature", JStr (sm_signature sealed)); ("public_key", JStr (sm_public_key sealed));
      ("note", JStr "Synthetic Phase 11 demo bundle -- see phases/reports/PHASE-11.md for what's real (kernel verification) vs. synthetic (manifest signature/chain) in this export.")])).

(** ** The manifests *)

Definition header_cell (label : string) : view := El "div" [("role", Some "columnheader")] [Txt label].
Definition grid_cell (children : list view) : view := El "div" [("role", Some "gridcell")] children.

Definition ManifestRow (now : Z) (selectedId : option string) (sealed : SealedManifest) : view :=
  let m := sm_manifest sealed in
  El "div" [("key", Some (mf_investigation_id m)); ("role", Some "row");
            ("aria-selected", bool_attr (bool_decide (Some (mf_investigation_id m) = selectedId))); ("tabIndex", Some "0")]
   [grid_cell [Txt (mf_investigation_id m)];
    grid_cell [SeverityLabel (mf_verdict_severity m)];
    grid_cell [Txt (inf_model_id (mf_inference m))];
    grid_cell [Txt (mf_policy_version m)];
    grid_cell [Txt (to_dec (mf_epoch_id m))];
    grid_cell [Txt (relativeAge_ns now (mf_completed_at_ns m))];
    grid_cell [if sm_chainBroken sealed then El "span" [] [Txt "broken"] else El "span" [] [Txt "ok"]]].

Definition manifest_headers : view :=
  El "div" [("role", Some "row")]
   (map header_cell ["Investigation"; "Verdict"; "Model"; "Policy"; "Epoch"; "Age"; "Chain"]).

Definition ManifestTable (now : Z) (manifests : list SealedManifest) (selectedId : option string) : view :=
  El "div" [("role", Some "grid"); ("aria-label", Some "Sealed manifests")]
   (manifest_headers :: map (ManifestRow now selectedId) manifests).

(** The keys a focused row answers to. *)
Definition row_key (key : string) : bool := bool_decide (key = "Enter") || bool_decide (key = " ").

(** ** The chain badge *)

Definition short (hash : string) : string :=
  slice0 10 hash +:+ "…" +:+ String.substring (String.length hash - 6) 6 hash.

Definition HashChain (sealed : SealedManifest) : view :=
  let broken := sm_chainBroken sealed in
  El "div" [("data-testid", Some (if broken then "hash-chain-broken" else "hash-chain-ok"))]
   ([El (if broken then "AlertTriangle" else "Link2") [("aria-hidden", Some "true")] [];
     El "span" [] [Txt (short (mf_prev_manifest_hash (sm_manifest sealed)))];
     El "span" [("aria-hidden", Some "true")] [Txt "→"];
     El "span" [] [Txt (short (sm_manifest_hash sealed))]] ++
    when broken (El "span" [] [Txt "chain broken"])).

(** ** The panel *)

Definition STEP_LABELS : list (string * string) :=
  [("fetch", "Fetch claim set"); ("evidence", "Verify evidence inclusion");
   ("kernel", "Run kernel (WASM, in-browser)"); ("compare", "Compare verdict hash")].

Definition StepItem (step : string * StepStatus) : view :=
  El "li" [("key", Some step.1)]
   [match step.2 with
    | pending => El "span" [] []
    | active => El "Loader2" [("aria-hidden", Some "true")] []
    | finished => El "CheckCircle2" [("aria-hidden", Some "true")] []
    | failed => El "XCircle" [("aria-hidden", Some "true")] []
    end;
    El "span" [] [Txt (default "" (omap_get step.1 STEP_LABELS))]].

Section texts.
(** What the kernel and the engine call their errors. *)
Context (kernel_text : kernel_error → string) (engine_text : js_error → string).

Definition error_text (e : panel_error) : string :=
  match e with
  | Msg t => t
  | KernelMsg k => kernel_text k
  | Caught (JsError m) => m
  | Caught x => engine_text x
  end.

(** [{errorMsg && <div>..}]: an empty message shows nothing. *)
Definition shown_error (e : option panel_error) : option string :=
  match error_text <$> e with Some EmptyString => None | t => t end.

Definition BannerView (b : Banner) : list view :=
  match b with
  | Seal hash =>
      [El "motion.div" [("data-testid", Some "verification-seal")]
        [El "CheckCircle2" [("aria-hidden", Some "true")] [];
         El "div" [] [El "div" [] [Txt "Verified"]; El "div" [] [Txt (default "" hash)]]]]
  | Broken title hashes msg =>
      [El "motion.div" [("data-testid", Some "verification-broken")]
        [El "XCircle" [("aria-hidden", Some "true")] [];
         El "div" []
          ([El "div" [] [Txt title]] ++
           match hashes with
           | Some (stored, recomputed) => [El "div" [] [Txt ("stored: " +:+ stored); El "br" [] []; Txt ("recomputed: " +:+ recomputed)]]
           | None => []
           end ++
           match shown_error msg with Some t => [El "div" [] [Txt t]] | None => [] end)]]
  | ErrorBox msg => match shown_error (Some msg) with Some t => [El "div" [] [Txt t]] | None => [] end
  | Nothing => []
  end.

Definition VerificationPanel (sealed : SealedManifest) (p : Panel) : view :=
  El "div" []
   ([El "div" []
      [El "Button" [("disabled", flag_attr (p_running p)); ("data-testid", Some "run-verification")]
        (when (p_running p && negb (p_tampered p)) (El "Loader2" [("aria-hidden", Some "true")] []) ++ [Txt "Verify"]);
       El "Button" [("disabled", flag_attr (p_running p)); ("data-testid", Some "run-tamper-demo")]
        [El "FlaskConical" [("aria-hidden", Some "true")] []; Txt "Simulate tampered claim"];
       El "Button" [("data-testid", Some "export-bundle")]
        [El "Download" [("aria-hidden", Some "true")] []; Txt "Export evidence bundle"]];
     El "ul" [("data-testid", Some "verification-steps")] (map StepItem (p_steps p))] ++
    BannerView (banner sealed p)).

(** ** The page *)

Record Page := mkPage {
  pg_data : option (list SealedManifest);
  pg_selectedId : option string;
  pg_panel : Panel;
}.

Definition page_initial : Page := mkPage None None initial_panel.

Definition page_selected (p : Page) : option SealedManifest :=
  (select_manifest (default [] (pg_data p)) (pg_selectedId p)).2.

Definition VerdictLedgerClient (now : Z) (p : Page) : view :=
  match pg_data p with
  | None => El "div" [] [Txt "Loading ledger…"]
  | Some [] =>
      EmptyState "No sealed manifests yet"
        "Manifests appear here once investigations close and seal (services/adjudicate, Phase 7)."
        "Waiting on sealed investigations"
  | Some manifests =>
      let '(selectedId, selected) := select_manifest manifests (pg_selectedId p) in
      El "div" []
       [El "div" [] [ManifestTable now manifests selectedId];
        El "div" []
         [match selected with
          | Some sm =>
              El "div" []
               [El "div" [] [El "div" [] [Txt "Investigation"]; El "div" [] [Txt (mf_investigation_id (sm_manifest sm))]];
                HashChain sm;
                VerificationPanel sm (pg_panel p)]
          | None => El "div" [] [Txt "Select a manifest to verify it."]
          end]]
  end.

End texts.

Definition page_key (p : Page) : option string :=
  (fun sm => mf_investigation_id (sm_manifest sm)) <$> page_selected p.

(** After a change: the selection a render makes, and a new panel for a new key. *)
Definition settle (old new : Page) : Page :=
  mkPage (pg_data new) (select_manifest (default [] (pg_data new)) (pg_selectedId new)).1
    (if decide (page_key new = page_key old) then pg_panel new else initial_panel).

Definition started (withTamper : bool) : Panel := mkPanel INITIAL_STEPS idle None None withTamper true.

Section page.
Context (blake3 : bytes → bytes) (ms : list SealedManifest).

(** The list arrives (again), a row is chosen, a run starts and ends; the network
    may answer each run differently. *)
Inductive page_step (p : Page) : Page → Prop :=
| ps_fetch : page_step p (settle p (mkPage (Some ms) (pg_selectedId p) (pg_panel p)))
| ps_select sm l : pg_data p = Some l → sm ∈ l →
    page_step p (settle p (mkPage (pg_data p) (Some (mf_investigation_id (sm_manifest sm))) (pg_panel p)))
| ps_begin withTamper : is_Some (page_selected p) → p_running (pg_panel p) = false →
    page_step p (mkPage (pg_data p) (pg_selectedId p) (started withTamper))
| ps_end net sm withTamper : page_selected p = Some sm → pg_panel p = started withTamper →
    page_step p (mkPage (pg_data p) (pg_selectedId p) (runVerification blake3 net sm withTamper)).

Inductive page_reachable : Page → Prop :=
| pr_init : page_reachable page_initial
| pr_step p q : page_reachable p → page_step p q → page_reachable q.

(** A panel is fresh, or running, or what a run on the selected manifest left. *)
Definition panel_of_selected (p : Page) : Prop :=
  (pg_data p = None ∨ pg_data p = Some ms) ∧
  (pg_panel p = initial_panel ∨
   ∃ sm, page_selected p = Some sm ∧
     ((∃ t, pg_panel p = started t) ∨ ∃ net t, pg_panel p = runVerification blake3 net sm t)).

Lemma select_manifest_idem l sid : select_manifest l (select_manifest l sid).1 = select_manifest l sid.
Proof. unfold select_manifest. destruct sid as [[|a s]|], l as [|m l]; try done; cbn [fst]; by destruct (mf_investigation_id (sm_manifest m)). Qed.

Lemma page_selected_in l sid pn sm :
  page_selected (mkPage (Some l) sid pn) = Some sm →
  sm ∈ l ∧ (select_manifest l sid).1 = Some (mf_investigation_id (sm_manifest sm)).
Proof.
  unfold page_selected, select_manifest. cbn [pg_data pg_selectedId default from_option id snd fst].
  intros H. apply head_Some_elem_of, list_elem_of_filter in H as [H1 H2]. done.
Qed.

Hypothesis ids_distinct : NoDup ((fun sm => mf_investigation_id (sm_manifest sm)) <$> ms).

Lemma page_key_selected p q sm :
  pg_data p = Some ms → pg_data q = Some ms → page_key q = page_key p → page_selected p = Some sm → page_selected q = Some sm.
Proof using ids_distinct.
  destruct p as [dp sp pp], q as [dq sq pq]. cbn [pg_data]. intros -> -> Hk Hp.
  unfold page_key in Hk. rewrite Hp in Hk. destruct (page_selected (mkPage (Some ms) sq pq)) as [sm'|] eqn:Hq; [|done].
  apply page_selected_in in Hp as [Hp _], Hq as [Hq _]. f_equal. injection Hk as Hk.
  apply list_elem_of_lookup in Hp as [i Hi], Hq as [j Hj].
  assert (i = j) as ->; [|congruence].
  eapply NoDup_lookup; [exact ids_distinct|rewrite list_lookup_fmap, Hi; done|rewrite list_lookup_fmap, Hj; simpl; congruence].
Qed.

Lemma settle_ok p q :
  panel_of_selected p → pg_data q = Some ms → pg_panel q = pg_panel p → panel_of_selected (settle p q).
Proof using ids_distinct.
  intros [Hd Hp] Hq Hpan. split; [by right|]. unfold settle. cbn [pg_panel]. case_decide as Hk; [|by left].
  rewrite Hpan. destruct Hp as [Hp|(sm & Hsm & Hp)]; [by left|right]. exists sm. split; [|done].
  unfold page_selected. cbn [pg_data pg_selectedId]. rewrite select_manifest_idem. fold (page_selected q).
  apply (page_key_selected p q); [|done..]. destruct Hd as [Hd|]; [|done].
  unfold page_selected, select_manifest in Hsm. rewrite Hd in Hsm. by destruct (pg_selectedId p) as [[|? ?]|].
Qed.

Lemma panel_invariant p : page_reachable p → panel_of_selected p.
Proof using ids_distinct.
  induction 1 as [|p q _ IH Hs]; [by split; left|].
  destruct Hs as [|sm l Hd Hin|t [sm Hsel] Hr|net sm t Hsel Hp].
  - by apply settle_ok.
  - apply settle_ok; [done| |done]. destruct IH as [[|] _]; simpl; congruence.
  - split; [apply IH|]. right. exists sm. split; [done|left]. by exists t.
  - split; [apply IH|]. right. exists sm. split; [done|right]. by exists net, t.
Qed.

End page.

(** A run that matches shows the stored hash. *)
Lemma run_matches_hash blake3 net sm t :
  p_result (runVerification blake3 net sm t) = matches →
  p_recomputedHash (runVerification blake3 net sm t) = Some (mf_verdict_hash (sm_manifest sm)).
Proof.
  intros (claims & policy & v & Hc & Hne & He & Hw & Hv & Hh)%run_matches.
  rewrite (run_done blake3 net sm t claims policy v) by done. cbn [p_recomputedHash]. by rewrite Hh.
Qed.

(** ** The page as read *)

Lemma ManifestRow_marks now sel sm m : m ∈ grid_marks →
  by_attr m.1 m.2 [ManifestRow now sel sm] =
    if decide (m = ("role", "row")) then [ManifestRow now sel sm]
    else if decide (m = ("role", "gridcell")) then match ManifestRow now sel sm with El _ _ cells => cells | Txt _ => [] end
    else if decide (m = ("aria-selected", "true")) then
      (if bool_decide (Some (mf_investigation_id (sm_manifest sm)) = sel) then [ManifestRow now sel sm] else [])
    else [].
Proof.
  intros Hm. unfold ManifestRow. cbv zeta.
  destruct (sm_chainBroken sm), (bool_decide (_ = sel)); mark_cases Hm; by look.
Qed.

Lemma ManifestRow_selected now sel sm :
  by_attr "aria-selected" "true" [ManifestRow now sel sm] =
    if bool_decide (Some (mf_investigation_id (sm_manifest sm)) = sel) then [ManifestRow now sel sm] else [].
Proof. exact (ManifestRow_marks now sel sm ("aria-selected", "true") ltac:(by apply mark_in)). Qed.

Lemma ManifestRow_row now sel sm :
  by_role "row" [ManifestRow now sel sm] = [ManifestRow now sel sm] ∧
  by_role "columnheader" [ManifestRow now sel sm] = [] ∧
  length (by_role "gridcell" [ManifestRow now sel sm]) = 7%nat.
Proof.
  split; [|split].
  - exact (ManifestRow_marks now sel sm ("role", "row") ltac:(by apply mark_in)).
  - exact (ManifestRow_marks now sel sm ("role", "columnheader") ltac:(by apply mark_in)).
  - exact (f_equal length (ManifestRow_marks now sel sm ("role", "gridcell") ltac:(by apply mark_in))).
Qed.

Lemma ManifestTable_marks now ms sel m : m ∈ grid_marks →
  by_attr m.1 m.2 [ManifestTable now ms sel] =
    (if decide (m = ("role", "row")) then [manifest_headers]
     else if decide (m = ("role", "columnheader")) then match manifest_headers with El _ _ cells => cells | Txt _ => [] end else []) ++
    mjoin (map (fun sm => by_attr m.1 m.2 [ManifestRow now sel sm]) ms).
Proof.
  intros Hm. unfold ManifestTable.
  assert (by_attr m.1 m.2 (map (ManifestRow now sel) ms) = mjoin (map (fun sm => by_attr m.1 m.2 [ManifestRow now sel sm]) ms)) as Hr
    by by apply select_map.
  mark_cases Hm; look; by rewrite select_cons, Hr.
Qed.

Lemma seal_only_in_banner kt et sm p :
  by_testid "verification-seal" [VerificationPanel kt et sm p] = by_testid "verification-seal" (BannerView kt et (banner sm p)).
Proof.
  unfold VerificationPanel, by_testid, by_attr. look.
  rewrite select_app, (select_cons _ (El "div" _ _)).
  rewrite (select_inside _ "ul") by done. rewrite select_map_nil by (intros [? []] _; done). rewrite app_nil_r.
  destruct (p_running p && negb (p_tampered p)), (p_running p); done.
Qed.

Lemma seal_banner kt et b :
  by_testid "verification-seal" (BannerView kt et b) = match b with Seal _ => BannerView kt et b | _ => [] end.
Proof.
  destruct b as [h|title hashes msg|msg|]; cbn [BannerView]; try done.
  - destruct hashes as [[stored recomputed]|], (shown_error kt et msg); done.
  - by destruct (shown_error kt et (Some msg)).
Qed.

(** The rows whose id is the selected one: of distinct ids, exactly that row. *)
Lemma selected_row now ms sm sel :
  NoDup ((fun sm => mf_investigation_id (sm_manifest sm)) <$> ms) → sm ∈ ms →
  sel = Some (mf_investigation_id (sm_manifest sm)) →
  by_attr "aria-selected" "true" [ManifestTable now ms sel] = [ManifestRow now sel sm].
Proof.
  intros Hnd Hin Hsel. etransitivity; [apply (ManifestTable_marks now ms sel ("aria-selected", "true")); by apply mark_in|].
  cbn [fst snd]. rewrite !decide_False by done. cbn [app]. change [ManifestRow now sel sm] with (map (ManifestRow now sel) [sm]).
  rewrite <- (filter_key (fun sm => mf_investigation_id (sm_manifest sm)) ms sm Hnd Hin).
  clear Hnd Hin. induction ms as [|x l IH]; [done|]. cbn [map]. rewrite mjoin_cons, IH, filter_cons.
  rewrite ManifestRow_selected, Hsel. case_bool_decide as Hb; case_decide as Hd; [done|congruence..|done].
Qed.

Lemma ledger_parts kt et now manifests sid pn name value :
  manifests ≠ [] → (name = "data-testid" ∨ name = "aria-selected" ∨ name = "role") →
  by_attr name value [VerdictLedgerClient kt et now (mkPage (Some manifests) sid pn)] =
  by_attr name value [ManifestTable now manifests (select_manifest manifests sid).1] ++
  match (select_manifest manifests sid).2 with
  | Some sm => by_attr name value [HashChain sm] ++ by_attr name value [VerificationPanel kt et sm pn]
  | None => []
  end.
Proof.
  intros Hne Hname. unfold VerdictLedgerClient. cbn [pg_data pg_selectedId pg_panel].
  destruct manifests as [|m l]; [done|]. destruct (select_manifest (m :: l) sid) as [sel sm]. cbn [fst snd].
  destruct Hname as [-> |[-> | ->]]; unfold by_attr; look; rewrite select_cons; f_equal; try (by look); look;
    (destruct sm as [sm|]; [|done]); look; rewrite select_cons, (select_cons _ (HashChain sm)); done.
Qed.

Lemma panel_unselected kt et sm pn : by_attr "aria-selected" "true" [VerificationPanel kt et sm pn] = [].
Proof.
  unfold VerificationPanel, by_attr. look. rewrite select_app, (select_cons _ (El "div" _ _)).
  rewrite (select_inside _ "ul") by done. rewrite select_map_nil by (intros [? []] _; done). rewrite app_nil_r.
  assert (∀ b, select (fun v => bool_decide (attr "aria-selected" v = Some "true")) (BannerView kt et b) = []) as ->.
  { intros [h|title hashes msg|msg|]; cbn [BannerView]; try done.
    - destruct hashes as [[stored recomputed]|], (shown_error kt et msg); done.
    - by destruct (shown_error kt et (Some msg)). }
  destruct (p_running pn && negb (p_tampered pn)); done.
Qed.

Lemma table_testid now ms sel value : by_testid value [ManifestTable now ms sel] = [].
Proof.
  unfold ManifestTable, by_testid, by_attr. look. rewrite select_cons, select_map_nil; [done|].
  intros sm _. unfold ManifestRow. cbv zeta. destruct (sm_chainBroken sm); done.
Qed.

Lemma ManifestTable_grid now ms sel :
  NoDup ((fun sm => mf_investigation_id (sm_manifest sm)) <$> ms) → grid_ok 7 (ManifestTable now ms sel).
Proof.
  intros Hnd. assert (by_role "row" [ManifestTable now ms sel] = manifest_headers :: map (ManifestRow now sel) ms) as Hrow.
  { etransitivity; [exact (ManifestTable_marks now ms sel ("role", "row") ltac:(by apply mark_in))|].
    cbn [fst snd]. rewrite decide_True by done. cbn [app]. f_equal. clear Hnd. induction ms as [|x l IH]; [done|]. cbn [map].
    rewrite mjoin_cons, IH. fold (by_role "row" [ManifestRow now sel x]). by rewrite (proj1 (ManifestRow_row now sel x)). }
  split; [done| | |].
  - rewrite (f_equal length (ManifestTable_marks now ms sel ("role", "columnheader") ltac:(by apply mark_in)) :
      length (by_role "columnheader" [ManifestTable now ms sel]) = _), length_app. cbn [fst snd].
    rewrite mjoin_map_nil; [done|]. intros x _. apply (ManifestRow_row now sel x).
  - exists manifest_headers, (map (ManifestRow now sel) ms). split; [done|]. split; [done|].
    apply Forall_fmap, Forall_true. intros x. apply (ManifestRow_row now sel x).
  - destruct (decide (Exists (fun sm => Some (mf_investigation_id (sm_manifest sm)) = sel) ms)) as [Hs|Hs].
    + apply Exists_exists in Hs as (sm & Hin & Hs). rewrite (selected_row now ms sm sel) by done. done.
    + rewrite (f_equal length (ManifestTable_marks now ms sel ("aria-selected", "true") ltac:(by apply mark_in)) :
        length (by_attr "aria-selected" "true" [ManifestTable now ms sel]) = _). cbn [fst snd].
      rewrite !decide_False, mjoin_map_nil; [simpl; lia| |done..].
      intros x Hx. rewrite ManifestRow_selected. case_bool_decide as Hb; [|done].
      exfalso. apply Hs, Exists_exists. by exists x.
Qed.

(** ** Properties *)

Section screen.
Context (kernel_text : kernel_error → string) (engine_text : js_error → string).

(** C30: whatever is selected, run or refetched, in any order and with any answers
    of the network, a verification seal on the page belongs to the one row marked
    selected: a run on that manifest matched and the seal shows its stored verdict
    hash; a run begun on another manifest never shows here.  The table is a
    well-formed grid of seven columns. *)
Theorem seal_on_screen now blake3 ms p :
  ms ≠ [] → NoDup ((fun sm => mf_investigation_id (sm_manifest sm)) <$> ms) →
  page_reachable blake3 ms p →
  let v := VerdictLedgerClient kernel_text engine_text now p in
  (∀ sel, grid_ok 7 (ManifestTable now ms sel)) ∧
  (by_testid "verification-seal" [v] ≠ [] →
   ∃ sm net t, sm ∈ ms ∧
     by_attr "aria-selected" "true" [v] = [ManifestRow now (Some (mf_investigation_id (sm_manifest sm))) sm] ∧
     p_result (runVerification blake3 net sm t) = matches ∧
     text_contents (by_testid "verification-seal" [v]) = "Verified" +:+ mf_verdict_hash (sm_manifest sm)).
Proof.
  intros Hne Hnd Hreach v. split; [intros sel; by apply ManifestTable_grid|].
  destruct (panel_invariant blake3 ms Hnd p Hreach) as [Hd Hp]. destruct p as [d sid pn]. cbn [pg_data pg_panel] in *.
  destruct Hd as [-> | ->]; [by intros []|].
  unfold v. unfold by_testid. rewrite !ledger_parts by auto. fold (by_testid "verification-seal" [ManifestTable now ms (select_manifest ms sid).1]).
  rewrite table_testid. cbn [app].
  fold (page_selected (mkPage (Some ms) sid pn)).
  change (select_manifest ms sid).2 with (page_selected (mkPage (Some ms) sid pn)).
  destruct (page_selected (mkPage (Some ms) sid pn)) as [sm|] eqn:Hsel; [|by intros []].
  destruct (page_selected_in ms sid pn sm Hsel) as [Hin Hid].
  assert (by_attr "data-testid" "verification-seal" [HashChain sm] = []) as -> by (unfold HashChain; by destruct (sm_chainBroken sm)).
  cbn [app]. fold (by_testid "verification-seal" [VerificationPanel kernel_text engine_text sm pn]).
  rewrite seal_only_in_banner, seal_banner. intros Hseal.
  destruct Hp as [->|(sm' & [= <-] & [(t & ->)|(net & t & ->)])]; [done..|].
  unfold banner in *. destruct (p_result (runVerification blake3 net sm t)) eqn:Hr; try done.
  - exists sm, net, t. split; [done|]. rewrite Hid, (selected_row now ms sm) by done.
    assert (by_attr "aria-selected" "true" [HashChain sm] = []) as -> by (unfold HashChain; by destruct (sm_chainBroken sm)).
    rewrite panel_unselected. split; [done|]. split; [done|]. rewrite run_matches_hash by done. cbn. by rewrite !append_empty_r.
  - exfalso. by destruct (p_errorMsg _).
Qed.

End screen.

(** A page with one manifest whose run matches. *)
Definition lone_net : Net :=
  mkNet (fun _ => Ok (Some ([lone_claim], lone_policy)))
    (fun _ e => Ok (Some (mkProof 0 [] (bytesToHex (leafHash toy_hash e))))) (Ok tt).

Definition lone_page (sm : SealedManifest) : Page :=
  mkPage (Some [sm]) (Some "inv") (runVerification toy_hash lone_net sm false).

Lemma lone_run h : (∃ v, verifyClaimSet toy_hash (mkRequest "k" lone_policy [lc_raw lone_claim]) = inr v ∧ kv_verdict_hash v = h) →
  p_result (runVerification toy_hash lone_net (forged_manifest "root" h) false) = matches.
Proof.
  intros (v & Hv & Hh). apply run_matches. exists [lone_claim], lone_policy, v.
  split; [done|]. split; [done|]. split; [|done].
  intros e _. eexists. split; [done|]. unfold verifyInclusion. cbn [pf_steps pf_root foldl]. by apply bool_decide_true.
Qed.

Lemma lone_page_reachable h : page_reachable toy_hash [forged_manifest "root" h] (lone_page (forged_manifest "root" h)).
Proof.
  set (sm := forged_manifest "root" h).
  apply (pr_step _ _ (mkPage (Some [sm]) (Some "inv") (started false))); [|by apply ps_end].
  apply (pr_step _ _ (mkPage (Some [sm]) (Some "inv") initial_panel)); [|by apply ps_begin].
  apply (pr_step _ _ page_initial); [apply pr_init|]. exact (ps_fetch toy_hash [sm] page_initial).
Qed.

Lemma lone_seal kt et now h : p_result (runVerification toy_hash lone_net (forged_manifest "root" h) false) = matches →
  by_testid "verification-seal" [VerdictLedgerClient kt et now (lone_page (forged_manifest "root" h))] ≠ [].
Proof.
  intros Hr. unfold lone_page, by_testid. rewrite ledger_parts by auto.
  fold (by_testid "verification-seal" [ManifestTable now [forged_manifest "root" h] (select_manifest [forged_manifest "root" h] (Some "inv")).1]).
  rewrite table_testid. cbn [select_manifest fst snd app].
  change (head _) with (Some (forged_manifest "root" h)). cbn match.
  change (by_attr "data-testid" "verification-seal" [HashChain (forged_manifest "root" h)]) with (@nil view). cbn [app].
  fold (by_testid "verification-seal" [VerificationPanel kt et (forged_manifest "root" h) (runVerification toy_hash lone_net (forged_manifest "root" h) false)]).
  rewrite seal_only_in_banner, seal_banner. unfold banner. by rewrite Hr.
Qed.

Lemma seal_on_screen_witness :
  ∃ h, text_contents (by_testid "verification-seal"
    [VerdictLedgerClient (fun _ => "kernel error") (fun _ => "engine error") 1757500000000 (lone_page (forged_manifest "root" h))]) = "Verified" +:+ h.
Proof.
  destruct lone_verdict as [v Hv]. exists (kv_verdict_hash v).
  destruct (seal_on_screen (fun _ => "kernel error") (fun _ => "engine error") 1757500000000 toy_hash
    [forged_manifest "root" (kv_verdict_hash v)] (lone_page (forged_manifest "root" (kv_verdict_hash v)))) as [_ H].
  - discriminate.
  - apply (bool_decide_unpack _). exact I.
  - apply lone_page_reachable.
  - destruct H as (sm & net & t & Hin & _ & _ & Ht).
    + apply lone_seal, lone_run. exists v. split; [exact Hv|reflexivity].
    + apply list_elem_of_singleton in Hin as ->. exact Ht.
Defined.
