(* ===== verification/Drift.v ===== *)
(** * Retro-verdict drift: web/src/lib/data/drift.ts

    A sealed claim set adjudicated again under a policy in which one predicate
    costs 5000 more, and the rows the drift monitor lists. *)

From S2P Require Import Prelude JsNum Json Rng Types Seed Merkle Kernel Policy Ledger.
From Stdlib Require Import Ascii QArith.
Open Scope Z_scope.

Definition INDICATOR_CORPUS_VERSION : string := "corpus-2026.09.3".

(** [{ ...basePolicy, predicate_weights: { ..., [predicate]: { ...existing, weight } } }] *)
Definition augmented_policy (base : KernelPolicy) (predicate : string) (existing : PredicateWeightInput)
    (newWeight : Z) : KernelPolicy :=
  mkKernelPolicy (kp_policy_version base)
    (<[predicate := mkPWInput (pwi_tactic existing) newWeight (pwi_techniques existing)]>
       (kp_predicate_weights base))
    (kp_chain_multipliers base) (kp_severity_thresholds base).

Section drift.
Context (blake3 : bytes → bytes).

Definition INDICATOR_CORPUS_HASH : string := bytesToHex (blake3 (utf8 INDICATOR_CORPUS_VERSION)).

(** [now1] and [now2] are the two readings of the clock in the result. *)
Definition computeDriftForCase (caseId tenantId kernelVersion : string) (claims : list RawClaim)
    (basePolicy : KernelPolicy) (oldSeverity : Severity) (oldDisposition : Disposition) (oldHash : string)
    (repriceIndex now1 now2 : Z) : outcome (option VerdictDrift) :=
  target ← or_throw TypeError (at_index claims repriceIndex);
  match kp_predicate_weights basePolicy !! cl_predicate target with
  | None => Ok None
  | Some existing =>
      let newWeight := pwi_weight existing + 5000 in
      let augmented := augmented_policy basePolicy (cl_predicate target) existing newWeight in
      match verifyClaimSet blake3 (mkRequest kernelVersion basePolicy claims),
            verifyClaimSet blake3 (mkRequest kernelVersion augmented claims) with
      | inr oldVerdict, inr newVerdict =>
          if decide (kv_severity newVerdict = oldSeverity ∧ kv_disposition newVerdict = oldDisposition)
          then Ok None
          else if decide (kv_verdict_hash oldVerdict = oldHash) then
            responsible ← or_throw Undefined (at_index (kv_submitted_claim_ids newVerdict) repriceIndex);
            Ok (Some (mkDrift caseId tenantId oldSeverity (kv_severity newVerdict)
              oldDisposition (kv_disposition newVerdict) oldHash (kv_verdict_hash newVerdict)
              (kv_contributing_claims oldVerdict) (kv_contributing_claims newVerdict)
              [responsible]
              [mkPolicyDelta (cl_predicate target) (pwi_weight existing) newWeight]
              INDICATOR_CORPUS_VERSION INDICATOR_CORPUS_HASH
              (now1 - (repriceIndex mod 6) * 86400000)
              (now2 - ((repriceIndex mod 20) + 10) * 86400000)))
          else Ok None
      | _, _ => Ok None
      end
  end.

(** The body of the sweep at index [i]: [None] when the row is skipped. *)
Definition sweep (data : LedgerData) (clock : nat → Z * Z) (i : nat) (sealed : SealedManifest)
    : outcome (option VerdictDrift) :=
  let m := sm_manifest sealed in
  match ld_caseData data !! mf_investigation_id m with
  | None => Ok None
  | Some c =>
      if (length (cd_claims c) =? 0)%nat then Ok None
      else computeDriftForCase (mf_case_id m) (mf_tenant_id m) (mf_kernel_version m)
             (lc_raw <$> cd_claims c) (ld_policy data) (mf_verdict_severity m)
             (mf_verdict_disposition m) (mf_verdict_hash m)
             (Z.of_nat i mod Z.of_nat (length (cd_claims c))) (clock i).1 (clock i).2
  end.

(** [for (let i = 0; i < manifests.length; i += 3)], from index [i] on. *)
Fixpoint sweep_from (data : LedgerData) (clock : nat → Z * Z) (i : nat) (manifests : list SealedManifest)
    : outcome (list VerdictDrift) :=
  match manifests with
  | [] => Ok []
  | sealed :: rest =>
      if (i mod 3 =? 0)%nat then
        d ← sweep data clock i sealed;
        ds ← sweep_from data clock (S i) rest;
        Ok (match d with Some d => d :: ds | None => ds end)
      else sweep_from data clock (S i) rest
  end.

Definition latest_flip_first (a b : VerdictDrift) : bool := vd_flipped_at_ms b - vd_flipped_at_ms a <=? 0.

Definition buildDrift (data : LedgerData) (clock : nat → Z * Z) : outcome (list VerdictDrift) :=
  ds ← sweep_from data clock 0 (ld_manifests data);
  Ok (sort_by latest_flip_first ds).

(** What the first call settles to is kept. *)
Definition getDriftData (cached : option (outcome (list VerdictDrift))) (ledger : outcome LedgerData)
    (clock : nat → Z * Z) : outcome (list VerdictDrift) :=
  match cached with
  | Some d => d
  | None => data ← ledger; buildDrift data clock
  end.

End drift.

(** drift-monitor-client.tsx: where "Reopen investigation" goes, and the weights
    of an attribution as drift-row.tsx prints them. *)
Definition reopen (drift : VerdictDrift) : string := "/investigation-canvas?case=" +:+ vd_case_id drift.
Definition attributed_text (c : AttributedClaim) : string :=
  (if 0 <=? ac_attributed_weight c then "+" else EmptyString) +:+ to_dec (ac_attributed_weight c).

(** ** The repriced policy *)

Definition repriced (predicate : string) (pw : PredicateWeight) : PolicyBundle :=
  mkPolicy (pb_policy_version synthetic_bundle)
    (<[predicate := mkPW (pw_tactic pw) (pw_weight pw + 5000) (pw_techniques pw)]>
       (pb_predicate_weights synthetic_bundle))
    (pb_chain_multipliers synthetic_bundle) (pb_severity_thresholds synthetic_bundle).

Lemma bundle_weight predicate existing :
  synthetic_weights !! predicate = Some existing →
  ∃ pw, pb_predicate_weights synthetic_bundle !! predicate = Some pw ∧
    build_weight existing = Some pw ∧ pw_weight pw = pwi_weight existing.
Proof.
  intros He. destruct (synthetic_tactics_known _ _ He) as [pw Hpw]. exists pw.
  split; [|split; [done|]].
  - change (pb_predicate_weights synthetic_bundle) with (omap build_weight synthetic_weights).
    by rewrite lookup_omap, He.
  - unfold build_weight in Hpw. destruct (tactic_from_name (pwi_tactic existing)); [|done].
    cbn in Hpw. by injection Hpw as <-.
Qed.

Lemma augmented_wire predicate existing :
  synthetic_weights !! predicate = Some existing →
  let p := augmented_policy buildSyntheticPolicy predicate existing (pwi_weight existing + 5000) in
  wire_policy p = p ∧ policy_fits p = true.
Proof.
  intros He p. apply wire_policy_small; [|by repeat constructor..].
  unfold p, augmented_policy. cbn [kp_predicate_weights buildSyntheticPolicy].
  pose proof (synthetic_weights_small _ _ He) as Hs. cbn beta in Hs.
  apply map_Forall_insert_2; [cbn [pwi_weight]; lia|].
  eapply map_Forall_impl; [exact synthetic_weights_small|]. intros k pw H. cbn beta in *. lia.
Qed.

Lemma augmented_accepted predicate existing pw :
  synthetic_weights !! predicate = Some existing → build_weight existing = Some pw →
  build_policy (augmented_policy buildSyntheticPolicy predicate existing (pwi_weight existing + 5000)) =
  inr (repriced predicate pw).
Proof.
  intros He Hpw.
  assert (build_weight (mkPWInput (pwi_tactic existing) (pwi_weight existing + 5000) (pwi_techniques existing)) =
    Some (mkPW (pw_tactic pw) (pw_weight pw + 5000) (pw_techniques pw))) as Hb.
  { unfold build_weight in *. cbn [pwi_tactic pwi_weight pwi_techniques].
    destruct (tactic_from_name (pwi_tactic existing)); [|done]. cbn in *. by injection Hpw as <-. }
  assert (map_Forall (fun _ w => is_Some (build_weight w))
    (<[predicate := mkPWInput (pwi_tactic existing) (pwi_weight existing + 5000) (pwi_techniques existing)]>
       synthetic_weights)) as Hk.
  { apply map_Forall_insert_2; [by rewrite Hb|apply synthetic_tactics_known]. }
  assert (omap build_weight (<[predicate := mkPWInput (pwi_tactic existing) (pwi_weight existing + 5000)
    (pwi_techniques existing)]> synthetic_weights) =
    <[predicate := mkPW (pw_tactic pw) (pw_weight pw + 5000) (pw_techniques pw)]>
      (omap build_weight synthetic_weights)) as Hom by (by apply omap_insert_Some).
  unfold build_policy, augmented_policy, repriced, synthetic_bundle, bundle_of.
  cbn [kp_policy_version kp_predicate_weights kp_chain_multipliers kp_severity_thresholds buildSyntheticPolicy
    pb_policy_version pb_predicate_weights pb_chain_multipliers pb_severity_thresholds].
  revert Hk Hom. clear. generalize synthetic_weights. intros weights Hk Hom.
  rewrite decide_True by exact Hk. rewrite Hom.
  destruct (build_chain SYNTHETIC_CHAIN) eqn:E; [done|].
  assert ((if build_chain SYNTHETIC_CHAIN then true else false) = true) as Ht by (vm_compute; reflexivity).
  by rewrite E in Ht.
Qed.

(** ** The repriced score *)

Definition shift (c : RawClaim) : Z := 5000 * polarity_sign (cl_polarity c).

Section repricing.
Context (predicate : string) (pw : PredicateWeight).
Context (Hpw : pb_predicate_weights synthetic_bundle !! predicate = Some pw).

Lemma contribution_repriced c :
  contribution (repriced predicate pw) c =
  (if decide (cl_predicate c = predicate)
   then (fun tw => (tw.1, tw.2 + shift c)) <$> contribution synthetic_bundle c
   else contribution synthetic_bundle c).
Proof using Hpw.
  unfold contribution, repriced. cbn [pb_predicate_weights]. case_decide as Hc.
  - destruct (length (cl_evidence c) =? 0)%nat; [done|].
    rewrite Hc, lookup_insert_eq, Hpw. cbn. f_equal. f_equal. unfold shift. lia.
  - by rewrite lookup_insert_ne.
Qed.

Lemma touches_repriced t c : touches (repriced predicate pw) t c = touches synthetic_bundle t c.
Proof using Hpw.
  unfold touches. rewrite contribution_repriced. case_decide; [|done].
  by destruct (contribution synthetic_bundle c) as [[u w]|].
Qed.

Lemma amount_repriced c :
  is_Some (contribution synthetic_bundle c) →
  amount (repriced predicate pw) c =
  amount synthetic_bundle c + (if decide (cl_predicate c = predicate) then shift c else 0).
Proof using Hpw.
  intros [[u w] Hc]. unfold amount. rewrite contribution_repriced, Hc. case_decide; cbn; lia.
Qed.

(** One predicate, one claim: the score moves by 5000 towards the claim's side. *)
Lemma score_repriced claims k c :
  NoDup (cl_predicate <$> claims) → Forall (fun c => is_Some (contribution synthetic_bundle c)) claims →
  claims !! k = Some c → cl_predicate c = predicate →
  plain_score (repriced predicate pw) claims = plain_score synthetic_bundle claims + shift c.
Proof using Hpw.
  intros Hnd Huse Hk Hc. unfold plain_score.
  assert (touched (repriced predicate pw) claims = touched synthetic_bundle claims) as ->.
  { unfold touched. apply list_filter_iff. intros t. rewrite !Is_true_true, !existsb_exists.
    by setoid_rewrite touches_repriced. }
  assert (∀ ts, plain_bonus (repriced predicate pw) ts = plain_bonus synthetic_bundle ts) as ->.
  { intros ts. induction ts as [|a [|b ts] IH]; [done..|].
    change (plain_bonus (repriced predicate pw) (a :: b :: ts)) with
      (pair_bonus synthetic_bundle a b + plain_bonus (repriced predicate pw) (b :: ts)).
    by rewrite IH. }
  rewrite (zsum_ext (amount (repriced predicate pw))
    (fun c => amount synthetic_bundle c + (if decide (cl_predicate c = predicate) then shift c else 0)))
    by (intros x Hx; rewrite Forall_forall in Huse; by apply amount_repriced, Huse).
  rewrite zsum_plus.
  assert (zsum (fun c => if decide (cl_predicate c = predicate) then shift c else 0) claims = shift c) as ->; [|lia].
  clear Huse. revert k Hk. induction claims as [|x claims IH]; intros k Hk; [done|].
  rewrite fmap_cons in Hnd. apply NoDup_cons in Hnd as [Hx Hnd]. rewrite zsum_cons.
  destruct k as [|k].
  - cbn in Hk. injection Hk as ->. rewrite decide_True by done.
    rewrite (zsum_ext _ (fun _ => 0)), zsum_zero; [lia|]. intros y Hy. apply decide_False.
    intros Hyp. apply Hx. rewrite Hc, <- Hyp. by apply list_elem_of_fmap_2.
  - cbn in Hk. rewrite decide_False.
    + by rewrite (IH Hnd k Hk).
    + intros Hxp. apply Hx. rewrite Hxp, <- Hc. apply list_elem_of_fmap_2. by eapply list_elem_of_lookup_2.
Qed.

End repricing.

(** ** A sealed manifest, scored and repriced *)

Lemma generated_NoDup claims : generated claims → NoDup (cl_predicate <$> claims).
Proof.
  intros (ts & Hnd & Hf). induction Hf as [|t c ts cs Hc Hcs IH]; [constructor|].
  apply NoDup_cons in Hnd as [Ht Hnd]. rewrite fmap_cons. constructor; [|by apply IH].
  intros (d & Heq & Hd)%list_elem_of_fmap. apply Ht.
  apply list_elem_of_lookup in Hd as (i & Hi). destruct (Forall2_lookup_r _ _ _ _ _ Hcs Hi) as (u & Hu & Hdu).
  destruct Hc as (Hp & _). destruct Hdu as (Hq & _). rewrite Heq in Hp.
  rewrite (PREDICATES_disjoint t u (cl_predicate d)) by done. by eapply list_elem_of_lookup_2.
Qed.

Lemma generated_uses claims :
  generated claims → Forall (fun c => is_Some (contribution synthetic_bundle c)) (wire_claim <$> claims).
Proof.
  intros (ts & _ & Hf). rewrite Forall_fmap. apply Forall_forall. intros c Hc.
  apply list_elem_of_lookup in Hc as (i & Hi). destruct (Forall2_lookup_r _ _ _ _ _ Hf Hi) as (u & _ & Hu).
  by apply (generated_counts u).
Qed.

(** The verdict of usable claims under a policy like the synthetic one. *)
Lemma output_severity blake3 p claims v :
  (∀ k pw, pb_predicate_weights p !! k = Some pw → Z.abs (pw_weight pw) <= 7400) →
  pb_chain_multipliers p = pb_chain_multipliers synthetic_bundle →
  pb_severity_thresholds p = pb_severity_thresholds synthetic_bundle →
  (length claims <= 5)%nat → claims ≠ [] → Forall (fun c => is_Some (contribution p c)) claims →
  kv_severity (kernel_output blake3 p claims v) = severityForScore (plain_score p claims) ∧
  kv_disposition (kernel_output blake3 p claims v) =
    dispositionFor (severityForScore (plain_score p claims)) false.
Proof.
  intros Hw Hc Ht Hl Hne Huse. unfold kernel_output. cbn [kv_severity kv_disposition].
  pose proof (adjudicate_plain blake3 claims p v 7400 Hw) as H. cbv zeta in H. rewrite decide_False in H.
  - destruct H as (Hs & _ & Hd); [intros k m; rewrite Hc; intros Hk; pose proof (bonus_bounds _ _ Hk); lia|lia|lia|].
    assert (∀ s, classify p s = classify synthetic_bundle s) as Hcl by (intros s; unfold classify; by rewrite Ht).
    rewrite Hs, Hd, Hcl, synthetic_classify. split; [done|]. by destruct (severityForScore _).
  - intros Hall. destruct claims as [|c claims]; [done|].
    apply Forall_cons in Hall as [Hn _]. apply Forall_cons in Huse as [[x Hx] _]. congruence.
Qed.

Section exact.
Context (blake3 : bytes → bytes).
Context (c : Case) (sm : SealedManifest) (cd : LedgerCaseData).
Context (Hfrom : sealed_from blake3 buildSyntheticPolicy c (sm, cd)).

Notation raws := (lc_raw <$> cd_claims cd).
Notation score := (plain_score synthetic_bundle (wire_claim <$> raws)).

Lemma sealed_scored :
  cd_claims cd ≠ [] ∧ (length (cd_claims cd) <= 5)%nat ∧ generated raws ∧
  mf_kernel_version (sm_manifest sm) = KERNEL_VERSION ∧
  forallb claim_fits (wire_claim <$> raws) = true ∧ Forall (fun c => cl_evidence c ≠ []) raws ∧
  (lc_claim_id <$> cd_claims cd = (fun c => bytesToHex (claim_id blake3 c)) <$> (wire_claim <$> raws)) ∧
  mf_verdict_hash (sm_manifest sm) =
    kv_verdict_hash (kernel_output blake3 synthetic_bundle (wire_claim <$> raws) KERNEL_VERSION) ∧
  mf_verdict_severity (sm_manifest sm) = severityForScore score ∧
  mf_verdict_disposition (sm_manifest sm) = dispositionFor (severityForScore score) false.
Proof using Hfrom.
  destruct Hfrom as (t & prev & b & H). cbn [fst snd] in H.
  destruct (so_claims _ _ _ _ _ _ _ _ H) as (Hgen & Hne & Hl).
  destruct (so_verdict _ _ _ _ _ _ _ _ H) as (v & Hv & Hids & _ & Hk & Hs & _ & Hd & Hh).
  apply synthetic_run in Hv as (Hfit & Hev & ->).
  destruct (output_severity blake3 synthetic_bundle (wire_claim <$> raws) KERNEL_VERSION) as [Hsev Hdisp].
  - intros k pw Hk'. pose proof (weight_bounds _ _ Hk'). lia.
  - done.
  - done.
  - by rewrite !length_fmap.
  - by destruct (cd_claims cd).
  - by apply generated_uses.
  - rewrite Hs, Hd, Hsev, Hdisp. done.
Qed.

(** One repricing, in closed form: the two verdicts, and every field of the row. *)
Lemma reprice_run k x now1 now2 caseId tenantId :
  cd_claims cd !! k = Some x →
  ∃ existing old new, synthetic_weights !! cl_predicate (lc_raw x) = Some existing ∧
    let version := mf_kernel_version (sm_manifest sm) in
    let target := severityForScore (score + shift (lc_raw x)) in
    verifyClaimSet blake3 (mkRequest version buildSyntheticPolicy raws) = inr old ∧
    verifyClaimSet blake3 (mkRequest version (augmented_policy buildSyntheticPolicy (cl_predicate (lc_raw x)) existing
      (pwi_weight existing + 5000)) raws) = inr new ∧
    computeDriftForCase blake3 caseId tenantId version raws buildSyntheticPolicy
      (mf_verdict_severity (sm_manifest sm)) (mf_verdict_disposition (sm_manifest sm))
      (mf_verdict_hash (sm_manifest sm)) (Z.of_nat k) now1 now2 =
    Ok (if decide (target = severityForScore score) then None else Some
      (mkDrift caseId tenantId (severityForScore score) target
        (dispositionFor (severityForScore score) false) (dispositionFor target false)
        (mf_verdict_hash (sm_manifest sm)) (kv_verdict_hash new)
        (kv_contributing_claims old) (kv_contributing_claims new)
        [lc_claim_id x]
        [mkPolicyDelta (cl_predicate (lc_raw x)) (pwi_weight existing) (pwi_weight existing + 5000)]
        INDICATOR_CORPUS_VERSION (INDICATOR_CORPUS_HASH blake3)
        (now1 - (Z.of_nat k mod 6) * 86400000) (now2 - ((Z.of_nat k mod 20) + 10) * 86400000))).
Proof using Hfrom.
  intros Hx. destruct sealed_scored as (Hne & Hl & Hgen & Hk & Hfit & Hev & Hids & Hh & Hsev & Hdisp).
  assert (raws !! k = Some (lc_raw x)) as Hraw by (by rewrite list_lookup_fmap, Hx).
  assert (∃ existing, synthetic_weights !! cl_predicate (lc_raw x) = Some existing) as [existing He].
  { destruct Hgen as (ts & _ & Hf). destruct (Forall2_lookup_r _ _ _ _ _ Hf Hraw) as (t & _ & Hp & _).
    destruct (vocabulary_priced t _ Hp) as (pw & Hpw & _).
    change (pb_predicate_weights synthetic_bundle) with (omap build_weight synthetic_weights) in Hpw.
    rewrite lookup_omap in Hpw. destruct (synthetic_weights !! _); [by eexists|done]. }
  destruct (bundle_weight _ _ He) as (pw & Hpw & Hb & Hw).
  destruct (augmented_wire _ _ He) as [Hwire Hfits]. cbv zeta in Hwire, Hfits.
  pose proof (augmented_accepted _ _ _ He Hb) as Hacc.
  set (p' := augmented_policy buildSyntheticPolicy (cl_predicate (lc_raw x)) existing (pwi_weight existing + 5000)) in *.
  set (b' := repriced (cl_predicate (lc_raw x)) pw) in *.
  assert (verifyClaimSet blake3 (mkRequest KERNEL_VERSION p' raws) =
    inr (kernel_output blake3 b' (wire_claim <$> raws) KERNEL_VERSION)) as Hnew.
  { apply verifyClaimSet_iff. unfold wire_request. cbn [kr_claims kr_policy kr_kernel_version].
    rewrite Hwire. split; [done|]. split; [done|]. split; [by apply Forall_fmap|]. by exists b'. }
  assert (Forall (fun c => is_Some (contribution b' c)) (wire_claim <$> raws)) as Huse'.
  { eapply Forall_impl; [by apply generated_uses|]. intros y [tw Hy]. unfold b'.
    rewrite (contribution_repriced _ _ Hpw), Hy. case_decide; by eexists. }
  destruct (output_severity blake3 b' (wire_claim <$> raws) KERNEL_VERSION) as [Hsev' Hdisp']; [|done|done| | |done|].
  { intros q w Hq. unfold b', repriced in Hq. cbn [pb_predicate_weights] in Hq.
    apply lookup_insert_Some in Hq as [[_ <-]|[_ Hq]].
    - pose proof (weight_bounds _ _ Hpw). cbn [pw_weight]. lia.
    - pose proof (weight_bounds _ _ Hq). lia. }
  { by rewrite !length_fmap. }
  { by destruct (cd_claims cd). }
  assert (plain_score b' (wire_claim <$> raws) = score + shift (lc_raw x)) as Hscore.
  { apply (score_repriced _ _ Hpw _ k (wire_claim (lc_raw x))).
    - rewrite <- list_fmap_compose. by apply (generated_NoDup raws).
    - by apply generated_uses.
    - by rewrite list_lookup_fmap, Hraw.
    - done. }
  rewrite Hscore in Hsev', Hdisp'.
  exists existing, (kernel_output blake3 synthetic_bundle (wire_claim <$> raws) KERNEL_VERSION),
    (kernel_output blake3 b' (wire_claim <$> raws) KERNEL_VERSION).
  split; [exact He|]. cbv zeta. fold p'. rewrite Hk.
  pose proof (synthetic_runs blake3 raws Hfit Hev) as Hold. split; [exact Hold|]. split; [exact Hnew|].
  unfold computeDriftForCase, at_index.
  rewrite (proj2 (Z.ltb_ge _ 0)) by lia. rewrite Nat2Z.id, Hraw. cbn [or_throw mbind outcome_bind].
  change (kp_predicate_weights buildSyntheticPolicy) with synthetic_weights. rewrite He.
  fold p'. rewrite Hold, Hnew, Hsev', Hdisp', Hsev, Hdisp.
  assert ((kv_submitted_claim_ids (kernel_output blake3 b' (wire_claim <$> raws) KERNEL_VERSION)) !! k =
    Some (lc_claim_id x)) as Hid.
  { unfold kernel_output. cbn [kv_submitted_claim_ids]. rewrite <- Hids. by rewrite list_lookup_fmap, Hx. }
  rewrite Hid. cbn [or_throw mbind outcome_bind].
  rewrite (decide_True (P := kv_verdict_hash _ = mf_verdict_hash _)) by (symmetry; exact Hh).
  destruct (decide (severityForScore (score + shift (lc_raw x)) = severityForScore score)) as [E|E].
  - rewrite E, decide_True by (split; exact eq_refl). exact eq_refl.
  - rewrite decide_False by (intros [? _]; contradiction). exact eq_refl.
Qed.

End exact.

(** Where 5000 more, or 5000 less, leads to another band. *)
Lemma bands_up s : severityForScore (s + 5000) = severityForScore s ↔ ¬ (- 3500 <= s < 8500).
Proof.
  unfold severityForScore.
  repeat (match goal with |- context [?a <=? ?b] => destruct (Z.leb_spec a b) end); split; intros H';
    first [discriminate H'|reflexivity|lia|exfalso; lia].
Qed.

Lemma bands_down s : severityForScore (s + -5000) = severityForScore s ↔ ¬ (1500 <= s < 13500).
Proof.
  unfold severityForScore.
  repeat (match goal with |- context [?a <=? ?b] => destruct (Z.leb_spec a b) end); split; intros H';
    first [discriminate H'|reflexivity|lia|exfalso; lia].
Qed.

(** The rows of a sweep, one index at a time. *)
Definition swept_row (blake3 : bytes → bytes) (data : LedgerData) (clock : nat → Z * Z)
    (r : nat * SealedManifest) : option VerdictDrift :=
  if (r.1 mod 3 =? 0)%nat then match sweep blake3 data clock r.1 r.2 with Ok o => o | Throw _ => None end else None.

Lemma sweep_from_Ok blake3 data clock k sms :
  (∀ i sm, sms !! i = Some sm → ∃ o, sweep blake3 data clock (k + i) sm = Ok o) →
  sweep_from blake3 data clock k sms =
  Ok (omap (swept_row blake3 data clock) (imap (fun j sm => ((k + j)%nat, sm)) sms)).
Proof.
  revert k. induction sms as [|sm sms IH]; intros k H; [done|].
  assert (sweep_from blake3 data clock (S k) sms =
    Ok (omap (swept_row blake3 data clock) (imap (fun j sm => ((S k + j)%nat, sm)) sms))) as Hrest.
  { apply IH. intros i sm' Hi. destruct (H (S i) sm' Hi) as [o Ho]. exists o.
    by replace (S k + i)%nat with (k + S i)%nat by lia. }
  destruct (H 0%nat sm eq_refl) as [o Ho]. rewrite Nat.add_0_r in Ho.
  cbn [sweep_from imap omap list_omap]. rewrite Hrest.
  rewrite (imap_ext ((fun j sm => ((k + j)%nat, sm)) ∘ S) (fun j sm => ((S k + j)%nat, sm)))
    by (intros; cbn; f_equal; lia).
  assert (swept_row blake3 data clock ((k + 0)%nat, sm) = if (k mod 3 =? 0)%nat then o else None) as ->.
  { unfold swept_row. cbn [fst snd]. by rewrite Nat.add_0_r, Ho. }
  destruct (k mod 3 =? 0)%nat; [|done]. rewrite Ho. by destruct o.
Qed.

(** ** Properties *)

(** C33: the sweep over a built ledger reprices, in manifest [i], the claim number
    [i mod n], and lists a drift exactly when 5000 points move the score to
    another band: up, for a supporting claim, when the score is in
    [-3500 .. 8499], down, for a refuting one, when it is in [1500 .. 13499].
    The row is then this one, field by field: the manifest's case and tenant; the
    severities and dispositions of the score before and after; the sealed hash and
    the hash of the new verdict; the attributions of the verdict under the ledger's
    policy and of the one under the repriced policy; that claim, its predicate's
    weight before and after, the indicator corpus; and two dates, [k] days and
    [k + 10] days before the clock's two readings, [k] the claim's number. *)
Theorem drift_exact (blake3 : bytes → bytes) cases now data clock i sm :
  NoDup (case_id <$> cases) → buildLedger blake3 cases now = Ok data → ld_manifests data !! i = Some sm →
  ∃ cd x existing old new o,
    let m := sm_manifest sm in
    let k := (i mod length (cd_claims cd))%nat in
    let raws := lc_raw <$> cd_claims cd in
    let w := pwi_weight existing in
    ld_caseData data !! mf_investigation_id m = Some cd ∧
    cd_claims cd !! k = Some x ∧
    synthetic_weights !! cl_predicate (lc_raw x) = Some existing ∧
    verifyClaimSet blake3 (mkRequest (mf_kernel_version m) (ld_policy data) raws) = inr old ∧
    verifyClaimSet blake3 (mkRequest (mf_kernel_version m)
      (augmented_policy (ld_policy data) (cl_predicate (lc_raw x)) existing (w + 5000)) raws) = inr new ∧
    sweep blake3 data clock i sm = Ok o ∧
    let s := plain_score synthetic_bundle (wire_claim <$> raws) in
    let moved := severityForScore (s + shift (lc_raw x)) in
    (is_Some o ↔ match cl_polarity (lc_raw x) with
                 | supports => - 3500 <= s < 8500
                 | refutes => 1500 <= s < 13500
                 end) ∧
    ∀ d, o = Some d → d =
      mkDrift (mf_case_id m) (mf_tenant_id m) (severityForScore s) moved
        (dispositionFor (severityForScore s) false) (dispositionFor moved false)
        (mf_verdict_hash m) (kv_verdict_hash new)
        (kv_contributing_claims old) (kv_contributing_claims new)
        [lc_claim_id x] [mkPolicyDelta (cl_predicate (lc_raw x)) w (w + 5000)]
        INDICATOR_CORPUS_VERSION (INDICATOR_CORPUS_HASH blake3)
        ((clock i).1 - Z.of_nat k * 86400000) ((clock i).2 - (Z.of_nat k + 10) * 86400000).
Proof.
  intros Hnd Hb Hi.
  destruct (built_manifest blake3 _ _ _ sm Hnd Hb ltac:(by eapply list_elem_of_lookup_2))
    as (c & cd & Hf & Hd & Hp).
  destruct (sealed_scored blake3 c sm cd Hf) as (Hne & Hl & _).
  assert (0 < length (cd_claims cd))%nat as Hlen by (destruct (cd_claims cd); [done|simpl; lia]).
  pose proof (Nat.mod_upper_bound i (length (cd_claims cd)) ltac:(lia)) as Hm.
  destruct (lookup_lt_is_Some_2 (cd_claims cd) _ Hm) as [x Hx].
  destruct (reprice_run blake3 c sm cd Hf _ x (clock i).1 (clock i).2 (mf_case_id (sm_manifest sm))
    (mf_tenant_id (sm_manifest sm)) Hx) as (existing & old & new & He & Hold & Hnew & Hrun).
  cbv zeta in *. exists cd, x, existing, old, new. eexists. split; [exact Hd|]. split; [exact Hx|]. split; [exact He|].
  rewrite Hp. split; [exact Hold|]. split; [exact Hnew|]. split.
  { unfold sweep. rewrite Hd, (proj2 (Nat.eqb_neq _ 0)), Hp, <- Nat2Z.inj_mod by lia. exact Hrun. }
  clear Hrun. split.
  - assert (shift (lc_raw x) = match cl_polarity (lc_raw x) with supports => 5000 | refutes => -5000 end) as Hsh
      by (unfold shift; by destruct (cl_polarity (lc_raw x))).
    rewrite Hsh. destruct (cl_polarity (lc_raw x)); case_decide as E; rewrite ?bands_up, ?bands_down in E.
    1, 3: split; [intros [y [=]]|intros Hr; destruct (E Hr)].
    all: split; [intros _; apply dec_stable; exact E|intros _; by eexists].
  - intros d' Hd'. case_decide; [discriminate Hd'|]. injection Hd' as <-. by rewrite !Z.mod_small by lia.
Qed.

(** C34: the drift sweep over a built ledger always returns: the rows are those of
    every third manifest that drift at all, the latest flip first. *)
Theorem drift_sweep (blake3 : bytes → bytes) cases now data clock :
  NoDup (case_id <$> cases) → buildLedger blake3 cases now = Ok data →
  ∃ ds, buildDrift blake3 data clock = Ok ds ∧
    ds ≡ₚ omap (swept_row blake3 data clock) (imap pair (ld_manifests data)) ∧
    StronglySorted (fun a b => vd_flipped_at_ms b <= vd_flipped_at_ms a) ds.
Proof.
  intros Hnd Hb. unfold buildDrift. rewrite (sweep_from_Ok blake3 data clock 0).
  - eexists. split; [reflexivity|]. split; [apply sort_by_perm|].
    eapply StronglySorted_weaken; [|apply sort_by_strongly_sorted].
    + intros a b. unfold latest_flip_first. cbn beta. rewrite Z.leb_le. lia.
    + intros a b. unfold latest_flip_first. rewrite !Z.leb_le. lia.
    + intros a b e. unfold latest_flip_first. rewrite !Z.leb_le. lia.
  - intros i sm Hi. cbn [Nat.add].
    destruct (built_manifest blake3 _ _ _ sm Hnd Hb ltac:(by eapply list_elem_of_lookup_2))
      as (c & cd & Hf & Hd & Hp).
    destruct (sealed_scored blake3 c sm cd Hf) as (Hne & _).
    assert (0 < length (cd_claims cd))%nat as Hlen by (destruct (cd_claims cd); [done|simpl; lia]).
    destruct (lookup_lt_is_Some_2 (cd_claims cd) (i mod length (cd_claims cd))) as [x Hx];
      [apply Nat.mod_upper_bound; lia|].
    destruct (reprice_run blake3 c sm cd Hf _ x (clock i).1 (clock i).2 (mf_case_id (sm_manifest sm))
      (mf_tenant_id (sm_manifest sm)) Hx) as (existing & old & new & _ & _ & _ & Hrun).
    eexists. unfold sweep. rewrite Hd, (proj2 (Nat.eqb_neq _ 0)), Hp, <- Nat2Z.inj_mod by lia. exact Hrun.
Qed.

Lemma drift_exact_witness :
  ∃ data sm x new o, buildLedger toy_hash one_case noon = Ok data ∧
    sweep toy_hash data (fun _ => (5, 7)) 0 sm = Ok o ∧
    ∀ d, o = Some d → vd_responsible_claim_ids d = [lc_claim_id x] ∧ vd_new_verdict_hash d = kv_verdict_hash new ∧
      vd_flipped_at_ms d = 5 ∧ vd_closed_at_ms d = 7 - 864000000.
Proof.
  destruct one_built as (data & sm & E & Hi).
  destruct (drift_exact toy_hash one_case noon data (fun _ => (5, 7)) 0 sm sample_ids E Hi)
    as (cd & x & existing & old & new & o & _ & _ & _ & _ & _ & Hrun & _ & Hd).
  exists data, sm, x, new, o. split; [exact E|]. split; [exact Hrun|]. intros d Ho. rewrite (Hd d Ho).
  cbn [vd_responsible_claim_ids vd_new_verdict_hash vd_flipped_at_ms vd_closed_at_ms fst snd].
  rewrite Nat.Div0.mod_0_l. by repeat split.
Defined.

Lemma drift_sweep_witness :
  ∃ data ds, buildLedger toy_hash one_case noon = Ok data ∧
    buildDrift toy_hash data (fun _ => (5, 7)) = Ok ds.
Proof.
  destruct one_built as (data & sm & E & Hi).
  destruct (drift_sweep toy_hash one_case noon data (fun _ => (5, 7)) sample_ids E) as (ds & Hds & _).
  exists data, ds. split; [exact E|exact Hds].
Defined.
