(* ===== verification/DriftView.v ===== *)
(** * What the drift monitor shows: web/src/components/drift-monitor

    The list of flipped verdicts (drift-monitor-client.tsx) and one row of it
    (drift-row.tsx).  The text of a date is the browser's ([fmtDate]); which rows
    are expanded is the rows' own state. *)

From S2P Require Import Prelude JsNum View Types Widgets Merkle Kernel Policy Ledger Drift.
Open Scope Z_scope.

Definition AttributionTable (title : string) (claims : list AttributedClaim) : view :=
  El "div" []
   [El "div" [] [Txt title];
    El "ul" []
     (map (fun c => El "li" [("key", Some (ac_claim_id c))]
        [El "span" [] [Txt (ac_predicate c)]; El "span" [] [Txt (attributed_text c)]]) claims)].

Definition DeltaLine (drift : VerdictDrift) (d : PolicyDelta) : view :=
  El "p" [("key", Some (pd_predicate d))]
   [Txt "Claim ";
    El "span" [] [Txt (default "" (slice0 12 <$> vd_responsible_claim_ids drift !! 0%nat)); Txt "…"];
    Txt (" (" +:+ pd_predicate d +:+ ") weight ");
    El "span" [] [Txt (to_dec (pd_old_weight d))]; Txt " → "; El "span" [] [Txt (to_dec (pd_new_weight d))]].

(** What an expanded row adds. *)
Definition DriftDetail (drift : VerdictDrift) : view :=
  El "div" []
  [El "div" []
    (El "div" [] [Txt "Responsible claim & policy delta"] ::
     map (DeltaLine drift) (vd_policy_deltas drift) ++
     [El "p" [] [Txt ("indicator corpus " +:+ vd_indicator_corpus_version drift +:+ " (" +:+
                      slice0 12 (vd_indicator_corpus_hash drift) +:+ "…)")]]);
   El "div" []
    [AttributionTable "Before" (vd_old_contributing_claims drift);
     AttributionTable "After" (vd_new_contributing_claims drift)];
   El "div" [] [Txt (slice0 12 (vd_old_verdict_hash drift) +:+ "… → " +:+ slice0 12 (vd_new_verdict_hash drift) +:+ "…")];
   El "Button" [("data-testid", Some "reopen-investigation")]
    [El "RotateCcw" [("aria-hidden", Some "true")] []; Txt "Reopen investigation"]].

Section dates.
Context (fmtDate : Z → string).

Definition DriftRow (expanded : bool) (drift : VerdictDrift) : view :=
  El "div" [("data-testid", Some "drift-row")]
   (El "button" [("type", Some "button"); ("aria-expanded", bool_attr expanded)]
     [El (if expanded then "ChevronDown" else "ChevronRight") [("aria-hidden", Some "true")] [];
      El "span" [] [Txt (vd_case_id drift)];
      El "span" []
       [SeverityLabel (vd_old_severity drift); El "span" [("aria-hidden", Some "true")] [Txt "→"];
        SeverityLabel (vd_new_severity drift)];
      El "span" [] [];
      El "span" [] [Txt ("closed " +:+ fmtDate (vd_closed_at_ms drift))];
      El "span" [] [Txt ("flipped " +:+ fmtDate (vd_flipped_at_ms drift))]] ::
    when expanded (DriftDetail drift)).

(** The key React tells the rows apart by. *)
Definition drift_key (drift : VerdictDrift) : string := vd_case_id drift +:+ "-" +:+ vd_new_verdict_hash drift.

Definition DriftMonitorClient (data : option (list VerdictDrift)) (expanded : string → bool) : view :=
  match data with
  | None => El "div" [] [Txt "Loading drift sweep…"]
  | Some [] =>
      EmptyState "No drift this sweep"
        "Every closed case's verdict still matches the current policy -- nothing to reopen."
        "RVD sweep found zero flips"
  | Some drifts => El "div" [("data-testid", Some "drift-list")] (map (fun d => DriftRow (expanded (drift_key d)) d) drifts)
  end.

(** A click on a row's button changes that row only. *)
Definition toggle_row (key : string) (expanded : string → bool) : string → bool :=
  fun k => if decide (k = key) then negb (expanded k) else expanded k.

(** ** One row for each drift, one reopen button for each expanded row *)

Lemma DriftDetail_testids name drift :
  by_testid name [DriftDetail drift] =
  if decide (name = "reopen-investigation")
  then [El "Button" [("data-testid", Some "reopen-investigation")]
         [El "RotateCcw" [("aria-hidden", Some "true")] []; Txt "Reopen investigation"]]
  else [].
Proof.
  assert (∀ title claims, by_testid name [AttributionTable title claims] = []) as Ha.
  { intros title claims. unfold AttributionTable, by_testid, by_attr. look. rewrite select_cons; look. cbn [app].
    rewrite (select_inside _ "ul") by done. by apply select_map_nil. }
  assert (by_testid name (map (DeltaLine drift) (vd_policy_deltas drift)) = []) as Hd by by apply select_map_nil.
  unfold DriftDetail, by_testid, by_attr in *. look.
  assert (∀ children, select (fun v => bool_decide (attr "data-testid" v = Some name)) [El "div" [] children] =
    select (fun v => bool_decide (attr "data-testid" v = Some name)) children) as Hdiv by (intros; by look).
  rewrite !select_cons2, !Hdiv, (select_cons _ _ (map _ _ ++ _)), select_app, Hd, ?select_cons2, !Ha. cbn [app].
  case_decide as E; [by subst|]. rewrite (select_inside _ "Button"); [done|]. apply bool_decide_eq_false. by intros [= <-].
Qed.

Lemma DriftRow_testids expanded drift :
  by_testid "drift-row" [DriftRow expanded drift] = [DriftRow expanded drift] ∧
  length (by_testid "reopen-investigation" [DriftRow expanded drift]) = if expanded then 1%nat else 0%nat.
Proof.
  pose proof (DriftDetail_testids "drift-row" drift) as H1. pose proof (DriftDetail_testids "reopen-investigation" drift) as H2.
  unfold DriftRow, by_testid, by_attr in *. split; look; rewrite select_cons; (destruct expanded; [|done]); cbn [when];
    rewrite ?H1, ?H2; done.
Qed.

Lemma DriftMonitor_rows drifts expanded :
  by_testid "drift-row" [DriftMonitorClient (Some drifts) expanded] = map (fun d => DriftRow (expanded (drift_key d)) d) drifts.
Proof.
  destruct drifts as [|d l]; [done|]. unfold DriftMonitorClient, by_testid, by_attr. look.
  rewrite (select_map _ _ (fun d => [DriftRow (expanded (drift_key d)) d])); [by induction (d :: l); [|cbn; f_equal]|].
  intros x _. apply DriftRow_testids.
Qed.

End dates.
