(* ===== verification/Pages.v ===== *)
(** * The pages of the console: web/src/app/(console)/<surface>/page.tsx

    Each page is a heading over a surface.  The surfaces are the views of the other
    files; [Suspense] shows its child, or nothing while that waits. *)

From S2P Require Import Prelude View Shortcuts.

Definition page (title description : string) (body : view) : view :=
  El "div" [] [PageHeader title (Some description); body].

Definition framed (body : view) : view := El "div" [] [body].
Definition suspended (child : option view) : view := El "div" [] (match child with Some v => [v] | None => [] end).

Definition WatchfloorPage (client : view) : view := page "Watchfloor" "Live-updating, risk-ranked case queue" (framed client).
Definition InvestigationCanvasPage (client : option view) : view :=
  page "Investigation Canvas" "The evidence graph for a selected case" (suspended client).
Definition TimelinePage (client : option view) : view :=
  page "Timeline Reconstructor" "ATT&CK tactics as horizontal bands, linked to the canvas" (suspended client).
Definition VerdictLedgerPage (client : view) : view := page "Verdict Ledger" "The append-only manifest log, per tenant" (framed client).
Definition DriftMonitorPage (client : view) : view := page "Drift Monitor" "Cases whose disposition changed on re-adjudication" client.
Definition ResponseConsolePage (client : view) : view :=
  page "Response Console" "Proposed actions, blast radius, and autonomous-execution policy" (framed client).

Definition CoverageMapPage : view :=
  page "Coverage Map" "ATT&CK matrix heatmap: rule exists, rule fires, telemetry supports it"
    (EmptyState "No coverage data yet"
      "Distinguishing “we have a rule” from “the rule has ever fired” from “we have telemetry that would let it fire” needs the CDL rule pack's real fire-rate history behind it."
      "Not yet scheduled — see phases/PHASES.md").

Definition DetectionStudioPage : view :=
  page "Detection Studio" "CDL rule authoring, test-against-history, versioning"
    (EmptyState "No rule open"
      "The live test-against-history panel compiles a CDL rule to the same SQL the streaming engine uses and shows what it would have fired on. The CDL compiler is real (detect/, Phase 3); this editor surface isn't built yet."
      "Not yet scheduled — see phases/PHASES.md").

(** The heading of each page is the label of its surface. *)
Lemma headings_are_labels v o :
  map (fun p => text_contents (by_tag "h1" (take 1 (match p with El _ _ c => c | Txt _ => [] end))))
    [WatchfloorPage v; InvestigationCanvasPage o; TimelinePage o; VerdictLedgerPage v; DriftMonitorPage v;
     ResponseConsolePage v; CoverageMapPage; DetectionStudioPage] = take 8 (su_label <$> SURFACES).
Proof. reflexivity. Qed.
