(* ===== verification/TriageGate.v ===== *)
(** * The keyboard leg of the triage gate: eval/ui/triage-flow.mjs, [checkTriageFlow]

    The gate ticks and unticks a filter, clicks the first row on screen, presses
    [j], [e] and [i], and looks at the page after each step.  The leg is run here on
    the Watchfloor's model, from the surface it finds; between its steps no event
    of the feed arrives, and the table library shows the rows as in WatchfloorView,
    with the selected row scrolled into the window. *)

From S2P Require Import Prelude Json View Types Text Seed Store Watchfloor WatchfloorView.
Open Scope Z_scope.

(** [includes] on texts. *)
Fixpoint includes (sub s : string) : bool :=
  String.prefix sub s || match s with EmptyString => false | String _ s' => includes sub s' end.

Lemma prefix_append p s : String.prefix p (p +:+ s) = true.
Proof. induction p as [|c p IH]; [by destruct s|]. simpl. by destruct (Ascii.ascii_dec c c). Qed.

Lemma includes_mid a p b : includes p (a +:+ (p +:+ b)) = true.
Proof.
  induction a as [|c a IH].
  - change (EmptyString +:+ (p +:+ b)) with (p +:+ b). pose proof (prefix_append p b) as H.
    destruct (p +:+ b); cbn [includes]; by rewrite H.
  - change (String c a +:+ (p +:+ b)) with (String c (a +:+ (p +:+ b))). cbn [includes]. rewrite IH. apply orb_true_r.
Qed.

Fixpoint strip (p s : string) : option string :=
  match p, s with
  | EmptyString, _ => Some s
  | String c p', String d s' => if Ascii.ascii_dec c d then strip p' s' else None
  | _, _ => None
  end.

Inductive TriageFailure := RowNotSelected | JDidNotAdvance | NotEscalated | NotCarried.

#[export] Instance TriageFailure_eq_dec : EqDecision TriageFailure.
Proof. solve_decision. Defined.

Section leg.
(** The rows of the feed, and the table library on the cases and the selection. *)
Context (now : Z) (rows : list Case) (table : list Case → option string → Table).

Definition shown_table (s : Surface) : Table := table (filteredCases rows s) (sf_selectedId s).

(** [data-index] of the row marked selected, if one is in the window. *)
Definition selected_item (s : Surface) : option nat :=
  List.find (fun i => bool_decide (sf_selectedId s = case_id <$> tb_rows (shown_table s) !! i)) (tb_items (shown_table s)).

(** The text of that row. *)
Definition selected_text (s : Surface) : string :=
  match selected_item s ≫= (fun i => tb_rows (shown_table s) !! i) with
  | Some c => text_content (row_of now (sf_selectedId s) c)
  | None => EmptyString
  end.

(** The filter is ticked and unticked, the first row clicked. *)
Definition untick (s : Surface) : Surface := set_filters (rail_change (F_severity critical) (rail_change (F_severity critical) (sf_filters s))) s.
Definition first_row (s : Surface) : option Case := head (tb_items (shown_table s)) ≫= (fun i => tb_rows (shown_table s) !! i).

(** Where each step leaves the surface. *)
Record TriageLeg := mkLeg { tl_click : Surface; tl_j : Surface; tl_e : Surface; tl_i : Surface }.

Definition run_leg (s0 : Surface) : outcome TriageLeg :=
  let s := untick s0 in
  c ← or_throw TypeError (first_row s);
  let click := (row_click c None s).2 in
  j ← press rows "j" click;
  e ← press rows "e" j;
  i ← press rows "i" e;
  Ok (mkLeg click j e i).

(** [new URL(page.url()).searchParams.get("case")] after the last step. *)
Definition carried (l : TriageLeg) : option string := last (sf_pushed (tl_i l)) ≫= strip "/investigation-canvas?case=".

Definition leg_failures (l : TriageLeg) : list TriageFailure :=
  match selected_item (tl_click l) with None => [RowNotSelected] | Some _ => [] end ++
  match selected_item (tl_j l) with
  | None => [JDidNotAdvance]
  | Some j => if decide (Some j = selected_item (tl_click l)) then [JDidNotAdvance] else []
  end ++
  (if includes "escalated" (lower (selected_text (tl_e l))) then [] else [NotEscalated]) ++
  match carried l with None | Some EmptyString => [NotCarried] | Some _ => [] end.
End leg.

(** ** An override of the status *)

Lemma case_passes_override f c o : case_passes f (apply_override c o) = case_passes f c.
Proof. done. Qed.

Lemma filtered_setStatus rows id status s :
  case_id <$> filteredCases rows (setStatus id (mkOverride (Some status) None) s) = case_id <$> filteredCases rows s ∧
  ∀ c, c ∈ filteredCases rows s → case_id c = id →
    ∃ c', c' ∈ filteredCases rows (setStatus id (mkOverride (Some status) None) s) ∧ case_id c' = id ∧ case_status c' = status.
Proof.
  unfold filteredCases, applyFilters, allCases. cbn [setStatus sf_overrides sf_filters].
  set (ov := sf_overrides s). set (o := merge_override _ _). set (f := sf_filters s).
  assert (∀ base, let old := match ov !! case_id base with Some o => apply_override base o | None => base end in
    let new := match <[id := o]> ov !! case_id base with Some o => apply_override base o | None => base end in
    case_id new = case_id old ∧ case_passes f new = case_passes f old ∧ (case_id old = id → case_status new = status)) as Hbase.
  { intros base. cbv zeta. destruct (decide (case_id base = id)) as [Hid|Hid].
    - rewrite Hid, lookup_insert_eq. by destruct (ov !! id).
    - rewrite lookup_insert_ne by done. destruct (ov !! case_id base); (split; [done|split; [done|intros ?; exfalso; by apply Hid]]). }
  induction rows as [|base rows [IH1 IH2]]; [split; [done|by intros ? ?%not_elem_of_nil]|].
  rewrite !fmap_cons, !filter_cons. destruct (Hbase base) as (H1 & H2 & H3). cbv zeta in *.
  set (old := match ov !! case_id base with Some _ => _ | None => _ end) in *.
  set (new := match <[id := o]> ov !! case_id base with Some _ => _ | None => _ end) in *.
  rewrite H2. destruct (decide (case_passes f old)) as [Hp|Hp].
  - rewrite !fmap_cons, H1, IH1. split; [done|]. intros c [->|Hc]%elem_of_cons Hid.
    + exists new. split; [by left|]. split; [congruence|by apply H3].
    + destruct (IH2 c Hc Hid) as (c' & Hc' & ?). exists c'. split; [by right|done].
  - done.
Qed.

(** ** What the gate sees *)

(** The table library: its laws, an order of the rows that the selection does not
    change, and a selected row in the window ([scrollToIndex]). *)
Record TableShows (table : list Case → option string → Table) : Prop := {
  ts_laws : ∀ cs sel, TableLaws cs (table cs sel);
  ts_order : ∀ cs a b, tb_rows (table cs a) = tb_rows (table cs b);
  ts_window : ∀ cs sel i, scroll_target (tb_rows (table cs sel)) sel = Some i → i ∈ tb_items (table cs sel);
}.

Section leg_proofs.
Context (now : Z) (rows : list Case) (table : list Case → option string → Table) (Htable : TableShows table).

(** Distinct, non-empty ids. *)
Definition ids_ok (cs : list Case) : Prop := NoDup (case_id <$> cs) ∧ EmptyString ∉ case_id <$> cs.

Lemma selected_item_at s c :
  ids_ok (filteredCases rows s) → c ∈ filteredCases rows s → sf_selectedId s = Some (case_id c) →
  ∃ i, selected_item rows table s = Some i ∧ tb_rows (shown_table rows table s) !! i = Some c.
Proof using Htable.
  intros [Hnd Hne] Hc Hsel. unfold selected_item. set (t := shown_table rows table s).
  assert (tb_rows t ≡ₚ filteredCases rows s) as Hperm by apply (ts_laws _ Htable).
  rewrite <- Hperm in Hc. assert (NoDup (case_id <$> tb_rows t)) as Hnd' by by rewrite Hperm.
  apply list_elem_of_lookup in Hc as [i Hi].
  assert (i ∈ tb_items t) as Hin.
  { apply (ts_window _ Htable). unfold scroll_target. fold (shown_table rows table s). fold t. rewrite Hsel. unfold truthy.
    destruct (case_id c) as [|a id] eqn:E.
    - exfalso. apply Hne. rewrite <- E, <- Hperm. apply list_elem_of_fmap_2. by eapply list_elem_of_lookup_2.
    - rewrite <- E. apply index_of_NoDup; [done|]. by rewrite list_lookup_fmap, Hi. }
  destruct (List.find _ (tb_items t)) as [k|] eqn:Ef.
  - apply List.find_some in Ef as [_ Hk%bool_decide_eq_true]. exists k. split; [done|].
    rewrite Hsel in Hk. destruct (tb_rows t !! k) as [d|] eqn:Hd; [|done]. cbn in Hk. injection Hk as Hk.
    by rewrite <- (NoDup_fmap_eq case_id (tb_rows t) c d Hnd' ltac:(by eapply list_elem_of_lookup_2) ltac:(by eapply list_elem_of_lookup_2) Hk).
  - exfalso. apply list_elem_of_In in Hin. pose proof (List.find_none _ _ Ef i Hin) as Hf.
    apply bool_decide_eq_false in Hf. apply Hf. by rewrite Hsel, Hi.
Qed.

Lemma untick_same s : untick s = s.
Proof. unfold untick. rewrite rail_change_twice. by destruct s. Qed.

Lemma lower_append a b : lower (a +:+ b) = lower a +:+ lower b.
Proof. induction a as [|c a IH]; [done|]. simpl. by rewrite IH. Qed.

Lemma text_in (l : list string) t : t ∈ l → ∃ a b, foldr String.append EmptyString l = a +:+ (t +:+ b).
Proof.
  induction l as [|x l IH]; [by intros ?%not_elem_of_nil|]. intros [->|(a & b & E)%IH]%elem_of_cons.
  - by exists EmptyString, (foldr String.append EmptyString l).
  - exists (x +:+ a), b. cbn [foldr]. rewrite E. by rewrite append_assoc.
Qed.

(** The text of a row holds its status. *)
Lemma row_text_status sel c : case_status c = escalated → includes "escalated" (lower (text_content (row_of now sel c))) = true.
Proof.
  intros Hs. destruct (text_in (map text_content (map (RowCell now c) columns)) "escalated") as (a & b & E).
  - apply list_elem_of_fmap. exists (RowCell now c col_status). split; [|apply list_elem_of_fmap_2; do 6 right; by left].
    cbn. by rewrite Hs.
  - change (text_content (row_of now sel c)) with (foldr String.append EmptyString (map text_content (map (RowCell now c) columns))).
    rewrite E, !lower_append. exact (includes_mid _ "escalated" _).
Qed.

Lemma press_j_at s i c :
  ids_ok (filteredCases rows s) → filteredCases rows s !! i = Some c → sf_selectedId s = Some (case_id c) →
  ∃ d, filteredCases rows s !! (S i `min` (length (filteredCases rows s) - 1))%nat = Some d ∧
    press rows "j" s = Ok (set_selected (case_id d) s).
Proof.
  intros [Hnd Hne] Hi Hsel. assert (s = set_selected (case_id c) s) as E by (destruct s; cbn in Hsel; by subst).
  assert (Forall (fun c => case_id c ≠ EmptyString) (filteredCases rows s)) as Hall.
  { apply Forall_forall. intros x Hx Hx'. apply Hne. rewrite <- Hx'. by apply list_elem_of_fmap_2. }
  destruct (press_j_from rows s Hnd Hall i c Hi) as (d & Hd & Hp). exists d. split; [done|]. by rewrite E.
Qed.

(** A key other than [j] and [k] on a selected case. *)
Lemma press_on s c k :
  c ∈ filteredCases rows s → sf_selectedId s = Some (case_id c) → case_id c ≠ EmptyString → k ∈ ["e"; "i"] →
  press rows k s = Ok (if decide (k = "e") then setStatus (case_id c) (mkOverride (Some escalated) None) s
                       else push_route ("/investigation-canvas?case=" +:+ case_id c) s).
Proof.
  intros Hc Hsel Hne Hk. unfold press, onKeyDown. cbn [ke_key ke_editable ke_modified orb].
  assert ((length (filteredCases rows s) =? 0)%nat = false) as ->
    by (apply Nat.eqb_neq; destruct (filteredCases rows s); [by apply not_elem_of_nil in Hc|done]).
  assert (truthy (sf_selectedId s) = Some (case_id c)) as -> by (rewrite Hsel; by destruct (case_id c)).
  rewrite !elem_of_cons in Hk. destruct Hk as [->|[->|?%not_elem_of_nil]]; done.
Qed.

Lemma bind_Ok_outcome {A B} (a : A) (k : A → outcome B) : Ok a ≫= k = k a.
Proof. done. Qed.

(** The whole leg, from a first row at place [i] of the queue. *)
Lemma leg_runs s i c :
  ids_ok (filteredCases rows s) → first_row rows table s = Some c → filteredCases rows s !! i = Some c →
  ∃ d l, filteredCases rows s !! (S i `min` (length (filteredCases rows s) - 1))%nat = Some d ∧
    run_leg rows table s = Ok l ∧
    tl_click l = set_selected (case_id c) s ∧ tl_j l = set_selected (case_id d) s ∧
    tl_e l = setStatus (case_id d) (mkOverride (Some escalated) None) (tl_j l) ∧
    tl_i l = push_route ("/investigation-canvas?case=" +:+ case_id d) (tl_e l).
Proof.
  intros Hok Hfirst Hi. unfold run_leg. rewrite untick_same, Hfirst. cbn [or_throw]. rewrite bind_Ok_outcome. cbn [row_click snd].
  destruct (press_j_at (set_selected (case_id c) s) i c Hok Hi eq_refl) as (d & Hd & Hj).
  change (filteredCases rows (set_selected (case_id c) s)) with (filteredCases rows s) in Hd.
  rewrite Hj, bind_Ok_outcome. change (set_selected (case_id d) (set_selected (case_id c) s)) with (set_selected (case_id d) s).
  assert (d ∈ filteredCases rows s) as Hin by by eapply list_elem_of_lookup_2.
  assert (case_id d ≠ EmptyString) as Hne.
  { intros E. apply (proj2 Hok). rewrite <- E. by apply list_elem_of_fmap_2. }
  rewrite (press_on (set_selected (case_id d) s) d "e") by (done || by left).
  rewrite decide_True, bind_Ok_outcome by done.
  set (e := setStatus (case_id d) _ _).
  destruct (filtered_setStatus rows (case_id d) escalated (set_selected (case_id d) s)) as [_ He].
  destruct (He d Hin eq_refl) as (d' & Hd' & Hid' & _). fold e in Hd'.
  rewrite (press_on e d' "i") by (rewrite ?Hid'; done || by (right; left)).
  rewrite decide_False, bind_Ok_outcome by done.
  eexists d, _. split; [done|]. split; [reflexivity|]. rewrite Hid'. done.
Qed.

Lemma selected_item_inj s c d :
  ids_ok (filteredCases rows s) → c ∈ filteredCases rows s → d ∈ filteredCases rows s →
  selected_item rows table (set_selected (case_id c) s) = selected_item rows table (set_selected (case_id d) s) → c = d.
Proof using Htable.
  intros Hok Hc Hd E. destruct (selected_item_at (set_selected (case_id c) s) c Hok Hc eq_refl) as (i & Ei & Hi).
  destruct (selected_item_at (set_selected (case_id d) s) d Hok Hd eq_refl) as (j & Ej & Hj).
  assert (i = j) as -> by congruence. unfold shown_table in Hi, Hj. cbn [set_selected sf_selectedId] in Hi, Hj.
  rewrite !filteredCases_selected in Hi, Hj. rewrite (ts_order _ Htable _ _ (Some (case_id d))) in Hi. congruence.
Qed.

End leg_proofs.

(** ** Properties *)

(** C13: the keyboard leg of the gate.  Whatever queue it finds (with distinct ids, some
    row on screen), the leg fails only at [j], and there exactly if the row on top
    of the screen is the last of the queue: the keys go through the cases in the
    order of the feed, while the screen shows them by risk.  In either case the case
    it is on at the end is escalated and its id carried to the canvas. *)
Theorem triage_leg now rows table s c :
  TableShows table → ids_ok (filteredCases rows s) → first_row rows table s = Some c →
  ∃ i d l, filteredCases rows s !! i = Some c ∧ run_leg rows table s = Ok l ∧
    filteredCases rows s !! (S i `min` (length (filteredCases rows s) - 1))%nat = Some d ∧
    leg_failures now rows table l = (if decide (S i = length (filteredCases rows s)) then [JDidNotAdvance] else []) ∧
    carried l = Some (case_id d) ∧ sf_overrides (tl_i l) = <[case_id d := merge_override (sf_overrides s !! case_id d) (mkOverride (Some escalated) None)]> (sf_overrides s).
Proof.
  intros Htable Hok Hfirst.
  assert (c ∈ filteredCases rows s) as Hc.
  { rewrite <- (tl_rows _ _ (ts_laws _ Htable _ (sf_selectedId s))). unfold first_row in Hfirst.
    destruct (head _) as [k|]; [|done]. by eapply list_elem_of_lookup_2. }
  apply list_elem_of_lookup in Hc as Hc'. destruct Hc' as [i Hi].
  destruct (leg_runs rows table s i c Hok Hfirst Hi) as (d & l & Hd & Hrun & El & Ej & Ee & Ei).
  exists i, d, l. split; [done|]. split; [done|]. split; [done|].
  assert (d ∈ filteredCases rows s) as Hdin by by eapply list_elem_of_lookup_2.
  destruct (filtered_setStatus rows (case_id d) escalated (tl_j l)) as [Eids He]. rewrite <- Ee in Eids, He.
  assert (filteredCases rows (tl_j l) = filteredCases rows s) as Efj by by rewrite Ej.
  destruct (He d ltac:(by rewrite Efj) eq_refl) as (d' & Hd' & Hid' & Hst).
  assert (ids_ok (filteredCases rows (tl_e l))) as Hoke by (unfold ids_ok; by rewrite Eids, Efj).
  assert (sf_selectedId (tl_e l) = Some (case_id d')) as Hsele by by rewrite Ee, Ej, Hid'.
  destruct (selected_item_at rows table Htable (set_selected (case_id c) s) c Hok Hc eq_refl) as (a & Ea & _).
  destruct (selected_item_at rows table Htable (set_selected (case_id d) s) d Hok Hdin eq_refl) as (b & Eb & _).
  destruct (selected_item_at rows table Htable (tl_e l) d' Hoke Hd' Hsele) as (k & Ek & Hk).
  assert (carried l = Some (case_id d)) as Hcar by (unfold carried; rewrite Ei; cbn [push_route sf_pushed]; by rewrite last_snoc).
  split; [|split; [done|by rewrite Ei, Ee, Ej]].
  unfold leg_failures. rewrite Hcar, El, Ej, Ea, Eb.
  assert (selected_text now rows table (tl_e l) = text_content (row_of now (sf_selectedId (tl_e l)) d')) as ->
    by (unfold selected_text; rewrite Ek; cbn [mbind option_bind]; by rewrite Hk).
  rewrite row_text_status by done. cbn [app].
  assert (case_id d ≠ EmptyString) as Hne by (intros E; apply (proj2 Hok); rewrite <- E; by apply list_elem_of_fmap_2).
  destruct (case_id d) eqn:Ed; [done|]. rewrite app_nil_r, <- Ed in *.
  pose proof (lookup_lt_Some _ _ _ Hi) as Hlt. destruct (decide (S i = length (filteredCases rows s))) as [Hlast|Hmore].
  - rewrite decide_True; [done|]. rewrite (Nat.min_r _ _) in Hd by lia.
    replace (length (filteredCases rows s) - 1)%nat with i in Hd by lia. assert (c = d) as -> by congruence. congruence.
  - rewrite decide_False; [done|]. intros E.
    assert (c = d) as <-.
    { apply (selected_item_inj rows table Htable s); [done..|]. by rewrite Ea, Eb. }
    assert (i = S i `min` (length (filteredCases rows s) - 1))%nat; [|lia].
    apply (NoDup_lookup (case_id <$> filteredCases rows s) _ _ (case_id c)); [apply Hok| |]; by rewrite list_lookup_fmap, ?Hi, ?Hd.
Qed.

(** A window with every row, by descending risk. *)
Definition whole_table (cs : list Case) (sel : option string) : Table :=
  mkTable (sort_by (fun a b => case_riskScore b <=? case_riskScore a) cs)
    (fun k => match k with col_riskScore => Some true | _ => None end) (seq 0 (length cs)).

Lemma whole_table_shows : TableShows whole_table.
Proof.
  split; [|done|].
  - intros cs sel. split; cbn.
    + apply sort_by_perm.
    + apply Forall_forall. intros i Hi%elem_of_seq. rewrite length_sort_by. lia.
    + apply NoDup_seq.
  - intros cs sel i (c & Hi & _)%scroll_target_Some. apply elem_of_seq. apply lookup_lt_Some in Hi. cbn in Hi.
    rewrite length_sort_by in Hi. cbn. lia.
Qed.

Lemma triage_leg_witness :
  ∃ l, run_leg walk_rows whole_table surface_initial = Ok l ∧
    leg_failures 1757500000000 walk_rows whole_table l = [JDidNotAdvance] ∧ carried l = Some (case_id sample_case).
Proof.
  destruct (triage_leg 1757500000000 walk_rows whole_table surface_initial sample_case whole_table_shows)
    as (i & d & l & Hi & Hl & Hd & Hf & Hc & _).
  - split; [apply (bool_decide_unpack _); vm_compute; exact I|apply (bool_decide_unpack _); vm_compute; exact I].
  - vm_compute. reflexivity.
  - assert (filteredCases walk_rows surface_initial = walk_rows) as E by (vm_compute; reflexivity).
    rewrite E in Hi, Hd, Hf. assert (i = 1%nat) as ->.
    { destruct i as [|[|i]]; [|reflexivity|]; cbn in Hi; [|discriminate].
      assert (case_id low_case = case_id sample_case) as H by congruence. vm_compute in H. discriminate. }
    exists l. split; [exact Hl|]. split; [exact Hf|]. rewrite Hc. f_equal. cbn in Hd. congruence.
Defined.
