(* ===== verification/Frames.v ===== *)
(** * The frame-rate gates: checkScrollPerf of eval/ui/triage-flow.mjs and investigation-canvas-flow.mjs

    Both gates take the times of the frames of up to three passes of scrolling or
    panning, and judge the best pass by its median frame.  A pass in which the
    median frame takes no time has the rate [Infinity]. *)

From S2P Require Import Prelude JsNum Doubles.
From Stdlib Require Import QArith Lqa.
Open Scope Z_scope.

(** ** One pass *)

(** [1000 / medianDelta] of two doubles, the second not negative. *)
Inductive rate := Fps (q : Q) | Infinity.

Definition rate_of (medianDelta : Q) : rate :=
  if Qeq_bool medianDelta 0 then Infinity else Fps (ddiv 1000 medianDelta).

(** [frameTimes[i] - frameTimes[i - 1]], and sorted. *)
Definition frame_deltas (frameTimes : list Q) : list Q := zip_with dsub (tail frameTimes) frameTimes.
Definition deltas (frameTimes : list Q) : list Q := sort_by Qle_bool (frame_deltas frameTimes).

Definition medianDelta (frameTimes : list Q) : Q :=
  default 0%Q (deltas frameTimes !! Nat.div (length (deltas frameTimes)) 2).

(** What a pass returns from the times of its frames; [null] for fewer than three. *)
Definition runOnce (frameTimes : list Q) : option rate :=
  if (length frameTimes <? 3)%nat then None else Some (rate_of (medianDelta frameTimes)).

(** The pass over the queue returns early when the page has no such container. *)
Definition scroll_runOnce (container : bool) (frameTimes : list Q) : option rate :=
  if container then runOnce frameTimes else None.

(** [container.scrollTop] after so many milliseconds of a pass. *)
Definition scroll_position (startScrollTop elapsed : Q) : Q :=
  dadd startScrollTop (dmul 12000 (qmin 1 (ddiv elapsed 2000))).

(** ** The best of three *)

(** [Math.max], and the comparison with the floor. *)
Definition rate_max (a b : rate) : rate :=
  match a, b with Fps x, Fps y => Fps (qmax x y) | _, _ => Infinity end.
Definition below (r : rate) (q : Q) : bool := match r with Fps x => Qltb x q | Infinity => false end.

Inductive PerfFailure := NoSamples | TooSlow.

Definition perf_check (samples : list rate) : option PerfFailure :=
  match samples with
  | [] => Some NoSamples
  | s :: ss => if below (foldl rate_max s ss) 55 then Some TooSlow else None
  end.

(** [checkScrollPerf] of the canvas gate and of the queue's. *)
Definition pan_gate (passes : list (list Q)) : option PerfFailure := perf_check (omap runOnce passes).
Definition scroll_gate (container : bool) (passes : list (list Q)) : option PerfFailure :=
  perf_check (omap (scroll_runOnce container) passes).

(** ** The median of a sorted list *)

(** A test that holds of an element when it holds of a later one holds at an
    index exactly when it holds of more elements than that. *)
Lemma sorted_count {A} (R : relation A) (f : A → bool) (l : list A) k x :
  StronglySorted R l → (∀ a b, a ∈ l → R a b → f b = true → f a = true) → l !! k = Some x →
  f x = true ↔ (k < length (List.filter f l))%nat.
Proof.
  intros Hs. revert k. induction Hs as [|a l Hs IH Ha]; intros k Hf Hk; [done|].
  rewrite Forall_forall in Ha. destruct k as [|k]; cbn in Hk.
  - injection Hk as ->. cbn [List.filter]. destruct (f x) eqn:E; cbn [length]; [split; [lia|done]|]. split; [done|].
    assert (List.filter f l = []) as ->; [|cbn [length]; lia].
    destruct (List.filter f l) as [|b k] eqn:Eb; [done|].
    assert (b ∈ l ∧ f b = true) as [Hb Hfb].
    { rewrite list_elem_of_In, <- filter_In, Eb. by left. }
    rewrite (Hf x b) in E; [done|left|by apply Ha|done].
  - cbn [List.filter]. destruct (f a) eqn:E; cbn [length].
    + rewrite (IH k); [|intros b c Hb; apply Hf; by right|done]. split; intros ?; lia.
    + split; intros H; exfalso.
      * rewrite (Hf a x) in E; [done|left| |done]. by apply Ha, list_elem_of_lookup_2 with k.
      * assert (List.filter f l = []) as Hn; [|rewrite Hn in H; cbn [length] in H; lia].
        destruct (List.filter f l) as [|b k'] eqn:Eb; [done|].
        assert (b ∈ l ∧ f b = true) as [Hb Hfb].
        { rewrite list_elem_of_In, <- filter_In, Eb. by left. }
        rewrite (Hf a b) in E; [done|left|by apply Ha|done].
Qed.

Lemma length_List_filter_perm {A} (f : A → bool) l k : l ≡ₚ k → length (List.filter f l) = length (List.filter f k).
Proof.
  induction 1 as [|a l k _ IH|a b l|l k m _ IH1 _ IH2]; cbn; [done|by destruct (f a); cbn; rewrite ?IH|by destruct (f a), (f b)|congruence].
Qed.

(** ** Fast frames *)

(** A frame the gate would be content with, were it the median. *)
Definition fast (d : Q) : bool := negb (below (rate_of d) 55).

Lemma fast_spec d : (0 <= d)%Q → fast d = true ↔ (d == 0 ∨ 55 <= ddiv 1000 d)%Q.
Proof.
  intros Hd. unfold fast, rate_of. destruct (Qeq_bool d 0) eqn:E.
  - apply Qeq_bool_eq in E. cbn. tauto.
  - cbn [below]. rewrite negb_true_iff. assert (¬ d == 0)%Q by (intros H%Qeq_eq_bool; congruence).
    split; [|intros [?|H']; [done|]].
    + intros H'. right. apply Qnot_lt_le. rewrite <- Qltb_lt. by rewrite H'.
    + apply not_true_iff_false. rewrite Qltb_lt. by apply Qle_not_lt.
Qed.

Lemma fast_mono a b : (0 <= a)%Q → (a <= b)%Q → fast b = true → fast a = true.
Proof.
  intros Ha Hab. rewrite !fast_spec by lra. intros [Hb|Hb]; [left; lra|].
  destruct (Qeq_dec a 0) as [Hz|Hz]; [by left|right]. eapply Qle_trans; [exact Hb|]. apply fl_mono.
  unfold Qdiv. rewrite !(Qmult_comm 1000). apply Qmult_le_compat_r; [|lra].
  apply Qle_shift_inv_l; [lra|]. rewrite Qmult_comm. apply Qle_shift_div_r; lra.
Qed.

(** A slow frame takes longer than a fifty-fifth of a second. *)
Lemma slow_frame d : (0 <= d)%Q → fast d = false → (1000 < 55 * d)%Q.
Proof.
  intros Hd Hs. apply Qnot_le_lt. intros Hle. rewrite (proj2 (fast_spec d Hd)) in Hs; [done|].
  destruct (Qeq_dec d 0) as [Hz|Hz]; [by left|right]. unfold ddiv. apply (fl_ge_Z _ 55); [lia|].
  apply Qle_shift_div_l; [lra|]. change (inject_Z 55) with 55%Q. lra.
Qed.

Definition frames_ok (frameTimes : list Q) : Prop := StronglySorted Qle frameTimes.

Lemma frame_deltas_nonneg ts : frames_ok ts → Forall (fun d => 0 <= d)%Q (frame_deltas ts).
Proof.
  unfold frame_deltas. induction 1 as [|t ts Hs IH Ht]; [constructor|]. destruct ts as [|u ts]; [constructor|].
  cbn [tail zip_with]. constructor; [|exact IH]. apply Forall_cons in Ht as [Htu _]. unfold dsub. apply fl_nonneg. lra.
Qed.

Lemma Qle_bool_sorted l : StronglySorted Qle (sort_by Qle_bool l).
Proof.
  assert (StronglySorted (fun a b => Qle_bool a b = true) (sort_by Qle_bool l)) as H.
  { apply sort_by_strongly_sorted.
    - intros a b. destruct (Qle_bool a b) eqn:E; [by left|right]. apply Qle_bool_iff, Qlt_le_weak, Qnot_le_lt.
      rewrite <- Qle_bool_iff. by rewrite E.
    - intros a b c. rewrite !Qle_bool_iff. apply Qle_trans. }
  induction H as [|a l' Hs IH Ha]; constructor; [done|]. eapply Forall_impl; [exact Ha|]. intros b. apply Qle_bool_iff.
Qed.

(** The pass's rate is at least the floor exactly when more than half its frames are fast. *)
Lemma pass_fast ts : frames_ok ts → (3 <= length ts)%nat →
  fast (medianDelta ts) = true ↔ (length (frame_deltas ts) / 2 < length (List.filter fast (frame_deltas ts)))%nat.
Proof.
  intros Hok Hlen. pose proof (frame_deltas_nonneg ts Hok) as Hnn. rewrite Forall_forall in Hnn. unfold medianDelta.
  assert (length (deltas ts) = length (frame_deltas ts)) as Hl by apply length_sort_by.
  assert (2 <= length (frame_deltas ts))%nat as H2 by (unfold frame_deltas; rewrite length_zip_with; destruct ts; cbn in *; lia).
  assert (length (deltas ts) / 2 < length (deltas ts))%nat as Hk by (apply Nat.div_lt; lia).
  apply lookup_lt_is_Some in Hk as [d Hd]. rewrite Hd. cbn [default].
  rewrite (sorted_count Qle fast (deltas ts) (length (deltas ts) / 2) d); [|apply Qle_bool_sorted| |exact Hd].
  - unfold deltas at 2. by rewrite Hl, (length_List_filter_perm fast _ _ (sort_by_perm Qle_bool (frame_deltas ts))).
  - intros a b Ha%elem_of_sort_by Hab. apply fast_mono; [by apply Hnn|done].
Qed.

(** The best of some rates is below the floor exactly when each is. *)
Lemma best_below s ss q : below (foldl rate_max s ss) q = false ↔ Exists (fun r => below r q = false) (s :: ss).
Proof.
  revert s. induction ss as [|r ss IH]; intros s; cbn [foldl].
  { rewrite Exists_cons, Exists_nil. tauto. }
  rewrite IH, !Exists_cons. assert (below (rate_max s r) q = false ↔ below s q = false ∨ below r q = false) as ->; [|tauto].
  destruct s as [x|], r as [y|]; cbn; [|tauto..]. rewrite <- !not_true_iff_false, !Qltb_lt.
  unfold qmax. destruct (Qle_bool x y) eqn:E.
  - apply Qle_bool_iff in E. split; [tauto|]. intros [H|H]; [|done]. lra.
  - assert (y < x)%Q by (apply Qnot_le_lt; rewrite <- Qle_bool_iff; by rewrite E). split; [tauto|]. intros [H'|H']; [done|]. lra.
Qed.

(** The gates judge by frames: a check passes exactly when in some pass of at
    least three frames more than half of the frames are fast, so that a few
    stalls never matter, and neither does a slow pass beside a good one; a frame
    that is not fast takes more than a fifty-fifth of a second.  A page without
    the container fails. *)
Theorem frame_gate_judges passes :
  Forall frames_ok passes →
  (pan_gate passes = None ↔
   ∃ ts, ts ∈ passes ∧ (3 <= length ts)%nat ∧
     (length (frame_deltas ts) / 2 < length (List.filter fast (frame_deltas ts)))%nat) ∧
  scroll_gate true passes = pan_gate passes ∧ scroll_gate false passes = Some NoSamples ∧
  (∀ ts d, ts ∈ passes → d ∈ frame_deltas ts → fast d = false → (1000 < 55 * d)%Q).
Proof.
  intros Hok. rewrite Forall_forall in Hok. split; [|split; [done|split]].
  - assert (pan_gate passes = None ↔ Exists (fun r => below r 55 = false) (omap runOnce passes)) as ->.
    { unfold pan_gate, perf_check. destruct (omap runOnce passes) as [|s ss]; [by rewrite Exists_nil|].
      rewrite <- best_below. by destruct (below _ _). }
    rewrite Exists_exists. split.
    + intros (r & (ts & Hts & Hr)%list_elem_of_omap & Hb). exists ts. split; [done|]. unfold runOnce in Hr.
      destruct (Nat.ltb_spec (length ts) 3); [done|]. split; [lia|]. injection Hr as <-.
      apply pass_fast; [by apply Hok|done|]. unfold fast. by rewrite Hb.
    + intros (ts & Hts & Hlen & Hf). apply pass_fast in Hf; [|by apply Hok|done]. exists (rate_of (medianDelta ts)). split.
      * apply list_elem_of_omap. exists ts. split; [done|]. unfold runOnce. by rewrite (proj2 (Nat.ltb_ge _ _)).
      * unfold fast in Hf. by apply negb_true_iff in Hf.
  - unfold scroll_gate. assert (omap (scroll_runOnce false) passes = []) as ->; [|done]. clear Hok. by induction passes.
  - intros ts d Hts Hd. apply slow_frame. pose proof (frame_deltas_nonneg ts (Hok ts Hts)) as Hn.
    rewrite Forall_forall in Hn. by apply Hn.
Qed.

(** A pass of five frames with one stall, and one that is slow throughout. *)
Lemma frame_gate_judges_witness :
  pan_gate [[0; 16; 32; 48; 448]; [0; 20; 40; 60; 80]]%Q = None ∧ scroll_gate false [[0; 16; 32]]%Q = Some NoSamples.
Proof.
  assert (∀ l, forallb (fun p => Qle_bool p.1 p.2) (zip l (tail l)) = true → frames_ok l) as Hs.
  { intros l Hl. apply Sorted_StronglySorted; [intros a b c; apply Qle_trans|].
    induction l as [|a l IH]; [constructor|]. destruct l as [|b l]; [by repeat constructor|].
    cbn in Hl. apply andb_true_iff in Hl as [Hab Hl]. constructor; [by apply IH|constructor; by apply Qle_bool_iff]. }
  assert (Forall frames_ok [[0; 16; 32; 48; 448]; [0; 20; 40; 60; 80]]%Q) as H1
    by (apply Forall_cons; split; [|apply Forall_singleton]; apply Hs; vm_compute; reflexivity).
  assert (Forall frames_ok [[0; 16; 32]]%Q) as H2 by (apply Forall_singleton, Hs; vm_compute; reflexivity).
  destruct (frame_gate_judges _ H1) as (H & _). destruct (frame_gate_judges _ H2) as (_ & _ & H' & _). split; [|exact H'].
  apply H. exists [0; 16; 32; 48; 448]%Q. split; [left|]. split; [cbn [length]; lia|vm_compute; lia].
Defined.

(** A scroll of the page as loaded stays within its distance, and goes one way. *)
Lemma scroll_bounds elapsed : (0 <= elapsed)%Q → (0 <= scroll_position 0 elapsed <= 12000)%Q.
Proof.
  intros He. unfold scroll_position, dadd, dmul, ddiv.
  assert (0 <= fl (elapsed / 2000))%Q as H0 by (apply fl_nonneg; apply Qle_shift_div_l; lra).
  assert (0 <= qmin 1 (fl (elapsed / 2000)) <= 1)%Q as [H1 H2].
  { unfold qmin. destruct (Qle_bool 1 (fl (elapsed / 2000))) eqn:E; [lra|]. split; [done|].
    apply Qlt_le_weak, Qnot_le_lt. rewrite <- Qle_bool_iff. by rewrite E. }
  assert (0 <= fl (12000 * qmin 1 (fl (elapsed / 2000))))%Q as H3 by (apply fl_nonneg; lra).
  assert (fl (12000 * qmin 1 (fl (elapsed / 2000))) <= 12000)%Q as H4 by (apply (fl_le_Z _ 12000); [lia|]; change (inject_Z 12000) with 12000%Q; lra).
  split; [apply fl_nonneg; lra|]. apply (fl_le_Z _ 12000); [lia|]. change (inject_Z 12000) with 12000%Q. lra.
Qed.
