(* ===== verification/Gates.v ===== *)
(** * The browser gates: eval/ui/triage-flow.mjs and investigation-canvas-flow.mjs

    What the gates see and what it tells of the console: the events of a pan, the
    log of page states behind the blast-radius gate, and the action its locator
    finds.  The driver itself (launching a browser, waiting, clicking) is
    Playwright's.  [nodeScreenPoint] is in Pointing, the frame rates in Frames. *)

From S2P Require Import Prelude JsNum Doubles Json Text View Types Store Response Canvas TriageGate.
From Stdlib Require Import QArith Lqa.
Open Scope Z_scope.

(** ** The pan *)

(** The pan of the canvas gate: pointer moves, one per frame, and no other event. *)
Definition dispatch_pan (dpr : Q) (points : list (Q * Q)) (c : Canvas) : Canvas :=
  foldl (fun c p => onPointerMove dpr p.1 p.2 c) c points.

(** Without a press before them they change nothing. *)
Lemma pan_is_still dpr points c : cv_drag c = None → dispatch_pan dpr points c = c.
Proof.
  intros Hd. induction points as [|p points IH]; [done|]. cbn [dispatch_pan foldl].
  assert (onPointerMove dpr p.1 p.2 c = c) as -> by (unfold onPointerMove; by rewrite Hd). exact IH.
Qed.

(** ** The blast-radius gate *)

Record GateSample := mkSample {
  gs_t : Z;
  gs_approveDisabled : option bool;
  gs_loadingPresent : bool;
  gs_panelPresent : bool;
}.

(** [snap]: [querySelector] finds the first element, if any. *)
Definition snap (t : Z) (page : view) : GateSample :=
  mkSample t ((fun btn => bool_decide (is_Some (attr "disabled" btn))) <$> head (by_testid "approve-button" [page]))
    (bool_decide (is_Some (head (by_testid "blast-radius-loading" [page]))))
    (bool_decide (is_Some (head (by_testid "blast-radius-panel" [page])))).

Definition is_loading (s : GateSample) : bool := gs_loadingPresent s && bool_decide (gs_approveDisabled s = Some true).
Definition is_loaded (s : GateSample) : bool := gs_panelPresent s && bool_decide (gs_approveDisabled s = Some false).
Definition is_premature (s : GateSample) : bool :=
  bool_decide (gs_approveDisabled s = Some false) && negb (gs_panelPresent s) && (gs_t s <? 850).

Definition loadingSample (log : list GateSample) : option GateSample := List.find is_loading log.
Definition loadedSample (log : list GateSample) : option GateSample := List.find is_loaded (reverse log).
Definition premature (log : list GateSample) : option GateSample := List.find is_premature log.

Inductive GateFailure := NoLoading | NoLoaded | Premature.

Definition blast_gate (log : list GateSample) : list GateFailure :=
  match loadingSample log with None => [NoLoading] | Some _ => [] end ++
  match loadedSample log with None => [NoLoaded] | Some _ => [] end ++
  match premature log with Some _ => [Premature] | None => [] end.

(** Nothing else on the page carries the test ids the gate looks for. *)
Lemma ActionList_testid id l sel : by_testid id [ActionList l sel] = [].
Proof.
  unfold by_testid, by_attr, ActionList. look. rewrite select_app. rewrite select_map_nil; [by destruct (length l)|].
  intros a _. unfold ActionItem. by destruct (bool_decide _).
Qed.

Lemma AutonomyPolicy_testid id enabled v : AutonomyPolicy enabled = Ok v → by_testid id [v] = [].
Proof.
  unfold AutonomyPolicy. destruct (mapM_out _ KINDS) as [rows|] eqn:E; [|done]. intros [= <-].
  apply mapM_out_Ok in E. unfold by_testid, by_attr. rewrite select_inside by done. rewrite select_cons, !select_inside by done.
  change (select _ [Txt _]) with (@nil view). cbn [app].
  revert E. generalize KINDS. induction rows as [|r rows IH]; intros ks E; [done|].
  inversion E as [|k ? ks' ? Hk E']; subst. rewrite select_cons, (IH _ E').
  destruct (previewCount (kind_name k)) as [count|]; [|done]. injection Hk as <-. done.
Qed.

Lemma detail_loading a q : by_testid "blast-radius-loading" [ActionDetail a q] =
  if q_isLoading q then [El "div" [("data-testid", Some "blast-radius-loading")] [Txt "Computing blast radius…"]] else [].
Proof.
  unfold by_testid, by_attr, ActionDetail. rewrite select_inside by done. rewrite !select_app.
  destruct (q_isLoading q); [done|]. destruct (q_data q) as [b|]; [|done].
  rewrite (select_inside _ "div" [("data-testid", Some "blast-radius-panel")]), panel_quiet by done. done.
Qed.

Lemma detail_approve a q : by_testid "approve-button" [ActionDetail a q] =
  [decision_button (if negb (bool_decide (ra_status a = pending)) then "Decided" else "Approve")
     [("data-testid", Some "approve-button")] (canApprove a q)].
Proof.
  unfold by_testid, by_attr, ActionDetail. rewrite select_inside by done. rewrite !select_app.
  destruct (q_isLoading q); [done|]. destruct (q_data q) as [b|]; [|done].
  rewrite (select_inside _ "div" [("data-testid", Some "blast-radius-panel")]), panel_quiet by done. done.
Qed.

Definition shown_blast (q : Query BlastRadius) : bool := negb (q_isLoading q) && bool_decide (is_Some (q_data q)).

(** Where a test id is on the console's page. *)
Lemma console_testid c v id : ResponseConsoleClient c = Ok v → default [] (rc_actions c) ≠ [] →
  by_testid id [v] = match selected_action c with Some a => by_testid id [ActionDetail a (rc_blast c (ra_id a))] | None => [] end.
Proof.
  unfold ResponseConsoleClient. destruct (default [] (rc_actions c)) as [|a0 l] eqn:Eacts; [done|].
  destruct (AutonomyPolicy (rc_enabled c)) as [policy|] eqn:Ep; [|done]. intros [= <-] _.
  pose proof (ActionList_testid id (a0 :: l) (ra_id <$> selected_action c)) as H1.
  pose proof (AutonomyPolicy_testid id _ _ Ep) as H2. unfold by_testid, by_attr in *. rewrite select_inside by done.
  rewrite select_cons, select_app, H1, H2, app_nil_r. by destruct (selected_action c).
Qed.

(** The sample a page gives. *)
Lemma snap_console t c v : ResponseConsoleClient c = Ok v →
  snap t v = match selected_action c with
    | Some a => let q := rc_blast c (ra_id a) in mkSample t (Some (negb (canApprove a q))) (q_isLoading q) (shown_blast q)
    | None => mkSample t None false false
    end.
Proof.
  intros Hv. destruct (default [] (rc_actions c)) as [|a0 l] eqn:Eacts.
  { assert (selected_action c = None) as -> by (unfold selected_action; by rewrite Eacts).
    unfold ResponseConsoleClient in Hv. rewrite Eacts in Hv. by injection Hv as <-. }
  unfold snap. rewrite !(console_testid c v) by (done || by rewrite Eacts). destruct (selected_action c) as [a|]; [|done]. cbv zeta.
  rewrite detail_loading, detail_approve, detail_panel. unfold decision_button, shown_blast.
  set (q := rc_blast c (ra_id a)). f_equal; [|by destruct (q_isLoading q)|by destruct (q_isLoading q), (q_data q)].
  cbn [head fmap option_fmap option_map]. f_equal. by destruct (canApprove a q).
Qed.

Lemma find_none {A} (f : A → bool) l : List.find f l = None ↔ ∀ x, x ∈ l → f x = false.
Proof.
  split; [intros H x Hx%list_elem_of_In; by apply (List.find_none f l)|].
  intros H. destruct (List.find f l) as [x|] eqn:E; [|done].
  apply List.find_some in E as [Hx%list_elem_of_In Hf]. rewrite H in Hf by done. done.
Qed.

(** ** The action clicked *)

(** The locator of both approval legs: buttons and list items whose text has the word. *)
Definition located (v : view) : bool :=
  (bool_decide (tag_of v ∈ [Some "button"; Some "Button"; Some "li"]) || bool_decide (attr "role" v = Some "listitem")) &&
  includes "pending" (lower (text_content v)).
Definition pendingItem (page : view) : option view := select located [page] !! 0%nat.
Definition secondAction (page : view) : option view := select located [page] !! 1%nat.

Definition item_button (v : view) : option view := match v with El _ _ (b :: _) => Some b | _ => None end.

Lemma pending_text sel a : ra_status a = pending → includes "pending" (lower (text_content (ActionItem sel a))) = true.
Proof.
  intros Hp. assert (text_content (ActionItem sel a) = (KIND_LABEL (ra_kind a) +:+ ra_target a) +:+ ("pending" +:+ EmptyString)) as ->.
  { cbn. rewrite Hp. cbn. by rewrite !append_empty_r, append_assoc. }
  rewrite !lower_append. exact (includes_mid _ "pending" _).
Qed.

Lemma located_item sel a : ra_status a = pending →
  select located [ActionItem sel a] = [ActionItem sel a] ++ option_list (item_button (ActionItem sel a)).
Proof.
  intros Hp. pose proof (pending_text sel a Hp) as Ht. unfold ActionItem in *. rewrite select_hit by (unfold located; by rewrite Ht).
  cbn [item_button option_list app]. f_equal. rewrite select_hit; [done|]. unfold located.
  replace (text_content (El "button" _ _)) with (text_content (ActionItem sel a)) by (unfold ActionItem; cbn; by rewrite append_empty_r).
  unfold ActionItem. by rewrite Ht.
Qed.

(** The locator matches a list item and the button inside it, so that its first two
    matches are the same action's: the second action of the gate's comment is the
    first pending one again. *)
Lemma second_is_first c v before a after :
  ResponseConsoleClient c = Ok v → default [] (rc_actions c) = before ++ a :: after → ra_status a = pending →
  let sel := ra_id <$> selected_action c in
  Forall (fun b => select located [ActionItem sel b] = []) before →
  pendingItem v = Some (ActionItem sel a) ∧ secondAction v = item_button (ActionItem sel a).
Proof.
  intros Hv Hl Hp sel Hb. unfold ResponseConsoleClient in Hv. rewrite Hl in Hv. fold sel in Hv.
  assert (∃ rest, select located [v] = [ActionItem sel a] ++ option_list (item_button (ActionItem sel a)) ++ rest) as [rest E].
  { destruct (AutonomyPolicy (rc_enabled c)) as [policy|]; [|by destruct before].
    assert (v = El "div" [] ([ActionList (before ++ a :: after) sel] ++
      match selected_action c with Some a => [ActionDetail a (rc_blast c (ra_id a))] | None => [] end ++ [policy])) as ->
      by (destruct before; by injection Hv).
    rewrite select_inside by done. rewrite select_app. unfold ActionList. rewrite select_inside by done.
    rewrite map_app, !select_app. assert (select located (map (ActionItem sel) before) = []) as ->.
    { apply select_map_nil. rewrite Forall_forall in Hb. exact Hb. }
    cbn [map app]. rewrite select_cons, located_item by done. eexists. rewrite <- !app_assoc. reflexivity. }
  unfold pendingItem, secondAction. by rewrite E.
Qed.

(** ** Properties *)

(** What the driver recorded: the page at each instant, whole. *)
Definition recorded (renders : list (Z * ConsoleState)) (log : list GateSample) : Prop :=
  Forall2 (fun r s => ∃ v, ResponseConsoleClient r.2 = Ok v ∧ s = snap r.1 v) renders log.

(** Some recorded page shows an action as [P] says. *)
Definition seen (P : ResponseAction → Query BlastRadius → Prop) (renders : list (Z * ConsoleState)) : Prop :=
  ∃ r a, r ∈ renders ∧ selected_action r.2 = Some a ∧ P a (rc_blast r.2 (ra_id a)).

Lemma recorded_seen (f : GateSample → bool) (P : ResponseAction → Query BlastRadius → Prop) renders log :
  recorded renders log →
  (∀ t, f (mkSample t None false false) = false) →
  (∀ t a q, f (mkSample t (Some (negb (canApprove a q))) (q_isLoading q) (shown_blast q)) = true ↔ P a q) →
  (∃ s, s ∈ log ∧ f s = true) ↔ seen P renders.
Proof.
  intros Hrec Hnone Hf. induction Hrec as [|r s renders log (v & Hv & ->) Hrec IH].
  { split; [intros (s & ?%not_elem_of_nil & _); done|intros (r & a & ?%not_elem_of_nil & _); done]. }
  pose proof (snap_console r.1 r.2 v Hv) as Hs. split.
  - intros (s & [->|Hin]%elem_of_cons & Hfs).
    + rewrite Hs in Hfs. destruct (selected_action r.2) as [a|] eqn:Ha; [|by rewrite Hnone in Hfs].
      exists r, a. split; [by left|]. split; [done|]. by apply (Hf r.1).
    + destruct (proj1 IH) as (r' & a & Hr' & Ha); [by exists s|]. exists r', a. split; [by right|done].
  - intros (r' & a & [->|Hin]%elem_of_cons & Ha & HP).
    + exists (snap r.1 v). split; [by left|]. rewrite Hs, Ha. by apply Hf.
    + destruct (proj2 IH) as (s & Hin' & Hfs); [by exists r', a|]. exists s. split; [by right|done].
Qed.

Lemma find_seen (f : GateSample → bool) P renders log :
  ((∃ s, s ∈ log ∧ f s = true) ↔ seen P renders) → List.find f log ≠ None ↔ seen P renders.
Proof.
  intros <-. split.
  - destruct (List.find f log) as [s|] eqn:E; [|done]. intros _. exists s.
    apply List.find_some in E as [Hin%list_elem_of_In Hf]. done.
  - intros (s & Hin & Hf) Hnone. rewrite find_none in Hnone. rewrite Hnone in Hf by done. done.
Qed.

(** What the blast-radius gate decides.  Whatever pages of the response console it
    recorded, and at whatever times: it never sees an approve button enabled
    without the panel; it sees the loading state exactly if some page had the
    selected action's blast radius on its way, and the loaded state exactly if
    some page had a pending action with its blast radius there; so it passes
    exactly on a recording that has both. *)
Theorem blast_gate_judges renders log :
  recorded renders log →
  let loading := seen (fun _ q => q_isLoading q = true) renders in
  let loaded := seen (fun a q => ra_status a = pending ∧ q_isLoading q = false ∧ is_Some (q_data q)) renders in
  premature log = None ∧
  (loadingSample log ≠ None ↔ loading) ∧ (loadedSample log ≠ None ↔ loaded) ∧
  (blast_gate log = [] ↔ loading ∧ loaded).
Proof.
  intros Hrec loading loaded.
  assert (premature log = None) as Hpre.
  { apply find_none. intros s Hs. destruct (is_premature s) eqn:E; [|done]. exfalso.
    assert ((∃ s, s ∈ log ∧ is_premature s = true) ↔ seen (fun _ _ => False) renders) as [H _].
    { apply (recorded_seen _ _ _ _ Hrec); [done|]. intros t a q. split; [|done].
      unfold is_premature, shown_blast, canApprove. cbn.
      destruct (q_isLoading q), (bool_decide (is_Some (q_data q))); cbn; rewrite ?andb_false_r; try done; by destruct (_ <? _). }
    destruct H as (? & ? & _ & _ & []). by exists s. }
  assert (loadingSample log ≠ None ↔ loading) as Hl.
  { apply find_seen. apply recorded_seen; [done..|]. intros t a q. unfold is_loading, canApprove. cbn.
    by destruct (q_isLoading q). }
  assert (loadedSample log ≠ None ↔ loaded) as Hd.
  { unfold loadedSample. apply find_seen. setoid_rewrite elem_of_reverse. apply recorded_seen; [done..|].
    intros t a q. unfold is_loaded, shown_blast, canApprove. cbn.
    destruct (q_isLoading q); cbn; [naive_solver|]. destruct (q_data q) as [b|]; cbn; [|naive_solver].
    destruct (decide (ra_status a = pending)) as [->|Hp]; [naive_solver|].
    rewrite (bool_decide_eq_false_2 (ra_status a = pending)) by done. cbn. naive_solver. }
  split; [done|]. split; [done|]. split; [done|]. unfold blast_gate. rewrite Hpre, app_nil_r.
  rewrite <- Hl, <- Hd. destruct (loadingSample log), (loadedSample log); cbn; naive_solver.
Qed.

(** The console while the blast radius of its first action is fetched, and after. *)
Definition gate_console (q : Query BlastRadius) : ConsoleState := mkConsole (Some [demo_action]) None (fun _ => q) [].
Definition demo_blast : BlastRadius := mkBlastRadius ["alice"] ["WIN-CLIENT-7"] [] false.

Definition gate_page (q : Query BlastRadius) : view :=
  match ResponseConsoleClient (gate_console q) with Ok v => v | Throw _ => Txt "" end.

Lemma blast_gate_judges_witness :
  blast_gate [snap 12 (gate_page (mkQuery None true)); snap 930 (gate_page (mkQuery (Some demo_blast) false))] = [].
Proof.
  apply (blast_gate_judges
    [(12, gate_console (mkQuery None true)); (930, gate_console (mkQuery (Some demo_blast) false))]).
  - repeat constructor; eexists; (split; [vm_compute; reflexivity|reflexivity]).
  - split.
    + exists (12, gate_console (mkQuery None true)), demo_action. split; [by left|]. split; reflexivity.
    + exists (930, gate_console (mkQuery (Some demo_blast) false)), demo_action. split; [right; by left|].
      split; [reflexivity|]. split; [reflexivity|]. split; [reflexivity|by eexists].
Defined.
