(* ===== verification/TriageLegs.v ===== *)
(** * The later legs of the triage gate, and its exit code: eval/ui/triage-flow.mjs

    After the keyboard leg of TriageGate the gate selects an event on the timeline
    of the case it carried there, then opens the response console, clicks a pending
    action if it finds one, waits for the blast radius and presses Approve.  The
    legs run here on the models of the two surfaces and of the server's store;
    between their steps nothing else decides an action, and a wait ends with the
    answer it waits for or with its timeout. *)

From S2P Require Import Prelude JsNum Json Text View Types Rng Seed Store Watchfloor WatchfloorView.
From S2P Require Import Response Timeline TriageGate Frames Gates.
Open Scope Z_scope.

(** ** The timeline leg *)

(** [button[aria-pressed]] of a page, in its order: the markers, band by band. *)
Definition pressable (p : TimelinePage) : list Marker :=
  match p with TimelineShown _ track _ => mjoin (tb_markers <$> track.2) | _ => [] end.

Section timeline_leg.
Context (toLocaleString : Z → string).

(** The first event is clicked; [None] is the timeout of the wait for one, and the
    boolean is [eventSelected]. *)
Definition timeline_leg (caseId : string) (data : option (Case * list TimelineEvent)) : option bool :=
  let page := TimelineClient toLocaleString (Some caseId) data in
  match pressable (page timeline_initial) with
  | [] => None
  | firstEvent :: _ => Some (existsb mk_pressed (pressable (page (select_event (mk_event firstEvent) timeline_initial))))
  end.

Lemma track_events events compress zoom sel :
  mk_event <$> mjoin (tb_markers <$> (TimelineTrack toLocaleString events compress zoom sel).2) =
  ev_id <$> mjoin (map (fun t => List.filter (fun e => bool_decide (ev_tactic e = t)) events) TACTICS).
Proof.
  unfold TimelineTrack. cbn [snd]. set (scale := buildScale _ _ _). clearbody scale.
  induction TACTICS as [|t ts IH]; [done|]. cbn [map]. rewrite fmap_cons. cbn [tb_markers mjoin list_join].
  rewrite !fmap_app. f_equal; [|exact IH]. clear IH. induction (List.filter _ events) as [|e l IH]; [done|].
  cbn [map]. rewrite !fmap_cons. by rewrite IH.
Qed.

(** Every event has a marker, pressed exactly when it is the selected one. *)
Lemma track_pressed events compress zoom sel :
  existsb mk_pressed (mjoin (tb_markers <$> (TimelineTrack toLocaleString events compress zoom sel).2)) =
  existsb (fun e => bool_decide (Some (ev_id e) = sel)) events.
Proof.
  apply eq_true_iff_eq. rewrite !existsb_exists. unfold TimelineTrack. cbn [snd]. set (scale := buildScale _ _ _). split.
  - intros (m & Hm%list_elem_of_In & Hp). apply list_elem_of_join in Hm as (ms & Hm & Hms).
    apply list_elem_of_fmap in Hms as (band & -> & Hin). rewrite list_elem_of_In, in_map_iff in Hin.
    destruct Hin as (t & <- & _). cbn [tb_markers] in Hm. rewrite list_elem_of_In, in_map_iff in Hm.
    destruct Hm as (e & <- & He). apply filter_In in He as [He _]. by exists e.
  - intros (e & He & Hp). exists (marker toLocaleString scale sel e). split; [|exact Hp].
    apply list_elem_of_In, list_elem_of_join.
    exists (map (marker toLocaleString scale sel) (List.filter (fun x => bool_decide (ev_tactic x = ev_tactic e)) events)). split.
    + apply list_elem_of_In, in_map, filter_In. split; [exact He|by apply bool_decide_eq_true].
    + apply list_elem_of_fmap. eexists (mkBand (ev_tactic e) LABEL_PX _). split; [reflexivity|].
      apply list_elem_of_In, in_map_iff. exists (ev_tactic e). split; [done|]. apply list_elem_of_In, elem_of_TACTICS.
Qed.

(** The leg passes on every timeline with an event, and its wait times out on
    the others; it never finds a click that did not select. *)
Lemma timeline_leg_passes caseId data : caseId ≠ EmptyString →
  timeline_leg caseId data = match data with Some (_, _ :: _) => Some true | _ => None end.
Proof.
  intros Hc. unfold timeline_leg, TimelineClient. destruct caseId as [|a caseId]; [done|].
  destruct data as [[c events]|]; [|done]. cbn [pressable].
  pose proof (track_events events (tl_compress timeline_initial) (tl_zoom timeline_initial) (tl_selectedEventId timeline_initial)) as Hids.
  destruct (mjoin _) as [|firstEvent rest] eqn:E.
  - destruct events as [|e events]; [done|]. exfalso.
    assert (ev_id e ∈ ev_id <$> mjoin (map (fun t => List.filter (fun x => bool_decide (ev_tactic x = t)) (e :: events)) TACTICS)) as Hin.
    { apply (list_elem_of_fmap_2 ev_id), list_elem_of_join.
      exists (List.filter (fun x => bool_decide (ev_tactic x = ev_tactic e)) (e :: events)). split.
      - apply list_elem_of_In, filter_In. split; [by left|by apply bool_decide_eq_true].
      - apply list_elem_of_In, in_map_iff. exists (ev_tactic e). split; [done|]. apply list_elem_of_In, elem_of_TACTICS. }
    rewrite <- Hids in Hin. by apply not_elem_of_nil in Hin.
  - assert (mk_event firstEvent ∈ ev_id <$> events) as Hin.
    { assert (mk_event firstEvent ∈ mk_event <$> firstEvent :: rest) as H by left. rewrite Hids in H.
      apply list_elem_of_fmap in H as (e & -> & (l & He & Hl)%list_elem_of_join). apply (list_elem_of_fmap_2 ev_id).
      rewrite list_elem_of_In, in_map_iff in Hl. destruct Hl as (t & <- & _). rewrite list_elem_of_In, filter_In in He.
      destruct He as [He _]. by apply list_elem_of_In. }
    rewrite track_pressed. cbn [select_event tl_selectedEventId]. destruct events as [|e events]; [by apply not_elem_of_nil in Hin|].
    f_equal. apply existsb_exists. apply list_elem_of_fmap in Hin as (x & Hx & Hin). exists x. split; [by apply list_elem_of_In|].
    rewrite Hx. by apply bool_decide_eq_true.
Qed.

End timeline_leg.

(** ** The approval leg *)

(** The first two are waits that time out, which ends the gate; the last is a
    failure it goes on after. *)
Inductive ApprovalFailure := ConsoleThrows | NoApproveButton | NoPanel | StillDisabled.

(** The console as a new page shows it: the list is there, nothing is selected, and
    no blast radius has been fetched. *)
Definition console_of (st : Store) : ConsoleState :=
  mkConsole (Some (listResponseActions st)) None (fun _ => mkQuery None true) [].

(** A click on a list item lands on the button in it, whose handler selects the
    action of the item's key. *)
Definition click_item (item : view) (c : ConsoleState) : ConsoleState :=
  mkConsole (rc_actions c) (attr "key" item) (rc_blast c) (rc_enabled c).

(** The answer of the blast-radius route has arrived for the action shown. *)
Definition blast_answer (st : Store) (id : string) : Query BlastRadius :=
  mkQuery (match GET_blast_radius id st with Ok b => b | Throw _ => None end) false.
Definition settled (st : Store) (c : ConsoleState) : ConsoleState :=
  mkConsole (rc_actions c) (rc_selectedId c)
    (fun id => if decide (Some id = ra_id <$> selected_action c) then blast_answer st id else rc_blast c id) (rc_enabled c).

Definition console_page (c : ConsoleState) : ApprovalFailure + view :=
  match ResponseConsoleClient c with Ok v => inr v | Throw _ => inl ConsoleThrows end.

Definition approval_leg (st : Store) : ApprovalFailure + Store :=
  let c := console_of st in
  match console_page c with
  | inl e => inl e
  | inr page =>
      match by_testid "approve-button" [page] with
      | [] => inl NoApproveButton
      | _ :: _ =>
          let c := match pendingItem page with Some item => click_item item c | None => c end in
          let c := settled st c in
          match console_page c with
          | inl e => inl e
          | inr page =>
              match by_testid "blast-radius-panel" [page], by_testid "approve-button" [page], selected_action c with
              | _ :: _, approveBtn :: _, Some a =>
                  match attr "disabled" approveBtn with
                  | Some _ => inl StillDisabled
                  | None => inr (POST_decision (ra_id a) (Some "approved") st).1
                  end
              | _, _, _ => inl NoPanel
              end
          end
      end
  end.

(** The gate run again and again on one server. *)
Fixpoint gate_runs (n : nat) (st : Store) : ApprovalFailure + Store :=
  match n with
  | O => inr st
  | S n' => match approval_leg st with inl e => inl e | inr st' => gate_runs n' st' end
  end.

(** ** What the locator finds *)

Definition is_pending (a : ResponseAction) : bool := bool_decide (ra_status a = pending).
Definition pending_actions (st : Store) : list ResponseAction := List.filter is_pending (listResponseActions st).

(** An action whose row, once decided, does not have the word in its label or target. *)
Definition plain (a : ResponseAction) : Prop :=
  ∀ status, status ≠ pending → includes "pending" (lower (text_content (ActionItem None (set_status a status)))) = false.

Lemma item_text sel a : text_content (ActionItem sel a) = text_content (ActionItem None a).
Proof. done. Qed.

Lemma located_decided sel a : plain a → ra_status a ≠ pending → select located [ActionItem sel a] = [].
Proof.
  intros Hp Ha. specialize (Hp _ Ha). replace (set_status a (ra_status a)) with a in Hp by (by destruct a).
  rewrite <- (item_text sel) in Hp. unfold ActionItem in *.
  rewrite select_inside by (unfold located; rewrite Hp; by rewrite andb_false_r).
  rewrite select_inside; [done|]. unfold located.
  replace (text_content (El "button" _ _)) with (text_content (ActionItem sel a)) by (unfold ActionItem; cbn; by rewrite append_empty_r).
  unfold ActionItem. rewrite Hp. by rewrite andb_false_r.
Qed.

Lemma located_detail a : select located [ActionDetail a (mkQuery None true)] = [].
Proof.
  unfold ActionDetail. rewrite select_inside by done. cbn [q_isLoading]. rewrite !select_app.
  destruct (decide (ra_status a = pending)) as [H|H]; [rewrite bool_decide_eq_true_2 by done|rewrite bool_decide_eq_false_2 by done];
    reflexivity.
Qed.

Lemma policy_ok : ∃ p, AutonomyPolicy [] = Ok p ∧ select located [p] = [].
Proof.
  assert (match AutonomyPolicy [] with Ok p => bool_decide (length (select located [p]) = 0%nat) | Throw _ => false end = true) as H
    by (vm_compute; reflexivity).
  destruct (AutonomyPolicy []) as [p|]; [|done]. exists p. split; [done|].
  apply bool_decide_eq_true in H. by destruct (select located [p]).
Qed.

Lemma located_list sel l : Forall plain l →
  select located (map (ActionItem sel) l) !! 0%nat = ActionItem sel <$> List.find is_pending l.
Proof.
  induction 1 as [|a l Ha Hl IH]; [done|]. cbn [map List.find]. rewrite select_cons. unfold is_pending at 1.
  destruct (decide (ra_status a = pending)) as [H|H].
  - rewrite bool_decide_eq_true_2, located_item by done. done.
  - rewrite bool_decide_eq_false_2, located_decided by done. exact IH.
Qed.

Lemma find_pending st : List.find is_pending (listResponseActions st) = head (pending_actions st).
Proof.
  unfold pending_actions. induction (listResponseActions st) as [|a l IH]; [done|]. cbn. by destruct (is_pending a).
Qed.

(** ** Actions on the server *)

Record actions_ok (st : Store) : Prop := {
  ao_keys : NoDup (st_responseActions st).*1;
  ao_ids : Forall (fun p => p.1 = ra_id p.2) (st_responseActions st);
  ao_plain : Forall plain (listResponseActions st);
  ao_blast : Forall (fun a => ∃ b, computeBlastRadius a = Ok b) (listResponseActions st);
}.

Lemma omap_at {V} k (v w : V) m1 m2 : k ∉ m1.*1 →
  omap_get k (m1 ++ (k, v) :: m2) = Some v ∧ omap_set k w (m1 ++ (k, v) :: m2) = m1 ++ (k, w) :: m2.
Proof.
  induction m1 as [|[k' v'] m1 IH]; intros Hk; cbn [app omap_get omap_set].
  - by rewrite !decide_True.
  - rewrite fmap_cons, not_elem_of_cons in Hk. destruct Hk as [Hne Hk]. cbn in Hne.
    rewrite !decide_False by congruence. destruct (IH Hk) as [-> ->]. done.
Qed.

Lemma find_split {A} (f : A → bool) l a : List.find f l = Some a →
  ∃ l1 l2, l = l1 ++ a :: l2 ∧ f a = true ∧ List.filter f l1 = [].
Proof.
  induction l as [|b l IH]; [done|]. cbn. destruct (f b) eqn:E.
  - intros [= ->]. by exists [], l.
  - intros (l1 & l2 & -> & Ha & Hl)%IH. exists (b :: l1), l2. split; [done|]. split; [done|]. cbn. by rewrite E.
Qed.

(** The action with an id, found among the listed ones. *)
Lemma listed_action st a : actions_ok st → a ∈ listResponseActions st →
  ∃ m1 m2, st_responseActions st = m1 ++ (ra_id a, a) :: m2 ∧ ra_id a ∉ m1.*1.
Proof.
  intros [Hk Hi _ _] Ha. unfold listResponseActions, omap_values in Ha.
  apply list_elem_of_fmap in Ha as ([k b] & -> & Hin). cbn in *. rewrite Forall_forall in Hi.
  pose proof (Hi _ Hin) as Hkb. cbn in Hkb. subst k.
  apply list_elem_of_split in Hin as (m1 & m2 & E). exists m1, m2. split; [done|].
  rewrite E, fmap_app in Hk. apply NoDup_app in Hk as (_ & Hd & _). intros Hin. apply (Hd _ Hin). left.
Qed.

Lemma find_by_id st a : actions_ok st → a ∈ listResponseActions st →
  List.find (fun x => bool_decide (Some (ra_id x) = Some (ra_id a))) (listResponseActions st) = Some a ∧
  getResponseAction (ra_id a) st = Some a.
Proof.
  intros Hok Ha. destruct (listed_action st a Hok Ha) as (m1 & m2 & E & Hn). split.
  - unfold listResponseActions, omap_values. rewrite E, fmap_app. destruct Hok as [_ Hi _ _]. rewrite E in Hi.
    apply Forall_app in Hi as [Hi _]. clear E Ha. induction m1 as [|[k b] m1 IH]; cbn.
    + by rewrite bool_decide_eq_true_2.
    + apply Forall_cons in Hi as [Hkb Hi]. cbn in Hkb. rewrite fmap_cons, not_elem_of_cons in Hn. destruct Hn as [Hne Hn].
      rewrite bool_decide_eq_false_2 by (cbn in Hne; congruence). by apply IH.
  - unfold getResponseAction. rewrite E. by apply omap_at.
Qed.

(** ** The steps of the leg *)

Lemma console_renders c : default [] (rc_actions c) ≠ [] → rc_enabled c = [] → ∃ v, ResponseConsoleClient c = Ok v.
Proof.
  intros Hl He. destruct policy_ok as (p & Hp & _). unfold ResponseConsoleClient. rewrite He, Hp.
  destruct (default [] (rc_actions c)); [done|]. by eexists.
Qed.

Lemma pendingItem_found st v : ResponseConsoleClient (console_of st) = Ok v → Forall plain (listResponseActions st) →
  ∃ sel, pendingItem v = ActionItem sel <$> List.find is_pending (listResponseActions st).
Proof.
  intros Hv Hp. destruct policy_ok as (p & Ep & Hpol). unfold ResponseConsoleClient in Hv.
  change (rc_enabled (console_of st)) with (@nil ResponseActionKind) in Hv. rewrite Ep in Hv.
  change (default [] (rc_actions (console_of st))) with (listResponseActions st) in Hv.
  change (rc_blast (console_of st)) with (fun _ : string => mkQuery (@None BlastRadius) true) in Hv.
  set (so := selected_action (console_of st)) in *. clearbody so. exists (ra_id <$> so). unfold pendingItem.
  assert (select located (match so with Some a => [ActionDetail a (mkQuery None true)] | None => [] end ++ [p]) = []) as Hrest.
  { rewrite select_app, Hpol, app_nil_r. destruct so as [a|]; [apply located_detail|done]. }
  destruct (listResponseActions st) as [|a0 l] eqn:El; [by injection Hv as <-|].
  injection Hv as <-. rewrite select_inside by done. rewrite select_cons. unfold ActionList. rewrite select_inside by done.
  rewrite select_app. cbn [length Nat.eqb when]. change (select located []) with (@nil view). rewrite app_nil_r, Hrest, app_nil_r.
  by apply located_list.
Qed.

(** The end of the leg, on the action the console shows. *)
Lemma settled_shows st c a : selected_action c = Some a →
  selected_action (settled st c) = Some a ∧ rc_blast (settled st c) (ra_id a) = blast_answer st (ra_id a).
Proof. intros Ha. split; [exact Ha|]. cbn [settled rc_blast]. rewrite Ha. by rewrite decide_True. Qed.

Lemma settled_page st c a b : selected_action c = Some a → rc_actions c = Some (listResponseActions st) → rc_enabled c = [] →
  listResponseActions st ≠ [] → GET_blast_radius (ra_id a) st = Ok (Some b) → ∃ v btn p,
  console_page (settled st c) = inr v ∧ by_testid "blast-radius-panel" [v] = [p] ∧ by_testid "approve-button" [v] = [btn] ∧
  attr "disabled" btn = flag_attr (negb (is_pending a)).
Proof.
  intros Ha Hacts He Hl Hb. destruct (settled_shows st c a Ha) as [Hs Hq].
  destruct (console_renders (settled st c)) as [v Hv]; [by cbn; rewrite Hacts|done|].
  assert (default [] (rc_actions (settled st c)) ≠ []) as Hne by (cbn; by rewrite Hacts).
  pose proof (console_testid _ v "blast-radius-panel" Hv Hne) as H1. pose proof (console_testid _ v "approve-button" Hv Hne) as H2.
  rewrite Hs, Hq in H1, H2. unfold blast_answer in H1, H2. rewrite Hb in H1, H2. rewrite detail_panel in H1. rewrite detail_approve in H2.
  unfold console_page. rewrite Hv. eexists v, _, _. split; [done|]. split; [exact H1|]. split; [exact H2|].
  unfold canApprove, is_pending. cbn [q_isLoading q_data negb andb]. rewrite (bool_decide_eq_true_2 (is_Some (Some b))) by done.
  by destruct (bool_decide (ra_status a = pending)).
Qed.

Lemma blast_of_listed st a : actions_ok st → a ∈ listResponseActions st → ∃ b, GET_blast_radius (ra_id a) st = Ok (Some b).
Proof.
  intros Hok Ha. destruct (find_by_id st a Hok Ha) as [_ Hg]. pose proof (ao_blast _ Hok) as Hb. rewrite Forall_forall in Hb.
  destruct (Hb a Ha) as [b Hc]. exists b. unfold GET_blast_radius. by rewrite Hg, Hc.
Qed.

Lemma approval_leg_run st : actions_ok st → listResponseActions st ≠ [] →
  approval_leg st = match List.find is_pending (listResponseActions st) with
                    | Some a => inr (POST_decision (ra_id a) (Some "approved") st).1
                    | None => inl StillDisabled
                    end.
Proof.
  intros Hok Hne. unfold approval_leg, console_page at 1.
  destruct (console_renders (console_of st)) as [v Hv]; [done..|]. rewrite Hv.
  pose proof (console_testid _ v "approve-button" Hv Hne) as Hbtn.
  destruct (listResponseActions st) as [|a0 l] eqn:El; [done|]. rewrite <- El in *.
  assert (selected_action (console_of st) = Some a0) as Hsel.
  { unfold selected_action, console_of. cbn [rc_actions rc_selectedId default from_option id].
    assert (∀ k, List.find (fun a => bool_decide (Some (ra_id a) = None)) k = None) as -> by (by intros k; induction k).
    by rewrite El. }
  rewrite Hsel, detail_approve in Hbtn. rewrite Hbtn.
  destruct (pendingItem_found st v Hv (ao_plain _ Hok)) as [sel ->].
  destruct (List.find is_pending (listResponseActions st)) as [a|] eqn:Ef; cbn [fmap option_fmap option_map].
  - apply List.find_some in Ef as [Hin%list_elem_of_In Hp].
    assert (selected_action (click_item (ActionItem sel a) (console_of st)) = Some a) as Hs.
    { change (match List.find (fun x => bool_decide (Some (ra_id x) = Some (ra_id a))) (listResponseActions st) with
              | Some x => Some x | None => listResponseActions st !! 0%nat end = Some a).
      by rewrite (proj1 (find_by_id st a Hok Hin)). }
    destruct (blast_of_listed st a Hok Hin) as [b Hb].
    destruct (settled_page st _ a b Hs eq_refl eq_refl Hne Hb) as (v' & btn & p & -> & -> & -> & Hd).
    rewrite (proj1 (settled_shows st _ a Hs)), Hd, Hp. done.
  - assert (a0 ∈ listResponseActions st) as Hin by (rewrite El; left).
    pose proof (List.find_none _ _ Ef a0 (proj1 (list_elem_of_In _ _) Hin)) as Hp.
    destruct (blast_of_listed st a0 Hok Hin) as [b Hb].
    destruct (settled_page st _ a0 b Hsel eq_refl eq_refl Hne Hb) as (v' & btn & p & -> & -> & -> & Hd).
    by rewrite (proj1 (settled_shows st _ a0 Hsel)), Hd, Hp.
Qed.

Lemma split_unique {A} (a : A) l1 l2 k1 k2 : l1 ++ a :: l2 = k1 ++ a :: k2 → a ∉ l1 → a ∉ k1 → l1 = k1.
Proof.
  revert k1. induction l1 as [|x l1 IH]; intros [|y k1]; [done|intros [= -> _] _ []; left|intros [= -> _] []; left|].
  intros [= -> H] H1 H2. f_equal. apply IH; [done|by intros ?; apply H1; right|by intros ?; apply H2; right].
Qed.

(** Approving the first pending action. *)
Lemma approve_first st a : actions_ok st → List.find is_pending (listResponseActions st) = Some a →
  let st' := (POST_decision (ra_id a) (Some "approved") st).1 in
  actions_ok st' ∧ length (listResponseActions st') = length (listResponseActions st) ∧
  pending_actions st = a :: pending_actions st' ∧ getResponseAction (ra_id a) st' = Some (set_status a approved).
Proof.
  intros Hok Ef. cbn zeta. apply find_split in Ef as Hsp. destruct Hsp as (l1 & l2 & El & Hpa & Hl1).
  assert (a ∈ listResponseActions st) as Hin by (rewrite El; apply elem_of_app; right; left).
  destruct (listed_action st a Hok Hin) as (m1 & m2 & Em & Hn).
  destruct (omap_at (ra_id a) a (set_status a approved) m1 m2 Hn) as [Hget Hset].
  assert ((POST_decision (ra_id a) (Some "approved") st).1 = set_actions (fun _ => m1 ++ (ra_id a, set_status a approved) :: m2) st) as ->.
  { unfold POST_decision. change (Some "approved" ≫= of_name VALID_DECISIONS action_status_name) with (Some approved).
    unfold decideResponseAction. rewrite Em, Hget. cbn [fst]. unfold set_actions. by rewrite Em, Hset. }
  assert (∀ P : ResponseAction → Prop, Forall P (listResponseActions st) → P (set_status a approved) →
          Forall P (m1.*2 ++ set_status a approved :: m2.*2)) as HF.
  { intros P H HP. unfold listResponseActions, omap_values in H. rewrite Em, fmap_app, fmap_cons in H.
    apply Forall_app in H as [H1 H2]. apply Forall_cons in H2 as [_ H2]. apply Forall_app. split; [done|by constructor]. }
  assert (m1.*2 ++ a :: m2.*2 = l1 ++ a :: l2) as Heq.
  { rewrite <- El. unfold listResponseActions, omap_values. by rewrite Em, fmap_app. }
  unfold pending_actions, getResponseAction. cbn [set_actions st_responseActions].
  unfold listResponseActions, omap_values. cbn [set_actions st_responseActions].
  rewrite Em, !fmap_app, !fmap_cons. cbn [snd]. split; [|split; [by rewrite !length_app|split]].
  - destruct Hok as [Hk Hi Hp Hb]. rewrite Em in Hk, Hi. split; cbn [set_actions st_responseActions].
    + by rewrite fmap_app, fmap_cons in *.
    + apply Forall_app in Hi as [H1 H2]. apply Forall_cons in H2 as [_ H2]. apply Forall_app. split; [done|by constructor].
    + unfold listResponseActions, omap_values. cbn [set_actions st_responseActions]. rewrite fmap_app, fmap_cons.
      apply HF; [done|]. rewrite Forall_forall in Hp. exact (Hp a Hin).
    + unfold listResponseActions, omap_values. cbn [set_actions st_responseActions]. rewrite fmap_app, fmap_cons.
      apply HF; [done|]. rewrite Forall_forall in Hb. exact (Hb a Hin).
  - rewrite !List.filter_app. cbn [List.filter]. rewrite Hpa. change (is_pending (set_status a approved)) with false. cbn [app].
    assert (m1.*2 = l1) as ->; [|by rewrite Hl1].
    apply (split_unique a m1.*2 m2.*2 l1 l2); [exact Heq| |].
    + intros ([k x] & Hx & Hin')%list_elem_of_fmap. cbn in Hx. subst x. apply Hn.
      destruct Hok as [_ Hi _ _]. rewrite Em, Forall_app, !Forall_forall in Hi. destruct Hi as [Hi _].
      specialize (Hi _ Hin'). cbn in Hi. subst k. by apply (list_elem_of_fmap_2 fst _ _ Hin').
    + intros Hin'%list_elem_of_In. assert (a ∈ List.filter is_pending l1) as H by (by apply list_elem_of_In, filter_In).
      rewrite Hl1 in H. by apply not_elem_of_nil in H.
  - by apply omap_at.
Qed.

(** A run leaves every decided action as it is. *)
Lemma runs_keep n st st' id x : actions_ok st → listResponseActions st ≠ [] → gate_runs n st = inr st' →
  getResponseAction id st = Some x → is_pending x = false → getResponseAction id st' = Some x.
Proof.
  revert st. induction n as [|n IH]; intros st Hok Hne; cbn [gate_runs]; [by intros [= ->]|].
  rewrite approval_leg_run by done. destruct (List.find is_pending (listResponseActions st)) as [a|] eqn:Ef; [|done].
  intros Hr Hx Hp. destruct (approve_first st a Hok Ef) as (Hok' & Hlen & Hpend & _).
  apply (IH _ Hok'); [|exact Hr| |done].
  - intros E. rewrite E in Hlen. by destruct (listResponseActions st).
  - apply List.find_some in Ef as [Hin%list_elem_of_In Hpa]. pose proof (proj2 (find_by_id st a Hok Hin)) as Ha.
    assert (ra_id a ≠ id) as Hid by (intros <-; rewrite Ha in Hx; injection Hx as ->; congruence).
    unfold POST_decision. change (Some "approved" ≫= of_name VALID_DECISIONS action_status_name) with (Some approved).
    unfold decideResponseAction. unfold getResponseAction in *. rewrite Ha. cbn [fst set_actions st_responseActions].
    by rewrite omap_get_set_ne.
Qed.

(** C38: how often the approval leg can pass.  On one server it passes as many
    times as there are pending actions, each run approving the next of them, in
    the order of the list; from then on every run fails at the approve button,
    although the console does nothing wrong. *)
Theorem approval_runs st :
  actions_ok st → listResponseActions st ≠ [] →
  let n := length (pending_actions st) in
  (∀ k, (k ≤ n)%nat → ∃ st', gate_runs k st = inr st' ∧ pending_actions st' = drop k (pending_actions st) ∧
     Forall (fun a => getResponseAction (ra_id a) st' = Some (set_status a approved)) (take k (pending_actions st))) ∧
  (∀ k, (n < k)%nat → gate_runs k st = inl StillDisabled).
Proof.
  intros Hok Hne n.
  assert (∀ k st, actions_ok st → listResponseActions st ≠ [] →
    if decide (k ≤ length (pending_actions st))%nat
    then ∃ st', gate_runs k st = inr st' ∧ pending_actions st' = drop k (pending_actions st) ∧
      Forall (fun a => getResponseAction (ra_id a) st' = Some (set_status a approved)) (take k (pending_actions st))
    else gate_runs k st = inl StillDisabled) as H.
  { clear. induction k as [|k IH]; intros st Hok Hne; [rewrite decide_True by lia; by exists st|].
    cbn [gate_runs]. rewrite approval_leg_run by done.
    destruct (List.find is_pending (listResponseActions st)) as [a|] eqn:Ef.
    - destruct (approve_first st a Hok Ef) as (Hok' & Hlen & Hp & Ha). rewrite Hp. cbn [length drop take].
      set (st1 := (POST_decision (ra_id a) (Some "approved") st).1) in *.
      assert (listResponseActions st1 ≠ []) as Hne' by (intros E; rewrite E in Hlen; by destruct (listResponseActions st)).
      specialize (IH st1 Hok' Hne'). destruct (decide (k ≤ length (pending_actions st1))%nat) as [Hk|Hk].
      + rewrite decide_True by lia. destruct IH as (st' & Hr & Hd & Hf). exists st'. split; [done|]. split; [done|].
        constructor; [|done]. by apply (runs_keep k st1).
      + by rewrite decide_False by lia.
    - assert (pending_actions st = []) as ->; [|by rewrite decide_False by (cbn [length]; lia)].
      unfold pending_actions. destruct (List.filter is_pending (listResponseActions st)) as [|a l] eqn:E; [done|].
      assert (In a (List.filter is_pending (listResponseActions st))) as [Hin Hp]%filter_In by (rewrite E; by left).
      by rewrite (List.find_none _ _ Ef a Hin) in Hp. }
  split; intros k Hk; specialize (H k st Hok Hne).
  - by rewrite decide_True in H.
  - by rewrite decide_False in H by (unfold n in Hk; lia).
Qed.

(** Two proposals for a new server, one of them decided before. *)
Definition sample_action (id : string) (kind : ResponseActionKind) (target : string) (status : ActionStatus) : ResponseAction :=
  mkAction id "case-1" kind target 1757462400123 "Contain it." status.
Definition approval_store : Store :=
  mkStore ∅ [] [] [("ra-1", sample_action "ra-1" revoke_session "user:jdoe" rejected);
                   ("ra-2", sample_action "ra-2" isolate_host "WIN-CLIENT-7" pending);
                   ("ra-3", sample_action "ra-3" disable_account "user:asmith" pending)] 1 0.

Lemma approval_store_ok : actions_ok approval_store.
Proof.
  split.
  - apply (bool_decide_unpack _). vm_compute. exact I.
  - repeat constructor.
  - repeat constructor; intros [] Hs; (done || (vm_compute; reflexivity)).
  - repeat constructor; (eexists; vm_compute; reflexivity).
Qed.

Lemma approval_runs_witness :
  (∃ st', gate_runs 2 approval_store = inr st' ∧ pending_actions st' = []) ∧
  gate_runs 3 approval_store = inl StillDisabled.
Proof.
  destruct (approval_runs approval_store approval_store_ok ltac:(discriminate)) as [H1 H2]. split.
  - destruct (H1 2%nat) as (st' & Hr & Hp & _); [vm_compute; lia|]. exists st'. split; [exact Hr|]. rewrite Hp. reflexivity.
  - apply H2. vm_compute. lia.
Defined.

(** ** The whole gate *)

Inductive GateEntry :=
| G_keyboard (f : TriageFailure)
| G_event_not_selected
| G_still_disabled
| G_perf (f : PerfFailure)
| G_blast (f : GateFailure).

(** [process.exit]: what was recorded, or 1 after an error thrown, a wait that
    timed out being one. *)
Definition exit_code (failures : option (list GateEntry)) : Z :=
  match failures with Some [] => 0 | _ => 1 end.

Section main.
Context (toLocaleString : Z → string) (now : Z) (rows : list Case) (table : list Case → option string → Table).
Context (timeline : string → option (Case * list TimelineEvent)).

(** A leg without failures has carried a case. *)
Lemma leg_failures_carried leg : leg_failures now rows table leg = [] → ∃ a id, carried leg = Some (String a id).
Proof.
  unfold leg_failures. intros [_ H]%app_nil. apply app_nil in H as [_ H]. apply app_nil in H as [_ H].
  destruct (carried leg) as [[|a id]|]; [done| |done]. by exists a, id.
Qed.

(** The failures recorded by [checkTriageFlow]; an address without the parameter
    gives the text of [null]. *)
Definition checkTriageFlow (s : Surface) (st : Store) : option (list GateEntry) :=
  match run_leg rows table s with
  | Throw _ => None
  | Ok leg =>
      let caseId := default "null" (carried leg) in
      match timeline_leg toLocaleString caseId (timeline caseId) with
      | None => None
      | Some eventSelected =>
          let recorded := (G_keyboard <$> leg_failures now rows table leg) ++ (if eventSelected then [] else [G_event_not_selected]) in
          match approval_leg st with
          | inl StillDisabled => Some (recorded ++ [G_still_disabled])
          | inl _ => None
          | inr _ => Some recorded
          end
      end
  end.

(** [main] after signing in: the frames of the scroll passes and the log of the
    blast-radius gate are what the driver recorded. *)
Definition triage_main (s : Surface) (st : Store) (container : bool) (passes : list (list QArith_base.Q)) (log : list GateSample) : Z :=
  exit_code (
    match checkTriageFlow s st with
    | None => None
    | Some recorded =>
        Some (recorded ++ (G_perf <$> option_list (scroll_gate container passes)) ++ (G_blast <$> blast_gate log))
    end).

(** The gate exits with 0 exactly when the keyboard leg records nothing, the case it
    carried has an event, an action is still pending, and the frames and the log
    are good; a case without events and a console without actions end it with an
    error. *)
Lemma triage_exit s st container passes log : actions_ok st → listResponseActions st ≠ [] →
  triage_main s st container passes log = 0 ↔
  (∃ leg c e es, run_leg rows table s = Ok leg ∧ leg_failures now rows table leg = [] ∧
     timeline (default "null" (carried leg)) = Some (c, e :: es)) ∧
  pending_actions st ≠ [] ∧ scroll_gate container passes = None ∧ blast_gate log = [].
Proof.
  intros Hok Hne. unfold triage_main, exit_code, checkTriageFlow. rewrite approval_leg_run by done.
  destruct (run_leg rows table s) as [leg|] eqn:Er; [|split; [done|intros [(leg & _ & _ & _ & ? & _) _]; done]].
  destruct (timeline_leg toLocaleString (default "null" (carried leg)) (timeline (default "null" (carried leg)))) as [b|] eqn:Et.
  2:{ split; [done|]. intros [(leg' & c & e & es & [= ->] & Hl & Ht) _]. exfalso.
      rewrite timeline_leg_passes, Ht in Et; [done|].
      apply leg_failures_carried in Hl as (x & id & ->). done. }
  assert (default "null" (carried leg) ≠ EmptyString →
          b = true ∧ ∃ c e es, timeline (default "null" (carried leg)) = Some (c, e :: es)) as Hb.
  { intros Hc. rewrite timeline_leg_passes in Et by done. destruct (timeline _) as [[c [|e es]]|]; try done.
    injection Et as <-. eauto 6. }
  rewrite find_pending. destruct (pending_actions st) as [|a pend]; cbn [head].
  { split; [|by intros (_ & ? & _)]. destruct (leg_failures now rows table leg); [by destruct b|done]. }
  destruct (leg_failures now rows table leg) as [|f fs] eqn:Ef.
  2:{ split; [done|]. intros [(leg' & _ & _ & _ & [= <-] & Hl & _) _]. congruence. }
  destruct Hb as [-> (c & e & es & Ht)].
  { destruct (leg_failures_carried leg Ef) as (x & id & ->). done. }
  cbn [fmap list_fmap app]. destruct (scroll_gate container passes) as [x|]; cbn; [split; [done|by intros (_ & _ & ? & _)]|].
  destruct (blast_gate log); cbn; [|split; [done|by intros (_ & _ & _ & ?)]].
  split; [intros _|done]. split; [by exists leg, c, e, es|done].
Qed.

End main.
