(* ===== verification/CanvasGate.v ===== *)
(** * The panels leg of the canvas gate: eval/ui/investigation-canvas-flow.mjs, [checkTriageFlow]

    The gate asks the server for a graph, clicks its first node at the point it is
    drawn at (Pointing shows that this selects it), clicks the first claim of the
    entity panel and verifies its first piece of evidence.  The leg runs here on
    the page of Canvas over the server of Graph, from the page the node's click
    left. *)

From S2P Require Import Prelude JsNum Json Text View Types Rng Seed Merkle Graph Quadtree Layout Canvas TriageGate.
From Stdlib Require Import Ascii.
Open Scope Z_scope.

(** ** Texts *)

(** [/^[A-Z_]+.*→|^[A-Z_]+.*←/] *)
Definition capital (c : ascii) : bool :=
  ((65 <=? code c) && (code c <=? 90)) || (code c =? 95).

Fixpoint first_line (s : string) : string :=
  match s with
  | EmptyString => EmptyString
  | String c s' => if (code c =? 10) || (code c =? 13) then EmptyString else String c (first_line s')
  end.

Definition has_arrow (s : string) : bool := includes "→" s || includes "←" s.

Definition names_claim (s : string) : bool :=
  match s with String c s' => capital c && has_arrow (first_line s') | EmptyString => false end.

(** [text-transform: uppercase] of the panels' headings, which [innerText] shows. *)
Definition upper_char (c : ascii) : ascii :=
  if (97 <=? code c) && (code c <=? 122) then ascii_of_nat (Z.to_nat (code c - 32)) else c.
Fixpoint upper (s : string) : string :=
  match s with EmptyString => EmptyString | String c s' => String (upper_char c) (upper s') end.

Inductive CanvasFailure := NoEntityPanel | NoClaims | NoClaimPanel | ProofNotValid | NoVerifyButton.

Section leg.
Context (blake3 : bytes → bytes) (toLocaleTimeString toLocaleString count_text : Z → string).
Context (caseId : string) (nodes : list GraphNode) (edges : list GraphEdge) (canvas : view).
(** The answers of the proof route, and the pieces of text outside the two panels'
    headings. *)
Context (answer : string → outcome (option InclusionProof)) (other : CanvasPage → list string).

Definition canvas_page (p : CanvasPage) (s : ProofStates) : view :=
  InvestigationCanvasClient toLocaleTimeString toLocaleString count_text (Some caseId) (Some (nodes, edges)) canvas s None p.

(** The four headings with the class [uppercase], where they are shown. *)
Definition headings (p : CanvasPage) : list string :=
  match selected_node nodes p with
  | Some n => ["Entity"; "Claims (" +:+ to_dec (Z.of_nat (length (connected n edges))) +:+ ")"]
  | None => []
  end ++
  match cp_selectedEdge p with
  | Some e => ["Claim"; "Evidence (" +:+ to_dec (Z.of_nat (length (ge_evidenceIds e))) +:+ ")"]
  | None => []
  end.
Definition body_includes (w : string) (p : CanvasPage) : bool :=
  existsb (includes w) (map upper (headings p) ++ other p).

(** The buttons of the page, and those that name a claim. *)
Definition page_buttons (v : view) : list view :=
  select (fun b => bool_decide (tag_of b ∈ [Some "button"; Some "Button"])) [v].
Definition claimButtons (p : CanvasPage) : list string :=
  List.filter names_claim (map text_content (page_buttons (canvas_page p ∅))).

(** The rows of the entity panel with the claim each one's button selects. *)
Definition row_text (n : GraphNode) (e : GraphEdge) : string :=
  ge_predicate e +:+ (if bool_decide (ge_fromNodeId e = gn_id n) then "→ " +:+ ge_toNodeId e else "← " +:+ ge_fromNodeId e).
Definition target_claim (p : CanvasPage) : option GraphEdge :=
  n ← selected_node nodes p;
  List.find (fun e => has_arrow (row_text n e)) (take 60 (connected n edges)).

(** The states after the first verify button is pressed and its answer has come. *)
Definition verified (e : GraphEdge) : ProofStates :=
  match ge_evidenceIds e with id :: _ => verify blake3 (answer id) id ∅ | [] => ∅ end.

(** The failures recorded, from the page after the node's click. *)
Definition panels_leg (p : CanvasPage) : list CanvasFailure :=
  (if body_includes "ENTITY" p then [] else [NoEntityPanel]) ++
  match claimButtons p, target_claim p with
  | _ :: _, Some e =>
      let p := onSelectEdge (Some e) p in
      (if body_includes "CLAIM" p then [] else [NoClaimPanel]) ++
      match by_testid "verify-inclusion-proof" [canvas_page p ∅] with
      | [] => [NoVerifyButton]
      | _ :: _ =>
          if (length (by_testid "proof-valid" [canvas_page p (verified e)]) =? 0)%nat then [ProofNotValid] else []
      end
  | _, _ => [NoClaims]
  end.
End leg.

(** ** The rows of the entity panel *)

Definition claim_named (e : GraphEdge) : bool :=
  match ge_predicate e with
  | String c s => capital c && bool_decide (first_line s = s)
  | EmptyString => false
  end.

Lemma edge_named nodes e : edge_ok nodes e → claim_named e = true ∧ ge_evidenceIds e ≠ [].
Proof.
  intros [_ _ [t Ht] _ Hev]. split; [|by destruct (ge_evidenceIds e); [cbn in Hev; lia|]].
  assert (forallb (fun t => forallb (fun p => match p with
    | String c s => capital c && bool_decide (first_line s = s) | EmptyString => false end) (PREDICATES_BY_TACTIC t)) TACTICS = true) as H
    by (vm_compute; reflexivity).
  rewrite forallb_forall in H. specialize (H t (proj1 (list_elem_of_In _ _) (elem_of_TACTICS t))).
  rewrite forallb_forall in H. exact (H _ (proj1 (list_elem_of_In _ _) Ht)).
Qed.

Lemma first_line_app a b : first_line a = a → first_line (a +:+ b) = a +:+ first_line b.
Proof.
  induction a as [|c a IH]; [done|]. change (String c a +:+ b) with (String c (a +:+ b)).
  assert (∀ s, first_line (String c s) = if (code c =? 10) || (code c =? 13) then EmptyString else String c (first_line s)) as E by done.
  rewrite !E. destruct ((code c =? 10) || (code c =? 13)); [done|]. intros [= H]. by rewrite IH.
Qed.

Lemma arrow_row a b : includes "→" (a +:+ ("→" +:+ b)) = true ∧ includes "←" (a +:+ ("←" +:+ b)) = true.
Proof. split; apply includes_mid. Qed.

Lemma row_names n e : claim_named e = true → names_claim (row_text n e) = true ∧ has_arrow (row_text n e) = true.
Proof.
  unfold claim_named, row_text. destruct (ge_predicate e) as [|c s]; [done|]. intros [Hc Hs%bool_decide_eq_true]%andb_true_iff.
  assert (∀ arrow x, (arrow = "→" ∨ arrow = "←") → let t := String c s +:+ (arrow +:+ x) in names_claim t = true ∧ has_arrow t = true) as H.
  { intros arrow x Ha. cbn zeta. change (String c s +:+ (arrow +:+ x)) with (String c (s +:+ (arrow +:+ x))).
    unfold names_claim, has_arrow. rewrite Hc, first_line_app by done. cbn [andb].
    assert (first_line (arrow +:+ x) = arrow +:+ first_line x) as -> by (apply first_line_app; by destruct Ha as [->| ->]).
    change (String c (s +:+ (arrow +:+ x))) with (String c s +:+ (arrow +:+ x)).
    destruct Ha as [->| ->]; rewrite !includes_mid, ?orb_true_r; done. }
  destruct (bool_decide _).
  - apply (H "→" (" " +:+ ge_toNodeId e)). by left.
  - apply (H "←" (" " +:+ ge_fromNodeId e)). by right.
Qed.

(** ** The page *)

(** What the gate looks for is not inside the canvas. *)
Record quiet (v : view) : Prop := {
  qu_buttons : page_buttons v = [];
  qu_verify : by_testid "verify-inclusion-proof" [v] = [];
  qu_valid : by_testid "proof-valid" [v] = [];
}.

Lemma CanvasView_quiet tree c : quiet (CanvasView tree c).
Proof.
  split; unfold page_buttons, by_testid, by_attr, CanvasView; rewrite select_inside by done;
    rewrite select_cons, !select_inside by done; rewrite select_map_nil by done; reflexivity.
Qed.

Section page.
Context (toLocaleTimeString toLocaleString count_text : Z → string).
Context (caseId : string) (nodes : list GraphNode) (edges : list GraphEdge) (canvas : view).
Hypothesis caseId_given : caseId ≠ EmptyString.
Hypothesis canvas_quiet : quiet canvas.

Notation the_page := (canvas_page toLocaleTimeString toLocaleString count_text caseId nodes edges canvas).

(** What a test selects on the page: something of the header, of the canvas, and of
    the panels. *)
Definition header (fps : option QArith_base.Q) : view :=
  El "div" []
   [El "div" []
     ([El "span" [("data-testid", Some "graph-node-count")] [Txt (count_text (Z.of_nat (length nodes)) +:+ " nodes")];
       El "span" [] [Txt (count_text (Z.of_nat (length edges)) +:+ " claims")]] ++
      match fps with
      | Some fps => [El "span" [("data-testid", Some "graph-fps")] [Txt (to_dec (Qround.Qfloor (QArith_base.Qplus fps (QArith_base.Qmake 1 2))) +:+ "fps")]]
      | None => []
      end);
    El "Button" [("data-testid", Some "replay-attack-path")]
     [El "Play" [("aria-hidden", Some "true")] []; Txt "Replay attack path"]].

Definition panels (p : CanvasPage) (s : ProofStates) : list view :=
  match selected_node nodes p with Some n => [EntityPanel toLocaleString n edges] | None => [] end ++
  match cp_selectedEdge p with Some e => [ClaimPanel toLocaleTimeString e s None] | None => [] end.

Lemma page_select f p s : (∀ k, f (El "div" [] k) = false) → (∀ key k, f (El "motion.div" [("key", Some key)] k) = false) →
  select f [the_page p s] = select f [header (cp_fps p)] ++ select f [canvas] ++ select f (panels p s).
Proof using caseId_given.
  intros Hd Hm. unfold canvas_page, InvestigationCanvasClient, panels, header. destruct caseId as [|a id]; [done|].
  rewrite select_inside by done. rewrite select_cons. f_equal.
  rewrite select_inside by done. rewrite select_cons, (select_inside f "div") by done. f_equal.
  rewrite select_inside by done. rewrite !select_app.
  destruct (selected_node nodes p) as [n|], (cp_selectedEdge p) as [e|]; rewrite ?select_inside, ?app_nil_r by done; done.
Qed.

(** The rows are the only buttons that name a claim. *)
Definition entity_row (n : GraphNode) (e : GraphEdge) : view :=
  El "li" [("key", Some (ge_id e))]
   [El "button" [("type", Some "button")]
     [El "span" [] [Txt (ge_predicate e)];
      El "span" [] [Txt (if bool_decide (ge_fromNodeId e = gn_id n) then "→ " +:+ ge_toNodeId e else "← " +:+ ge_fromNodeId e)]]].

Lemma entity_rows f n : (∀ k, f (El "div" [] k) = false) → (∀ k, f (El "ul" [] k) = false) →
  select f [EntityPanel toLocaleString n edges] = select f (map (entity_row n) (take 60 (connected n edges))).
Proof.
  intros Hd Hu. unfold EntityPanel. rewrite select_inside by done. rewrite !select_cons2, !(select_inside f "div") by done.
  rewrite !select_cons2, !(select_inside f "div") by done. rewrite !select_cons2, !(select_inside f "div") by done.
  rewrite (select_inside f "ul") by done. done.
Qed.

Lemma panel_rows n : map text_content (page_buttons (EntityPanel toLocaleString n edges)) = map (row_text n) (take 60 (connected n edges)).
Proof.
  unfold page_buttons. rewrite entity_rows by done. induction (take 60 (connected n edges)) as [|e l IH]; [done|].
  cbn [map]. rewrite select_cons, map_app, IH. unfold entity_row at 1. rewrite select_inside by done. rewrite select_hit by reflexivity.
  cbn. unfold row_text. by rewrite !append_empty_r.
Qed.

Lemma claimButtons_rows p n : selected_node nodes p = Some n → cp_selectedEdge p = None → Forall (fun e => claim_named e = true) edges →
  claimButtons toLocaleTimeString toLocaleString count_text caseId nodes edges canvas p = map (row_text n) (take 60 (connected n edges)).
Proof using caseId_given canvas_quiet.
  intros Hn He Hnamed. unfold claimButtons, page_buttons. rewrite page_select by done. fold (page_buttons canvas).
  rewrite (qu_buttons _ canvas_quiet). unfold panels. rewrite Hn, He, app_nil_r. fold (page_buttons (EntityPanel toLocaleString n edges)).
  cbn [app]. rewrite map_app, panel_rows, List.filter_app.
  assert (List.filter names_claim (map text_content (select (fun b => bool_decide (tag_of b ∈ [Some "button"; Some "Button"])) [header (cp_fps p)])) = []) as ->
    by (by destruct (cp_fps p)).
  cbn [app]. apply forallb_filter_id, forallb_forall. intros t (e & <- & Hin%list_elem_of_In)%in_map_iff.
  apply row_names. rewrite Forall_forall in Hnamed. apply Hnamed.
  apply elem_of_take in Hin as (i & Hi & _). apply list_elem_of_lookup_2, list_elem_of_In, filter_In in Hi as [Hi _]. by apply list_elem_of_In.
Qed.

Lemma target_first p n : selected_node nodes p = Some n → Forall (fun e => claim_named e = true) edges →
  target_claim nodes edges p = head (connected n edges).
Proof.
  intros Hn Hnamed. unfold target_claim. rewrite Hn. cbn [mbind option_bind].
  destruct (connected n edges) as [|e l] eqn:E; [done|]. cbn [take List.find head].
  assert (e ∈ connected n edges) as Hin by (rewrite E; left). apply list_elem_of_In, filter_In in Hin as [Hin%list_elem_of_In _].
  rewrite Forall_forall in Hnamed. by destruct (row_names n e (Hnamed e Hin)) as [_ ->].
Qed.

(** The claim panel: a button for each piece of evidence, and a mark for each that
    verified. *)
Lemma evidence_items f e s : (∀ k, f (El "div" [] k) = false) → (∀ k, f (El "ul" [] k) = false) →
  select f [ClaimPanel toLocaleTimeString e s None] = select f (map (EvidenceItem s None) (ge_evidenceIds e)).
Proof.
  intros Hd Hu. unfold ClaimPanel. rewrite select_inside by done. rewrite !select_cons2, !(select_inside f "div") by done.
  rewrite !select_cons2, !(select_inside f "div") by done. rewrite !select_cons2, !(select_inside f "div") by done.
  rewrite (select_inside f "ul") by done. done.
Qed.

Lemma verify_buttons p e s : cp_selectedEdge p = Some e → selected_node nodes p = None →
  length (by_testid "verify-inclusion-proof" [the_page p s]) = length (ge_evidenceIds e) ∧
  (length (by_testid "proof-valid" [the_page p s]) =
     length (List.filter (fun id => bool_decide (s !! id = Some pf_valid)) (ge_evidenceIds e))).
Proof using caseId_given canvas_quiet.
  intros He Hn. destruct canvas_quiet as [_ Hv Hp]. unfold by_testid, by_attr in *. rewrite !page_select by done.
  rewrite Hv, Hp. unfold panels. rewrite He, Hn. cbn [app]. rewrite !evidence_items by done.
  assert (∀ name, name = "verify-inclusion-proof" ∨ name = "proof-valid" →
    select (fun v => bool_decide (attr "data-testid" v = Some name)) [header (cp_fps p)] = []) as Hh
    by (intros name [->| ->]; by destruct (cp_fps p)).
  rewrite !Hh by auto. cbn [app]. induction (ge_evidenceIds e) as [|id l [IH1 IH2]]; [done|]. cbn [map List.filter].
  rewrite !(select_cons _ (EvidenceItem s None id) (map (EvidenceItem s None) l)), !length_app, IH1, IH2.
  assert (length (select (fun v => bool_decide (attr "data-testid" v = Some "verify-inclusion-proof")) [EvidenceItem s None id]) = 1%nat ∧
          length (select (fun v => bool_decide (attr "data-testid" v = Some "proof-valid")) [EvidenceItem s None id]) =
          if bool_decide (s !! id = Some pf_valid) then 1%nat else 0%nat) as [-> ->].
  { unfold EvidenceItem. destruct (s !! id) as [[]|]; split; reflexivity. }
  split; [done|]. by destruct (bool_decide (s !! id = Some pf_valid)).
Qed.
End page.

(** The page after a click that hit a node. *)
Lemma node_clicked nodes n p : NoDup (gn_id <$> nodes) → n ∈ nodes →
  let p' := apply_hit (HitNode (gn_id n)) p in selected_node nodes p' = Some n ∧ cp_selectedEdge p' = None.
Proof.
  intros Hnd Hn. cbn zeta. split; [|done]. unfold selected_node, apply_hit, onSelectEdge, onSelectNode. cbn [cp_selectedNodeId].
  induction nodes as [|m nodes IH]; [by apply not_elem_of_nil in Hn|]. rewrite fmap_cons in Hnd. apply NoDup_cons in Hnd as [Hm Hnd].
  cbn [List.find]. case_bool_decide as E.
  - injection E as E. apply elem_of_cons in Hn as [->|Hn]; [done|]. exfalso. apply Hm. rewrite E. by apply (list_elem_of_fmap_2 gn_id).
  - apply elem_of_cons in Hn as [->|Hn]; [done|]. by apply IH.
Qed.

(** The panels leg on the console's own server: whatever graph was served and
    whatever the page showed before, a click on a node with a connected claim leads
    to the claim and to a verified proof of its first piece of evidence, so that
    the leg records nothing; on a node without claims it records that.  The check
    that the claim panel opened holds before the claim is clicked too: the entity
    panel's own heading has the word it looks for. *)
Theorem canvas_leg (js_pow : QArith_base.Q → QArith_base.Q) (blake3 : bytes → bytes) toLocaleTimeString toLocaleString count_text
    cache cache' caseId nodesParam now1 now2 nodes edges columns ids tree c other n p :
  (∀ m, Forall is_byte (blake3 m)) → cache_reachable js_pow blake3 cache → caseId ≠ EmptyString →
  GET_graph js_pow blake3 caseId nodesParam now1 cache = (cache', Ok (nodes, edges, columns, ids)) →
  NoDup (gn_id <$> nodes) → Forall (fun e => claim_named e = true ∧ ge_evidenceIds e ≠ []) edges → n ∈ nodes →
  let p' := apply_hit (HitNode (gn_id n)) p in
  panels_leg blake3 toLocaleTimeString toLocaleString count_text caseId nodes edges (CanvasView tree c)
    (fun id => (GET_graph_proof js_pow blake3 caseId id nodesParam now2 cache').2) other p' =
    match connected n edges with [] => [NoClaims] | _ => [] end ∧
  body_includes nodes edges other "CLAIM" p' = true.
Proof.
  intros Hb Hreach Hcase Hget Hnd Hedges Hn. cbn zeta. set (p' := apply_hit (HitNode (gn_id n)) p).
  destruct (node_clicked nodes n p Hnd Hn) as [Hsel Hedge]. fold p' in Hsel, Hedge.
  assert (Forall (fun e => claim_named e = true) edges) as Hnamed by (eapply Forall_impl; [exact Hedges|by intros e []]).
  assert (body_includes nodes edges other "ENTITY" p' = true ∧ body_includes nodes edges other "CLAIM" p' = true) as [Hent Hcl]
    by (unfold body_includes, headings; rewrite Hsel; split; reflexivity).
  split; [|exact Hcl]. unfold panels_leg. rewrite Hent. cbn [app].
  rewrite (claimButtons_rows _ _ _ _ _ _ _ Hcase (CanvasView_quiet tree c) p' n Hsel Hedge Hnamed).
  rewrite (target_first nodes edges p' n Hsel Hnamed).
  destruct (connected n edges) as [|e l] eqn:Econn; [done|]. cbn [take map head].
  assert (e ∈ edges) as He.
  { assert (e ∈ connected n edges) as H by (rewrite Econn; left). apply list_elem_of_In, filter_In in H as [H _]. by apply list_elem_of_In. }
  rewrite Forall_forall in Hedges. destruct (Hedges e He) as [_ Hev].
  set (p2 := onSelectEdge (Some e) p'). assert (cp_selectedEdge p2 = Some e ∧ selected_node nodes p2 = None) as [He2 Hn2].
  { split; [done|]. change (List.find (fun n => bool_decide (Some (gn_id n) = None)) nodes = None).
    clear. by induction nodes. }
  assert (body_includes nodes edges other "CLAIM" p2 = true) as -> by (unfold body_includes, headings; rewrite Hn2, He2; reflexivity).
  destruct (verify_buttons toLocaleTimeString toLocaleString count_text caseId nodes edges _ Hcase (CanvasView_quiet tree c) p2 e ∅ He2 Hn2) as [H1 _].
  match goal with |- context [verified ?b ?a e] => set (s := verified b a e) end.
  destruct (verify_buttons toLocaleTimeString toLocaleString count_text caseId nodes edges _ Hcase (CanvasView_quiet tree c) p2 e s He2 Hn2) as [_ H2].
  rewrite H2. destruct (by_testid "verify-inclusion-proof" _) as [|b bs]; [by destruct (ge_evidenceIds e)|]. cbn [app].
  destruct (ge_evidenceIds e) as [|id rest] eqn:Eid; [done|].
  destruct (served_proof js_pow blake3 cache cache' caseId nodesParam now1 now2 nodes edges columns ids id Hb Hreach Hget)
    as (proof & Hproof & Hvalid); [exists e; split; [done|rewrite Eid; left]|].
  assert (s !! id = Some pf_valid) as Hs.
  { unfold s, verified. rewrite Eid. unfold verify. rewrite Hproof. cbn [snd]. rewrite Hvalid. apply lookup_insert_eq. }
  cbn [List.filter]. by rewrite bool_decide_eq_true_2.
Qed.

Definition still_canvas : Canvas :=
  let one := QArith_base.Qmake 1 1 in let v := mkViewport one one one one one in mkCanvas v v None None.

(** The graph of twelve nodes of a case, on a page that showed nothing. *)
Lemma canvas_leg_witness :
  ∃ cache nodes edges columns ids n,
    GET_graph (fun q => q) toy_hash "case-1" (Some "12") 1757500000000 ∅ = (cache, Ok (nodes, edges, columns, ids)) ∧ head nodes = Some n ∧
    panels_leg toy_hash to_dec to_dec to_dec "case-1" nodes edges (CanvasView None still_canvas)
      (fun id => (GET_graph_proof (fun q => q) toy_hash "case-1" id (Some "12") 1757500009999 cache).2) (fun _ => [])
      (apply_hit (HitNode (gn_id n)) canvas_page_initial) = [].
Proof.
  destruct (GET_graph (fun q => q) toy_hash "case-1" (Some "12") 1757500000000 ∅) as [cache r] eqn:E.
  assert (match r with
    | Ok (n :: nodes, edges, _, _) => bool_decide (NoDup (gn_id <$> n :: nodes)) &&
        forallb (fun e => claim_named e && negb (length (ge_evidenceIds e) =? 0)%nat) edges && negb (length (connected n edges) =? 0)%nat
    | _ => false end = true) as H.
  { change r with (cache, r).2. rewrite <- E. vm_compute. reflexivity. }
  destruct r as [[[[nodes edges] columns] ids]|x]; [|discriminate H]. destruct nodes as [|n ns]; [discriminate H|].
  rewrite !andb_true_iff in H. destruct H as [[Hnd%bool_decide_eq_true Hedges] Hc].
  exists cache, (n :: ns), edges, columns, ids, n. split; [exact eq_refl|]. split; [exact eq_refl|].
  destruct (canvas_leg (fun q => q) toy_hash to_dec to_dec to_dec ∅ cache "case-1" (Some "12") 1757500000000 1757500009999
    (n :: ns) edges columns ids None still_canvas (fun _ => []) n canvas_page_initial
    toy_hash_bytes (cr_init _ _) ltac:(discriminate) E Hnd) as [Hleg _].
  - rewrite forallb_forall in Hedges. apply Forall_forall. intros e He%list_elem_of_In. specialize (Hedges e He).
    apply andb_true_iff in Hedges as [H1 H2]. split; [exact H1|]. intros E'. by rewrite E' in H2.
  - left.
  - rewrite Hleg. by destruct (connected n edges).
Defined.
