(* ===== verification/LedgerGate.v ===== *)
(** * The ledger gate: eval/ui/verdict-ledger-flow.mjs

    The gate opens the verdict ledger, looks for rows and for a broken link, runs the
    verification of the manifest the page selects and then the tampering demo, and
    looks for the seal and for the failure.  It is run here on the page of LedgerView
    over the console's own server and kernel; between its clicks no other event
    reaches the page.  The download of the last step is the browser's. *)

From S2P Require Import Prelude JsNum Json View Types Text Rng Seed Merkle Kernel Policy Ledger Verify LedgerView TriageGate.
Open Scope Z_scope.

(** The texts of a page, piece by piece. *)
Fixpoint texts (v : view) : list string :=
  match v with Txt s => [s] | El _ _ children => mjoin (map texts children) end.

Inductive LedgerFailure := FewRows | NoBrokenRow | NoSeal | NotBroken.

Section gate.
Context (kernel_text : kernel_error → string) (engine_text : js_error → string) (now : Z).
Context (blake3 : bytes → bytes) (net : Net).

Definition ledger_page (p : Page) : view := VerdictLedgerClient kernel_text engine_text now p.

(** The page when the manifests have arrived. *)
Definition opened (ms : list SealedManifest) : Page := settle page_initial (mkPage (Some ms) None initial_panel).

(** A click on one of the two buttons, until the run has ended. *)
Definition run_clicked (withTamper : bool) (p : Page) : Page :=
  match page_selected p with
  | Some sm => mkPage (pg_data p) (pg_selectedId p) (runVerification blake3 net sm withTamper)
  | None => p
  end.

(** [text=broken]: a text that has the word, in either case. *)
Definition shows_broken (p : Page) : bool := existsb (fun t => includes "broken" (lower t)) (texts (ledger_page p)).
Definition count_of (id : string) (p : Page) : nat := length (by_testid id [ledger_page p]).

Definition ledger_gate (ms : list SealedManifest) : list LedgerFailure :=
  let p0 := opened ms in
  let p1 := run_clicked false p0 in
  let p2 := run_clicked true p1 in
  (if (length (by_role "row" [ledger_page p0]) <? 2)%nat then [FewRows] else []) ++
  (if shows_broken p0 then [] else [NoBrokenRow]) ++
  (if (count_of "verification-seal" p1 =? 0)%nat then [NoSeal] else []) ++
  (if (count_of "verification-broken" p2 =? 0)%nat then [NotBroken] else []).
End gate.

(** ** What the page shows *)

Lemma texts_row kt et now m l sel pn sm :
  sm ∈ m :: l → sm_chainBroken sm = true → "broken" ∈ texts (VerdictLedgerClient kt et now (mkPage (Some (m :: l)) sel pn)).
Proof.
  intros Hin Hb. unfold VerdictLedgerClient. cbn [pg_data pg_selectedId]. destruct (select_manifest (m :: l) sel) as [sid s].
  cbn [texts map]. rewrite mjoin_cons. apply elem_of_app. left. cbn [texts map]. rewrite mjoin_cons. apply elem_of_app. left.
  unfold ManifestTable. cbn [texts]. apply list_elem_of_join. exists (texts (ManifestRow now sid sm)). split.
  - unfold ManifestRow. cbv zeta. rewrite Hb. cbn. repeat first [by left | right].
  - apply list_elem_of_fmap_2. right. by apply list_elem_of_fmap_2.
Qed.

Lemma shows_broken_row kt et now m l sel pn sm :
  sm ∈ m :: l → sm_chainBroken sm = true → shows_broken kt et now (mkPage (Some (m :: l)) sel pn) = true.
Proof.
  intros Hin Hb. unfold shows_broken, ledger_page. apply existsb_exists. exists "broken". split; [|reflexivity].
  apply list_elem_of_In. exact (texts_row kt et now m l sel pn sm Hin Hb).
Qed.

Lemma page_rows kt et now m l sel pn :
  (2 <= length (by_role "row" [VerdictLedgerClient kt et now (mkPage (Some (m :: l)) sel pn)]))%nat.
Proof.
  unfold by_role. rewrite ledger_parts by auto. rewrite length_app.
  rewrite (f_equal length (ManifestTable_marks now (m :: l) _ ("role", "row") ltac:(by apply mark_in)) :
    length (by_attr "role" "row" [ManifestTable now (m :: l) _]) = _).
  cbn [fst snd map]. rewrite decide_True, length_app, mjoin_cons, length_app by done.
  rewrite (f_equal length (proj1 (ManifestRow_row now _ m)) : length (by_attr "role" "row" [ManifestRow now _ m]) = _). cbn. lia.
Qed.

(** Only the banner carries the two outcomes. *)
Lemma outcome_banner kt et now m l sel sm pn id :
  id ∈ ["verification-seal"; "verification-broken"] → (select_manifest (m :: l) sel).2 = Some sm →
  by_testid id [VerdictLedgerClient kt et now (mkPage (Some (m :: l)) sel pn)] = by_testid id (BannerView kt et (banner sm pn)).
Proof.
  intros Hid Hsel. unfold by_testid. rewrite ledger_parts by auto. fold (by_testid id [ManifestTable now (m :: l) (select_manifest (m :: l) sel).1]).
  rewrite table_testid, Hsel. cbn [app].
  assert (by_attr "data-testid" id [HashChain sm] = []) as ->
    by (rewrite !elem_of_cons in Hid; destruct Hid as [->|[->|?%not_elem_of_nil]]; [..|done]; unfold HashChain; by destruct (sm_chainBroken sm)).
  cbn [app]. unfold VerificationPanel, by_attr. look. rewrite select_app, (select_cons _ (El "div" _ _)).
  rewrite !elem_of_cons in Hid.
  destruct Hid as [->|[->|?%not_elem_of_nil]]; [| |done];
    rewrite (select_inside _ "ul") by done; rewrite select_map_nil by (intros [? []] _; done); rewrite app_nil_r;
    destruct (p_running pn && negb (p_tampered pn)), (p_running pn); done.
Qed.

Lemma seal_counted kt et h : by_testid "verification-seal" (BannerView kt et (Seal h)) ≠ [].
Proof. done. Qed.
Lemma broken_counted kt et title hashes msg : by_testid "verification-broken" (BannerView kt et (Broken title hashes msg)) ≠ [].
Proof. unfold by_testid, by_attr. cbn [BannerView]. by rewrite select_hit. Qed.

(** A tenant of more than three cases has a broken link. *)
Lemma tenant_broken blake3 cases clock data t :
  buildLedger blake3 cases clock = Ok data → t ∈ TENANTS → (3 < length (tenant_cases cases t))%nat →
  ∃ sm, sm ∈ GET_manifests data ∧ sm_chainBroken sm = true.
Proof.
  intros Hbuild Ht Hlen. apply buildLedger_Ok in Hbuild as (pss & Hl & Hms & _ & _).
  apply list_elem_of_lookup in Ht as [k Hk]. destruct (Forall2_lookup_l _ _ _ _ _ Hl Hk) as (ps & Hps & Hch).
  pose proof (tenant_chain_length _ _ _ _ _ _ _ _ Hch) as Hn. set (n := length (tenant_cases cases t)) in *.
  pose proof (Nat.div_lt n 2 ltac:(lia) ltac:(lia)) as Hlt.
  destruct (lookup_lt_is_Some_2 ps (n / 2)%nat ltac:(lia)) as [q Hq].
  destruct (tenant_chain_lookup _ _ _ _ _ _ _ _ _ _ Hch Hq) as (c & Hc). cbn [Nat.add] in Hc.
  exists q.1. split.
  - unfold GET_manifests. rewrite Hms, elem_of_sort_by. apply list_elem_of_fmap_2, list_elem_of_join. exists ps.
    split; by eapply list_elem_of_lookup_2.
  - rewrite (so_seal _ _ _ _ _ _ _ _ Hc). cbn. unfold break_at. by rewrite Nat.eqb_refl, (proj2 (Nat.ltb_lt _ _)).
Qed.

Lemma opened_selects m l : mf_investigation_id (sm_manifest m) ≠ EmptyString →
  select_manifest (m :: l) (pg_selectedId (opened (m :: l))) = (Some (mf_investigation_id (sm_manifest m)), Some m).
Proof.
  intros Hne. unfold opened, settle. cbn [pg_selectedId pg_data default from_option id].
  rewrite select_manifest_idem. unfold select_manifest. f_equal.
  rewrite filter_cons, decide_True by done. done.
Qed.

Lemma manifest_named blake3 cases clock data sm :
  NoDup (case_id <$> cases) → buildLedger blake3 cases clock = Ok data → sm ∈ GET_manifests data →
  mf_investigation_id (sm_manifest sm) ≠ EmptyString.
Proof.
  intros Hnd Hbuild Hsm. destruct (built_manifest blake3 _ _ _ _ Hnd Hbuild Hsm) as (c & cd & (t & prev & b & Hok) & _).
  destruct (so_id _ _ _ _ _ _ _ _ Hok) as (suffix & _ & E). cbn [fst] in E. by rewrite E.
Qed.

(** ** Properties *)

(** C31: the ledger gate.  Over the ledger that the console builds for any cases, as long
    as the two kernel runs on the selected manifest have no colliding messages, the
    gate finds its rows, sees the seal after the verification and the failure after
    the tampering, so that at most the broken link can be missing; and it passes
    when some tenant has more than three cases. *)
Theorem ledger_gate_passes kt et now blake3 cases clock data sm rest cd :
  (∀ m, Forall is_byte (blake3 m)) → (∀ m, length (blake3 m) = 32%nat) → NoDup (case_id <$> cases) →
  buildLedger blake3 cases clock = Ok data → GET_manifests data = sm :: rest →
  ld_caseData data !! mf_investigation_id (sm_manifest sm) = Some cd →
  Forall (fun c => claim_sized (wire_claim c)) (lc_raw <$> cd_claims cd) →
  no_collision blake3 (claim_messages cd true) (claim_messages cd false) →
  no_collision blake3 (verdict_messages blake3 cd true) (verdict_messages blake3 cd false) →
  let failures := ledger_gate kt et now blake3 (served data) (GET_manifests data) in
  (failures = [] ∨ failures = [NoBrokenRow]) ∧
  ((∃ t, t ∈ TENANTS ∧ (3 < length (tenant_cases cases t))%nat) → failures = []).
Proof.
  intros Hb Hlen Hnd Hbuild Hms Hcd Hsz Hcm Hvm.
  assert (sm ∈ GET_manifests data) as Hin by (rewrite Hms; by left).
  pose proof (opened_selects sm rest (manifest_named blake3 cases clock data sm Hnd Hbuild Hin)) as Hsel.
  destruct (tamper_run blake3 cases clock data sm cd Hb Hlen Hnd Hbuild Hin Hcd Hsz Hcm Hvm) as (h & _ & Htamper).
  destruct (honest_run blake3 cases clock data sm Hb Hnd Hbuild Hin) as [_ Hseal].
  set (p0 := opened (sm :: rest)) in *. set (sel := pg_selectedId p0) in *.
  assert (p0 = mkPage (Some (sm :: rest)) sel (pg_panel p0)) as Ep0 by reflexivity.
  assert (∀ pn, page_selected (mkPage (Some (sm :: rest)) sel pn) = Some sm) as Hpage
    by (intros pn; exact (f_equal snd Hsel)).
  assert (run_clicked blake3 (served data) false p0 = mkPage (Some (sm :: rest)) sel (runVerification blake3 (served data) sm false)) as E1
    by (unfold run_clicked; rewrite Ep0, Hpage; reflexivity).
  assert (∀ pn, run_clicked blake3 (served data) true (mkPage (Some (sm :: rest)) sel pn) =
    mkPage (Some (sm :: rest)) sel (runVerification blake3 (served data) sm true)) as E2
    by (intros pn; unfold run_clicked; by rewrite Hpage).
  assert (ledger_gate kt et now blake3 (served data) (sm :: rest) = if shows_broken kt et now p0 then [] else [NoBrokenRow]) as Hgate.
  { unfold ledger_gate. cbv zeta. fold p0. rewrite E1, E2. unfold count_of, ledger_page.
    rewrite !outcome_banner with (sm := sm) by (exact (f_equal snd Hsel) || set_solver).
    rewrite Hseal, Htamper. rewrite Ep0 at 1. rewrite (proj2 (Nat.ltb_ge _ _) (page_rows kt et now sm rest sel (pg_panel p0))).
    destruct (shows_broken kt et now p0); [|done]; reflexivity. }
  cbv zeta. rewrite Hms, Hgate. split; [by destruct (shows_broken kt et now p0); [left|right]|].
  intros (t & Ht & Hn). destruct (tenant_broken blake3 cases clock data t Hbuild Ht Hn) as (b & Hbin & Hbr).
  rewrite Hms in Hbin. rewrite Ep0, (shows_broken_row kt et now sm rest sel (pg_panel p0) b) by done. done.
Qed.

(** The ledger of four cases of one tenant. *)
Definition gate_cases : list Case := ledger_case <$> ["c0"; "c1"; "c2"; "c3"].

Definition gate_check (data : LedgerData) : bool :=
  match ld_manifests data with
  | sm :: _ =>
      match ld_caseData data !! mf_investigation_id (sm_manifest sm) with
      | Some cd =>
          forallb (fun c => claim_sizedb (wire_claim c)) (lc_raw <$> cd_claims cd) &&
          check_no_collision toy_hash (claim_messages cd true) (claim_messages cd false) &&
          check_no_collision toy_hash (verdict_messages toy_hash cd true) (verdict_messages toy_hash cd false)
      | None => false
      end
  | [] => false
  end.

Lemma gate_ledger : ∃ data sm rest cd, buildLedger toy_hash gate_cases noon = Ok data ∧ GET_manifests data = sm :: rest ∧
  ld_caseData data !! mf_investigation_id (sm_manifest sm) = Some cd ∧
  Forall (fun c => claim_sized (wire_claim c)) (lc_raw <$> cd_claims cd) ∧
  no_collision toy_hash (claim_messages cd true) (claim_messages cd false) ∧
  no_collision toy_hash (verdict_messages toy_hash cd true) (verdict_messages toy_hash cd false).
Proof.
  assert (match buildLedger toy_hash gate_cases noon with Ok d => gate_check d | Throw _ => false end = true) as H
    by (vm_compute; reflexivity).
  destruct (buildLedger toy_hash gate_cases noon) as [data|e]; [|discriminate H]. exists data.
  unfold gate_check in H. destruct (ld_manifests data) as [|sm rest] eqn:Em; [discriminate H|].
  destruct (ld_caseData data !! mf_investigation_id (sm_manifest sm)) as [cd|] eqn:Ec; [|discriminate H].
  rewrite !andb_true_iff, forallb_forall in H. destruct H as ((H1 & H2) & H3).
  exists sm, rest, cd. split; [done|]. split; [exact Em|]. split; [done|].
  split; [|split; by apply check_no_collision_ok].
  apply Forall_forall. intros c Hc. by apply claim_sizedb_ok, H1, list_elem_of_In.
Qed.

Lemma ledger_gate_passes_witness :
  ∃ data, buildLedger toy_hash gate_cases noon = Ok data ∧
    ledger_gate (fun _ => "kernel error") (fun _ => "engine error") 1757500000000 toy_hash (served data) (GET_manifests data) = [].
Proof.
  destruct gate_ledger as (data & sm & rest & cd & E & Hms & Hcd & Hsz & Hcm & Hvm).
  assert (NoDup (case_id <$> gate_cases)) as Hnd by (apply (bool_decide_unpack _); vm_compute; exact I).
  exists data. split; [exact E|].
  refine (proj2 (ledger_gate_passes (fun _ => "kernel error") (fun _ => "engine error") 1757500000000 toy_hash gate_cases noon data sm rest cd
    toy_hash_bytes toy_hash_length Hnd E Hms Hcd Hsz Hcm Hvm) _).
  exists "tenant-alpha". split; [by left|]. vm_compute. lia.
Defined.
