(* ===== verification/Sweep.v ===== *)
(** * The surface gate: eval/ui/gate.mjs

    What the gate visits and how it judges what the browser and the accessibility
    engine (axe-core) report: the sign-in, the list of surfaces with the wait on
    each, forbidden texts, serious violations, the focus rings of eight tab stops,
    and the screenshots.  The other two gates sign in the same way. *)

From S2P Require Import Prelude JsNum Json Text View Types Shortcuts Session TriageGate.
From Stdlib Require Import QArith.
Open Scope Z_scope.

Definition SURFACES : list string :=
  ["/"; "/investigation-canvas"; "/investigation-canvas?case=case-1"; "/timeline"; "/verdict-ledger"; "/drift-monitor";
   "/response-console"; "/coverage-map"; "/detection-studio"; "/tenant-admin"].

(** Each pattern is a text, looked for in either case. *)
Definition WATERMARK_PATTERNS : list string :=
  ["generated by"; "built with"; "powered by"; "made with ai"; "claude"; "anthropic"; "chatgpt"; "openai"].

Definition WIDTHS : list Z := [1280; 1920; 2560].

(** The sign-in of every gate, on the page at /login. *)
Definition gate_signIn (hmac : list Z → list Z → list Z) (now : Z) (production : bool) : option string * option Location :=
  post_signIn hmac None (submitted [] "gate-runner@tenant.example" "admin") now production.

Definition checkWatermarks (html : string) : list string := List.filter (fun pattern => includes pattern (lower html)) WATERMARK_PATTERNS.

Inductive Impact := im_minor | im_moderate | im_serious | im_critical.
Definition is_serious (impact : option Impact) : bool :=
  match impact with Some im_critical | Some im_serious => true | _ => false end.

(** The violations reported, each with its impact if it has one: those that fail the
    gate, and how many there are. *)
Definition checkAxe (violations : list (string * option Impact)) : list (string * option Impact) * nat :=
  (List.filter (fun v => is_serious v.2) violations, length violations).

(** Whether each of the eight tab stops shows a focus ring. *)
Definition checkKeyboardTraversal (stops : list bool) : bool := (length (List.filter (fun matches => matches) stops) <? 6)%nat.

Definition surface_wait (surface : string) : Z := if includes "investigation-canvas?case=" surface then 1000 else 200.

(** [data.cases?.[0]?.id ?? null], and the screenshots with their name, path, wait and size. *)
Definition screenshotSurfaces (firstCaseId : option string) : list (string * string) :=
  let on_case name := match firstCaseId with
                      | Some id => if decide (id = EmptyString) then [] else [(name, "/" +:+ name +:+ "?case=" +:+ id)]
                      | None => [] end in
  [("watchfloor", "/"); ("response-console", "/response-console")] ++
  on_case "timeline" ++ on_case "investigation-canvas" ++
  [("verdict-ledger", "/verdict-ledger"); ("drift-monitor", "/drift-monitor")].

Definition settleMs (name : string) : Z :=
  if decide (name = "response-console") then 1200 else if decide (name = "investigation-canvas") then 2500 else 300.
Definition screenshot_height (width : Z) : Z := js_round (dmul (inject_Z width) (625 # 1000)).
Definition screenshot_file (name theme : string) (width : Z) : string :=
  name +:+ "-" +:+ theme +:+ "-" +:+ to_dec width +:+ ".png".

Definition screenshots (theme : string) (firstCaseId : option string) : list (string * string * Z) :=
  mjoin ((fun s => (fun w => (screenshot_file s.1 theme w, s.2, settleMs s.1)) <$> WIDTHS) <$> screenshotSurfaces firstCaseId).

(** ** What it covers *)

(** The administrator the gate signs in as. *)
Definition gate_runner (now : Z) : Session := mkSession "gate-runner@tenant.example" admin (Some (json_int now)).

Lemma gate_runner_ok now : session_ok (gate_runner now).
Proof. split; [vm_compute; reflexivity|by exists now]. Qed.

Lemma gate_form : submitted [] "gate-runner@tenant.example" "admin" =
  mkLoginForm (Some "gate-runner@tenant.example") (Some "admin") (Some "/").
Proof. vm_compute. reflexivity. Qed.

Lemma trim_gate_runner : trim "gate-runner@tenant.example" = "gate-runner@tenant.example".
Proof. vm_compute. reflexivity. Qed.

Lemma gate_signs_in hmac now production :
  gate_signIn hmac now production = (Some (encode hmac (gate_runner now)), Some (mkLocation "/" [])).
Proof.
  unfold gate_signIn, post_signIn. rewrite gate_login, decide_True, gate_form by done. unfold signIn.
  cbn [lf_email lf_role lf_from from_option id default]. rewrite trim_gate_runner, decide_False by done. reflexivity.
Qed.

Lemma gate_paths : Forall (fun surface => default "" (lo_path <$> resolve surface) ∈ su_href <$> Shortcuts.SURFACES) SURFACES.
Proof. apply (bool_decide_unpack _). by vm_compute. Qed.

(** Every surface of the console and no other address is visited, and each is shown to
    the administrator the gate signed in as: no visit ends at the login page. *)
Theorem sweep_covers (hmac : list Z → list Z → list Z) now production :
  (∀ k m, hmac k m ≠ [] ∧ Forall (fun b => 0 <= b < 256) (hmac k m)) →
  ∃ jar, gate_signIn hmac now production = (jar, Some (mkLocation "/" [])) ∧
    follow hmac 1 jar (mkLocation "/" []) = Some (Shown (gate_runner now) "/") ∧
    (∀ surface, surface ∈ SURFACES → ∃ l, resolve surface = Some l ∧ respond hmac jar l = Shown (gate_runner now) (lo_path l)) ∧
    uniq ((fun surface => default "" (lo_path <$> resolve surface)) <$> SURFACES) = su_href <$> Shortcuts.SURFACES.
Proof.
  intros Hh. exists (Some (encode hmac (gate_runner now))).
  assert (∀ path query, path ∈ su_href <$> Shortcuts.SURFACES →
    respond hmac (Some (encode hmac (gate_runner now))) (mkLocation path query) = Shown (gate_runner now) path) as Hshown.
  { intros path query Hp. rewrite respond_console, decide_False by done. unfold ConsoleLayout.
    by rewrite (getSession_encode hmac Hh _ (gate_runner_ok now)). }
  split; [apply gate_signs_in|split; [|split]].
  - cbn [follow]. by rewrite Hshown by (by left).
  - intros surface Hs. pose proof gate_paths as Hall. rewrite Forall_forall in Hall. specialize (Hall surface Hs).
    destruct (resolve surface) as [[path query]|]; [|exfalso; revert Hall; apply (bool_decide_unpack _); by vm_compute].
    exists (mkLocation path query). split; [done|]. by apply Hshown.
  - vm_compute. reflexivity.
Qed.
