(* ===== verification/Cbor.v ===== *)
(** * The evidence ledger's canonical encoding: ledger/{cbor,hash,errors}.go and ledger/verify/src/{cbor,hash}.rs

    An event is turned into bytes by deterministic CBOR and its identifier is the
    BLAKE3 of those bytes.  The Go encoder and its independent Rust
    reimplementation are two sets of definitions here.  A Go [any] is a value of
    [any], with one constructor for each case of the encoder's type switch; a
    map is the list of its entries in the order one [range] happens to take.  An
    integer is a [Z] wrapped where the code converts it; a Go or Rust string is
    the bytes of a [string]. *)

From S2P Require Import Prelude JsNum Json Text Merkle Kernel.
Open Scope Z_scope.

(** ** Errors (errors.go, and the [fmt.Errorf] of cbor.go) *)

Inductive go_error :=
| errEmptyLeafSet
| errLeafIndexOutOfRange
| errRedacted
| errUnknownEvidenceID
| errUnsupportedType (type_name : string)
| Panic.

(** A Go result pair whose error is nil exactly when there is a value; [Panic]
    is no error value but the end of the program, by an index out of range. *)
Definition result : Type → Type := sum go_error.
Definition or_panic {A} (o : option A) : result A := match o with Some a => inr a | None => inl Panic end.

#[export] Instance result_ret : MRet result := fun A a => inr a.
#[export] Instance result_bind : MBind result :=
  fun A B k r => match r with inr a => k a | inl e => inl e end.
#[export] Instance go_error_eq_dec : EqDecision go_error.
Proof. solve_decision. Defined.

(** ** Go values and machine integers *)

Inductive any :=
| A_nil
| A_bool (b : bool)
| A_int (n : Z)
| A_int64 (n : Z)
| A_uint64 (n : Z)
| A_string (s : string)
| A_bytes (b : bytes)
| A_slice (items : list any)
| A_map (entries : list (string * any))
| A_other (type_name : string).

Definition uint8 (z : Z) : Z := z mod 2 ^ 8.
Definition uint64 (z : Z) : Z := z mod 2 ^ 64.
Definition int64 (z : Z) : Z := (z + 2 ^ 63) mod 2 ^ 64 - 2 ^ 63.
Definition len {A} (l : list A) : Z := Z.of_nat (length l).

(** ** The Go encoder (cbor.go) *)

(** The shortest head for an argument. *)
Definition encodeHead (buf : bytes) (major n : Z) : bytes :=
  let m := uint8 (Z.shiftl major 5) in
  if n <? 24 then buf ++ [Z.lor m (uint8 n)]
  else if n <=? 255 then buf ++ [Z.lor m 24; uint8 n]
  else if n <=? 65535 then (buf ++ [Z.lor m 25]) ++ be 2 n
  else if n <=? 4294967295 then (buf ++ [Z.lor m 26]) ++ be 4 n
  else (buf ++ [Z.lor m 27]) ++ be 8 n.

Definition encodeInt (buf : bytes) (n : Z) : bytes :=
  if 0 <=? n then encodeHead buf 0 (uint64 n)
  else encodeHead buf 1 (uint64 (int64 (- int64 (n + 1)))).

Definition encodeBytesLike (buf : bytes) (major : Z) (b : bytes) : bytes :=
  encodeHead buf major (uint64 (len b)) ++ b.

(** The loop over the common length, then the shorter one. *)
Fixpoint bytesLess (a b : bytes) : bool :=
  match a, b with
  | x :: a', y :: b' => if decide (x = y) then bytesLess a' b' else x <? y
  | _, _ => len a <? len b
  end.

(** [sort.Slice] with [bytesLess] on the encoded keys; the order in which it leaves
    equal keys does not matter, since a map has none. *)
Definition entry_leb {A} (a b : bytes * A) : bool := negb (bytesLess b.1 a.1).

(** An entry holds its encoded key and its value; the value is given by what
    encoding it appends. *)
Definition encodeMap (buf : bytes) (entries : list (bytes * (bytes → result bytes))) : result bytes :=
  let entries := sort_by entry_leb entries in
  foldl (fun r e => buf ← r; e.2 (buf ++ e.1)) (inr (encodeHead buf 5 (uint64 (len entries)))) entries.

Fixpoint encodeValue (buf : bytes) (v : any) : result bytes :=
  match v with
  | A_nil => inr (buf ++ [246])
  | A_bool true => inr (buf ++ [245])
  | A_bool false => inr (buf ++ [244])
  | A_int t => inr (encodeInt buf (int64 t))
  | A_int64 t => inr (encodeInt buf t)
  | A_uint64 t => inr (encodeHead buf 0 t)
  | A_string t => inr (encodeBytesLike buf 3 (bytes_of t))
  | A_bytes t => inr (encodeBytesLike buf 2 t)
  | A_slice t =>
      foldl (fun r item => buf ← r; encodeValue buf item) (inr (encodeHead buf 4 (uint64 (len t)))) t
  | A_map t =>
      encodeMap buf (map (fun e =>
        (encodeBytesLike [] 3 (bytes_of e.1), fun buf => encodeValue buf e.2)) t)
  | A_other type_name => inl (errUnsupportedType type_name)
  end.

Definition EncodeCanonical (v : any) : result bytes := encodeValue [] v.

(** ** The Rust encoder (ledger/verify/src/cbor.rs) *)

Inductive Value :=
| Null
| Bool (b : bool)
| Int (n : Z)
| UInt (n : Z)
| Text (s : string)
| Bytes (b : bytes)
| Array (items : list Value)
| Map (entries : list (string * Value)).

Definition encode_head (buf : bytes) (major n : Z) : bytes :=
  let m := uint8 (Z.shiftl major 5) in
  if n <? 24 then buf ++ [Z.lor m (uint8 n)]
  else if n <=? 255 then (buf ++ [Z.lor m 24]) ++ [uint8 n]
  else if n <=? 65535 then (buf ++ [Z.lor m 25]) ++ be 2 n
  else if n <=? 4294967295 then (buf ++ [Z.lor m 26]) ++ be 4 n
  else (buf ++ [Z.lor m 27]) ++ be 8 n.

(** The negative argument is computed in 128 bits. *)
Definition encode_int (buf : bytes) (n : Z) : bytes :=
  if 0 <=? n then encode_head buf 0 (uint64 n) else encode_head buf 1 (uint64 (- n - 1)).

Definition encode_bytes_like (buf : bytes) (major : Z) (b : bytes) : bytes :=
  encode_head buf major (uint64 (len b)) ++ b.

(** [sort_by(|a, b| a.0.cmp(&b.0))], which is stable; [cmp] on [Vec<u8>] is lexicographic. *)
Definition encoded_leb {A} (a b : bytes * A) : bool := bytes_leb a.1 b.1.

Definition encode_map (buf : bytes) (entries : list (bytes * (bytes → bytes))) : bytes :=
  let encoded := sort_by encoded_leb entries in
  foldl (fun buf e => e.2 (buf ++ e.1)) (encode_head buf 5 (uint64 (len encoded))) encoded.

Fixpoint encode_value (buf : bytes) (v : Value) : bytes :=
  match v with
  | Null => buf ++ [246]
  | Bool true => buf ++ [245]
  | Bool false => buf ++ [244]
  | Int n => encode_int buf n
  | UInt n => encode_head buf 0 n
  | Text s => encode_bytes_like buf 3 (bytes_of s)
  | Bytes b => encode_bytes_like buf 2 b
  | Array items => foldl encode_value (encode_head buf 4 (uint64 (len items))) items
  | Map entries =>
      encode_map buf (map (fun e =>
        (encode_bytes_like [] 3 (bytes_of e.1), fun buf => encode_value buf e.2)) entries)
  end.

Definition encode_canonical (v : Value) : bytes := encode_value [] v.

(** ** Identifiers (hash.go, hash.rs) *)

Section ids.
Context (blake3 : bytes → bytes).

Definition HashEvidence (canonical : bytes) : bytes := blake3 canonical.

Definition NewEvidenceID (v : any) : result (bytes * bytes) :=
  canonical ← EncodeCanonical v; inr (HashEvidence canonical, canonical).

Definition hash_evidence (canonical : bytes) : bytes := blake3 canonical.

Definition new_evidence_id (v : Value) : bytes * bytes :=
  let canonical := encode_canonical v in (hash_evidence canonical, canonical).

End ids.

(** [hex.EncodeToString] and the table of hash.rs. *)
Definition HEX_CHARS : string := "0123456789abcdef".
Definition hex_char (n : Z) : Ascii.ascii := default Ascii.zero (String.get (Z.to_nat n) HEX_CHARS).

Fixpoint to_hex (b : bytes) : string :=
  match b with
  | [] => EmptyString
  | x :: b' => String (hex_char (Z.shiftr x 4)) (String (hex_char (Z.land x 15)) (to_hex b'))
  end.

(** [EvidenceID.String] and [evidence_id_string]. *)
Definition EvidenceID_String (id : bytes) : string := "blake3:" +:+ to_hex id.

Definition hex_val (c : Z) : option Z :=
  if (48 <=? c) && (c <=? 57) then Some (c - 48)
  else if (97 <=? c) && (c <=? 102) then Some (c - 97 + 10)
  else if (65 <=? c) && (c <=? 70) then Some (c - 65 + 10)
  else None.

(** [from_hex]: [None] is the [Err] of an odd length or of a character that is no digit. *)
Fixpoint from_hex_pairs (b : bytes) : option bytes :=
  match b with
  | h :: l :: b' =>
      hi ← hex_val h; lo ← hex_val l; out ← from_hex_pairs b';
      Some (Z.lor (uint8 (Z.shiftl hi 4)) lo :: out)
  | _ => Some []
  end.
Definition from_hex (s : string) : option bytes :=
  if len (bytes_of s) mod 2 =? 0 then from_hex_pairs (bytes_of s) else None.

(** ** Vectors of cbor_test.go and cbor.rs *)

Example known_vectors :
  Forall (fun c => EncodeCanonical c.1 = inr c.2)
    [(A_int64 0, [0]); (A_int64 23, [23]); (A_int64 24, [24; 24]); (A_int64 255, [24; 255]);
     (A_int64 256, [25; 1; 0]); (A_int64 (-1), [32]); (A_int64 (-24), [55]); (A_int64 (-25), [56; 24]);
     (A_string "", [96]); (A_string "a", [97; 97]); (A_slice [], [128]);
     (A_slice [A_int64 1; A_int64 2; A_int64 3], [131; 1; 2; 3]); (A_map [], [160]);
     (A_bool true, [245]); (A_bool false, [244]); (A_nil, [246]); (A_bytes [222; 173], [66; 222; 173]);
     (A_map [("b", A_int64 2); ("a", A_int64 1)], [162; 97; 97; 1; 97; 98; 2]);
     (A_map [("a0", A_int64 2); ("b", A_int64 1)], [162; 97; 98; 1; 98; 97; 48; 2]);
     (A_int64 (- 2 ^ 63), [59; 127; 255; 255; 255; 255; 255; 255; 255])].
Proof. repeat constructor. Qed.

Example floats_rejected : EncodeCanonical (A_slice [A_nil; A_other "float64"]) = inl (errUnsupportedType "float64").
Proof. reflexivity. Qed.

Example rust_key_order :
  encode_canonical (Map [("a0", Int 2); ("b", Int 1)]) = [162; 97; 98; 1; 98; 97; 48; 2].
Proof. reflexivity. Qed.

Example hex_example : to_hex [0; 1; 222; 173; 255] = "0001deadff" ∧ from_hex "0001DEADff" = Some [0; 1; 222; 173; 255].
Proof. split; reflexivity. Qed.

(** ** What an event is

    Two Go values are the same event when they have the same content: a number
    is the same in any of its integer types, and a map is the same in any order
    of its entries. *)

Definition number (v : any) : option Z :=
  match v with A_int n | A_int64 n | A_uint64 n => Some n | _ => None end.

Definition same_entry (same : any → any → Prop) (p q : string * any) : Prop :=
  p.1 = q.1 ∧ same p.2 q.2.

Inductive same_event : any → any → Prop :=
| same_nil : same_event A_nil A_nil
| same_bool b : same_event (A_bool b) (A_bool b)
| same_number v w n : number v = Some n → number w = Some n → same_event v w
| same_string s : same_event (A_string s) (A_string s)
| same_bytes b : same_event (A_bytes b) (A_bytes b)
| same_slice l k : Forall2 same_event l k → same_event (A_slice l) (A_slice k)
| same_map m n m' n' :
    m' ≡ₚ m → n' ≡ₚ n → Forall2 (same_entry same_event) m' n' → same_event (A_map m) (A_map n).

(** Values the encoder supports, of sizes a machine can hold: what a Go program
    can build from the types the encoder lists. *)
Definition sized {A} (l : list A) : Prop := len l < 2 ^ 63.

Fixpoint any_ok (v : any) : Prop :=
  match v with
  | A_nil | A_bool _ => True
  | A_int n | A_int64 n => is_i64 n
  | A_uint64 n => 0 <= n < 2 ^ 64
  | A_string s => sized (bytes_of s)
  | A_bytes b => sized b
  | A_slice l => sized l ∧ foldr (fun v P => any_ok v ∧ P) True l
  | A_map m =>
      sized m ∧ NoDup m.*1 ∧ foldr (fun '(k, v) P => (sized (bytes_of k) ∧ any_ok v) ∧ P) True m
  | A_other _ => False
  end.

(** Induction that reaches into slices and maps. *)
Section any_induction.
Context (P : any → Prop).
Context (H_leaf : ∀ v, match v with A_slice _ | A_map _ => False | _ => True end → P v).
Context (H_slice : ∀ l, Forall P l → P (A_slice l)).
Context (H_map : ∀ m, Forall (fun e => P e.2) m → P (A_map m)).

Fixpoint any_deep_ind (v : any) : P v :=
  match v with
  | A_slice l => H_slice l ((fix go l : Forall P l :=
      match l with [] => Forall_nil_2 P | x :: l' => Forall_cons_2 P x l' (any_deep_ind x) (go l') end) l)
  | A_map m => H_map m ((fix go m : Forall (fun e => P e.2) m :=
      match m with
      | [] => Forall_nil_2 _
      | (k, x) :: m' => Forall_cons_2 (fun e => P e.2) (k, x) m' (any_deep_ind x) (go m')
      end) m)
  | v => H_leaf v I
  end.
End any_induction.

Lemma slice_ok l : any_ok (A_slice l) ↔ sized l ∧ Forall any_ok l.
Proof.
  cbn [any_ok]. enough (foldr (fun v P => any_ok v ∧ P) True l ↔ Forall any_ok l) by tauto.
  induction l as [|v l IH]; [by split|]. rewrite Forall_cons. cbn [foldr]. tauto.
Qed.

Lemma map_ok m :
  any_ok (A_map m) ↔ sized m ∧ NoDup m.*1 ∧ Forall (fun e => sized (bytes_of e.1) ∧ any_ok e.2) m.
Proof.
  cbn [any_ok].
  enough (foldr (fun '(k, v) P => (sized (bytes_of k) ∧ any_ok v) ∧ P) True m ↔
          Forall (fun e => sized (bytes_of e.1) ∧ any_ok e.2) m) by tauto.
  induction m as [|[k v] m IH]; [by split|]. rewrite Forall_cons. cbn [foldr fst snd]. tauto.
Qed.

(** The same, computed. *)
Definition sizedb {A} (l : list A) : bool := len l <? 2 ^ 63.

Fixpoint any_okb (v : any) : bool :=
  match v with
  | A_nil | A_bool _ => true
  | A_int n | A_int64 n => fits_i64 n
  | A_uint64 n => (0 <=? n) && (n <? 2 ^ 64)
  | A_string s => sizedb (bytes_of s)
  | A_bytes b => sizedb b
  | A_slice l => sizedb l && forallb any_okb l
  | A_map m => sizedb m && bool_decide (NoDup m.*1) && forallb (fun e => sizedb (bytes_of e.1) && any_okb e.2) m
  | A_other _ => false
  end.

Lemma any_okb_ok v : any_okb v = true → any_ok v.
Proof.
  assert (∀ n, fits_i64 n = true → is_i64 n) as Hi.
  { intros n. unfold fits_i64, is_i64. lia. }
  induction v as [v Hleaf|l IH|m IH] using any_deep_ind; intros Hok.
  - destruct v; try done; cbn in *; first [by apply Hi|by apply Z.ltb_lt in Hok|lia].
  - cbn in Hok. apply andb_true_iff in Hok as [Hs Hok]. apply Z.ltb_lt in Hs. apply slice_ok. split; [done|].
    rewrite forallb_forall in Hok. rewrite Forall_forall in IH |- *. intros a Ha. apply IH; [done|].
    by apply Hok, list_elem_of_In.
  - cbn in Hok. rewrite !andb_true_iff in Hok. destruct Hok as [[Hs Hnd] Hok].
    apply Z.ltb_lt in Hs. apply bool_decide_eq_true in Hnd. apply map_ok. split; [done|]. split; [done|].
    rewrite forallb_forall in Hok. rewrite Forall_forall in IH |- *. intros e He.
    apply list_elem_of_In in He as He'. specialize (Hok e He').
    apply andb_true_iff in Hok as [Hz%Z.ltb_lt Hv]. split; [done|]. by apply IH.
Qed.

(** ** Heads *)

(** The low five bits of the first byte and how many bytes follow it. *)
Definition head_info (n : Z) : Z :=
  if n <? 24 then n else if n <=? 255 then 24 else if n <=? 65535 then 25 else if n <=? 4294967295 then 26 else 27.
Definition head_extra (n : Z) : nat :=
  if n <? 24 then 0%nat else if n <=? 255 then 1%nat else if n <=? 65535 then 2%nat
  else if n <=? 4294967295 then 4%nat else 8%nat.

Lemma lor_major M a : 0 <= M < 8 → 0 <= a < 32 → Z.lor (uint8 (Z.shiftl M 5)) a = 32 * M + a.
Proof.
  intros HM Ha.
  assert (forallb (fun M => forallb (fun a => Z.lor (uint8 (Z.shiftl M 5)) a =? 32 * M + a) (seqZ 0 32)) (seqZ 0 8) = true)
    as H by (vm_compute; reflexivity).
  rewrite forallb_forall in H. specialize (H M). rewrite <- list_elem_of_In, elem_of_seqZ, forallb_forall in H.
  specialize (H HM a). rewrite <- list_elem_of_In, elem_of_seqZ, Z.eqb_eq in H. auto.
Qed.

Lemma encodeHead_eq buf M n :
  0 <= M < 8 → 0 <= n → encodeHead buf M n = buf ++ (32 * M + head_info n) :: be (head_extra n) n.
Proof.
  intros HM Hn. unfold encodeHead, head_info, head_extra.
  destruct (Z.ltb_spec n 24); [|destruct (Z.leb_spec n 255); [|destruct (Z.leb_spec n 65535); [|destruct (Z.leb_spec n 4294967295)]]].
  - unfold uint8 at 2. rewrite Z.mod_small, lor_major by lia. done.
  - rewrite lor_major by lia. cbn [be]. change (256 ^ Z.of_nat 0) with 1. by rewrite Z.div_1_r.
  - by rewrite <- app_assoc, lor_major by lia.
  - by rewrite <- app_assoc, lor_major by lia.
  - by rewrite <- app_assoc, lor_major by lia.
Qed.

Lemma encodeHead_app buf M n : encodeHead buf M n = buf ++ encodeHead [] M n.
Proof. unfold encodeHead. repeat case_match; by rewrite ?app_nil_l, <- ?app_assoc. Qed.

Lemma head_info_range n : 0 <= n → 0 <= head_info n <= 27.
Proof.
  unfold head_info. intros.
  destruct (Z.ltb_spec n 24), (Z.leb_spec n 255), (Z.leb_spec n 65535), (Z.leb_spec n 4294967295); lia.
Qed.

(** The head is the shortest that holds the argument. *)
Lemma head_fits n : 0 <= n < 2 ^ 64 → (24 <= n → n < 256 ^ Z.of_nat (head_extra n)) ∧
  (∀ e, e ∈ [1; 2; 4; 8]%nat → (24 <= n < 256 ^ Z.of_nat e) → (head_extra n <= e)%nat).
Proof.
  change (2 ^ 64) with 18446744073709551616. unfold head_extra. intros Hn. split.
  - intros. destruct (Z.ltb_spec n 24), (Z.leb_spec n 255), (Z.leb_spec n 65535), (Z.leb_spec n 4294967295);
      simpl; change (Z.pow_pos 256 8) with 18446744073709551616; lia.
  - intros e He [_ Hlt]. rewrite !elem_of_cons in He.
    destruct (Z.ltb_spec n 24), (Z.leb_spec n 255), (Z.leb_spec n 65535), (Z.leb_spec n 4294967295);
      destruct He as [->|[->|[->|[->|[]%not_elem_of_nil]]]]; simpl in Hlt; lia.
Qed.

(** A head and an argument that fits it can be read back. *)
Lemma head_prefix M N n m k k' :
  0 <= M < 8 → 0 <= N < 8 → 0 <= n < 2 ^ 64 → 0 <= m < 2 ^ 64 →
  encodeHead [] M n ++ k = encodeHead [] N m ++ k' → M = N ∧ n = m ∧ k = k'.
Proof.
  intros HM HN Hn Hm. rewrite !encodeHead_eq, !app_nil_l by lia. cbn [app]. intros Heq.
  injection Heq as Hb Hr. pose proof (head_info_range n ltac:(lia)). pose proof (head_info_range m ltac:(lia)).
  assert (M = N) as -> by lia. assert (head_info n = head_info m) as Hi by lia. split; [done|].
  assert (head_extra n = head_extra m ∧ (n < 24 ∨ m < 24 → n = m)) as [He Hs].
  { revert Hi. unfold head_info, head_extra.
    destruct (Z.ltb_spec n 24), (Z.leb_spec n 255), (Z.leb_spec n 65535), (Z.leb_spec n 4294967295),
      (Z.ltb_spec m 24), (Z.leb_spec m 255), (Z.leb_spec m 65535), (Z.leb_spec m 4294967295); intros; lia. }
  rewrite He in Hr. apply be_prefix in Hr as [Hmod ->]. split; [|done].
  destruct (Z.lt_ge_cases n 24); [auto|]. destruct (Z.lt_ge_cases m 24); [auto|].
  destruct (head_fits n Hn) as [Hfn _], (head_fits m Hm) as [Hfm _]. rewrite He in Hfn.
  rewrite !Z.mod_small in Hmod by auto with lia. done.
Qed.

(** ** The encoder without its buffer *)

Definition result_map {A B} (f : A → B) (r : result A) : result B := a ← r; inr (f a).

(** The bytes of an event; of no use where [EncodeCanonical] fails. *)
Definition canonical (v : any) : bytes := match EncodeCanonical v with inr b => b | inl _ => [] end.

Definition entry_key (e : string * any) : bytes := encodeBytesLike [] 3 (bytes_of e.1).
Definition entry_bytes (e : string * any) : bytes := entry_key e ++ canonical e.2.
Definition key_leb (a b : string * any) : bool := negb (bytesLess (entry_key b) (entry_key a)).

Lemma insert_by_map {A B} (f : A → B) (leb : B → B → bool) x l :
  insert_by leb (f x) (map f l) = map f (insert_by (fun a b => leb (f a) (f b)) x l).
Proof. induction l as [|y l IH]; simpl; [done|]. destruct (leb (f x) (f y)); simpl; [done|by rewrite IH]. Qed.

Lemma sort_by_map {A B} (f : A → B) (leb : B → B → bool) l :
  sort_by leb (map f l) = map f (sort_by (fun a b => leb (f a) (f b)) l).
Proof. unfold sort_by. induction l as [|x l IH]; [done|]. cbn [map foldr]. by rewrite IH, insert_by_map. Qed.

(** A loop whose steps all succeed appends what each appends. *)
Lemma append_loop {A} (step : bytes → A → result bytes) (out : A → bytes) l buf :
  (∀ a buf, a ∈ l → step buf a = inr (buf ++ out a)) →
  foldl (fun r a => buf ← r; step buf a) (inr buf : result bytes) l = inr (buf ++ mjoin (out <$> l)).
Proof.
  revert buf. induction l as [|a l IH]; intros buf H; [cbn; by rewrite app_nil_r|].
  cbn [foldl mbind result_bind]. rewrite H by left. rewrite IH by (intros; apply H; by right).
  by rewrite fmap_cons, mjoin_cons, <- app_assoc.
Qed.

Lemma append_loop_stuck {A} (step : bytes → A → result bytes) l e :
  foldl (fun r a => buf ← r; step buf a) (inl e : result bytes) l = inl e.
Proof. induction l; [done|assumption]. Qed.

Lemma encodeBytesLike_app buf M b : encodeBytesLike buf M b = buf ++ encodeBytesLike [] M b.
Proof. unfold encodeBytesLike. by rewrite encodeHead_app, <- app_assoc. Qed.

Lemma encodeInt_app buf n : encodeInt buf n = buf ++ encodeInt [] n.
Proof. unfold encodeInt. case_match; apply encodeHead_app. Qed.

Definition enc_ok (v : any) : Prop := ∀ buf, encodeValue buf v = inr (buf ++ canonical v).

Lemma enc_ok_intro v out : (∀ buf, encodeValue buf v = inr (buf ++ out)) → enc_ok v ∧ canonical v = out.
Proof.
  intros H. assert (canonical v = out) as E by (unfold canonical, EncodeCanonical; by rewrite (H [])).
  split; [|done]. intros buf. by rewrite H, E.
Qed.

Lemma slice_bytes l : Forall enc_ok l →
  enc_ok (A_slice l) ∧ canonical (A_slice l) = encodeHead [] 4 (uint64 (len l)) ++ mjoin (canonical <$> l).
Proof.
  rewrite Forall_forall. intros H. apply enc_ok_intro. intros buf. cbn [encodeValue].
  rewrite (append_loop encodeValue canonical) by (intros a b Ha; by apply H).
  by rewrite encodeHead_app, <- app_assoc.
Qed.

Lemma map_bytes m : Forall (fun e => enc_ok e.2) m →
  enc_ok (A_map m) ∧
  canonical (A_map m) = encodeHead [] 5 (uint64 (len m)) ++ mjoin (entry_bytes <$> sort_by key_leb m).
Proof.
  rewrite Forall_forall. intros H. apply enc_ok_intro. intros buf. cbn [encodeValue]. unfold encodeMap.
  set (f := fun e : string * any => (encodeBytesLike [] 3 (bytes_of e.1), fun buf => encodeValue buf e.2)).
  rewrite (sort_by_map f entry_leb).
  change (fun a b => entry_leb (f a) (f b)) with key_leb.
  unfold len at 1. rewrite length_map, length_sort_by. change (map f) with (fmap (M := list) f). rewrite foldl_fmap.
  rewrite (append_loop (fun b e => (f e).2 (b ++ (f e).1)) entry_bytes).
  - by rewrite encodeHead_app, <- app_assoc.
  - intros e b Hin%elem_of_sort_by. cbn [f fst snd]. rewrite (H e Hin). unfold entry_bytes, entry_key.
    by rewrite <- app_assoc.
Qed.

(** Every supported event is encoded. *)
Lemma ok_encodes v : any_ok v → enc_ok v.
Proof.
  induction v as [v Hleaf|l IH|m IH] using any_deep_ind; intros Hok.
  - destruct v; try done; try (eapply enc_ok_intro; intros buf; cbn [encodeValue]; first
      [reflexivity|apply f_equal, encodeInt_app|apply f_equal, encodeHead_app|apply f_equal, encodeBytesLike_app]).
    destruct b; eapply enc_ok_intro; reflexivity.
  - apply slice_ok in Hok as [_ Hok]. apply slice_bytes.
    rewrite Forall_forall in IH, Hok |- *. auto.
  - apply map_ok in Hok as (_ & _ & Hok). apply map_bytes.
    rewrite Forall_forall in IH, Hok |- *. intros e He. apply IH; [done|]. by apply Hok.
Qed.

Lemma canonical_slice l : any_ok (A_slice l) →
  canonical (A_slice l) = encodeHead [] 4 (len l) ++ mjoin (canonical <$> l).
Proof.
  intros [Hs Hok]%slice_ok. destruct (slice_bytes l) as [_ ->].
  - eapply Forall_impl; [exact Hok|]. apply ok_encodes.
  - unfold uint64. rewrite Z.mod_small; [done|]. unfold sized, len in *. lia.
Qed.

Lemma canonical_map m : any_ok (A_map m) →
  canonical (A_map m) = encodeHead [] 5 (len m) ++ mjoin (entry_bytes <$> sort_by key_leb m).
Proof.
  intros (Hs & _ & Hok)%map_ok. destruct (map_bytes m) as [_ ->].
  - eapply Forall_impl; [exact Hok|]. intros e [_ He]. by apply ok_encodes.
  - unfold uint64. rewrite Z.mod_small; [done|]. unfold sized, len in *. lia.
Qed.

Lemma uint64_id n : 0 <= n < 2 ^ 64 → uint64 n = n.
Proof. intros. by apply Z.mod_small. Qed.

Lemma int64_id n : is_i64 n → int64 n = n.
Proof. unfold is_i64, int64. intros. rewrite Z.mod_small by lia. lia. Qed.

(** The negation of [n + 1] stays in range, at the least [int64] too. *)
Lemma encodeInt_eq n : is_i64 n →
  encodeInt [] n = if 0 <=? n then encodeHead [] 0 n else encodeHead [] 1 (- n - 1).
Proof.
  unfold is_i64, encodeInt. intros Hn. destruct (Z.leb_spec 0 n); [by rewrite uint64_id by lia|].
  rewrite (int64_id (n + 1)), int64_id, uint64_id by (unfold is_i64; lia). f_equal. lia.
Qed.

(** An integer, in whichever of its types, is its sign and its magnitude. *)
Lemma canonical_number v n : any_ok v → number v = Some n →
  canonical v = (if 0 <=? n then encodeHead [] 0 n else encodeHead [] 1 (- n - 1)) ∧ - 2 ^ 63 <= n < 2 ^ 64.
Proof.
  intros Hok Hn. destruct v as [| |i|i|i| | | | |]; try done; cbn in Hn; injection Hn as ->;
    cbn [any_ok] in Hok; (split; [|unfold is_i64 in Hok; lia]); unfold canonical, EncodeCanonical; cbn [encodeValue].
  - rewrite int64_id by done. by apply encodeInt_eq.
  - by apply encodeInt_eq.
  - by rewrite (proj2 (Z.leb_le 0 n)) by lia.
Qed.

(** ** The order of the keys *)

Lemma bytesLess_leb a b : negb (bytesLess b a) = bytes_leb a b.
Proof.
  revert b. induction a as [|x a IH]; intros [|y b]; cbn [bytesLess bytes_leb]; try done.
  - destruct (decide (y = x)) as [->|Hne]; [rewrite Z.ltb_irrefl; apply IH|].
    destruct (Z.ltb_spec x y), (Z.ltb_spec y x); try done; lia.
Qed.

Lemma key_leb_eq a b : key_leb a b = bytes_leb (entry_key a) (entry_key b).
Proof. apply bytesLess_leb. Qed.

Lemma key_leb_total a b : key_leb a b = true ∨ key_leb b a = true.
Proof. rewrite !key_leb_eq. apply bytes_leb_total. Qed.

Lemma key_leb_trans a b c : key_leb a b = true → key_leb b c = true → key_leb a c = true.
Proof. rewrite !key_leb_eq. apply bytes_leb_trans. Qed.

Lemma bytes_of_inj s t : bytes_of s = bytes_of t → s = t.
Proof. intros H. by rewrite <- (text_of_bytes_of s), H, text_of_bytes_of. Qed.

Lemma encodeBytesLike_prefix M a b k k' : 0 <= M < 8 → sized a → sized b →
  encodeBytesLike [] M a ++ k = encodeBytesLike [] M b ++ k' → a = b ∧ k = k'.
Proof.
  unfold sized. intros HM Ha Hb. unfold encodeBytesLike, uint64, len in *. rewrite <- !app_assoc, !Z.mod_small by lia.
  intros (_ & Hl & Heq)%head_prefix; [|lia..]. by apply app_inj_1 in Heq; [|lia].
Qed.

(** ** The encoding identifies the event *)

(** Every encoding is a head and what follows it. *)
Inductive shape : any → Z → Z → bytes → Prop :=
| shape_nil : shape A_nil 7 22 []
| shape_bool b : shape (A_bool b) 7 (if b : bool then 21 else 20) []
| shape_positive v n : number v = Some n → 0 <= n → shape v 0 n []
| shape_negative v n : number v = Some n → n < 0 → shape v 1 (- n - 1) []
| shape_string s : shape (A_string s) 3 (len (bytes_of s)) (bytes_of s)
| shape_bytes b : shape (A_bytes b) 2 (len b) b
| shape_slice l : shape (A_slice l) 4 (len l) (mjoin (canonical <$> l))
| shape_map m : shape (A_map m) 5 (len m) (mjoin (entry_bytes <$> sort_by key_leb m)).

Lemma canonical_shape v : any_ok v → ∃ M n body,
  canonical v = encodeHead [] M n ++ body ∧ 0 <= M < 8 ∧ 0 <= n < 2 ^ 64 ∧ shape v M n body.
Proof.
  intros Hok.
  assert (∀ n, number v = Some n → ∃ M n body,
    canonical v = encodeHead [] M n ++ body ∧ 0 <= M < 8 ∧ 0 <= n < 2 ^ 64 ∧ shape v M n body) as Hnum.
  { intros n Hn. destruct (canonical_number v n Hok Hn) as [-> Hr]. destruct (Z.leb_spec 0 n).
    - exists 0, n, []. rewrite app_nil_r. repeat split; try lia. by constructor.
    - exists 1, (- n - 1), []. rewrite app_nil_r. repeat split; try lia. by constructor. }
  destruct v as [|b|n|n|n|s|b|l|m|t]; [| |by apply (Hnum n)..| | | | |done].
  - exists 7, 22, []. repeat split; try lia. constructor.
  - exists 7, (if b then 21 else 20), []. destruct b; repeat split; try lia; constructor.
  - exists 3, (len (bytes_of s)), (bytes_of s). cbn in Hok. unfold sized in Hok.
    repeat split; try (unfold len in *; lia); [|constructor].
    unfold canonical, EncodeCanonical. cbn [encodeValue]. unfold encodeBytesLike. rewrite uint64_id; [done|unfold len in *; lia].
  - exists 2, (len b), b. cbn in Hok. unfold sized in Hok. repeat split; try (unfold len in *; lia); [|constructor].
    unfold canonical, EncodeCanonical. cbn [encodeValue]. unfold encodeBytesLike. rewrite uint64_id; [done|unfold len in *; lia].
  - exists 4, (len l), (mjoin (canonical <$> l)). rewrite canonical_slice by done.
    apply slice_ok in Hok as [Hs _]. unfold sized, len in *. repeat split; try lia. constructor.
  - exists 5, (len m), (mjoin (entry_bytes <$> sort_by key_leb m)). rewrite canonical_map by done.
    apply map_ok in Hok as [Hs _]. unfold sized, len in *. repeat split; try lia. constructor.
Qed.

(** Items that can each be read back can be read back one after the other. *)
Lemma items_prefix {A} (write : A → bytes) (R : A → A → Prop) l l' k k' :
  length l = length l' →
  (∀ a b k k', a ∈ l → b ∈ l' → write a ++ k = write b ++ k' → R a b ∧ k = k') →
  mjoin (write <$> l) ++ k = mjoin (write <$> l') ++ k' → Forall2 R l l' ∧ k = k'.
Proof.
  revert l'. induction l as [|a l IH]; intros [|b l'] Hl Hw Heq; try done.
  rewrite !fmap_cons, !mjoin_cons, <- !app_assoc in Heq.
  apply Hw in Heq as [Hab Heq]; [|by left..].
  apply IH in Heq as [Hf ->]; [by split; [constructor|]|by injection Hl|].
  intros x y ? ? Hx Hy. apply Hw; by right.
Qed.

Definition reads_back (v : any) : Prop := ∀ w k k',
  any_ok v → any_ok w → canonical v ++ k = canonical w ++ k' → same_event v w ∧ k = k'.

Lemma slice_reads_back l l' k k' : Forall reads_back l → any_ok (A_slice l) → any_ok (A_slice l') →
  len l = len l' → mjoin (canonical <$> l) ++ k = mjoin (canonical <$> l') ++ k' →
  same_event (A_slice l) (A_slice l') ∧ k = k'.
Proof.
  intros IH [_ Hl]%slice_ok [_ Hl']%slice_ok Hlen Heq. rewrite Forall_forall in IH, Hl, Hl'.
  apply (items_prefix _ same_event) in Heq as [Hf ->]; [by split; [constructor|]|unfold len in *; lia|].
  intros a b j j' Ha Hb. apply IH; auto.
Qed.

Lemma entry_prefix e f k k' : reads_back e.2 → sized (bytes_of e.1) → any_ok e.2 → sized (bytes_of f.1) → any_ok f.2 →
  entry_bytes e ++ k = entry_bytes f ++ k' → same_entry same_event e f ∧ k = k'.
Proof.
  intros IH He Hoe Hf Hof. unfold entry_bytes, entry_key. rewrite <- !app_assoc.
  intros [Hk Heq]%encodeBytesLike_prefix; [|lia|done..]. apply IH in Heq as [Hv ->]; [|done..].
  split; [|done]. split; [by apply bytes_of_inj|done].
Qed.

Lemma map_reads_back m m' k k' : Forall (fun e => reads_back e.2) m → any_ok (A_map m) → any_ok (A_map m') →
  len m = len m' →
  mjoin (entry_bytes <$> sort_by key_leb m) ++ k = mjoin (entry_bytes <$> sort_by key_leb m') ++ k' →
  same_event (A_map m) (A_map m') ∧ k = k'.
Proof.
  intros IH (_ & _ & Hm)%map_ok (_ & _ & Hm')%map_ok Hlen Heq. rewrite Forall_forall in IH, Hm, Hm'.
  apply (items_prefix _ (same_entry same_event)) in Heq as [Hf ->].
  - split; [|done]. eapply same_map; [| |exact Hf]; apply sort_by_perm.
  - rewrite !length_sort_by. unfold len in *. lia.
  - intros a b j j' Ha%elem_of_sort_by Hb%elem_of_sort_by.
    destruct (Hm a Ha), (Hm' b Hb). apply entry_prefix; auto.
Qed.

Lemma canonical_prefix v : reads_back v.
Proof.
  induction v as [v Hleaf|l IH|m IH] using any_deep_ind; intros w k k' Hv Hw Heq;
    destruct (canonical_shape _ Hv) as (M & n & body & Ev & HM & Hn & Hs);
    destruct (canonical_shape _ Hw) as (N & n' & body' & Ew & HN & Hn' & Hs');
    rewrite Ev, Ew, <- !app_assoc in Heq; destruct (head_prefix _ _ _ _ _ _ HM HN Hn Hn' Heq) as (<- & <- & Heq');
    clear Ev Ew Heq; inversion Hs; subst; try done; inversion Hs'; subst; try done.
  all: try (split; [|done]; by econstructor).
  - by destruct b.
  - by destruct b.
  - split; [|done]. destruct b, b0; try done; constructor.
  - split; [|done]. eapply same_number; [eassumption|]. rewrite H2. f_equal. lia.
  - apply app_inj_1 in Heq' as [->%bytes_of_inj ->]; [by split; [constructor|]|unfold len in *; lia].
  - apply app_inj_1 in Heq' as [-> ->]; [by split; [constructor|]|unfold len in *; lia].
  - by apply slice_reads_back.
  - by apply map_reads_back.
Qed.

(** Sorting related lists by an order that respects the relation. *)
Lemma sort_by_Forall2 {A} (R : A → A → Prop) (leb : A → A → bool) l k :
  (∀ a b a' b', R a b → R a' b' → leb a a' = leb b b') →
  Forall2 R l k → Forall2 R (sort_by leb l) (sort_by leb k).
Proof.
  intros HR. induction 1 as [|a b l k Hab Hlk IH]; [constructor|]. cbn [sort_by foldr].
  fold (sort_by leb l) (sort_by leb k). revert IH. generalize (sort_by leb l) (sort_by leb k).
  clear Hlk l k. induction 1 as [|x y l k Hxy Hlk IH]; cbn [insert_by]; [by repeat constructor|].
  rewrite (HR a b x y) by done. destruct (leb b y); repeat constructor; done.
Qed.

Lemma sort_entries_perm m m' : NoDup m.*1 → Forall (fun e => sized (bytes_of e.1)) m → m' ≡ₚ m →
  sort_by key_leb m' = sort_by key_leb m.
Proof.
  intros Hnd Hs Hp. symmetry in Hp. symmetry.
  apply sort_by_perm_eq; [apply key_leb_total|apply key_leb_trans| |done].
  intros x y Hx Hy. rewrite !key_leb_eq. intros H1 H2. rewrite Forall_forall in Hs.
  apply (NoDup_fmap_eq fst m); [done..|]. apply bytes_of_inj.
  pose proof (bytes_leb_antisym _ _ H1 H2) as Heq. unfold entry_key in Heq.
  apply (encodeBytesLike_prefix 3 _ _ [] []); [lia|auto..|]. by rewrite Heq.
Qed.

Lemma Forall2_mjoin {A} (write : A → bytes) l k : Forall2 (fun a b => write a = write b) l k →
  mjoin (write <$> l) = mjoin (write <$> k).
Proof. induction 1 as [|a b l k Hab _ IH]; [done|]. by rewrite !fmap_cons, !mjoin_cons, Hab, IH. Qed.

Lemma canonical_same v w : any_ok v → any_ok w → same_event v w → canonical v = canonical w.
Proof.
  revert w. induction v as [v Hleaf|l IH|m IH] using any_deep_ind; intros w Hv Hw Hs.
  - inversion Hs; subst; try done.
    destruct (canonical_number v n) as [-> _]; [done..|]. by destruct (canonical_number w n) as [-> _].
  - inversion Hs as [| |? ? ? Hn| | |? k Hf|]; subst; [done|]. rewrite !canonical_slice by done.
    rewrite (Forall2_mjoin canonical l k); [unfold len; by rewrite (Forall2_length _ _ _ Hf)|].
    apply slice_ok in Hv as [_ Hv]. apply slice_ok in Hw as [_ Hw]. clear Hs.
    induction Hf as [|a b l k Hab Hf IHf]; [constructor|].
    inversion IH; inversion Hv; inversion Hw; subst. constructor; auto.
  - inversion Hs as [| |? ? ? Hn| | | |? n m' n' Hm' Hn' Hf]; subst; [done|].
    rewrite !canonical_map by done.
    apply map_ok in Hv as (_ & Hnd & Hv). apply map_ok in Hw as (_ & Hnd' & Hw).
    rewrite <- (sort_entries_perm m m'), <- (sort_entries_perm n n')
      by (first [done|eapply Forall_impl; [eassumption|]; by intros ? []]).
    rewrite (Forall2_mjoin entry_bytes (sort_by key_leb m') (sort_by key_leb n')).
    { unfold len. by rewrite <- (Permutation_length Hm'), <- (Permutation_length Hn'), (Forall2_length _ _ _ Hf). }
    assert (Forall (fun e => (∀ w, any_ok e.2 → any_ok w → same_event e.2 w → canonical e.2 = canonical w) ∧ any_ok e.2) m')
      as IH'.
    { rewrite Hm'. rewrite Forall_forall in IH, Hv |- *. intros e He. split; [by apply IH|by apply Hv]. }
    assert (Forall (fun e => any_ok e.2) n') as Hw'.
    { rewrite Hn'. eapply Forall_impl; [exact Hw|]. by intros ? []. }
    eapply Forall2_impl; [apply (sort_by_Forall2 (fun p q => p.1 = q.1 ∧ entry_bytes p = entry_bytes q))|].
    + intros a b a' b' [Ha _] [Ha' _]. rewrite !key_leb_eq. unfold entry_key. by rewrite Ha, Ha'.
    + clear Hs Hm' Hn'. induction Hf as [|a b l k [Hk Hab] Hf IHf]; [constructor|].
      inversion IH' as [|? ? [Hi Ho]]; inversion Hw'; subst. constructor; [|auto]. split; [done|].
      unfold entry_bytes, entry_key. rewrite Hk. f_equal. auto.
    + by intros ? ? [].
Qed.

(** ** Errors *)

(** The types inside a value that the encoder has no case for. *)
Fixpoint others (v : any) : list string :=
  match v with
  | A_other t => [t]
  | A_slice l => mjoin (map others l)
  | A_map m => mjoin (map (fun e => others e.2) m)
  | _ => []
  end.

Definition reports (l : list string) {A} (r : result A) : Prop :=
  match r with inr _ => l = [] | inl e => ∃ t, e = errUnsupportedType t ∧ t ∈ l end.

Lemma reports_loop {A} (step : bytes → A → result bytes) (oth : A → list string) l buf :
  (∀ a buf, a ∈ l → reports (oth a) (step buf a)) →
  reports (mjoin (oth <$> l)) (foldl (fun r a => buf ← r; step buf a) (inr buf : result bytes) l).
Proof.
  revert buf. induction l as [|a l IH]; intros buf H; [done|]. cbn [foldl mbind result_bind].
  rewrite fmap_cons, mjoin_cons. pose proof (H a buf ltac:(by left)) as Ha.
  destruct (step buf a) as [e|b]; cbn [reports] in Ha.
  - rewrite append_loop_stuck. destruct Ha as (t & -> & Ht). exists t. split; [done|]. set_solver.
  - rewrite Ha. apply IH. intros x c Hx. apply H. by right.
Qed.

Lemma reports_equiv (l k : list string) {A} (r : result A) : (∀ t, t ∈ l ↔ t ∈ k) → reports l r → reports k r.
Proof.
  intros Hlk. destruct r as [e|a]; cbn.
  - intros (t & -> & Ht). exists t. split; [done|]. by apply Hlk.
  - intros ->. apply elem_of_nil_inv. intros t. rewrite <- Hlk. apply not_elem_of_nil.
Qed.

Lemma encodeValue_reports v buf : reports (others v) (encodeValue buf v).
Proof.
  revert buf. induction v as [v Hleaf|l IH|m IH] using any_deep_ind; intros buf.
  - destruct v as [|b|n|n|n|s|b|l|m|t]; try done; [by destruct b|]. exists t. split; [done|by left].
  - apply (reports_loop encodeValue others). rewrite Forall_forall in IH. intros a b Ha. by apply IH.
  - cbn [encodeValue]. unfold encodeMap.
    set (f := fun e : string * any => (encodeBytesLike [] 3 (bytes_of e.1), fun buf => encodeValue buf e.2)).
    rewrite (sort_by_map f entry_leb). change (fun a b => entry_leb (f a) (f b)) with key_leb.
    change (map f) with (fmap (M := list) f). rewrite foldl_fmap.
    apply (reports_equiv (mjoin ((fun e => others e.2) <$> sort_by key_leb m))).
    + intros t. cbn [others]. change (map (λ e : string * any, others e.2) m) with ((λ e : string * any, others e.2) <$> m).
      by rewrite (sort_by_perm key_leb m).
    + apply (reports_loop (fun b e => (f e).2 (b ++ (f e).1))). rewrite Forall_forall in IH.
      intros e b Ha%elem_of_sort_by. by apply IH.
Qed.

(** ** The Rust encoder *)

Fixpoint to_any (v : Value) : any :=
  match v with
  | Null => A_nil
  | Bool b => A_bool b
  | Int n => A_int64 n
  | UInt n => A_uint64 n
  | Text s => A_string s
  | Bytes b => A_bytes b
  | Array items => A_slice (map to_any items)
  | Map entries => A_map (map (fun e => (e.1, to_any e.2)) entries)
  end.

Section Value_induction.
Context (P : Value → Prop).
Context (H_leaf : ∀ v, match v with Array _ | Map _ => False | _ => True end → P v).
Context (H_array : ∀ l, Forall P l → P (Array l)).
Context (H_map : ∀ m, Forall (fun e => P e.2) m → P (Map m)).

Fixpoint Value_deep_ind (v : Value) : P v :=
  match v with
  | Array l => H_array l ((fix go l : Forall P l :=
      match l with [] => Forall_nil_2 P | x :: l' => Forall_cons_2 P x l' (Value_deep_ind x) (go l') end) l)
  | Map m => H_map m ((fix go m : Forall (fun e => P e.2) m :=
      match m with
      | [] => Forall_nil_2 _
      | (k, x) :: m' => Forall_cons_2 (fun e => P e.2) (k, x) m' (Value_deep_ind x) (go m')
      end) m)
  | v => H_leaf v I
  end.
End Value_induction.

Lemma encode_head_go buf M n : encode_head buf M n = encodeHead buf M n.
Proof. unfold encode_head, encodeHead. repeat case_match; by rewrite <- ?app_assoc. Qed.

Lemma encode_int_go buf n : is_i64 n → encode_int buf n = encodeInt buf n.
Proof.
  intros Hn. rewrite encodeInt_app, (encodeInt_eq n Hn). unfold encode_int, is_i64 in *.
  destruct (Z.leb_spec 0 n); rewrite encode_head_go, encodeHead_app, uint64_id by lia; done.
Qed.

Lemma encode_bytes_like_go buf M b : encode_bytes_like buf M b = encodeBytesLike buf M b.
Proof. unfold encode_bytes_like. by rewrite encode_head_go. Qed.

Lemma encode_loop {A} (step : bytes → A → bytes) (out : A → bytes) l buf :
  (∀ a buf, a ∈ l → step buf a = buf ++ out a) → foldl step buf l = buf ++ mjoin (out <$> l).
Proof.
  revert buf. induction l as [|a l IH]; intros buf H; [cbn; by rewrite app_nil_r|]. cbn [foldl].
  rewrite H by left. rewrite IH by (intros; apply H; by right). by rewrite fmap_cons, mjoin_cons, <- app_assoc.
Qed.

Lemma sort_by_ext {A} (f g : A → A → bool) l : (∀ a b, f a b = g a b) → sort_by f l = sort_by g l.
Proof.
  intros H. induction l as [|x l IH]; [done|]. cbn [sort_by foldr]. fold (sort_by f l) (sort_by g l). rewrite IH.
  generalize (sort_by g l) as k. induction k as [|y k IHk]; [done|]. cbn [insert_by]. rewrite H, IHk. done.
Qed.

Lemma encode_value_go v buf : any_ok (to_any v) → encode_value buf v = buf ++ canonical (to_any v).
Proof.
  revert buf. induction v as [v Hleaf|l IH|m IH] using Value_deep_ind; intros buf Hok.
  - assert (∀ b, encodeValue buf (to_any v) = inr b → b = buf ++ canonical (to_any v)) as H.
    { intros b Hb. rewrite (ok_encodes _ Hok) in Hb. by injection Hb. }
    destruct v; try done; try (apply H; cbn [to_any encodeValue encode_value];
      by rewrite ?encode_bytes_like_go, ?encode_head_go, ?encode_int_go by exact Hok).
    destruct b; by apply H.
  - cbn [to_any] in *. rewrite canonical_slice by done. apply slice_ok in Hok as [Hs Hok]. cbn [encode_value].
    rewrite encode_head_go, encodeHead_app. unfold sized, len in *. rewrite length_map in *. rewrite uint64_id by lia.
    rewrite (encode_loop encode_value (fun v => canonical (to_any v))).
    + rewrite <- app_assoc. do 2 f_equal. f_equal. by rewrite <- list_fmap_compose.
    + rewrite Forall_forall in IH. rewrite Forall_forall in Hok. intros a b Ha. apply IH; [done|].
      apply Hok. by apply (list_elem_of_fmap_2 to_any).
  - cbn [to_any] in *. rewrite canonical_map by done. apply map_ok in Hok as (Hs & _ & Hok). cbn [encode_value].
    set (g := fun e : string * Value => (e.1, to_any e.2)) in *. rewrite (sort_by_map g key_leb).
    unfold encode_map.
    set (f := fun e : string * Value => (encode_bytes_like [] 3 (bytes_of e.1), fun buf => encode_value buf e.2)).
    rewrite (sort_by_map f encoded_leb).
    rewrite (sort_by_ext (fun a b => encoded_leb (f a) (f b)) (fun a b => key_leb (g a) (g b))).
    2:{ intros a b. rewrite key_leb_eq. unfold encoded_leb, entry_key. cbn [f g fst]. by rewrite !encode_bytes_like_go. }
    unfold sized, len in *. rewrite !length_map in *. rewrite length_sort_by, encode_head_go, encodeHead_app, uint64_id by lia.
    change (map f) with (fmap (M := list) f). rewrite foldl_fmap.
    rewrite (encode_loop _ (fun e => entry_bytes (g e))).
    + rewrite <- app_assoc. do 2 f_equal. f_equal. by rewrite <- list_fmap_compose.
    + rewrite Forall_forall in IH. rewrite Forall_forall in Hok. intros e b Ha%elem_of_sort_by. cbn [f fst snd].
      rewrite IH; [|done|apply (Hok (g e)); by apply (list_elem_of_fmap_2 g)].
      unfold entry_bytes, entry_key. cbn [g fst snd]. by rewrite encode_bytes_like_go, <- app_assoc.
Qed.

(** ** Properties *)

(** C17: every event of supported types has an identifier, and, as long as the
    hash separates the two encodings, two identifiers are equal exactly when the
    events are the same: whatever integer types their numbers have and in
    whatever order Go ranges over their maps. *)
Theorem evidence_id_identifies (blake3 : bytes → bytes) v w :
  any_ok v → any_ok w → ∃ id c id' c',
    NewEvidenceID blake3 v = inr (id, c) ∧ NewEvidenceID blake3 w = inr (id', c') ∧
    (c = c' ↔ same_event v w) ∧ ((blake3 c = blake3 c' → c = c') → (id = id' ↔ same_event v w)).
Proof.
  intros Hv Hw. exists (blake3 (canonical v)), (canonical v), (blake3 (canonical w)), (canonical w).
  unfold NewEvidenceID, EncodeCanonical. rewrite !ok_encodes by done.
  assert (canonical v = canonical w ↔ same_event v w) as H.
  { split; [|by apply canonical_same]. intros Heq. by apply (canonical_prefix v w [] []); rewrite ?Heq. }
  split; [done|]. split; [done|]. split; [exact H|]. intros Hnc. rewrite <- H. split; [exact Hnc|by intros ->].
Qed.

Definition login_event : any := A_map [("user", A_string "jdoe"); ("ok", A_bool false); ("n", A_int 43)].
Definition login_event_reordered : any := A_map [("n", A_uint64 43); ("user", A_string "jdoe"); ("ok", A_bool false)].

Lemma login_events_ok : any_ok login_event ∧ any_ok login_event_reordered.
Proof. split; apply any_okb_ok; vm_compute; reflexivity. Qed.

Lemma evidence_id_identifies_witness :
  same_event login_event login_event_reordered ∧ ¬ same_event login_event (A_map []) ∧
  toy_hash (canonical login_event) ≠ toy_hash (canonical (A_map [])).
Proof.
  assert (any_ok (A_map [])) as H0 by (apply any_okb_ok; vm_compute; reflexivity).
  assert (toy_hash (canonical login_event) ≠ toy_hash (canonical (A_map []))) as Hne by (vm_compute; discriminate).
  split; [|split; [|exact Hne]].
  - destruct (evidence_id_identifies toy_hash login_event login_event_reordered) as (id & c & id' & c' & E & E' & H & _);
      [apply login_events_ok..|].
    apply H. assert (NewEvidenceID toy_hash login_event = NewEvidenceID toy_hash login_event_reordered) as Heq
      by (vm_compute; reflexivity).
    rewrite E, E' in Heq. by injection Heq.
  - destruct (evidence_id_identifies toy_hash login_event (A_map [])) as (id & c & id' & c' & E & E' & H & _);
      [apply login_events_ok|exact H0|].
    intros Hs. apply H in Hs. subst c'. apply Hne.
    assert (snd <$> Some (id, c) = snd <$> Some (id', c)) by done.
    assert (NewEvidenceID toy_hash login_event = inr (toy_hash (canonical login_event), canonical login_event)) as F
      by (vm_compute; reflexivity).
    assert (NewEvidenceID toy_hash (A_map []) = inr (toy_hash (canonical (A_map [])), canonical (A_map []))) as F'
      by (vm_compute; reflexivity).
    rewrite E in F. rewrite E' in F'. injection F as _ <-. injection F' as _ <-. done.
Defined.

(** C18: the Rust verifier's encoder, written independently, computes the same
    bytes, and so the same identifier, as the ledger's on every value of both. *)
Theorem rust_go_agree (blake3 : bytes → bytes) v :
  any_ok (to_any v) → NewEvidenceID blake3 (to_any v) = inr (new_evidence_id blake3 v).
Proof.
  intros Hok. unfold NewEvidenceID, EncodeCanonical, new_evidence_id, encode_canonical.
  by rewrite (ok_encodes _ Hok), (encode_value_go v [] Hok).
Qed.

Lemma rust_go_agree_witness :
  NewEvidenceID toy_hash (A_map [("a0", A_int64 (- 2 ^ 63)); ("b", A_slice [A_uint64 (2 ^ 64 - 1)])]) =
  inr (new_evidence_id toy_hash (Map [("a0", Int (- 2 ^ 63)); ("b", Array [UInt (2 ^ 64 - 1)])])).
Proof.
  apply (rust_go_agree toy_hash (Map [("a0", Int (- 2 ^ 63)); ("b", Array [UInt (2 ^ 64 - 1)])])), any_okb_ok.
  vm_compute. reflexivity.
Defined.

(** The encoder fails exactly on the values that hold something of a type it
    does not list, at any depth, and then names such a type; it never drops or
    coerces it. *)
Theorem encoder_errors v :
  match EncodeCanonical v with
  | inr _ => others v = []
  | inl e => ∃ t, e = errUnsupportedType t ∧ t ∈ others v
  end.
Proof. exact (encodeValue_reports v []). Qed.

(** The displayed identifier is the bytes: what [to_hex] writes, [from_hex] reads. *)
Lemma from_to_hex b : Forall is_byte b → from_hex (to_hex b) = Some b.
Proof.
  intros Hb. unfold from_hex.
  assert (len (bytes_of (to_hex b)) mod 2 = 0) as ->.
  { unfold len. induction Hb as [|x b Hx Hb IH]; [done|]. cbn [to_hex bytes_of length].
    rewrite !Nat2Z.inj_succ. dlia. }
  cbn [Z.eqb]. induction Hb as [|x b Hx Hb IH]; [done|]. cbn [to_hex bytes_of from_hex_pairs]. rewrite IH.
  assert (forallb (fun x => match hex_val (code (hex_char (Z.shiftr x 4))), hex_val (code (hex_char (Z.land x 15))) with
    | Some hi, Some lo => Z.lor (uint8 (Z.shiftl hi 4)) lo =? x | _, _ => false end) (seqZ 0 256) = true) as H
    by (vm_compute; reflexivity).
  rewrite forallb_forall in H. specialize (H x). rewrite <- list_elem_of_In, elem_of_seqZ in H. specialize (H Hx).
  destruct (hex_val (code (hex_char (Z.shiftr x 4)))) as [hi|], (hex_val (code (hex_char (Z.land x 15)))) as [lo|]; try done.
  apply Z.eqb_eq in H. cbn [mbind option_bind]. by rewrite H.
Qed.
