(* ===== verification/Vault.v ===== *)
(** * The evidence store: ledger/store.go

    An append-only, content-addressed store whose payloads can be erased.  Its
    rows are a [gmap] from identifiers; each method's critical section is one
    step, so that any interleaving of goroutines is a list of calls ([run]).
    Canonicalising and hashing, which [Put] does before it takes the lock, touch
    no state.  The slice [Get] returns is the store's own array; the model takes
    callers that do not write to it. *)

From S2P Require Import Prelude JsNum Merkle Kernel Cbor.
Open Scope Z_scope.

Record record := mkRecord { payload : option bytes; redacted : bool }.
Notation rows := (gmap bytes record).

Definition NewStore : rows := ∅.

Section store.
Context (blake3 : bytes → bytes).

Definition Put (event : any) (s : rows) : rows * result bytes :=
  match NewEvidenceID blake3 event with
  | inl e => (s, inl e)
  | inr (id, canonical) =>
      (match s !! id with Some _ => s | None => <[id := mkRecord (Some canonical) false]> s end, inr id)
  end.

(** A row that is not redacted returns its payload, which may be nil. *)
Definition Get (id : bytes) (s : rows) : result (option bytes) :=
  match s !! id with
  | None => inl errUnknownEvidenceID
  | Some rec => if redacted rec then inl errRedacted else inr (payload rec)
  end.

Definition Redact (id : bytes) (s : rows) : rows * result unit :=
  match s !! id with
  | None => (s, inl errUnknownEvidenceID)
  | Some rec => (<[id := mkRecord None true]> s, inr tt)
  end.

Definition IsRedacted (id : bytes) (s : rows) : bool :=
  match s !! id with Some rec => redacted rec | None => false end.

Definition Len (s : rows) : Z := Z.of_nat (size s).

(** ** Calls *)

Inductive call := C_put (event : any) | C_redact (id : bytes).

(** The calls that only read leave the rows as they are. *)
Definition perform (s : rows) (c : call) : rows :=
  match c with C_put event => (Put event s).1 | C_redact id => (Redact id s).1 end.

Definition run (calls : list call) : rows := foldl perform NewStore calls.

(** What a call writes: the identifier and the canonical bytes of a supported event. *)
Definition written (c : call) : option (bytes * bytes) :=
  match c with
  | C_put event => match NewEvidenceID blake3 event with inr r => Some r | inl _ => None end
  | C_redact _ => None
  end.

(** The first call that writes an identifier, and the calls after it. *)
Fixpoint first_write (id : bytes) (calls : list call) : option (bytes * list call) :=
  match calls with
  | [] => None
  | c :: rest =>
      match written c with
      | Some (id', canonical) => if decide (id' = id) then Some (canonical, rest) else first_write id rest
      | None => first_write id rest
      end
  end.

Definition erases (id : bytes) (calls : list call) : bool :=
  existsb (fun c => match c with C_redact i => bool_decide (i = id) | C_put _ => false end) calls.

(** What a history should leave at an identifier: nothing before it is written,
    the payload of the first write until a redaction after it, and from then on
    the mark of the redaction. *)
Definition after_write (canonical : bytes) (id : bytes) (rest : list call) : record :=
  if erases id rest then mkRecord None true else mkRecord (Some canonical) false.

Definition history (id : bytes) (calls : list call) : option record :=
  match first_write id calls with
  | Some (canonical, rest) => Some (after_write canonical id rest)
  | None => None
  end.

(** The identifiers a history writes, each once. *)
Definition written_ids (calls : list call) : list bytes := uniq (omap (fun c => fst <$> written c) calls).

(** ** A row through a history *)

Lemma lookup_perform s c id : perform s c !! id =
  match s !! id, c with
  | Some rec, C_redact i => if decide (i = id) then Some (mkRecord None true) else Some rec
  | Some rec, C_put _ => Some rec
  | None, _ => match written c with
               | Some (i, canonical) => if decide (i = id) then Some (mkRecord (Some canonical) false) else None
               | None => None
               end
  end.
Proof.
  destruct c as [event|i]; cbn [perform written].
  - unfold Put. destruct (NewEvidenceID blake3 event) as [e|[i canonical]]; cbn [fst]; [by destruct (s !! id)|].
    destruct (s !! i) as [rec|] eqn:E; cbn [fst].
    + destruct (s !! id) eqn:E'; [done|]. case_decide; [congruence|done].
    + destruct (decide (i = id)) as [->|Hne]; [by rewrite lookup_insert_eq, E|].
      rewrite lookup_insert_ne by done. by destruct (s !! id).
  - unfold Redact. destruct (s !! i) as [rec|] eqn:E; cbn [fst].
    + destruct (decide (i = id)) as [->|Hne]; [by rewrite lookup_insert_eq, E|].
      rewrite lookup_insert_ne by done. by destruct (s !! id).
    + destruct (s !! id) eqn:E'; [|done]. case_decide; [congruence|done].
Qed.

(** Once a row is there only a redaction changes it. *)
Lemma lookup_kept calls s id rec : s !! id = Some rec →
  foldl perform s calls !! id = Some (if erases id calls then mkRecord None true else rec).
Proof.
  revert s rec. induction calls as [|c calls IH]; intros s rec Hs; [done|]. cbn [foldl erases existsb].
  destruct c as [event|i].
  - rewrite (IH _ rec); [done|]. by rewrite lookup_perform, Hs.
  - destruct (decide (i = id)) as [->|Hne].
    + rewrite bool_decide_true, (IH _ (mkRecord None true)) by (done || by rewrite lookup_perform, Hs, decide_True).
      cbn [orb]. by destruct (erases id calls).
    + rewrite bool_decide_false, (IH _ rec) by (done || by rewrite lookup_perform, Hs, decide_False). done.
Qed.

Lemma lookup_run calls s id : s !! id = None → foldl perform s calls !! id = history id calls.
Proof.
  unfold history. revert s. induction calls as [|c calls IH]; intros s Hs; [done|]. cbn [foldl first_write].
  pose proof (lookup_perform s c id) as Hp. rewrite Hs in Hp.
  destruct (written c) as [[i canonical]|]; [|by rewrite IH].
  destruct (decide (i = id)) as [->|Hne]; [|by rewrite IH]. by rewrite (lookup_kept _ _ _ _ Hp).
Qed.

Lemma first_write_written id calls : is_Some (first_write id calls) ↔ id ∈ written_ids calls.
Proof.
  unfold written_ids. rewrite elem_of_uniq. induction calls as [|c calls IH]; cbn [first_write omap list_omap].
  { split; [by intros []|by intros ?%not_elem_of_nil]. }
  destruct (written c) as [[i canonical]|]; cbn [fmap option_fmap option_map fst]; [|exact IH].
  case_decide as H; [split; [intros _; subst; by left|eauto]|]. rewrite IH, elem_of_cons.
  split; [by right|]. intros [->|?]; done.
Qed.

Lemma first_write_id id calls canonical rest :
  first_write id calls = Some (canonical, rest) → blake3 canonical = id.
Proof.
  induction calls as [|c calls IH]; cbn [first_write]; [done|].
  destruct (written c) as [[i b]|] eqn:E; [|exact IH]. case_decide as H; [|exact IH].
  intros [= -> ->]. subst i. destruct c as [event|]; [|done]. cbn [written] in E.
  unfold NewEvidenceID in E. destruct (EncodeCanonical event); [done|]. cbn in E. unfold HashEvidence in E. congruence.
Qed.

Lemma size_run calls : Len (run calls) = Z.of_nat (length (written_ids calls)).
Proof.
  unfold Len. f_equal. rewrite <- size_dom.
  assert (dom (run calls) =@{gset bytes} list_to_set (written_ids calls)) as ->.
  { apply set_eq. intros id. rewrite elem_of_dom, elem_of_list_to_set, <- first_write_written.
    unfold run. rewrite lookup_run by done. unfold history.
    destruct (first_write id calls) as [[]|]; split; intros []; eauto; done. }
  apply size_list_to_set, NoDup_uniq.
Qed.

End store.

(** C22: after any history of calls, in whatever order the goroutines made them,
    an identifier is unknown exactly when no call wrote it; otherwise it answers
    with the bytes of the first write, whose hash it is, until a redaction after
    that write, and from then on reports the erasure for ever, whatever is
    written again; the store's length is the number of identifiers ever written. *)
Theorem store_history (blake3 : bytes → bytes) calls id :
  let s := run blake3 calls in
  match first_write blake3 id calls with
  | None => Get id s = inl errUnknownEvidenceID ∧ IsRedacted id s = false
  | Some (canonical, rest) =>
      blake3 canonical = id ∧ IsRedacted id s = erases id rest ∧
      Get id s = if erases id rest then inl errRedacted else inr (Some canonical)
  end ∧ Len s = len (written_ids blake3 calls).
Proof.
  cbn zeta. split; [|apply size_run]. unfold Get, IsRedacted, run. rewrite lookup_run by done. unfold history.
  destruct (first_write blake3 id calls) as [[canonical rest]|] eqn:E; [|done].
  split; [by eapply first_write_id|]. unfold after_write. by destruct (erases id rest).
Qed.

(** The store after the same event is written, redacted, and written again. *)
Example erased_for_good :
  let id := toy_hash (canonical login_event) in
  let s := run toy_hash [C_redact id; C_put login_event; C_redact id; C_put login_event_reordered] in
  Get id s = inl errRedacted ∧ Len s = 1.
Proof. vm_compute. by split. Qed.
