(* ===== verification/Epoch.v ===== *)
(** * Sealed batches and epochs: ledger/{merkle,epoch}.go and ledger/verify/src/merkle.rs

    Trees over identifiers of 32 bytes, inclusion proofs and their verification,
    and the chain of signed epochs over the batches' roots.  The loops that build
    a tree are those of Merkle ([next_level], [levels_from]); here they are used
    on raw bytes.  Ed25519 is a parameter: a signature function, a verification
    and the public half of a key.  A [Panic] is an index out of range. *)

From S2P Require Import Prelude JsNum Json Text Merkle Kernel Cbor.
Open Scope Z_scope.

Record ProofStep := mkProofStep { Hash : bytes; IsLeft : bool }.
Record GoProof := mkGoProof { LeafIndex : Z; Steps : list ProofStep }.
Record GoTree := mkGoTree { leafCount : Z; levels : list (list bytes) }.

(** The loop of [Prove] over all levels but the last. *)
Fixpoint prove_levels (levels : list (list bytes)) (idx : Z) : result (list ProofStep) :=
  match levels with
  | [] | [_] => inr []
  | nodes :: rest =>
      let isLeft := negb (Z.rem idx 2 =? 0) in
      sib ← or_panic (at_index nodes (if isLeft then idx - 1 else idx + 1));
      steps ← prove_levels rest (Z.quot idx 2);
      inr (mkProofStep sib isLeft :: steps)
  end.

Definition Prove (t : GoTree) (i : Z) : result GoProof :=
  if (i <? 0) || (leafCount t <=? i) then inl errLeafIndexOutOfRange
  else steps ← prove_levels (levels t) i; inr (mkGoProof i steps).

Definition Root (t : GoTree) : result bytes := top ← or_panic (last (levels t)); or_panic (top !! O).

(** The fixed layout that is signed and chained. *)
Definition signedHeader (epochID : Z) (root prev : bytes) : bytes := be 8 epochID ++ root ++ prev.

Definition zero_hash : bytes := repeat 0 32.

(** A Rust [Result], or a panic. *)
Inductive rust_result (A : Type) := Rust_ok (a : A) | Rust_err (e : string) | Rust_panic.
Arguments Rust_ok {A} a.
Arguments Rust_err {A} e.
Arguments Rust_panic {A}.

Section go.
Context (blake3 : bytes → bytes).

Definition BuildMerkleTree (ids : list bytes) : result GoTree :=
  if (length ids =? 0)%nat then inl errEmptyLeafSet
  else
    let n := nextPowerOfTwo (length ids) in
    let level := ((fun id => blake3 (leaf_message id)) <$> ids) ++
      ((fun i => blake3 (go_pad_message i)) <$> seqZ (len ids) (Z.of_nat (n - length ids))) in
    inr (mkGoTree (len ids) (levels_from blake3 n level)).

Definition climb (h : bytes) (step : ProofStep) : bytes :=
  if IsLeft step then internalHash blake3 (Hash step) h else internalHash blake3 h (Hash step).

Definition VerifyInclusion (id : bytes) (proof : GoProof) (root : bytes) : bool :=
  bool_decide (foldl climb (blake3 (leaf_message id)) (Steps proof) = root).

(** ** Batches and epochs (epoch.go) *)

Record BatchSeal := mkBatch { bs_Root : bytes; bs_Tree : GoTree }.

Definition SealBatch (ids : list bytes) : result BatchSeal :=
  tree ← BuildMerkleTree ids; root ← Root tree; inr (mkBatch root tree).

Context {key pub : Type} (Sign : key → bytes → bytes) (Verify : pub → bytes → bytes → bool) (Public : key → pub).

Record EpochSeal := mkEpoch {
  EpochID : Z;
  ep_Root : bytes;
  Prev : bytes;
  PublicKey : pub;
  Signature : bytes;
  Tree : GoTree;
}.

Definition SealEpoch (epochID : Z) (batchRoots : list bytes) (prev : bytes) (signer : key) : result EpochSeal :=
  tree ← BuildMerkleTree batchRoots;
  root ← Root tree;
  let header := signedHeader epochID root prev in
  inr (mkEpoch epochID root prev (Public signer) (Sign signer header) tree).

Definition EpochSeal_Verify (e : EpochSeal) : bool :=
  Verify (PublicKey e) (signedHeader (EpochID e) (ep_Root e) (Prev e)) (Signature e).

(** What [ChainHash] hashes. *)
Definition chain_message (e : EpochSeal) : bytes :=
  signedHeader (EpochID e) (ep_Root e) (Prev e) ++ Signature e.
Definition ChainHash (e : EpochSeal) : bytes := blake3 (chain_message e).

(** ** The Rust verifier's tree (merkle.rs) *)

Definition rust_pad_message (index : Z) : bytes := DOMAIN_PAD :: be 8 index.

(** [level.chunks(2)], reading [pair[0]] and [pair[1]]. *)
Fixpoint chunk_parents (level : list bytes) : option (list bytes) :=
  match level with
  | [] => Some []
  | [_] => None
  | a :: b :: rest => next ← chunk_parents rest; Some (internalHash blake3 a b :: next)
  end.

(** [while level.len() > 1]; the fuel is the number of leaves. *)
Fixpoint rust_levels (fuel : nat) (level : list bytes) : option (list (list bytes)) :=
  match fuel with
  | O => Some [level]
  | S f =>
      if (1 <? length level)%nat
      then next ← chunk_parents level; rest ← rust_levels f next; Some (level :: rest)
      else Some [level]
  end.

Definition rust_build (ids : list bytes) : rust_result GoTree :=
  match ids with
  | [] => Rust_err "cannot seal an empty batch/epoch"
  | _ =>
      let n := nextPowerOfTwo (length ids) in
      let level := ((fun id => blake3 (leaf_message id)) <$> ids) ++
        ((fun i => blake3 (rust_pad_message i)) <$> seqZ (len ids) (Z.of_nat (n - length ids))) in
      match rust_levels n level with
      | Some levels => Rust_ok (mkGoTree (len ids) levels)
      | None => Rust_panic
      end
  end.

(** [prove] on an unsigned index. *)
Definition rust_prove (t : GoTree) (i : nat) : rust_result GoProof :=
  if leafCount t <=? Z.of_nat i then Rust_err "leaf index out of range"
  else match prove_levels (levels t) (Z.of_nat i) with
       | inr steps => Rust_ok (mkGoProof (Z.of_nat i) steps)
       | inl _ => Rust_panic
       end.

End go.

(** ** Trees *)

Section tree_facts.
Context (blake3 : bytes → bytes).
Hypothesis blake3_length : ∀ m, length (blake3 m) = 32%nat.
Hypothesis blake3_bytes : ∀ m, Forall is_byte (blake3 m).

Notation leaves ids := (leaf_messages go_pad_message ids).

Lemma build_tree ids : ids ≠ [] → ∃ d r,
  let level := blake3 <$> leaves ids in
  BuildMerkleTree blake3 ids = inr (mkGoTree (len ids) (levels_from blake3 (nextPowerOfTwo (length ids)) level)) ∧
  Root (mkGoTree (len ids) (levels_from blake3 (nextPowerOfTwo (length ids)) level)) = inr r ∧
  length level = (2 ^ d)%nat ∧ nextPowerOfTwo (length ids) = (2 ^ d)%nat ∧
  (d <= nextPowerOfTwo (length ids))%nat ∧ level_at blake3 d level = [r].
Proof using.
  intros Hne. destruct (build_spec blake3 go_pad_message ids Hne) as (d & r & _ & Hl & Hn & Hd & Hr & Htop).
  exists d, r. cbn zeta. split; [|split; [|done]].
  - unfold BuildMerkleTree. rewrite (proj2 (Nat.eqb_neq _ _)) by (by destruct ids).
    unfold leaf_messages, len. by rewrite fmap_app, <- !list_fmap_compose.
  - unfold Root, top_node in *. cbn [levels]. destruct (last _) as [top|]; cbn in *; [|done].
    destruct (top !! 0%nat); cbn in *; [|done]. by injection Htop as ->.
Qed.

Lemma seal_batch_inv ids b : SealBatch blake3 ids = inr b → ids ≠ [].
Proof using. by destruct ids. Qed.

Lemma seal_batch_root ids b : SealBatch blake3 ids = inr b → ∃ d,
  length (blake3 <$> leaves ids) = (2 ^ d)%nat ∧ nextPowerOfTwo (length ids) = (2 ^ d)%nat ∧
  level_at blake3 d (blake3 <$> leaves ids) = [bs_Root b].
Proof using.
  intros Hb. pose proof (seal_batch_inv _ _ Hb) as Hne.
  destruct (build_tree ids Hne) as (d & r & Ht & Hroot & Hl & Hn & _ & Hr). unfold SealBatch in Hb.
  rewrite Ht in Hb. cbn [mbind result_bind] in Hb. rewrite Hroot in Hb. injection Hb as <-. by exists d.
Qed.

(** A ledger proof, step for step, as the browser would be sent it. *)
Definition hex_step (p : ProofStep) : MerkleProofStep := mkStep (bytesToHex (Hash p)) (IsLeft p).
Definition step_bytes (p : ProofStep) : Prop := Forall is_byte (Hash p).

Lemma climb_step h p : step_bytes p → verify_step blake3 h (hex_step p) = climb blake3 h p.
Proof using. apply verify_step_hex. Qed.

Lemma climb_hex h ps : Forall step_bytes ps → foldl (verify_step blake3) h (hex_step <$> ps) = foldl (climb blake3) h ps.
Proof using.
  intros Hps. revert h. induction Hps as [|p ps Hp Hps IH]; intros h; [done|].
  rewrite fmap_cons. cbn [foldl]. rewrite climb_step by done. apply IH.
Qed.

Lemma prove_levels_hex ls i steps : prove_steps ls (Z.of_nat i) = Ok steps → Forall (Forall (Forall is_byte)) ls →
  ∃ ps, prove_levels ls (Z.of_nat i) = inr ps ∧ steps = hex_step <$> ps ∧ Forall step_bytes ps.
Proof using.
  revert i steps. induction ls as [|nodes rest IH]; intros i steps Hp Hb.
  { exists []. injection Hp as <-. done. }
  destruct rest as [|l ls]; [exists []; injection Hp as <-; done|].
  change (prove_steps (nodes :: l :: ls) (Z.of_nat i)) with
    (sib ← or_throw TypeError (at_index nodes (if negb (Z.rem (Z.of_nat i) 2 =? 0) then Z.of_nat i - 1 else Z.of_nat i + 1));
     steps ← prove_steps (l :: ls) (Z.of_nat i / 2); Ok (mkStep (bytesToHex sib) (negb (Z.rem (Z.of_nat i) 2 =? 0)) :: steps)) in Hp.
  change (prove_levels (nodes :: l :: ls) (Z.of_nat i)) with
    (sib ← or_panic (at_index nodes (if negb (Z.rem (Z.of_nat i) 2 =? 0) then Z.of_nat i - 1 else Z.of_nat i + 1));
     steps ← prove_levels (l :: ls) (Z.quot (Z.of_nat i) 2); inr (mkProofStep sib (negb (Z.rem (Z.of_nat i) 2 =? 0)) :: steps)).
  apply Forall_cons in Hb as [Hn Hb].
  destruct (at_index nodes _) as [sib|] eqn:Hs; [|done]. cbn [or_throw or_panic mbind outcome_bind result_bind] in *.
  rewrite Z.quot_div_nonneg by lia. replace (Z.of_nat i / 2) with (Z.of_nat (i / 2)) in * by (by rewrite Nat2Z.inj_div).
  destruct (prove_steps (l :: ls) (Z.of_nat (i / 2))) as [steps'|] eqn:E; [|done]. injection Hp as <-.
  destruct (IH _ _ E Hb) as (ps & -> & -> & Hps). eexists. split; [reflexivity|]. split; [done|].
  constructor; [|done]. rewrite Forall_forall in Hn. apply Hn. by eapply at_index_elem.
Qed.

Lemma levels_from_bytes fuel cur :
  Forall (Forall is_byte) cur → Forall (Forall (Forall is_byte)) (levels_from blake3 fuel cur).
Proof using blake3_bytes.
  revert cur. induction fuel as [|f IH]; intros cur Hc; cbn [levels_from]; [by repeat constructor|].
  destruct (1 <? length cur)%nat; [|by repeat constructor]. constructor; [done|]. apply IH.
  apply Forall_forall. intros x (a & b & _ & _ & -> & _)%next_level_inv. apply blake3_bytes.
Qed.

(** Every member of a sealed list has a proof that verifies against its root. *)
Lemma go_complete ids i id : ids !! i = Some id → ∃ t r p,
  BuildMerkleTree blake3 ids = inr t ∧ Root t = inr r ∧ Prove t (Z.of_nat i) = inr p ∧
  VerifyInclusion blake3 id p r = true ∧ (2 ^ length (Steps p))%nat = nextPowerOfTwo (length ids).
Proof using blake3_bytes.
  intros Hi. destruct (build_tree ids) as (d & r & Ht & Hroot & Hl & Hn & Hd & Hr); [by intros ->|].
  set (level := blake3 <$> leaves ids) in *.
  assert (level !! i = Some (blake3 (leaf_message id))) as Hleaf.
  { unfold level, leaf_messages. rewrite list_lookup_fmap, lookup_app_l; [by rewrite list_lookup_fmap, Hi|].
    rewrite length_fmap. by eapply lookup_lt_Some. }
  assert (Forall (Forall is_byte) level) as Hbytes by (apply Forall_fmap, Forall_true; intros; apply blake3_bytes).
  destruct (prove_verify blake3 blake3_bytes d (nextPowerOfTwo (length ids)) level i _ Hl Hd Hbytes Hleaf)
    as (steps & r' & Hp & Hr' & Hfold & Hlen).
  assert (r' = r) as -> by (rewrite Hr in Hr'; by injection Hr').
  apply prove_levels_hex in Hp as (ps & Hp & -> & Hps); [|by apply levels_from_bytes].
  rewrite length_fmap in Hlen. eexists _, r, (mkGoProof (Z.of_nat i) ps).
  split; [exact Ht|]. split; [exact Hroot|]. split; [|split; [|cbn [Steps]; by rewrite Hlen, Hn]].
  - unfold Prove. cbn [leafCount levels]. pose proof (lookup_lt_Some _ _ _ Hi).
    rewrite (proj2 (Z.ltb_ge _ 0)), (proj2 (Z.leb_gt _ _)) by (unfold len; lia). cbn [orb].
    rewrite Hp. reflexivity.
  - apply bool_decide_eq_true. cbn [Steps]. by rewrite <- climb_hex.
Qed.

(** ** Soundness *)

Fixpoint climb_messages (h : bytes) (steps : list ProofStep) : list bytes :=
  match steps with
  | [] => []
  | s :: rest =>
      (if IsLeft s then internal_message (Hash s) h else internal_message h (Hash s)) :: climb_messages (climb blake3 h s) rest
  end.

(** The messages a verification and a tree hash. *)
Definition inclusion_messages (id : bytes) (proof : GoProof) : list bytes :=
  leaf_message id :: climb_messages (blake3 (leaf_message id)) (Steps proof).
Definition ledger_messages (ids : list bytes) : list bytes := tree_messages blake3 go_pad_message ids.

Lemma climb_messages_hex h ps : Forall step_bytes ps → fold_messages blake3 h (hex_step <$> ps) = climb_messages h ps.
Proof using.
  intros Hps. revert h. induction Hps as [|p ps Hp Hps IH]; intros h; [done|]. rewrite fmap_cons. cbn [fold_messages climb_messages].
  rewrite climb_step, IH by done. f_equal. unfold step_message, hex_step. cbn [step_hash step_isLeft].
  by rewrite hexToBytes_bytesToHex.
Qed.

Lemma in_ledger_leaves ids m : leaf_message m ∈ leaves ids → m ∈ ids.
Proof using.
  unfold leaf_messages. intros [Hm|Hm]%elem_of_app; apply list_elem_of_fmap in Hm as (x & Hx & Hin); [|done].
  by injection Hx as ->.
Qed.

(** What a verification against a sealed root, by the ledger or by the browser,
    starts from is a leaf of the tree. *)
Lemma start_in_tree ids b (m : bytes) steps : SealBatch blake3 ids = inr b →
  no_collision blake3 (leaf_message m :: fold_messages blake3 (blake3 (leaf_message m)) steps) (ledger_messages ids) →
  foldl (verify_step blake3) (blake3 (leaf_message m)) steps = bs_Root b → m ∈ ids.
Proof using blake3_length.
  intros Hb Hnc Hfold. pose proof (seal_batch_inv _ _ Hb) as Hne.
  destruct (seal_batch_root ids b Hb) as (d & Hl & Hn & Hr). apply in_ledger_leaves.
  apply (fold_from_leaf blake3 blake3_length _ steps _ d d (bs_Root b)); [|done|done| |rewrite Hr; by left|exact Hfold].
  - intros x. by apply leaf_messages_not_internal.
  - unfold ledger_messages, tree_messages in Hnc. rewrite (log2_leaf_messages _ _ d) in Hnc; [exact Hnc| |done]. by destruct ids.
Qed.

Lemma go_sound ids b id p : SealBatch blake3 ids = inr b → Forall step_bytes (Steps p) →
  no_collision blake3 (inclusion_messages id p) (ledger_messages ids) →
  VerifyInclusion blake3 id p (bs_Root b) = true → id ∈ ids.
Proof using blake3_length.
  intros Hb Hps Hnc Hv. apply (start_in_tree ids b id (hex_step <$> Steps p) Hb).
  - by rewrite climb_messages_hex.
  - rewrite climb_hex by done. by apply bool_decide_eq_true in Hv.
Qed.

End tree_facts.

(** ** The chain *)

(** Each epoch's [Prev] is the chain hash of the one before. *)
Fixpoint linked {pub} (blake3 : bytes → bytes) (prev : bytes) (es : list (EpochSeal (pub := pub))) : Prop :=
  match es with
  | [] => True
  | e :: es' => Prev e = prev ∧ linked blake3 (ChainHash blake3 e) es'
  end.

(** The hash the next epoch must name. *)
Definition chain_end {pub} (blake3 : bytes → bytes) (prev : bytes) (es : list (EpochSeal (pub := pub))) : bytes :=
  match last es with Some e => ChainHash blake3 e | None => prev end.

(** What the hash of an epoch commits: everything that is signed, and the signature. *)
Definition committed {pub} (e : EpochSeal (pub := pub)) : Z * bytes * bytes * bytes :=
  (EpochID e, ep_Root e, Prev e, Signature e).

Record epoch_sized {pub} (e : EpochSeal (pub := pub)) : Prop := {
  es_id : 0 <= EpochID e < 2 ^ 64;
  es_root : length (ep_Root e) = 32%nat;
  es_prev : length (Prev e) = 32%nat;
}.

Lemma signedHeader_inj n r p n' r' p' k k' :
  0 <= n < 2 ^ 64 → 0 <= n' < 2 ^ 64 → length r = length r' → length p = length p' →
  signedHeader n r p ++ k = signedHeader n' r' p' ++ k' → n = n' ∧ r = r' ∧ p = p' ∧ k = k'.
Proof.
  intros Hn Hn' Hr Hp. unfold signedHeader. rewrite <- !app_assoc. intros [Hid Heq]%be_prefix.
  change (256 ^ Z.of_nat 8) with (2 ^ 64) in Hid. rewrite !Z.mod_small in Hid by done.
  apply app_inj_1 in Heq as [-> Heq]; [|done]. by apply app_inj_1 in Heq as [-> ->].
Qed.

Lemma chain_message_inj {pub} (e e' : EpochSeal (pub := pub)) :
  epoch_sized e → epoch_sized e' → chain_message e = chain_message e' → committed e = committed e'.
Proof.
  intros [] [] Heq. apply signedHeader_inj in Heq as (E1 & E2 & E3 & E4); [|done|done|congruence|congruence].
  unfold committed. congruence.
Qed.

Lemma linked_snoc {pub} blake3 prev es (e : EpochSeal (pub := pub)) :
  linked blake3 prev (es ++ [e]) ↔ linked blake3 prev es ∧ Prev e = chain_end blake3 prev es.
Proof.
  revert prev. induction es as [|x es IH]; intros prev; [cbn; tauto|]. cbn [app linked]. rewrite IH.
  assert (chain_end blake3 (ChainHash blake3 x) es = chain_end blake3 prev (x :: es)) as ->; [|tauto].
  unfold chain_end. rewrite last_cons. by destruct (last es).
Qed.

Section chain.
Context (blake3 : bytes → bytes) {key pub : Type}.
Context (Sign : key → bytes → bytes) (Verify : pub → bytes → bytes → bool) (Public : key → pub).
Notation epoch := (EpochSeal (pub := pub)).
Implicit Types e : epoch.

(** What sealing an epoch gives. *)
Lemma seal_epoch_inv n roots prev k e : SealEpoch blake3 Sign Public n roots prev k = inr e →
  ∃ b, SealBatch blake3 roots = inr b ∧ ep_Root e = bs_Root b ∧ EpochID e = n ∧ Prev e = prev ∧
    PublicKey e = Public k ∧ Signature e = Sign k (signedHeader n (ep_Root e) prev).
Proof.
  unfold SealEpoch, SealBatch. destruct (BuildMerkleTree blake3 roots) as [|t]; [done|]. cbn [mbind result_bind].
  destruct (Root t) as [|r]; [done|]. cbn [mbind result_bind]. intros [= <-]. by eexists.
Qed.

Lemma seal_epoch_total n roots prev k : roots ≠ [] → ∃ e, SealEpoch blake3 Sign Public n roots prev k = inr e.
Proof.
  intros Hne. destruct (build_tree blake3 roots Hne) as (d & r & Ht & Hr & _). unfold SealEpoch. rewrite Ht.
  cbn [mbind result_bind]. rewrite Hr. by eexists.
Qed.

(** A sealed epoch passes its own verification. *)
Lemma sealed_epoch_verifies n roots prev k e : (∀ k m, Verify (Public k) m (Sign k m) = true) →
  SealEpoch blake3 Sign Public n roots prev k = inr e → EpochSeal_Verify Verify e = true.
Proof.
  intros HV (b & _ & _ & Hid & Hp & Hpub & Hs)%seal_epoch_inv. unfold EpochSeal_Verify. by rewrite Hpub, Hs, Hid, Hp.
Qed.

(** The public key is neither signed nor chained. *)
Lemma public_key_free (e : epoch) (p : pub) :
  ChainHash blake3 (mkEpoch (EpochID e) (ep_Root e) (Prev e) p (Signature e) (Tree e)) = ChainHash blake3 e.
Proof. done. Qed.

End chain.

(** The batches and their roots. *)
Definition sealed_batches (blake3 : bytes → bytes) : list (list bytes) → list bytes → Prop :=
  Forall2 (fun ids root => ∃ b, SealBatch blake3 ids = inr b ∧ bs_Root b = root).

(** C19: two proofs, one against a batch's root and one of that root against an
    epoch's, are what an epoch holds: every piece of evidence of its batches has
    them, and, as long as no two of the messages hashed collide, nothing else
    does. *)
Theorem epoch_evidence (blake3 : bytes → bytes) {key pub} (Sign : key → bytes → bytes) (Public : key → pub)
    batches roots n prev k e :
  (∀ m, Forall is_byte (blake3 m)) → (∀ m, length (blake3 m) = 32%nat) →
  sealed_batches blake3 batches roots → SealEpoch blake3 Sign Public n roots prev k = inr e →
  (∀ ids id, ids ∈ batches → id ∈ ids → ∃ root p q,
     VerifyInclusion blake3 id p root = true ∧ VerifyInclusion blake3 root q (ep_Root e) = true) ∧
  (∀ id root p q, Forall step_bytes (Steps p) → Forall step_bytes (Steps q) →
     no_collision blake3 (inclusion_messages blake3 id p ++ inclusion_messages blake3 root q)
       (mjoin (ledger_messages blake3 <$> batches) ++ ledger_messages blake3 roots) →
     VerifyInclusion blake3 id p root = true → VerifyInclusion blake3 root q (ep_Root e) = true →
     ∃ ids, ids ∈ batches ∧ id ∈ ids).
Proof.
  intros Hb Hl Hsealed (B & HB & HBr & _)%seal_epoch_inv. split.
  - intros ids id (j & Hj)%list_elem_of_lookup (i & Hi)%list_elem_of_lookup.
    destruct (Forall2_lookup_l _ _ _ _ _ Hsealed Hj) as (root & Hroot & b & Hsb & <-).
    destruct (go_complete blake3 Hb ids i id Hi) as (t & r & p & Ht & Hr & Hp & Hv & _).
    destruct (go_complete blake3 Hb roots j _ Hroot) as (t' & r' & q & Ht' & Hr' & Hq & Hv' & _).
    exists (bs_Root b), p, q. unfold SealBatch in Hsb, HB.
    rewrite Ht in Hsb. cbn [mbind result_bind] in Hsb. rewrite Hr in Hsb. injection Hsb as <-.
    rewrite Ht' in HB. cbn [mbind result_bind] in HB. rewrite Hr' in HB. injection HB as <-.
    split; [exact Hv|]. by rewrite HBr.
  - intros id root p q Hp Hq Hnc Hv Hv'. rewrite HBr in Hv'.
    apply (go_sound blake3 Hl roots B root q HB Hq) in Hv' as Hin.
    2:{ eapply no_collision_mono; [exact Hnc|intros x; rewrite elem_of_app; tauto..]. }
    apply list_elem_of_lookup in Hin as (j & Hj).
    destruct (Forall2_lookup_r _ _ _ _ _ Hsealed Hj) as (ids & Hids & b & Hsb & Hbr).
    apply list_elem_of_lookup_2 in Hids. exists ids. split; [done|]. subst root.
    apply (go_sound blake3 Hl ids b id p Hsb Hp); [|exact Hv].
    eapply no_collision_mono; [exact Hnc|intros x; rewrite elem_of_app; tauto|].
    intros x Hx. apply elem_of_app. left. apply list_elem_of_join. exists (ledger_messages blake3 ids).
    split; [done|]. by apply (list_elem_of_fmap_2 (ledger_messages blake3)).
Qed.

(** C20: the hash of the last epoch determines the whole chain from the zero hash
    on: two linked chains with one chain hash are the same epochs, ids, roots,
    links and signatures, in the same order and number, as long as no two
    headers collide and none hashes to zero.  An epoch dropped, reordered,
    altered or signed anew changes the hash. *)
Theorem epoch_chain_committed (blake3 : bytes → bytes) {pub} (es fs : list (EpochSeal (pub := pub))) :
  Forall epoch_sized es → Forall epoch_sized fs → linked blake3 zero_hash es → linked blake3 zero_hash fs →
  no_collision blake3 (chain_message <$> es) (chain_message <$> fs) →
  (∀ m, m ∈ (chain_message <$> es) ++ (chain_message <$> fs) → blake3 m ≠ zero_hash) →
  chain_end blake3 zero_hash es = chain_end blake3 zero_hash fs → committed <$> es = committed <$> fs.
Proof.
  revert fs. induction es as [|e es IH] using rev_ind; intros fs Hes Hfs Hl Hlf Hnc Hz Heq.
  - destruct fs as [|f fs _] using rev_ind; [done|]. exfalso. unfold chain_end in Heq. rewrite last_snoc in Heq.
    apply (Hz (chain_message f)); [|done]. rewrite fmap_app. set_solver.
  - destruct fs as [|f fs _] using rev_ind.
    { exfalso. unfold chain_end in Heq. rewrite last_snoc in Heq. apply (Hz (chain_message e)); [|done].
      rewrite fmap_app. set_solver. }
    apply Forall_app in Hes as [Hes [He _]%Forall_cons]. apply Forall_app in Hfs as [Hfs [Hf _]%Forall_cons].
    apply linked_snoc in Hl as [Hl Hpe]. apply linked_snoc in Hlf as [Hlf Hpf]. rewrite !fmap_app in Hnc. rewrite !fmap_app in Hz. rewrite !fmap_app.
    unfold chain_end in Heq. rewrite !last_snoc in Heq.
    assert (chain_message e = chain_message f) as Hm by (apply Hnc; [set_solver|set_solver|exact Heq]).
    apply chain_message_inj in Hm; [|done..]. cbn [fmap list_fmap]. rewrite Hm. f_equal.
    apply IH; [done..| | |].
    + eapply no_collision_mono; [exact Hnc|set_solver..].
    + intros m Hin. apply Hz. set_solver.
    + rewrite <- Hpe, <- Hpf. unfold committed in Hm. congruence.
Qed.

(** ** Two batches, sealed in the second of two epochs *)

Definition toy_sign (k : Z) (m : bytes) : bytes := toy_hash (k :: m).
Definition toy_verify (p : Z) (m s : bytes) : bool := bool_decide (s = toy_hash (p :: m)).
Definition toy_batches : list (list bytes) := [[toy_hash [1]; toy_hash [2]]; [toy_hash [3]]].
Definition toy_roots : list bytes :=
  omap (fun ids => match SealBatch toy_hash ids with inr b => Some (bs_Root b) | inl _ => None end) toy_batches.
Definition toy_epoch (n : Z) (roots : list bytes) (prev : bytes) (k : Z) : EpochSeal (pub := Z) :=
  match SealEpoch toy_hash toy_sign id n roots prev k with
  | inr e => e
  | inl _ => mkEpoch n [] prev k [] (mkGoTree 0 [])
  end.
Definition toy_proof (ids : list bytes) (i : Z) : GoProof :=
  match (t ← BuildMerkleTree toy_hash ids; Prove t i) with inr p => p | inl _ => mkGoProof i [] end.

Lemma epoch_evidence_witness : ∃ ids, ids ∈ toy_batches ∧ toy_hash [2] ∈ ids.
Proof.
  set (e := toy_epoch 1 toy_roots zero_hash 7).
  destruct (epoch_evidence toy_hash toy_sign id toy_batches toy_roots 1 zero_hash 7 e
    toy_hash_bytes toy_hash_length) as [_ Hsound].
  - unfold sealed_batches. repeat constructor; eexists; split; vm_compute; reflexivity.
  - vm_compute. reflexivity.
  - apply (Hsound (toy_hash [2]) (default [] (head toy_roots)) (toy_proof [toy_hash [1]; toy_hash [2]] 1) (toy_proof toy_roots 0)).
    + vm_compute. repeat constructor; intros; discriminate.
    + vm_compute. repeat constructor; intros; discriminate.
    + apply check_no_collision_ok. vm_compute. reflexivity.
    + vm_compute. reflexivity.
    + vm_compute. reflexivity.
Defined.

(** One chain under two keys that nothing in it names. *)
Definition toy_chain (p : Z) : list (EpochSeal (pub := Z)) :=
  let e0 := toy_epoch 0 [toy_hash [0]] zero_hash 7 in
  let e1 := toy_epoch 1 toy_roots (ChainHash toy_hash e0) 7 in
  (fun e => mkEpoch (EpochID e) (ep_Root e) (Prev e) p (Signature e) (Tree e)) <$> [e0; e1].

Lemma toy_chain_sized p : Forall epoch_sized (toy_chain p).
Proof. unfold toy_chain. repeat constructor; vm_compute; try reflexivity; discriminate. Qed.

Lemma epoch_chain_committed_witness : committed <$> toy_chain 7 = committed <$> toy_chain 8.
Proof.
  apply (epoch_chain_committed toy_hash); [apply toy_chain_sized|apply toy_chain_sized| | | | |].
  - split; [reflexivity|]. split; [|exact I]. vm_compute. reflexivity.
  - split; [reflexivity|]. split; [|exact I]. vm_compute. reflexivity.
  - apply check_no_collision_ok. vm_compute. reflexivity.
  - intros m Hm. assert (forallb (fun m => negb (bool_decide (toy_hash m = zero_hash)))
      ((chain_message <$> toy_chain 7) ++ (chain_message <$> toy_chain 8)) = true) as H by (vm_compute; reflexivity).
    rewrite forallb_forall in H. apply list_elem_of_In in Hm. specialize (H m Hm).
    apply negb_true_iff, bool_decide_eq_false in H. exact H.
  - vm_compute. reflexivity.
Defined.

(** ** The browser's verification of a ledger proof *)

Lemma utf8_length_ascii s : Forall (fun b => b < 128) (bytes_of s) → length (utf8 s) = String.length s.
Proof.
  induction s as [|c s IH]; [done|]. cbn [bytes_of]. intros [Hc Hs]%Forall_cons. cbn [utf8 String.length].
  change (Z.of_N (Ascii.N_of_ascii c)) with (code c). rewrite (proj2 (Z.ltb_lt _ _) Hc). cbn [length]. by rewrite IH.
Qed.

Lemma hex_char_ascii n : 0 <= n < 16 → code (hex_char n) < 128.
Proof.
  intros Hn. assert (forallb (fun n => code (hex_char n) <? 128) (seqZ 0 16) = true) as H by (vm_compute; reflexivity).
  rewrite forallb_forall in H. apply Z.ltb_lt, H, list_elem_of_In, elem_of_seqZ. lia.
Qed.

Lemma to_hex_ascii b : Forall is_byte b →
  Forall (fun x => x < 128) (bytes_of (to_hex b)) ∧ String.length (to_hex b) = (2 * length b)%nat.
Proof.
  induction 1 as [|x b Hx Hb [IH1 IH2]]; [done|]. cbn [to_hex bytes_of String.length length]. split; [|lia].
  unfold is_byte in Hx. constructor; [|constructor; [|done]]; apply hex_char_ascii.
  - rewrite Z.shiftr_div_pow2 by lia. change (2 ^ 4) with 16. dlia.
  - change 15 with (Z.ones 4). rewrite Z.land_ones by lia. change (2 ^ 4) with 16. dlia.
Qed.

(** C10: the browser does not repeat the ledger's computation.  Given the text of
    an identifier, displayed or bare, it hashes the characters where the ledger
    hashes the 32 bytes, so that against the root of a sealed batch it rejects
    every proof, the ledger's own included, as long as no two messages collide. *)
Theorem browser_rejects_ledger (blake3 : bytes → bytes) ids b id text proof :
  (∀ m, Forall is_byte (blake3 m)) → (∀ m, length (blake3 m) = 32%nat) →
  SealBatch blake3 ids = inr b → Forall (fun i => length i = 32%nat) ids →
  Forall is_byte id → length id = 32%nat → text = EvidenceID_String id ∨ text = to_hex id →
  pf_root proof = bytesToHex (bs_Root b) →
  no_collision blake3 (verify_messages blake3 text proof) (ledger_messages blake3 ids) →
  verifyInclusion blake3 text proof = false.
Proof.
  intros Hb Hlen Hsb Hids Hid Hl Htext Hroot Hnc. apply not_true_iff_false. intros Hv.
  unfold verifyInclusion in Hv. apply bool_decide_eq_true in Hv. rewrite Hroot in Hv.
  assert (∀ steps m, Forall is_byte (foldl (verify_step blake3) (blake3 m) steps)) as Hfb.
  { intros steps. induction steps as [|s l IH] using rev_ind; intros m; [apply Hb|]. rewrite foldl_app. apply Hb. }
  assert (Forall is_byte (bs_Root b)) as Hrb.
  { destruct (seal_batch_root blake3 ids b Hsb) as ([|d] & _ & _ & Hr);
      assert (bs_Root b ∈ [bs_Root b]) as Hin by (by left); rewrite <- Hr in Hin.
    - apply list_elem_of_fmap in Hin as (m & -> & _). apply Hb.
    - apply level_at_messages in Hin as (x & y & _ & _ & -> & _). apply Hb. }
  apply bytesToHex_inj in Hv; [|apply Hfb|done].
  assert (utf8 text ∈ ids) as Hin by (by apply (start_in_tree blake3 Hlen ids b (utf8 text) (pf_steps proof))).
  rewrite Forall_forall in Hids. apply Hids in Hin. destruct (to_hex_ascii id Hid) as [Ha Hlh].
  assert (Forall (fun x => x < 128) (bytes_of text) ∧ (64 <= String.length text)%nat) as [Hasc Hlt].
  { destruct Htext as [->| ->]; [|split; [done|lia]]. unfold EvidenceID_String. split.
    - rewrite bytes_of_app. apply Forall_app. split; [|done]. vm_compute. repeat constructor.
    - change (String.length ("blake3:" +:+ to_hex id)) with (7 + String.length (to_hex id))%nat. lia. }
  rewrite utf8_length_ascii in Hin by done. lia.
Qed.

Lemma browser_rejects_ledger_witness :
  let proof := toy_proof [toy_hash [1]; toy_hash [2]] 1 in
  VerifyInclusion toy_hash (toy_hash [2]) proof (default [] (head toy_roots)) = true ∧
  verifyInclusion toy_hash (EvidenceID_String (toy_hash [2]))
    (mkProof 1 (hex_step <$> Steps proof) (bytesToHex (default [] (head toy_roots)))) = false.
Proof.
  split; [vm_compute; reflexivity|].
  assert (∃ b, SealBatch toy_hash [toy_hash [1]; toy_hash [2]] = inr b ∧ bs_Root b = default [] (head toy_roots)) as (b & Hb & Hr)
    by (eexists; split; vm_compute; reflexivity).
  apply (browser_rejects_ledger toy_hash [toy_hash [1]; toy_hash [2]] b (toy_hash [2]) _ _ toy_hash_bytes toy_hash_length Hb).
  - repeat constructor; apply toy_hash_length.
  - apply toy_hash_bytes.
  - apply toy_hash_length.
  - by left.
  - by rewrite Hr.
  - apply check_no_collision_ok. vm_compute. reflexivity.
Defined.

(** ** The Rust verifier *)

Lemma rust_pad i : rust_pad_message i = go_pad_message i.
Proof.
  unfold rust_pad_message, go_pad_message. f_equal.
  change (seqZ 0 8) with [0; 1; 2; 3; 4; 5; 6; 7]. cbn [be fmap list_fmap].
  rewrite !Z.shiftr_div_pow2 by lia. reflexivity.
Qed.

Section rust.
Context (blake3 : bytes → bytes).

Lemma chunk_parents_next d cur : length cur = (2 * d)%nat → chunk_parents blake3 cur = Some (next_level blake3 cur).
Proof.
  revert cur. induction d as [|d IH]; intros [|a [|c cur]] Hl; try done; cbn in Hl; try lia.
  cbn [chunk_parents next_level]. rewrite IH by lia. done.
Qed.

Lemma rust_levels_go d fuel cur : length cur = (2 ^ d)%nat → rust_levels blake3 fuel cur = Some (levels_from blake3 fuel cur).
Proof.
  revert d cur. induction fuel as [|f IH]; intros d cur Hl; [done|]. cbn [rust_levels levels_from].
  destruct (Nat.ltb_spec 1 (length cur)); [|done].
  destruct d as [|d]; [cbn in Hl; lia|]. rewrite (chunk_parents_next (2 ^ d)) by exact Hl. cbn [mbind option_bind].
  by rewrite (IH d) by (by apply next_level_pow).
Qed.

(** The verifier builds the ledger's tree, or refuses the same empty list. *)
Lemma rust_build_go ids :
  rust_build blake3 ids = match BuildMerkleTree blake3 ids with
                          | inr t => Rust_ok t
                          | inl _ => Rust_err "cannot seal an empty batch/epoch"
                          end.
Proof.
  destruct (decide (ids = [])) as [->|Hne]; [done|].
  destruct (build_tree blake3 ids Hne) as (d & r & Ht & _ & Hl & Hn & _). rewrite Ht.
  unfold rust_build. destruct ids as [|x ids]; [done|]. set (l := x :: ids) in *.
  assert ((fun i => blake3 (rust_pad_message i)) <$> seqZ (len l) (Z.of_nat (nextPowerOfTwo (length l) - length l)) =
          (fun i => blake3 (go_pad_message i)) <$> seqZ (len l) (Z.of_nat (nextPowerOfTwo (length l) - length l))) as ->.
  { apply list_fmap_ext. intros j i _. by rewrite rust_pad. }
  assert (((fun id => blake3 (leaf_message id)) <$> l) ++
    ((fun i => blake3 (go_pad_message i)) <$> seqZ (len l) (Z.of_nat (nextPowerOfTwo (length l) - length l))) =
    blake3 <$> leaf_messages go_pad_message l) as ->.
  { unfold leaf_messages, len. by rewrite fmap_app, <- !list_fmap_compose. }
  by rewrite (rust_levels_go d).
Qed.

End rust.

(** On every list and every index the independent verifier finds the tree and
    the proof of the ledger, with the same refusals, and neither of them ever
    reads past the end of a level. *)
Theorem rust_ledger_agree (blake3 : bytes → bytes) ids i :
  (∀ m, Forall is_byte (blake3 m)) →
  match rust_build blake3 ids, BuildMerkleTree blake3 ids with
  | Rust_ok t, inr t' => t = t' ∧
      match rust_prove t i, Prove t' (Z.of_nat i) with
      | Rust_ok p, inr p' => p = p' ∧ (i < length ids)%nat
      | Rust_err _, inl e => e = errLeafIndexOutOfRange ∧ (length ids <= i)%nat
      | _, _ => False
      end
  | Rust_err _, inl e => e = errEmptyLeafSet ∧ ids = []
  | _, _ => False
  end.
Proof.
  intros Hb. rewrite rust_build_go. destruct (decide (ids = [])) as [->|Hne]; [done|].
  destruct (build_tree blake3 ids Hne) as (d & r & Ht & _). rewrite Ht. split; [done|].
  destruct (Nat.lt_ge_cases i (length ids)) as [Hi|Hi].
  - destruct (lookup_lt_is_Some_2 ids i Hi) as [id Hid].
    destruct (go_complete blake3 Hb ids i id Hid) as (t & r' & p & Ht' & _ & Hp & _).
    rewrite Ht in Ht'. injection Ht' as <-. rewrite Hp. unfold Prove in Hp. unfold rust_prove. cbn [leafCount levels] in *.
    rewrite (proj2 (Z.ltb_ge _ 0)) in Hp by lia. rewrite (proj2 (Z.leb_gt _ _)) in Hp |- * by (unfold len; lia).
    cbn [orb] in Hp. destruct (prove_levels _ _); [done|]. by injection Hp as <-.
  - unfold rust_prove, Prove. cbn [leafCount levels]. rewrite (proj2 (Z.ltb_ge _ 0)) by lia. cbn [orb].
    rewrite (proj2 (Z.leb_le _ _)) by (unfold len; lia). done.
Qed.

Lemma rust_ledger_agree_witness :
  rust_build toy_hash toy_roots = match BuildMerkleTree toy_hash toy_roots with
                                  | inr t => Rust_ok t | inl _ => Rust_panic end.
Proof.
  pose proof (rust_ledger_agree toy_hash toy_roots 1 toy_hash_bytes) as H.
  destruct (rust_build toy_hash toy_roots) as [t|s|], (BuildMerkleTree toy_hash toy_roots) as [e|t'] eqn:E;
    try contradiction H.
  - destruct H as [H _]. rewrite H. reflexivity.
  - exfalso. revert E. vm_compute. discriminate.
Defined.
