(* ===== verification/Manifest.v ===== *)
(** * Investigation manifests: ledger/manifest.go

    What an investigation used and concluded, hashed through the canonical
    encoding of Cbor and signed.  A string-keyed map is the list of its entries
    in the order a [range] takes; a 32-byte array is a list of bytes. *)

From S2P Require Import Prelude JsNum Json Text Merkle Kernel Cbor Epoch.
Open Scope Z_scope.

Record InferenceMeta := mkInference {
  Provider : string;
  ModelID : string;
  WeightsDigest : string;
  Seed : option Z;
  DecodeParams : list (string * string);
  PromptTemplateHashes : list bytes;
  ToolVersions : list (string * string);
}.

Record BudgetConsumed := mkBudget { ToolCalls : Z; Turns : Z }.

Record Manifest := mkManifest {
  InvestigationID : string;
  TenantID : string;
  CaseID : string;
  EpochRoot : bytes;
  mf_EpochID : Z;
  IndexSnapshotHash : bytes;
  ClaimSetHash : bytes;
  ClaimIDs : list bytes;
  Inference : InferenceMeta;
  PolicyVersion : string;
  KernelVersion : string;
  AttackModelVersion : string;
  VerdictSeverity : string;
  VerdictConfidence : Z;
  VerdictDisposition : string;
  VerdictHash : bytes;
  mf_Budget : BudgetConsumed;
  StartedAtNS : Z;
  CompletedAtNS : Z;
  PrevManifestHash : bytes;
}.

(** [make(map[string]any)] filled from a [map[string]string]. *)
Definition any_map (m : list (string * string)) : any := A_map ((fun e => (e.1, A_string e.2)) <$> m).

Definition canonicalManifestMap (m : Manifest) : any :=
  let inf := Inference m in
  A_map [
    ("investigation_id", A_string (InvestigationID m));
    ("tenant_id", A_string (TenantID m));
    ("case_id", A_string (CaseID m));
    ("epoch_root", A_bytes (EpochRoot m));
    ("epoch_id", A_uint64 (mf_EpochID m));
    ("index_snapshot_hash", A_bytes (IndexSnapshotHash m));
    ("claim_set_hash", A_bytes (ClaimSetHash m));
    ("claim_ids", A_slice (A_bytes <$> ClaimIDs m));
    ("inference", A_map [
      ("provider", A_string (Provider inf));
      ("model_id", A_string (ModelID inf));
      ("weights_digest", A_string (WeightsDigest inf));
      ("seed", match Seed inf with Some s => A_int64 s | None => A_nil end);
      ("decode_params", any_map (DecodeParams inf));
      ("prompt_template_hashes", A_slice (A_bytes <$> PromptTemplateHashes inf));
      ("tool_versions", any_map (ToolVersions inf))]);
    ("policy_version", A_string (PolicyVersion m));
    ("kernel_version", A_string (KernelVersion m));
    ("attack_model_version", A_string (AttackModelVersion m));
    ("verdict_severity", A_string (VerdictSeverity m));
    ("verdict_confidence", A_int64 (VerdictConfidence m));
    ("verdict_disposition", A_string (VerdictDisposition m));
    ("verdict_hash", A_bytes (VerdictHash m));
    ("budget_consumed", A_map [
      ("tool_calls", A_int64 (ToolCalls (mf_Budget m)));
      ("turns", A_int64 (Turns (mf_Budget m)))]);
    ("started_at_ns", A_int64 (StartedAtNS m));
    ("completed_at_ns", A_int64 (CompletedAtNS m));
    ("prev_manifest_hash", A_bytes (PrevManifestHash m))].

Section seal.
Context (blake3 : bytes → bytes).
Context {key pub : Type} (Sign : key → bytes → bytes) (Verify : pub → bytes → bytes → bool) (Public : key → pub).

Record SealedManifest := mkSealed {
  sm_Manifest : Manifest;
  sm_ManifestHash : bytes;
  sm_Signature : bytes;
  sm_PublicKey : pub;
}.

Definition ManifestHash (m : Manifest) : result bytes :=
  canonical ← EncodeCanonical (canonicalManifestMap m); inr (blake3 canonical).

Definition SealManifest (m : Manifest) (signer : key) : result SealedManifest :=
  hash ← ManifestHash m; inr (mkSealed m hash (Sign signer hash) (Public signer)).

Definition VerifySealedManifest (sm : SealedManifest) : result bool :=
  recomputed ← ManifestHash (sm_Manifest sm);
  inr (if decide (recomputed = sm_ManifestHash sm) then Verify (sm_PublicKey sm) (sm_ManifestHash sm) (sm_Signature sm)
       else false).

End seal.

(** ** What a manifest is *)

(** Equal field by field, the two maps in any order. *)
Definition same_inference (a b : InferenceMeta) : Prop :=
  Provider a = Provider b ∧ ModelID a = ModelID b ∧ WeightsDigest a = WeightsDigest b ∧ Seed a = Seed b ∧
  DecodeParams a ≡ₚ DecodeParams b ∧ PromptTemplateHashes a = PromptTemplateHashes b ∧ ToolVersions a ≡ₚ ToolVersions b.

Definition same_manifest (a b : Manifest) : Prop :=
  (InvestigationID a = InvestigationID b ∧ TenantID a = TenantID b ∧ CaseID a = CaseID b ∧
   EpochRoot a = EpochRoot b ∧ mf_EpochID a = mf_EpochID b ∧ IndexSnapshotHash a = IndexSnapshotHash b ∧
   ClaimSetHash a = ClaimSetHash b ∧ ClaimIDs a = ClaimIDs b) ∧ same_inference (Inference a) (Inference b) ∧
  (PolicyVersion a = PolicyVersion b ∧ KernelVersion a = KernelVersion b ∧ AttackModelVersion a = AttackModelVersion b) ∧
  (VerdictSeverity a = VerdictSeverity b ∧ VerdictConfidence a = VerdictConfidence b ∧
   VerdictDisposition a = VerdictDisposition b ∧ VerdictHash a = VerdictHash b) ∧
  (ToolCalls (mf_Budget a) = ToolCalls (mf_Budget b) ∧ Turns (mf_Budget a) = Turns (mf_Budget b)) ∧
  (StartedAtNS a = StartedAtNS b ∧ CompletedAtNS a = CompletedAtNS b ∧ PrevManifestHash a = PrevManifestHash b).

(** ** Reading the sameness of events back into fields *)

Lemma same_string_inv s t : same_event (A_string s) (A_string t) → s = t.
Proof. by inversion 1. Qed.

Lemma same_bytes_inv a b : same_event (A_bytes a) (A_bytes b) → a = b.
Proof. by inversion 1. Qed.

Lemma same_number_inv v w n m : same_event v w → number v = Some n → number w = Some m → n = m.
Proof. inversion 1; intros Hn Hm; subst; simplify_eq/=; try done; congruence. Qed.

Lemma same_int_inv a b : same_event (A_int64 a) (A_int64 b) → a = b.
Proof. intros H. by eapply same_number_inv. Qed.

Lemma same_uint_inv a b : same_event (A_uint64 a) (A_uint64 b) → a = b.
Proof. intros H. by eapply same_number_inv. Qed.

Lemma same_hashes_inv l k : same_event (A_slice (A_bytes <$> l)) (A_slice (A_bytes <$> k)) → l = k.
Proof.
  inversion 1 as [| |? ? ? Hn| | |? ? Hf|]; subst; [done|]. clear H. revert k Hf.
  induction l as [|a l IH]; intros [|b k] Hf; inversion Hf as [|? ? ? ? Hab Hr]; subst; [done|].
  apply same_bytes_inv in Hab as ->. f_equal. by apply IH.
Qed.

(** Entries of one key in two maps that are the same event. *)
Lemma same_map_at m n k v w : same_event (A_map m) (A_map n) → NoDup n.*1 → (k, v) ∈ m → (k, w) ∈ n → same_event v w.
Proof.
  inversion 1 as [| |? ? ? Hn| | | |? ? m' n' Hm' Hn' Hf]; subst; [done|]. intros Hnd Hv Hw.
  rewrite <- Hm' in Hv. apply list_elem_of_lookup in Hv as (i & Hi).
  destruct (Forall2_lookup_l _ _ _ _ _ Hf Hi) as ([k' w'] & Hj & Hk & Hs). cbn in Hk, Hs. subst k'.
  apply list_elem_of_lookup_2 in Hj. rewrite Hn' in Hj.
  assert ((k, w') = (k, w)) as [= ->]; [|done]. by apply (NoDup_fmap_eq fst n).
Qed.

Lemma same_params_inv m n : same_event (any_map m) (any_map n) → m ≡ₚ n.
Proof.
  inversion 1 as [| |? ? ? Hn| | | |? ? m' n' Hm' Hn' Hf]; subst; [done|].
  assert (m' ≡ₚ n') as Hp; [|].
  - assert (Forall (fun e => ∃ s, e.2 = A_string s) m' ∧ Forall (fun e => ∃ s, e.2 = A_string s) n') as [Hs Hs'].
    { rewrite Hm', Hn', !Forall_fmap. split; apply Forall_true; intros e; by eexists. }
    assert (m' = n') as ->; [|done]. clear H Hm' Hn'.
    induction Hf as [|[a v] [b w] m' n' [Hk Hv] Hf IH]; [done|].
    apply Forall_cons in Hs as [[s Es] Hs]. apply Forall_cons in Hs' as [[t Et] Hs']. cbn in *. subst.
    apply same_string_inv in Hv as ->. f_equal. auto.
  - rewrite Hm', Hn' in Hp.
    apply (fmap_Permutation (fun e => (e.1, match e.2 with A_string s => s | _ => EmptyString end))) in Hp.
    rewrite <- !list_fmap_compose in Hp.
    assert (∀ l : list (string * string), ((λ e : string * any, (e.1, match e.2 with A_string s => s | _ => EmptyString end))
      ∘ (λ e : string * string, (e.1, A_string e.2))) <$> l = l) as Hid.
    { intros l. induction l as [|[a b] l IH]; [done|]. rewrite fmap_cons, IH. done. }
    by rewrite !Hid in Hp.
Qed.

Lemma same_entries m n : Forall2 (same_entry same_event) m n → same_event (A_map m) (A_map n).
Proof. intros H. by apply (same_map m n m n). Qed.

Lemma same_params m n : m ≡ₚ n → same_event (any_map m) (any_map n).
Proof.
  intros Hp. apply (same_map _ _ ((fun e => (e.1, A_string e.2)) <$> n) ((fun e => (e.1, A_string e.2)) <$> n)); [by rewrite Hp|done|].
  apply Forall_Forall2_diag, Forall_fmap, Forall_true. intros e. split; [done|]. cbn. constructor.
Qed.

Lemma same_hashes l : same_event (A_slice (A_bytes <$> l)) (A_slice (A_bytes <$> l)).
Proof. constructor. apply Forall_Forall2_diag, Forall_fmap, Forall_true. intros b. constructor. Qed.

(** Every field is a value a Go program can hold: integers in range, distinct
    keys, lengths below 2^63. *)
Definition manifest_ok (m : Manifest) : Prop := any_ok (canonicalManifestMap m).

Definition manifest_keys : list string :=
  ["investigation_id"; "tenant_id"; "case_id"; "epoch_root"; "epoch_id"; "index_snapshot_hash"; "claim_set_hash";
   "claim_ids"; "inference"; "policy_version"; "kernel_version"; "attack_model_version"; "verdict_severity";
   "verdict_confidence"; "verdict_disposition"; "verdict_hash"; "budget_consumed"; "started_at_ns"; "completed_at_ns";
   "prev_manifest_hash"].
Definition inference_keys : list string :=
  ["provider"; "model_id"; "weights_digest"; "seed"; "decode_params"; "prompt_template_hashes"; "tool_versions"].

Lemma manifest_keys_distinct : NoDup manifest_keys ∧ NoDup inference_keys ∧ NoDup ["tool_calls"; "turns"].
Proof.
  assert (bool_decide (NoDup manifest_keys ∧ NoDup inference_keys ∧ NoDup ["tool_calls"; "turns"]) = true) as H
    by (vm_compute; reflexivity).
  by apply bool_decide_eq_true in H.
Qed.

Ltac in_entries := repeat first [apply list_elem_of_here | apply list_elem_of_further].
(** The values under one key of two maps that are the same event. *)
Ltac at_key H k E := eapply (same_map_at _ _ k) in H as E; [| |in_entries|in_entries]; [|by apply manifest_keys_distinct].

(** Field by field: the goals left are the fields that are no plain value. *)
Ltac same_fields := apply same_entries;
  repeat (apply Forall2_cons_2; [split; [reflexivity|cbn [snd]]|]); [..|apply Forall2_nil_2];
  try first [apply same_hashes|apply same_params; assumption|apply same_string|apply same_bytes
            |by eapply same_number].

Lemma same_inference_inv a b :
  same_event
    (A_map [("provider", A_string (Provider a)); ("model_id", A_string (ModelID a));
       ("weights_digest", A_string (WeightsDigest a));
       ("seed", match Seed a with Some s => A_int64 s | None => A_nil end);
       ("decode_params", any_map (DecodeParams a));
       ("prompt_template_hashes", A_slice (A_bytes <$> PromptTemplateHashes a));
       ("tool_versions", any_map (ToolVersions a))])
    (A_map [("provider", A_string (Provider b)); ("model_id", A_string (ModelID b));
       ("weights_digest", A_string (WeightsDigest b));
       ("seed", match Seed b with Some s => A_int64 s | None => A_nil end);
       ("decode_params", any_map (DecodeParams b));
       ("prompt_template_hashes", A_slice (A_bytes <$> PromptTemplateHashes b));
       ("tool_versions", any_map (ToolVersions b))]) ↔ same_inference a b.
Proof.
  split.
  - intros H. at_key H "provider" E1. at_key H "model_id" E2. at_key H "weights_digest" E3. at_key H "seed" E4.
    at_key H "decode_params" E5. at_key H "prompt_template_hashes" E6. at_key H "tool_versions" E7.
    apply same_string_inv in E1, E2, E3. apply same_params_inv in E5, E7. apply same_hashes_inv in E6.
    assert (Seed a = Seed b) as E.
    { destruct (Seed a), (Seed b); [by apply same_int_inv in E4 as ->|inversion E4; simplify_eq/=..|done]. }
    unfold same_inference. tauto.
  - intros (-> & -> & -> & -> & H5 & -> & H7). same_fields.
    destruct (Seed b); [by eapply same_number|constructor].
Qed.

Lemma manifest_event_same a b : same_event (canonicalManifestMap a) (canonicalManifestMap b) ↔ same_manifest a b.
Proof.
  split.
  - intros H. at_key H "investigation_id" E1. at_key H "tenant_id" E2. at_key H "case_id" E3. at_key H "epoch_root" E4.
    at_key H "epoch_id" E5. at_key H "index_snapshot_hash" E6. at_key H "claim_set_hash" E7. at_key H "claim_ids" E8.
    at_key H "inference" E9. at_key H "policy_version" E10. at_key H "kernel_version" E11.
    at_key H "attack_model_version" E12. at_key H "verdict_severity" E13. at_key H "verdict_confidence" E14.
    at_key H "verdict_disposition" E15. at_key H "verdict_hash" E16. at_key H "budget_consumed" E17.
    at_key H "started_at_ns" E18. at_key H "completed_at_ns" E19. at_key H "prev_manifest_hash" E20.
    at_key E17 "tool_calls" E21. at_key E17 "turns" E22.
    apply same_string_inv in E1, E2, E3, E10, E11, E12, E13, E15.
    apply same_bytes_inv in E4, E6, E7, E16, E20. apply same_uint_inv in E5. apply same_hashes_inv in E8.
    apply same_int_inv in E14, E18, E19, E21, E22. apply same_inference_inv in E9. unfold same_manifest. tauto.
  - intros ((E1 & E2 & E3 & E4 & E5 & E6 & E7 & E8) & E9 & (E10 & E11 & E12) & (E13 & E14 & E15 & E16) & (E17 & E18) & E19 & E20 & E21).
    unfold canonicalManifestMap. rewrite E1, E2, E3, E4, E5, E6, E7, E8, E10, E11, E12, E13, E14, E15, E16, E17, E18, E19, E20, E21.
    same_fields; [by apply same_inference_inv|same_fields].
Qed.

Section seal_facts.
Context (blake3 : bytes → bytes).

Lemma manifest_hash_eq m : manifest_ok m → ManifestHash blake3 m = inr (blake3 (canonical (canonicalManifestMap m))).
Proof. intros Hok. unfold ManifestHash, EncodeCanonical. by rewrite (ok_encodes _ Hok). Qed.

Lemma manifest_canonical a b : manifest_ok a → manifest_ok b →
  canonical (canonicalManifestMap a) = canonical (canonicalManifestMap b) ↔ same_manifest a b.
Proof.
  intros Ha Hb. rewrite <- manifest_event_same. split; [|by apply canonical_same].
  intros Heq. by apply (canonical_prefix _ _ [] []); rewrite ?Heq.
Qed.

End seal_facts.

(** C21: a sealed manifest verifies; and whatever manifest is put in the place of
    the sealed one, under the same hash, signature and key, the check says so
    unless it is the same in every field (the two maps up to their order), as
    long as the hash separates the two encodings.  Nothing a manifest records is
    left out of its hash. *)
Theorem sealed_manifest_binds (blake3 : bytes → bytes) {key pub} (Sign : key → bytes → bytes)
    (Verify : pub → bytes → bytes → bool) (Public : key → pub) m m' k :
  (∀ k m, Verify (Public k) m (Sign k m) = true) → manifest_ok m → manifest_ok m' →
  (∀ x y, EncodeCanonical (canonicalManifestMap m) = inr x → EncodeCanonical (canonicalManifestMap m') = inr y →
     blake3 x = blake3 y → x = y) →
  ∃ sm, SealManifest blake3 Sign Public m k = inr sm ∧ VerifySealedManifest blake3 Verify sm = inr true ∧
    (VerifySealedManifest blake3 Verify
       (mkSealed m' (sm_ManifestHash sm) (sm_Signature sm) (sm_PublicKey sm)) = inr true ↔ same_manifest m m') ∧
    (VerifySealedManifest blake3 Verify
       (mkSealed m' (sm_ManifestHash sm) (sm_Signature sm) (sm_PublicKey sm)) = inr false ↔ ¬ same_manifest m m').
Proof.
  intros HV Hm Hm' Hnc. unfold SealManifest, VerifySealedManifest. rewrite manifest_hash_eq by done.
  cbn [mbind result_bind]. eexists. split; [reflexivity|]. cbn [sm_Manifest sm_ManifestHash sm_Signature sm_PublicKey].
  rewrite !manifest_hash_eq by done. cbn [mbind result_bind]. rewrite decide_True, HV by done. split; [done|].
  assert (blake3 (canonical (canonicalManifestMap m')) = blake3 (canonical (canonicalManifestMap m)) ↔ same_manifest m m') as H.
  { rewrite <- manifest_canonical by done. split; [|by intros ->]. intros Heq. apply Hnc; [apply (ok_encodes _ Hm [])|apply (ok_encodes _ Hm' [])|done]. }
  case_decide as Heq; rewrite <- H; (split; split); intros; try done; congruence.
Qed.

Definition sample_manifest : Manifest :=
  mkManifest "INV-1" "acme" "case-7" (toy_hash [1]) 3 zero_hash (toy_hash [2]) [toy_hash [3]]
    (mkInference "local" "m" "sha" None [("temperature", "0.2"); ("top_p", "1")] [toy_hash [4]] [("grep", "3")])
    "policy.v1" "k1" "v14" "high" 7500 "malicious" (toy_hash [5]) (mkBudget 12 4) 1000 2000 zero_hash.

(** The same record with one field more confident. *)
Definition doctored_manifest : Manifest :=
  mkManifest "INV-1" "acme" "case-7" (toy_hash [1]) 3 zero_hash (toy_hash [2]) [toy_hash [3]]
    (mkInference "local" "m" "sha" None [("temperature", "0.2"); ("top_p", "1")] [toy_hash [4]] [("grep", "3")])
    "policy.v1" "k1" "v14" "high" 7501 "malicious" (toy_hash [5]) (mkBudget 12 4) 1000 2000 zero_hash.

Lemma sealed_manifest_binds_witness : ∃ sm, SealManifest toy_hash toy_sign id sample_manifest 7 = inr sm ∧
  VerifySealedManifest toy_hash toy_verify sm = inr true ∧
  VerifySealedManifest toy_hash toy_verify
    (mkSealed doctored_manifest (sm_ManifestHash sm) (sm_Signature sm) (sm_PublicKey sm)) = inr false.
Proof.
  destruct (sealed_manifest_binds toy_hash toy_sign toy_verify id sample_manifest doctored_manifest 7)
    as (sm & H1 & H2 & _ & H3).
  - intros k m. unfold toy_verify, toy_sign. by apply bool_decide_eq_true.
  - apply any_okb_ok. vm_compute. reflexivity.
  - apply any_okb_ok. vm_compute. reflexivity.
  - intros x y Hx Hy Heq. exfalso. revert Heq.
    replace x with (canonical (canonicalManifestMap sample_manifest)) by (unfold canonical; by rewrite Hx).
    replace y with (canonical (canonicalManifestMap doctored_manifest)) by (unfold canonical; by rewrite Hy).
    apply (bool_decide_eq_false _). vm_compute. reflexivity.
  - exists sm. split; [exact H1|]. split; [exact H2|]. apply H3. intros (_ & _ & _ & (_ & Hc & _) & _). discriminate Hc.
Defined.
