(* ===== verification/KernelTools.v ===== *)
(** * Around the kernel: kernel/src/{blast_radius,fixtures}.rs, kernel/src/bin, kernel/wasm_cross_check.mjs

    The blast radius of a proposed action; the command line that adjudicates a
    request from standard input; the fixed scenarios with the program that prints
    their hashes and the script that compares them with the WASM build's.  Exit
    codes and printed text are results; reading files and the WASM loader are
    parameters. *)

From S2P Require Import Prelude JsNum Json Text Types Merkle Graph Kernel Wire Bridge Cbor.
From Stdlib Require Import Ascii.
Open Scope Z_scope.

(** ** Blast radius (blast_radius.rs) *)

Record BlastRadiusInput := mkBlastInput {
  bi_action : string;
  bi_target_principals : list string;
  bi_target_hosts : list string;
  bi_dependent_services : list string;
  bi_critical_assets : gset string;
}.

Inductive RiskTier := Low | Medium | High | Critical.

Record BlastRadius := mkBlast {
  br_principal_count : Z;
  br_host_count : Z;
  br_dependent_service_count : Z;
  br_touches_critical_asset : bool;
  br_risk_tier : RiskTier;
}.

(** [saturating_add] on [i64]; a length is converted by [as i64]. *)
Definition saturating_add (a b : Z) : Z := sat (a + b).

Definition evaluate_blast_radius (input : BlastRadiusInput) : BlastRadius :=
  let principal_count := int64 (len (bi_target_principals input)) in
  let host_count := int64 (len (bi_target_hosts input)) in
  let dependent_service_count := int64 (len (bi_dependent_services input)) in
  let touches_critical_asset :=
    existsb (fun t => bool_decide (t ∈ bi_critical_assets input))
      (bi_target_principals input ++ bi_target_hosts input) in
  let scope := saturating_add (saturating_add principal_count host_count) dependent_service_count in
  let risk_tier :=
    if touches_critical_asset then Critical
    else if 50 <? scope then High
    else if 5 <? scope then Medium
    else Low in
  mkBlast principal_count host_count dependent_service_count touches_critical_asset risk_tier.

(** The derived order of the tiers. *)
Definition tier_rank (t : RiskTier) : Z := match t with Low => 0 | Medium => 1 | High => 2 | Critical => 3 end.

(** ** The command line (bin/adjudicate_cli.rs) *)

Definition newline : string := String (ascii_of_nat 10) EmptyString.

Section cli.
Context (blake3 : bytes → bytes) (say : bridge_error → string) (say_read : string).

(** [fail]: an error object on standard output, and exit code 2. *)
Definition fail (msg : string) : string * Z := (stringify (ErrorOutput_json msg) +:+ newline, 2).

(** [main]; [None] is a standard input that cannot be read as text. *)
Definition adjudicate_cli (stdin : option string) : string * Z :=
  match stdin with
  | None => fail say_read
  | Some input =>
      match parse_json input ≫= RequestInput_read with
      | None => fail (say (BE E_parse))
      | Some request =>
          match build_policy (ri_policy request) with
          | inl e => fail (say (BE e))
          | inr policy =>
              match build_claims 0 (ri_claims request) with
              | inl e => fail (say e)
              | inr claims =>
                  (stringify (VerdictOutput_json (kernel_output blake3 policy claims (ri_kernel_version request))) +:+ newline, 0)
              end
          end
      end
  end.

End cli.

(** ** The fixed scenarios (fixtures.rs) *)

Definition fixture_claim (predicate subject : string) (object : option string) (start_ns end_ns : Z)
    (evidence extractor_id : string) (observed : option Z) : RawClaim :=
  mkRawClaim predicate subject object start_ns end_ns [evidence] "rule" extractor_id "1" observed supports None.

Definition brute_force_then_cnc_scenario : list RawClaim := [
  fixture_claim "AUTH_FAILED_BURST" "user:jdoe" None 1000000000 1060000000
    "blake3:auth-fail-1" "cdl.credential.auth-burst-then-success" (Some 43);
  fixture_claim "AUTH_SUCCEEDED_AFTER_FAILURES" "user:jdoe" None 1060000000 1061000000
    "blake3:auth-succ-1" "cdl.credential.auth-burst-then-success" (Some 118);
  fixture_claim "INTERPRETER_SPAWNED_BY" "host:WIN-CLIENT-04" (Some "powershell.exe") 1070000000 1070000000
    "blake3:proc-1" "cdl.execution.interpreter-spawned" None;
  fixture_claim "ENCODED_COMMAND" "host:WIN-CLIENT-04" (Some "powershell.exe") 1070000000 1070000000
    "blake3:proc-2" "cdl.execution.encoded-command" None;
  fixture_claim "INTERPRETER_NETWORK_EGRESS" "host:WIN-CLIENT-04" (Some "45.61.0.12") 1080000000 1080000000
    "blake3:net-1" "cdl.c2.interpreter-network-egress" None;
  fixture_claim "CONNECTED_TO_INDICATOR" "host:WIN-CLIENT-04" (Some "45.61.0.12") 1080000000 1080000000
    "blake3:net-1" "cdl.c2.connected-to-indicator" None].

Definition brute_force_then_cnc_policy (indicator_weight : Z) : kernel_error + PolicyBundle :=
  PolicyBundle_new "policy.v1-test"
    (list_to_map [
      ("AUTH_FAILED_BURST", mkPW credential_access 2000 ["T1110.001"]);
      ("AUTH_SUCCEEDED_AFTER_FAILURES", mkPW credential_access 1000 ["T1078"]);
      ("INTERPRETER_SPAWNED_BY", mkPW execution 1500 ["T1059.001"]);
      ("ENCODED_COMMAND", mkPW execution 1500 ["T1059.001"]);
      ("INTERPRETER_NETWORK_EGRESS", mkPW command_and_control 2000 ["T1071.001"]);
      ("CONNECTED_TO_INDICATOR", mkPW command_and_control indicator_weight ["T1071.001"])])
    ∅
    [(0, info); (2000, low); (5000, medium); (8000, high); (12000, critical)].

Definition adjacent_tactics_policy (bonus : Z) : kernel_error + PolicyBundle :=
  PolicyBundle_new "policy.adjacent-test"
    (list_to_map [
      ("INTERPRETER_SPAWNED_BY", mkPW execution 1000 []);
      ("PERSISTENCE_INSTALLED", mkPW persistence 1000 [])])
    {[ (execution, persistence) := bonus ]}
    [(0, info); (1000, low); (3000, critical)].

Definition adjacent_tactics_scenario : list RawClaim := [
  fixture_claim "INTERPRETER_SPAWNED_BY" "host:h1" None 0 0 "blake3:e1" "x" None;
  fixture_claim "PERSISTENCE_INSTALLED" "host:h1" None 0 0 "blake3:e2" "x" None].

(** The claims and the policy of an index, the policy before its [unwrap]. *)
Definition fixed_scenario (index : Z) : option (list RawClaim * (kernel_error + PolicyBundle)) :=
  if index =? 0 then Some (brute_force_then_cnc_scenario, brute_force_then_cnc_policy 0)
  else if index =? 1 then Some (brute_force_then_cnc_scenario, brute_force_then_cnc_policy 5000)
  else if index =? 2 then Some ([], brute_force_then_cnc_policy 0)
  else if index =? 3 then Some (adjacent_tactics_scenario, adjacent_tactics_policy 500)
  else if index =? 4 then Some (adjacent_tactics_scenario, adjacent_tactics_policy 0)
  else None.

Definition FIXED_SCENARIO_COUNT : Z := 5.

(** [u64::from_be_bytes]. *)
Definition from_be_bytes (b : bytes) : Z := foldl (fun acc x => acc * 256 + x) 0 b.

Section fixtures.
Context (blake3 : bytes → bytes).

(** The first eight bytes of the verdict's hash.  A refused policy, which would be
    a panic, is [None] too; no fixture is refused ([fixed_scenarios_resolve]). *)
Definition fixed_scenario_hash_u64 (index : Z) : option Z :=
  match fixed_scenario index with
  | Some (claims, inr policy) =>
      Some (from_be_bytes (take 8 (verdict_hash blake3 (adjudicate blake3 claims policy "0.0.0-test"))))
  | _ => None
  end.

Definition wasm_fixed_scenario_hash_u64 (index : Z) : Z := default 0 (fixed_scenario_hash_u64 index).

(** ** Printing them (bin/print_fixed_hashes.rs) *)

(** [{i} {hash:016x}] *)
Definition hash_hex (hash : Z) : string := pad_start 16 "0" (to_radix 16 hash).
Definition hash_line (i : Z) (hash : Z) : string := to_dec i +:+ String " " (hash_hex hash).

Definition print_hashes (from : Z) (hashes : list Z) : string :=
  foldr (fun l rest => l +:+ newline +:+ rest) EmptyString (imap (fun i h => hash_line (from + Z.of_nat i) h) hashes).

(** [main]; [None] is its panic on an index without a scenario. *)
Definition print_fixed_hashes : option string :=
  hashes ← mapM fixed_scenario_hash_u64 (seqZ 0 FIXED_SCENARIO_COUNT); Some (print_hashes 0 hashes).

End fixtures.

(** ** Comparing them with the WASM build's (wasm_cross_check.mjs) *)

(** [BigInt.asUintN(64, n)]; the engine hands a 64-bit result over as a signed one. *)
Definition asUintN64 (n : Z) : Z := n mod 2 ^ 64.
Definition bigint_of_i64 (u : Z) : Z := int64 u.

(** [split] by runs of white space: what is before the first run, and the rest. *)
Fixpoint words_from (skip : nat) (in_run : bool) (s : string) : string * list string :=
  match s with
  | EmptyString => (EmptyString, [])
  | String c s' =>
      match skip with
      | S k => words_from k in_run s'
      | O =>
          match first_space spaces s with
          | Some n =>
              let r := words_from (n - 1) true s' in if in_run then r else (EmptyString, r.1 :: r.2)
          | None => let r := words_from 0 false s' in (String c r.1, r.2)
          end
      end
  end.
Definition words (s : string) : list string := let r := words_from 0 false s in r.1 :: r.2.

Definition newline_char : ascii := ascii_of_nat 10.

Definition nativeLines (text : string) : list string :=
  let r := split_on newline_char (trim text) in
  filter (fun l => l ≠ EmptyString) (r.1 :: r.2).

(** [Number(indexStr)] converted to the parameter of the export, an [i32]: texts
    that are no digits are taken for [NaN], which converts to 0. *)
Definition wasm_index (indexStr : string) : Z :=
  uint32 (match indexStr with EmptyString => 0 | s => default 0 (digits_value 0 s) end).

Inductive check_line := L_ok (index : Z) (hex : string) | L_mismatch (index : Z) (native : option string) (wasm : string).

Section cross_check.
Context (exportFn : Z → Z).

Definition check_native_line (line : string) : check_line :=
  let fields := words (trim line) in
  let index := wasm_index (default EmptyString (fields !! 0%nat)) in
  let nativeHex := fields !! 1%nat in
  let wasmHex := pad_start 16 "0" (to_radix 16 (asUintN64 (exportFn index))) in
  if decide (nativeHex = Some wasmHex) then L_ok index wasmHex else L_mismatch index nativeHex wasmHex.

Definition is_mismatch (l : check_line) : bool := match l with L_mismatch _ _ _ => true | L_ok _ _ => false end.

(** The exit code and the lines logged before it. *)
Definition cross_check (text : string) : Z * list check_line :=
  let log := check_native_line <$> nativeLines text in
  let mismatches := length (filter (fun l => is_mismatch l = true) log) in
  (if (0 <? mismatches)%nat then 1 else if (length log =? 0)%nat then 2 else 0, log).

End cross_check.

(** The whole script: the two arguments, and the export if the module has one. *)
Definition wasm_cross_check (args : bool) (exported : option (Z → Z)) (text : string) : Z :=
  if negb args then 2 else match exported with None => 2 | Some exportFn => (cross_check exportFn text).1 end.

(** ** The blast radius *)

(** Lists a machine can hold. *)
Definition blast_sized (i : BlastRadiusInput) : Prop :=
  sized (bi_target_principals i) ∧ sized (bi_target_hosts i) ∧ sized (bi_dependent_services i).

Definition blast_total (i : BlastRadiusInput) : Z :=
  len (bi_target_principals i) + len (bi_target_hosts i) + len (bi_dependent_services i).

Definition touches (i : BlastRadiusInput) : Prop :=
  ∃ t, t ∈ bi_target_principals i ++ bi_target_hosts i ∧ t ∈ bi_critical_assets i.

Lemma touches_spec i : br_touches_critical_asset (evaluate_blast_radius i) = true ↔ touches i.
Proof.
  cbn [evaluate_blast_radius br_touches_critical_asset]. rewrite existsb_exists. unfold touches.
  split; intros (t & Ht & Hc); exists t; rewrite list_elem_of_In, bool_decide_eq_true in *; done.
Qed.

(** Neither the conversions nor the saturation ever changes a tier. *)
Lemma tier_exact i : blast_sized i →
  br_risk_tier (evaluate_blast_radius i) =
    (if br_touches_critical_asset (evaluate_blast_radius i) then Critical
     else if 50 <? blast_total i then High else if 5 <? blast_total i then Medium else Low).
Proof.
  intros (H1 & H2 & H3). unfold sized, blast_total, len in *.
  cbn [evaluate_blast_radius br_touches_critical_asset br_risk_tier]. unfold len.
  rewrite !int64_id by (unfold is_i64; lia). unfold saturating_add, sat.
  destruct (existsb _ _); [done|].
  set (n := Z.of_nat (length (bi_target_principals i))) in *. set (m := Z.of_nat (length (bi_target_hosts i))) in *.
  set (k := Z.of_nat (length (bi_dependent_services i))) in *.
  assert (0 <= n ∧ 0 <= m ∧ 0 <= k) as (? & ? & ?) by lia.
  destruct (Z.ltb_spec 50 (n + m + k)), (Z.ltb_spec 5 (n + m + k)); case Z.ltb_spec; try case Z.ltb_spec; lia || done.
Qed.

(** The counts are the lengths, the tier is Critical exactly when a target is
    a critical asset, and otherwise grows with the exact number of targets and
    services, whatever the saturating sum does; so an action on more targets,
    with more assets critical, never has a lower tier, and the order of the
    lists does not matter. *)
Theorem blast_radius_monotone i j :
  blast_sized j →
  bi_target_principals i ⊆+ bi_target_principals j → bi_target_hosts i ⊆+ bi_target_hosts j →
  bi_dependent_services i ⊆+ bi_dependent_services j → bi_critical_assets i ⊆ bi_critical_assets j →
  let r := evaluate_blast_radius i in
  br_principal_count r = len (bi_target_principals i) ∧ br_host_count r = len (bi_target_hosts i) ∧
  br_dependent_service_count r = len (bi_dependent_services i) ∧
  (br_risk_tier r = Critical ↔ touches i) ∧
  tier_rank (br_risk_tier r) <= tier_rank (br_risk_tier (evaluate_blast_radius j)).
Proof.
  intros Hj Hp Hh Hs Hc. cbn zeta.
  pose proof (submseteq_length _ _ Hp). pose proof (submseteq_length _ _ Hh). pose proof (submseteq_length _ _ Hs).
  assert (blast_sized i) as Hi by (destruct Hj as (? & ? & ?); unfold blast_sized, sized, len in *; lia).
  assert (touches i → touches j) as Ht.
  { intros (t & Hin & Htc). exists t. split; [|by apply Hc].
    apply elem_of_app in Hin as [Hin|Hin]; apply elem_of_app; [left|right]; by eapply elem_of_submseteq. }
  rewrite !tier_exact by done. destruct Hi as (Hi1 & Hi2 & Hi3). unfold sized in *.
  repeat split; try (cbn; apply int64_id; unfold is_i64, len in *; lia).
  - destruct (br_touches_critical_asset (evaluate_blast_radius i)) eqn:Et; [intros _; by apply touches_spec|].
    repeat case_match; done.
  - intros Hti%touches_spec. by rewrite Hti.
  - destruct (br_touches_critical_asset (evaluate_blast_radius i)) eqn:Et.
    + apply touches_spec, Ht, touches_spec in Et. by rewrite Et.
    + destruct (br_touches_critical_asset (evaluate_blast_radius j)); [repeat case_match; cbn; lia|].
      assert (blast_total i <= blast_total j) by (unfold blast_total, len; lia).
      repeat case_match; cbn; lia.
Qed.

Definition one_account : BlastRadiusInput := mkBlastInput "disable_account" ["user:jdoe"] [] [] ∅.
Definition account_and_controller : BlastRadiusInput :=
  mkBlastInput "disable_account" ["user:asmith"; "user:jdoe"] ["dc01.corp.local"] ["mail"] {[ "dc01.corp.local" ]}.

Lemma blast_radius_monotone_witness :
  br_risk_tier (evaluate_blast_radius one_account) = Low ∧
  br_risk_tier (evaluate_blast_radius account_and_controller) = Critical ∧
  tier_rank (br_risk_tier (evaluate_blast_radius one_account)) <=
  tier_rank (br_risk_tier (evaluate_blast_radius account_and_controller)).
Proof.
  split; [vm_compute; reflexivity|]. split; [vm_compute; reflexivity|].
  apply (blast_radius_monotone one_account account_and_controller).
  - repeat split; vm_compute; reflexivity.
  - apply submseteq_cons. reflexivity.
  - apply submseteq_nil_l.
  - apply submseteq_nil_l.
  - apply empty_subseteq.
Defined.

(** ** The command line and the bridge *)

(** The command line prints, with a newline, the very text the WASM bridge
    would return for the same input, and its exit code is 0 exactly when that
    text is a verdict and 2 when it is an error object. *)
Theorem cli_is_bridge blake3 say say_read input :
  let r := adjudicate_cli blake3 say say_read (Some input) in
  r.1 = adjudicate_json blake3 say input +:+ newline ∧
  (r.2 = 0 ↔ ∃ request policy claims, parse_json input ≫= RequestInput_read = Some request ∧
     build_policy (ri_policy request) = inr policy ∧ build_claims 0 (ri_claims request) = inr claims) ∧
  (r.2 = 2 ↔ ∃ e, adjudicate_json blake3 say input = err_json say e ∧ r.1 = (fail (say e)).1 ∧ r.2 ≠ 0).
Proof.
  cbn zeta. unfold adjudicate_cli, adjudicate_json. destruct (parse_json input ≫= RequestInput_read) as [request|]; cbn.
  2:{ split; [done|]. split; [|split; [eauto|done]]. split; [done|by intros (? & ? & ? & ? & _)]. }
  destruct (build_policy (ri_policy request)) as [e|policy] eqn:Ep; cbn.
  { split; [done|]. split; [|split; [eauto|done]]. split; [done|]. intros (? & ? & ? & [= <-] & ? & _). congruence. }
  destruct (build_claims 0 (ri_claims request)) as [e|claims] eqn:Ec; cbn.
  { split; [done|]. split; [|split; [eauto|done]]. split; [done|]. intros (? & ? & ? & [= <-] & _ & ?). congruence. }
  split; [done|]. split; [split; [eauto 6|done]|]. split; [done|]. intros (e & _ & _ & H). done.
Qed.

(** ** Text that white space takes apart *)

Definition visible (c : ascii) : bool := (33 <=? code c) && (code c <? 127).
Fixpoint all_visible (s : string) : bool :=
  match s with EmptyString => true | String c s' => visible c && all_visible s' end.
Definition is_gap (c : ascii) : bool := (code c =? 32) || (code c =? 10).

(** Every gap is followed by something visible. *)
Fixpoint neat (s : string) : bool :=
  match s with
  | EmptyString => true
  | String c s' =>
      (visible c || is_gap c && match s' with String d _ => visible d | EmptyString => false end) && neat s'
  end.

Lemma first_space_visible c s : visible c = true → first_space spaces (String c s) = None.
Proof.
  unfold visible. intros Hv. assert (∀ ws, Forall (fun w => ∃ x w', w = x :: w' ∧ (x < 33 ∨ 127 <= x)) ws →
    first_space ws (String c s) = None) as H.
  { induction 1 as [|w ws (x & w' & -> & Hx) Hws IH]; [done|]. cbn [first_space]. rewrite decide_False; [done|].
    cbn [bytes_of length take]. intros [= Heq _]. lia. }
  apply H. assert (forallb (fun w => match w with x :: _ => (x <? 33) || (127 <=? x) | [] => false end) spaces = true) as Hb
    by (vm_compute; reflexivity).
  rewrite forallb_forall in Hb. apply Forall_forall. intros w Hw%list_elem_of_In. specialize (Hb w Hw).
  destruct w as [|x w']; [done|]. exists x, w'. split; [done|]. lia.
Qed.

Lemma gap_cases c : is_gap c = true → c = char_of 32 ∨ c = char_of 10.
Proof. unfold is_gap. intros H. rewrite <- (char_of_code c). apply orb_true_iff in H as [->%Z.eqb_eq | ->%Z.eqb_eq]; auto. Qed.

Lemma first_space_gap c s : is_gap c = true → first_space spaces (String c s) = Some 1%nat.
Proof. intros [-> | ->]%gap_cases; reflexivity. Qed.

Lemma substring_all s : String.substring 0 (String.length s) s = s.
Proof. induction s as [|c s IH]; [done|]. cbn. by rewrite IH. Qed.

Lemma trim_start_gap c s : is_gap c = true → trim_start (String c s) = trim_start s.
Proof.
  intros Hc. unfold trim_start at 1. cbn [String.length trim_start_from]. rewrite first_space_gap by done.
  cbn [String.substring]. replace (S (String.length s) - 1)%nat with (String.length s) by lia. by rewrite substring_all.
Qed.

Lemma trim_start_visible c s : visible c = true → trim_start (String c s) = String c s.
Proof. intros Hc. unfold trim_start. cbn [String.length trim_start_from]. by rewrite first_space_visible. Qed.

Lemma trim_start_neat c s t : neat (String c s) = true → trim_start (String c s +:+ t) ≠ EmptyString.
Proof.
  cbn [neat]. intros [[Hv|Hg]%orb_true_iff _]%andb_true_iff.
  - change (String c s +:+ t) with (String c (s +:+ t)). by rewrite trim_start_visible.
  - apply andb_true_iff in Hg as [Hg Hd]. destruct s as [|d s]; [done|].
    change (String c (String d s) +:+ t) with (String c (String d (s +:+ t))).
    by rewrite trim_start_gap, trim_start_visible.
Qed.

Lemma trim_end_neat s t : neat s = true → trim_end t = EmptyString → trim_end (s +:+ t) = s.
Proof.
  intros Hs Ht. induction s as [|c s IH]; [done|]. pose proof (trim_start_neat c s t Hs) as Hne.
  change (String c s +:+ t) with (String c (s +:+ t)) in *. cbn [trim_end]. rewrite decide_False by done.
  rewrite IH; [done|]. cbn [neat] in Hs. by apply andb_true_iff in Hs as [_ ?].
Qed.

Lemma trim_end_newline : trim_end newline = EmptyString.
Proof. reflexivity. Qed.

Lemma trim_neat c s t : visible c = true → neat (String c s) = true → trim_end t = EmptyString →
  trim (String c s +:+ t) = String c s.
Proof.
  intros Hc Hs Ht. unfold trim. change (String c s +:+ t) with (String c (s +:+ t)).
  rewrite trim_start_visible by done. by apply (trim_end_neat (String c s)).
Qed.

Lemma neat_visible s : all_visible s = true → neat s = true.
Proof. induction s as [|c s IH]; [done|]. cbn. intros [-> Hs]%andb_true_iff. cbn. auto. Qed.

Lemma neat_join s c d t : all_visible s = true → is_gap c = true → visible d = true → neat (String d t) = true →
  neat (s +:+ String c (String d t)) = true.
Proof.
  intros Hs Hc Hd Ht. induction s as [|x s IH].
  - change (EmptyString +:+ String c (String d t)) with (String c (String d t)).
    change (neat (String c (String d t))) with ((visible c || is_gap c && visible d) && neat (String d t)).
    rewrite Hc, Hd, Ht. by destruct (visible c).
  - cbn [all_visible] in Hs. apply andb_true_iff in Hs as [Hx Hs].
    change (String x s +:+ String c (String d t)) with (String x (s +:+ String c (String d t))).
    cbn [neat]. rewrite Hx, IH by done. done.
Qed.

Lemma neat_app s c d t : neat s = true → is_gap c = true → visible d = true → neat (String d t) = true →
  neat (s +:+ String c (String d t)) = true.
Proof.
  intros Hs Hc Hd Ht. induction s as [|x s IH].
  - by apply (neat_join EmptyString).
  - cbn [neat] in Hs. apply andb_true_iff in Hs as [Hx Hs].
    change (String x s +:+ String c (String d t)) with (String x (s +:+ String c (String d t))).
    cbn [neat]. rewrite IH by done. rewrite andb_true_r. destruct s as [|y s]; [|exact Hx].
    change (EmptyString +:+ String c (String d t)) with (String c (String d t)).
    destruct (visible x); [done|]. cbn in Hx. rewrite andb_false_r in Hx. done.
Qed.

Lemma words_visible b r : all_visible b = true → words_from 0 r b = (b, []).
Proof.
  revert r. induction b as [|c b IH]; intros r; [done|]. cbn [all_visible]. intros [Hc Hb]%andb_true_iff.
  cbn [words_from]. by rewrite first_space_visible, IH.
Qed.

Lemma words_two a b : all_visible a = true → all_visible b = true → words (a +:+ String " " b) = [a; b].
Proof.
  intros Ha Hb. unfold words. assert (words_from 0 false (a +:+ String " " b) = (a, [b])) as ->; [|done].
  induction a as [|c a IH].
  - change (EmptyString +:+ String " " b) with (String " " b). cbn [words_from].
    rewrite first_space_gap by done. cbn [Nat.sub]. by rewrite words_visible.
  - cbn [all_visible] in Ha. apply andb_true_iff in Ha as [Hc Ha].
    change (String c a +:+ String " " b) with (String c (a +:+ String " " b)). cbn [words_from].
    by rewrite first_space_visible, IH.
Qed.

(** ** The text of a number *)

Lemma digit_visible d : 0 <= d < 36 → visible (digit_char d) = true.
Proof.
  intros Hd. unfold visible, code. rewrite digit_char_code by done. destruct (Z.ltb_spec d 10); lia.
Qed.

Lemma radix_visible fuel b n acc : 2 <= b <= 36 → 0 <= n → all_visible acc = true →
  all_visible (radix_digits fuel b n acc) = true.
Proof.
  intros Hb. revert n acc. induction fuel as [|f IH]; intros n acc Hn Ha; [done|]. cbn [radix_digits].
  pose proof (Z.mod_pos_bound n b ltac:(lia)).
  assert (all_visible (String (digit_char (n mod b)) acc) = true) as H'.
  { cbn [all_visible]. by rewrite digit_visible, Ha by lia. }
  destruct (n <? b); [done|]. apply IH; [|done]. apply Z.div_pos; lia.
Qed.

Lemma to_radix_visible b n : 2 <= b <= 36 → 0 <= n → all_visible (to_radix b n) = true.
Proof. intros Hb Hn. unfold to_radix. rewrite (proj2 (Z.ltb_ge n 0)) by done. by apply radix_visible. Qed.

Lemma to_radix_cons b n : 2 <= b <= 36 → 0 <= n → ∃ c s, to_radix b n = String c s.
Proof.
  intros Hb Hn. unfold to_radix. rewrite (proj2 (Z.ltb_ge n 0)) by done.
  destruct (radix_digits_head (Z.to_nat (Z.log2 n)) b n EmptyString Hb) as (d & s & _ & Heq). eauto.
Qed.

Lemma hash_hex_visible h : 0 <= h → all_visible (hash_hex h) = true.
Proof.
  intros Hh. unfold hash_hex, pad_start. pose proof (to_radix_visible 16 h ltac:(lia) Hh) as Hv.
  induction (16 - String.length (to_radix 16 h))%nat as [|k IH]; [done|]. exact IH.
Qed.

Lemma hash_hex_cons h : 0 <= h → ∃ c s, hash_hex h = String c s.
Proof.
  intros Hh. unfold hash_hex, pad_start. destruct (to_radix_cons 16 h ltac:(lia) Hh) as (c & s & E).
  destruct (16 - String.length (to_radix 16 h))%nat as [|k]; [by exists c, s|]. cbn. eauto.
Qed.

Lemma hash_hex_value h : 0 <= h → of_radix_from 16 0 (hash_hex h) = h.
Proof.
  intros Hh. unfold hash_hex, pad_start.
  induction (16 - String.length (to_radix 16 h))%nat as [|k IH]; [|exact IH].
  cbn [Nat.iter nat_rect]. unfold to_radix. rewrite (proj2 (Z.ltb_ge h 0)) by done.
  rewrite of_radix_digits; [done|lia|]. split; [done|]. by apply radix_fuel_enough.
Qed.

(** Two 64-bit words have the same sixteen digits only if they are the same. *)
Lemma hash_hex_inj g h : 0 <= g → 0 <= h → hash_hex g = hash_hex h → g = h.
Proof. intros Hg Hh Heq. by rewrite <- (hash_hex_value g), <- (hash_hex_value h), Heq. Qed.

Lemma digits_value_of_radix acc s : all_digits s = true → digits_value acc s = Some (of_radix_from 10 acc s).
Proof.
  revert acc. induction s as [|c s IH]; intros acc; [done|]. cbn [all_digits digits_value of_radix_from].
  intros [Hc Hs]%andb_true_iff. rewrite Hc, IH by done. do 2 f_equal. unfold digit_val. fold (code c).
  unfold is_digit in Hc. rewrite (proj2 (Z.ltb_lt (code c) 58)) by lia. done.
Qed.

Lemma wasm_index_dec i : 0 <= i < 2 ^ 32 → wasm_index (to_dec i) = i.
Proof.
  intros Hi. unfold wasm_index, to_dec. destruct (to_radix_cons 10 i ltac:(lia) ltac:(lia)) as (c & s & E).
  rewrite E, <- E. unfold to_radix. rewrite (proj2 (Z.ltb_ge i 0)) by lia.
  rewrite digits_value_of_radix by (by apply radix_all_digits). rewrite of_radix_digits; [|lia|].
  - cbn. unfold uint32. by apply Z.mod_small.
  - split; [lia|]. apply radix_fuel_enough. lia.
Qed.

(** ** Printing and reading the hashes *)

Lemma hash_line_parts i h : 0 <= i → 0 <= h → ∃ c s,
  hash_line i h = String c s ∧ visible c = true ∧ neat (hash_line i h) = true ∧
  words (hash_line i h) = [to_dec i; hash_hex h] ∧ string_has newline_char (hash_line i h) = false.
Proof.
  intros Hi Hh. pose proof (to_radix_visible 10 i ltac:(lia) Hi) as Hv. pose proof (hash_hex_visible h Hh) as Hw.
  destruct (hash_hex_cons h Hh) as (d & t & Eh). destruct (to_radix_cons 10 i ltac:(lia) Hi) as (c & s & E).
  unfold hash_line, to_dec. exists c, (s +:+ String " " (hash_hex h)). split; [by rewrite E|]. split.
  { rewrite E in Hv. cbn [all_visible] in Hv. by apply andb_true_iff in Hv as [? _]. }
  assert (∀ s, all_visible s = true → string_has newline_char s = false) as Hn.
  { intros x. induction x as [|y x IH]; [done|]. cbn [all_visible string_has]. intros [Hy Hx]%andb_true_iff.
    rewrite decide_False; [by apply IH|]. intros ->. by vm_compute in Hy. }
  split; [|split].
  - rewrite Eh in *. cbn [all_visible] in Hw. apply andb_true_iff in Hw as [Hd Ht].
    apply neat_join; [done|done|done|]. apply neat_visible. cbn [all_visible]. by rewrite Hd, Ht.
  - by apply words_two.
  - rewrite string_has_app, Hn by done. cbn [orb string_has]. rewrite decide_False by done. by apply Hn.
Qed.

(** Lines laid end to end with a newline between them. *)
Fixpoint join_lines (l : list string) : string :=
  match l with
  | [] => EmptyString
  | [x] => x
  | x :: l' => x +:+ String newline_char (join_lines l')
  end.

Lemma lines_joined l : l ≠ [] →
  foldr (fun x rest => x +:+ newline +:+ rest) EmptyString l = join_lines l +:+ newline.
Proof.
  intros Hl. induction l as [|x l IH]; [done|]. cbn [foldr]. destruct l as [|y l]; [done|]. rewrite IH by done.
  change (join_lines (x :: y :: l)) with (x +:+ String newline_char (join_lines (y :: l))).
  change (newline +:+ (join_lines (y :: l) +:+ newline)) with (String newline_char (join_lines (y :: l)) +:+ newline).
  by rewrite append_assoc.
Qed.

Definition line_ok (x : string) : Prop :=
  ∃ c s, x = String c s ∧ visible c = true ∧ neat x = true ∧ string_has newline_char x = false.

Lemma join_lines_ok l : l ≠ [] → Forall line_ok l →
  (∃ c s, join_lines l = String c s ∧ visible c = true) ∧ neat (join_lines l) = true ∧
  (split_on newline_char (join_lines l)).1 :: (split_on newline_char (join_lines l)).2 = l.
Proof.
  intros Hne Hl. induction Hl as [|x l (c & s & -> & Hc & Hn & Hnl) Hl IH]; [done|]. destruct l as [|y l].
  { cbn [join_lines]. rewrite split_on_none by done. eauto 6. }
  change (join_lines (String c s :: y :: l)) with (String c s +:+ String newline_char (join_lines (y :: l))).
  destruct IH as ((d & t & Ej & Hd) & Hnj & Hsp); [done|]. split; [|split].
  - exists c, (s +:+ String newline_char (join_lines (y :: l))). done.
  - rewrite Ej in *. by apply neat_app.
  - rewrite split_on_app by done. cbn [fst snd]. by rewrite Hsp.
Qed.

Lemma nativeLines_printed l : l ≠ [] → Forall line_ok l →
  nativeLines (foldr (fun x rest => x +:+ newline +:+ rest) EmptyString l) = l.
Proof.
  intros Hne Hl. destruct (join_lines_ok l Hne Hl) as ((c & s & Ej & Hc) & Hn & Hsp).
  rewrite lines_joined by done. unfold nativeLines. rewrite Ej in *. rewrite trim_neat by done. rewrite Hsp.
  clear -Hl. induction Hl as [|x l (c & s & -> & _) Hl IH]; [done|]. rewrite filter_cons_True by done. by rewrite IH.
Qed.

Definition is_u64 (h : Z) : Prop := 0 <= h < 2 ^ 64.

Section cross.
Context (exportFn : Z → Z).

(** What the script finds for one scenario. *)
Definition compared (i h : Z) : check_line :=
  if decide (asUintN64 (exportFn i) = h) then L_ok i (hash_hex h)
  else L_mismatch i (Some (hash_hex h)) (hash_hex (asUintN64 (exportFn i))).

Lemma check_hash_line i h : 0 <= i < 2 ^ 32 → 0 <= h → check_native_line exportFn (hash_line i h) = compared i h.
Proof.
  intros Hi Hh. destruct (hash_line_parts i h ltac:(lia) Hh) as (c & s & E & Hc & Hn & Hw & _).
  unfold check_native_line. assert (trim (hash_line i h) = hash_line i h) as ->.
  { rewrite E in *. rewrite <- (append_empty_r (String c s)) at 1. by apply trim_neat. }
  rewrite Hw. change (default EmptyString ([to_dec i; hash_hex h] !! 0%nat)) with (to_dec i).
  change ([to_dec i; hash_hex h] !! 1%nat) with (Some (hash_hex h)). rewrite wasm_index_dec by done.
  fold (hash_hex (asUintN64 (exportFn i))). set (w := asUintN64 (exportFn i)).
  assert (0 <= w) by (apply Z.mod_pos_bound; lia). unfold compared. fold w.
  destruct (decide (w = h)) as [->|Hne]; [by rewrite decide_True|]. rewrite decide_False; [done|].
  intros [= Heq]. apply Hne. symmetry. by apply hash_hex_inj.
Qed.

Lemma mismatches_none l : length (filter (fun l => is_mismatch l = true) l) = 0%nat ↔ Forall (fun l => is_mismatch l = false) l.
Proof.
  induction l as [|x l IH]; [done|]. rewrite filter_cons, Forall_cons. case_decide as H; cbn; rewrite H || idtac.
  - split; [done|]. by intros [? _].
  - rewrite IH. apply not_true_is_false in H. tauto.
Qed.

End cross.

(** C26: on the text the native program prints for any list of hashes the script
    compares every one with the WASM export's 64 bits, read without a sign, and
    logs each; its exit code is 0 exactly when all of them agree, and 1
    otherwise.  No pair of different hashes has the same sixteen digits. *)
Theorem cross_check_exact exportFn hashes :
  hashes ≠ [] → Z.of_nat (length hashes) < 2 ^ 32 → Forall is_u64 hashes →
  let r := cross_check exportFn (print_hashes 0 hashes) in
  r.2 = imap (fun i h => compared exportFn (Z.of_nat i) h) hashes ∧
  (r.1 = 0 ↔ ∀ i h, hashes !! i = Some h → asUintN64 (exportFn (Z.of_nat i)) = h) ∧ (r.1 = 0 ∨ r.1 = 1).
Proof.
  intros Hne Hlen Hh. cbn zeta. rewrite Forall_lookup in Hh.
  assert (nativeLines (print_hashes 0 hashes) = imap (fun i h => hash_line (Z.of_nat i) h) hashes) as Hl.
  { unfold print_hashes. rewrite nativeLines_printed; [done| |].
    - by destruct hashes.
    - apply Forall_lookup. intros i x Hx. rewrite list_lookup_imap in Hx.
      destruct (hashes !! i) as [h|] eqn:E; [|done]. injection Hx as <-. specialize (Hh i h E). unfold is_u64 in Hh.
      destruct (hash_line_parts (0 + Z.of_nat i) h ltac:(lia) ltac:(lia)) as (c & s & ? & ? & ? & _ & ?). by exists c, s. }
  unfold cross_check. rewrite Hl. set (log := check_native_line exportFn <$> _).
  assert (log = imap (fun i h => compared exportFn (Z.of_nat i) h) hashes) as Hlog.
  { apply list_eq. intros i. unfold log. rewrite list_lookup_fmap, !list_lookup_imap.
    destruct (hashes !! i) as [h|] eqn:E; [|done]. cbn. pose proof (lookup_lt_Some _ _ _ E). specialize (Hh i h E).
    unfold is_u64 in Hh. by rewrite check_hash_line by lia. }
  cbn [fst snd]. split; [done|].
  assert (length log ≠ 0%nat) as Hnz by (rewrite Hlog, length_imap; by destruct hashes).
  assert (length (filter (fun l => is_mismatch l = true) log) = 0%nat ↔
          ∀ i h, hashes !! i = Some h → asUintN64 (exportFn (Z.of_nat i)) = h) as Hiff.
  { rewrite mismatches_none, Hlog, Forall_lookup. split; intros H i.
    - intros h E. specialize (H i (compared exportFn (Z.of_nat i) h)). rewrite list_lookup_imap, E in H. specialize (H eq_refl).
      unfold compared in H. by case_decide.
    - intros x Hx. rewrite list_lookup_imap in Hx. destruct (hashes !! i) as [h|] eqn:E; [|done]. injection Hx as <-.
      unfold compared. by rewrite decide_True by auto. }
  rewrite (proj2 (Nat.eqb_neq _ _)) by done. rewrite <- Hiff.
  destruct (Nat.ltb_spec 0 (length (filter (fun l => is_mismatch l = true) log))); split; auto; lia.
Qed.

(** ** The five scenarios *)

Definition toy_fixed_hashes : list Z := default [] (mapM (fixed_scenario_hash_u64 toy_hash) (seqZ 0 FIXED_SCENARIO_COUNT)).
Definition toy_native_text : string := default EmptyString (print_fixed_hashes toy_hash).
(** The WASM build of the same program, as the engine hands its results over. *)
Definition toy_export (i : Z) : Z := bigint_of_i64 (wasm_fixed_scenario_hash_u64 toy_hash i).

(** No fixture is refused, whatever the hash: the program prints five lines. *)
Lemma fixed_scenarios_resolve blake3 :
  (∀ i, i ∈ seqZ 0 FIXED_SCENARIO_COUNT → is_Some (fixed_scenario_hash_u64 blake3 i)) ∧
  fixed_scenario_hash_u64 blake3 FIXED_SCENARIO_COUNT = None.
Proof.
  split; [|reflexivity]. change (seqZ 0 FIXED_SCENARIO_COUNT) with [0; 1; 2; 3; 4].
  intros i Hi. rewrite !elem_of_cons in Hi. destruct Hi as [->|[->|[->|[->|[->|[]%not_elem_of_nil]]]]]; by eexists.
Qed.

Lemma toy_fixed_hashes_u64 : Forall is_u64 toy_fixed_hashes.
Proof.
  assert (forallb (fun h => (0 <=? h) && (h <? 2 ^ 64)) toy_fixed_hashes = true) as H by (vm_compute; reflexivity).
  rewrite forallb_forall in H. apply Forall_forall. intros h Hh%list_elem_of_In. specialize (H h Hh). unfold is_u64. lia.
Qed.

Lemma cross_check_exact_witness :
  (cross_check toy_export toy_native_text).1 = 0 ∧ (cross_check (fun _ => -1) toy_native_text).1 = 1.
Proof.
  assert (toy_native_text = print_hashes 0 toy_fixed_hashes) as -> by (vm_compute; reflexivity).
  destruct (cross_check_exact toy_export toy_fixed_hashes) as (_ & H & _);
    [vm_compute; discriminate|vm_compute; reflexivity|apply toy_fixed_hashes_u64|].
  destruct (cross_check_exact (fun _ => -1) toy_fixed_hashes) as (_ & H' & [H0|H1]);
    [vm_compute; discriminate|vm_compute; reflexivity|apply toy_fixed_hashes_u64| |split; [|exact H1]].
  - exfalso. pose proof (proj1 H' H0 0%nat (default 0 (head toy_fixed_hashes)) ltac:(vm_compute; reflexivity)) as Hbad.
    revert Hbad. vm_compute. discriminate.
  - apply H. intros i h Hi.
    assert (forallb (fun p => asUintN64 (toy_export (Z.of_nat p.1)) =? p.2) (imap pair toy_fixed_hashes) = true) as Hall
      by (vm_compute; reflexivity).
    rewrite forallb_forall in Hall. apply Z.eqb_eq, (Hall (i, h)), list_elem_of_In, list_elem_of_lookup.
    exists i. by rewrite list_lookup_imap, Hi.
Defined.

(** The flagship scenario before and after its indicator is priced, and the claim
    set that nothing prices. *)
Example fixture_verdicts :
  (fun i => match fixed_scenario i with
            | Some (claims, inr p) => let v := adjudicate toy_hash claims p "0.0.0-test" in
                                      (vr_severity v, vr_confidence v, vr_disposition v)
            | _ => (info, -1, incomplete)
            end) <$> seqZ 0 5 =
  [(high, 8000, malicious); (critical, 10000, malicious); (info, 0, incomplete); (low, 2500, benign); (low, 2000, benign)].
Proof. vm_compute. reflexivity. Qed.

(** A module without the export, a run without arguments, an empty file. *)
Example cross_check_refusals :
  wasm_cross_check true None toy_native_text = 2 ∧ wasm_cross_check false (Some toy_export) toy_native_text = 2 ∧
  wasm_cross_check true (Some toy_export) newline = 2.
Proof. vm_compute. repeat split. Qed.
